(* ===== verification/_CoqProject ===== *)
-Q . S2P
Prelude.v
Ring.v
ROB.v
Scoreboard.v
Bytes.v
StoreBuffer.v
Memory.v
HexLoader.v
BusCtrl.v
PhysMem.v
Regs.v
BaseISA.v
BaseISAProofs.v
MExt.v
AExt.v
CExt.v
CExtProofs.v
FloatArith.v
FExt.v
DExt.v
FloatProofs.v
CpuSimple.v
ISASpec.v
CpuP2.v
CpuP2Cycle.v
CpuAT.v
CoresRV32.v
CpuP6.v
CpuP6Exec.v
CpuP6Proofs.v
CpuP6Run.v
TLB.v
Cache.v
Belady.v
CacheSweep.v
Axi.v
CSR.v
CSRWidth.v
MMU.v
Plic.v
Clint.v
Uart.v
Shell.v
Dma.v
TotalMem.v
CpuC6.v
CpuC6Back.v
CpuC6Ex.v
CpuC6Exec.v
CpuC6Run.v
CpuC6Float.v
CpuC6Inv.v
CpuC6Safe.v
