(* ===== verification/Prelude.v ===== *)
(** * A verification of the RISC-V virtual prototype

    The repository is a RISC-V virtual platform in C++ and SystemC/TLM-2.0: cores of
    several timing models around shared instruction-set handlers, a bus, a memory and
    peripherals.  This library models its logic in Rocq and proves what makes it correct
    or, where it is not, what it does instead.

    ** Parts, and where they are modelled

    Foundations
    - [Prelude.v]: the C++ integers, a [uintW_t] being a [Z] kept in range by [wrap W];
      the bit operators; the automation.  [Ring.v]: the circular buffer that four classes
      share.  [Bytes.v]: little-endian words and byte arrays.

    Memory system
    - [Memory.v] (inc/Memory.h, src/Memory.cpp, src/MemoryInterface.cpp): the TLM payload,
      the interface [Target] of whatever answers a transaction, the memory with its
      debug transport and its direct-memory grant, and the accessors of the cores.
      [HexLoader.v]: the reader of Intel HEX files.
    - [BusCtrl.v] (src/BusCtrl.cpp): the address map and the routing of a transaction;
      the targets are arbitrary instances of [Target].
    - [PhysMem.v]: the interface between the memory system and its clients, "a byte array
      on this domain of addresses", discharged by the memory and by the bus.
    - [TLB.v], [CSR.v], [MMU.v], [Cache.v] (inc/TLB.h, CSR_File.h, MMU.h, Cache.h): the
      privileged side: TLBs, registers with traps and interrupts, the Sv39 walker, and the
      tag-only cache.  [CSRWidth.v]: the registers of the CSR file stay in their widths.
    - [TotalMem.v]: the interface of a memory system that answers every access, keeps an
      invariant of its own and grants no direct access, discharged by the bus with its
      peripherals; accesses and translations through it always return.

    Instruction set
    - [Regs.v] (inc/Registers.h, inc/extension_base.h): the register bank and the
      state-and-error monad [M] of the handlers.
    - [BaseISA.v], [MExt.v], [AExt.v], [CExt.v] (inc/BASE_ISA.h, M_extension.h,
      A_extension.h, C_extension.h): [decode] and [exec_instruction] of each extension, one
      definition per handler; [BaseISAProofs.v], [CExtProofs.v]: their correctness.
    - [FloatArith.v]: the IEEE 754 arithmetic of the host; [FExt.v], [DExt.v]
      (inc/F_extension.h, inc/D_extension.h): the floating-point registers, decoders and
      instructions; [FloatProofs.v]: their correctness.
    - [ISASpec.v]: the architecture as a step relation on what a program sees, the
      specification of the cores.

    Cores
    - [CpuSimple.v] (src/CPU_Simple.cpp, src/CPU.cpp): the functional cores.
    - [CpuP2.v] (src/CPU_P64_2.cpp, CPU_P32_2.cpp): the two-stage pipeline.
    - [CpuP2Cycle.v] (src/CPU_P64_2_Cycle.cpp, CPU_P32_2_Cycle.cpp): the same pipeline
      driven by clock edges.
    - [CpuAT.v] (src/CPU_P64_2_AT.cpp, CPU_P32_2_AT.cpp): the same pipeline fetching with
      the non-blocking protocol, its two threads and its protocol phases.
    - [CoresRV32.v]: the 32-bit classes of the two-stage cores, and the agreement of their
      timing models.
    - [ROB.v], [Scoreboard.v], [StoreBuffer.v] (inc/ROB.h, Scoreboard.h, StoreBuffer.h):
      the structures of the six-stage cores.
    - [CpuP6.v] (src/CPU_P32_6_Cycle.cpp): the six-stage RV32 core, one definition per
      stage over the record of its latches; [CpuP6Exec.v]: what its decoder and its
      execution unit compute for an assembled instruction; [CpuP6Proofs.v]: the invariant
      of the pipeline and its preservation stage by stage; [CpuP6Run.v]: the theorem from
      reset, a program that satisfies its conditions, and runs that violate them.

    - [CpuC6.v], [CpuC6Back.v], [CpuC6Ex.v] (src/CPU_P64_6_Cycle.cpp): the six-stage RV64
      core with its caches, MMU, CSRs, scoreboard, store buffer and functional units: the
      front end, the issue stage with what the stages compute, and the execution and
      commit stages with the interrupts.  [CpuC6Exec.v]: what its decoder, its switch and
      its units compute for an assembled instruction; [CpuC6Run.v]: runs from reset;
      [CpuC6Float.v]: the core with its floating-point unit; [CpuC6Inv.v]: the invariant of
      each of its structures and that the structure's operations keep it; [CpuC6Safe.v]: the
      invariant of the whole core, stage by stage, and what it gives.

    Peripherals
    - [Plic.v], [Clint.v], [Uart.v], [Dma.v] (inc/PLIC.h, inc/CLINT.h, src/Timer.cpp,
      inc/UART.h, inc/DMA.h, inc/SyscallIf.h, src/Trace.cpp).

    Shell and tools
    - [Shell.v] (src/VPMain.cpp, VPTop.cpp, Simulator.cpp and small classes): options, the
      loops over simulation quanta, the boot detector, the images of a boot, the dump.
    - [Axi.v] (inc/axi, src/axi, tools/axi_external_demo): the AXI managers behind the caches,
      their handshake with the core, and the demonstration that drives one.
    - [Belady.v], [CacheSweep.v] (tools/cache_sweep): the cache with its geometry as
      arguments, the optimal policy and the comparison of policies.

    ** How the parts interact

    A core calls [b_transport] of its memory interface, which the bus routes to a target;
    the handlers run in the monad [M S] over a hart whose field [mem_intf : S] is the
    whole memory system, so a store by an instruction, a transfer by the DMA and a write
    to a peripheral's register act on one state.  Clients are proved against the classes
    [Target], [DirectMem], [PhysMem], [InstrMem], [BlockMem], [DataTarget] and [TotalMem],
    which the memory and the bus implement.  SystemC processes are the functions they run; an event that was
    notified is a flag of the state, and the order in which processes run is the order of
    the steps of a reachability relation ([uart_reachable], [clint_reachable],
    [plic_reachable], [c2_reachable], [at_steps], ...).  Widths: one definition serves the 32- and
    the 64-bit class where they differ in a template parameter, [XLEN].

    ** What the theorems show

    - The functional cores execute the programs of [ISASpec], the integer, M, AMO and
      compressed instructions (LR and SC have their own theorem; fences and system
      instructions are modelled and are not steps of the specification), because
      each handler computes the specified result ([BaseISAProofs], [MExt], [AExt],
      [CExtProofs]), the decoders invert the assemblers and a compressed instruction
      has the effect of its expansion; every reachable hart is well formed.  Where the code
      departs from the architecture, the side conditions of the specification say so, and
      the examples of the components show what happens there.
    - The two-stage pipelines execute the architecture on code that uses the pc only to get
      to the next instruction ([P2_runs_program], [cycle_runs_program], [AT_runs_program]),
      a jump to a register included.  At branches, jumps relative to the pc, links and AUIPC
      they differ from it, because the pc is advanced before the instruction executes;
      [p2_step] describes what they do there, and the lemmas at the end of [CpuP2.v] and
      [CpuP2Cycle.v] are concrete runs that show the difference.
    - The three timing models of the two-stage core, each driven by one thread, agree with one
      another on every program of [p2_step] ([timing_models_agree]), the latencies of the
      non-blocking fetches included.  The clocked and the non-blocking core, when not
      debugged, have a second thread, that of the base class: [c2_two_drivers] and
      [at_two_threads] show what the two do together.
    - The six-stage RV32 core with its reorder buffer, store buffer, scoreboard and branch
      prediction implements RV32I: after any number of cycles its registers and memory are
      those of the architecture after the instructions it has committed, and it commits
      one at least every five cycles ([P6_runs_program]).  The conditions of [rv_program]
      exclude the M instructions, self-modifying code and two defects, a write after a write that overtakes
      the scoreboard and an instruction that shares a BTB slot with a branch; the examples
      of [CpuP6Run.v] show what happens there.
    - The six-stage RV64 core computes for each integer, jump, branch and multiplication
      instruction, in both encodings, what the architecture specifies
      ([c6_executes_isa]), and its divider takes the cycles of its operands.  The examples
      of [CpuC6Run.v] are runs from reset that show the defects of the pipeline.
    - Whatever program and interrupts drive the six-stage RV64 core, its state stays well
      formed and every cycle ends without an error ([c6_never_fails]); in particular the
      instruction in execution is always the newest one, so that the squash of a
      misprediction never finds an entry to remove ([c6_squash_is_empty]).  The memory
      system must answer every access and must not grant direct access, because the check of the granted window wraps
      around at the end of the address space ([c6_dmi_check_wraps]).
    - The floating-point arithmetic delivers the exact result correctly rounded in the mode
      of the register bank (mirrored for the negated fused operations), with the
      flags of the rounding ([fp_arithmetic_correct], [fp_sqrt_correct]), in the registers
      and through the execution stage of the six-stage core ([c6_float_arithmetic]);
      conversions of integers that fit are exact in both directions.  A number is counted in
      units of the least subnormal, so every exact result is a quotient of integers or a
      root of one, and rounding is specified by comparisons only ([rounded]).
    - The scoreboard, call by call, is a bounded FIFO of handles with the same calls, the store
      buffer refines a memory without one, squashing removes exactly the younger entries.
    - Address translation gives for a canonical address what the page table walk of the
      specification gives, for every coherent TLB state, and each of the four forms of
      SFENCE.VMA restores coherence after an edit of the pages it covers; CSR accesses are
      masked and checked, traps and returns are inverse, interrupts have the specified
      priorities.
    - A file written from Intel HEX records is read back to their meaning ([hex_roundtrip]).
    - The cache of the sweep tool behaves as the production cache, and the tool's offline
      optimum bounds every policy ([opt_is_ceiling], by the exchange argument of [Belady.v]).
    - The AXI handshake makes on the channels the transfers of the requests, in their order
      and at their addresses, and answers each with its value ([axi_handshake]); the
      demonstration sends one refill for each miss of the production cache and ends without
      a mismatch ([demo_all_correct]).
      The examples after them are the orders of operations that the handshake does not
      survive.
    - The boot detector finds the banner exactly when it occurs; the images of a boot lie
      complete at their addresses; options that are written are parsed back; the loops end.
    - The bus routes every address to its owner; the PLIC claims the highest priority; the
      UART's bytes arrive in order and drive the output line of the PLIC; the fast-forward
      of the CLINT skips only idle ticks; the DMA copies its block.

    ** Bounds and undefined behaviour

    There is no fuel except in the walks that the code bounds: the page table has three
    levels, a squash loop runs at most once per entry ([flush_speculative_correct] proves
    that the count is enough), the drain loops once per queued store.  Operations of the
    cores return [option]: [None] is an error report, which throws, or an operation that
    C++ leaves undefined; theorems that say that the code computes something say that the
    result is [Some].  Shifts by the width or more and the overflowing division, which
    traps on the host, are [None]; the overflow of a signed addition or subtraction (ADD, SUB
    and ADDIW of [BaseISA.v]), undefined as well, wraps around in the model, as compilers emit it.

    ** Not modelled

    - What C++ leaves to the host in floating point (the pattern of a NaN result, a cast out
      of range, the minimum of zeros of different sign) is the class [host]; a build that
      contracts or reorders floating-point expressions is not the one modelled.
    - Logs, the places that count events for the statistics, and register
      dumps do not influence the state.
    - The construction and binding of the SystemC modules, the printed reports, the debugger
      stub (src/Debug.cpp answers nothing) and the terminal process are input and output.
    - The calls of the six-stage RV64 core to the AXI interconnect, in the builds that have
      it: the core is modelled with its fixed latencies, the interconnect by itself.  The
      arbiter and the channels are a library. *)
From Stdlib Require Export ZArith Lia.
From Stdlib Require Import Btauto.
From coqutil Require Export Datatypes.RecordSettersUsingExistingGetters.
From stdpp Require Export base list gmap sets numbers.

#[export] Set Default Goal Selector "!".
Global Open Scope Z_scope.

(** ** Notation for the C++ bit operators *)

Declare Scope cxx_scope.
Delimit Scope cxx_scope with cxx.
Notation "x .<< n" := (Z.shiftl x n) (at level 51, left associativity) : cxx_scope.
Notation "x .>> n" := (Z.shiftr x n) (at level 51, left associativity) : cxx_scope.
Notation "x .& y" := (Z.land x y) (at level 52, left associativity) : cxx_scope.
Notation "x .&~ y" := (Z.ldiff x y) (at level 52, left associativity) : cxx_scope.
Notation "x .^ y" := (Z.lxor x y) (at level 53, left associativity) : cxx_scope.
Notation "x .| y" := (Z.lor x y) (at level 54, left associativity) : cxx_scope.
Open Scope cxx_scope.

(** ** Fixed-width integers

    A [uintW_t] is a [Z] in [[0, 2^W)]; [wrap W] is the conversion to it.
    [signed W] is the [static_cast] to [intW_t] (two's complement). *)

Definition wrap (w x : Z) : Z := x mod 2 ^ w.
Definition signed (w x : Z) : Z :=
  let y := wrap w x in if y <? 2 ^ (w - 1) then y else y - 2 ^ w.

Abbreviation u8 := (wrap 8).
Abbreviation u16 := (wrap 16).
Abbreviation u32 := (wrap 32).
Abbreviation u64 := (wrap 64).
Abbreviation s8 := (signed 8).
Abbreviation s16 := (signed 16).
Abbreviation s32 := (signed 32).
Abbreviation s64 := (signed 64).

(** [m_instr.range(hi, lo)] and [m_instr[i]] of [sc_uint<32>]. *)
Definition bits (hi lo x : Z) : Z := (x .>> lo) .& Z.ones (hi - lo + 1).
Definition bit (i x : Z) : Z := Z.b2z (Z.testbit x i).

(** [x] fits an unsigned integer of [w] bits. *)
Definition fits (w x : Z) : Prop := 0 <= x < 2 ^ w.

Lemma pow2_pos w : 0 <= w -> 0 < 2 ^ w.
Proof. intros. apply Z.pow_pos_nonneg; lia. Qed.

Lemma wrap_fits w x : 0 <= w -> fits w (wrap w x).
Proof. intros. apply Z.mod_pos_bound, pow2_pos; lia. Qed.

Lemma wrap_small w x : fits w x -> wrap w x = x.
Proof. intros. by apply Z.mod_small. Qed.

Lemma wrap_idemp w x : wrap w (wrap w x) = wrap w x.
Proof. apply Zmod_mod. Qed.

Lemma wrap_add_l w x y : wrap w (wrap w x + y) = wrap w (x + y).
Proof. apply Zplus_mod_idemp_l. Qed.

Lemma wrap_add_r w x y : wrap w (x + wrap w y) = wrap w (x + y).
Proof. apply Zplus_mod_idemp_r. Qed.

Lemma wrap_sub_l w x y : wrap w (wrap w x - y) = wrap w (x - y).
Proof. apply Zminus_mod_idemp_l. Qed.

Lemma wrap_sub_r w x y : wrap w (x - wrap w y) = wrap w (x - y).
Proof. apply Zminus_mod_idemp_r. Qed.

Lemma wrap_mul_l w x y : wrap w (wrap w x * y) = wrap w (x * y).
Proof. apply Zmult_mod_idemp_l. Qed.

Lemma wrap_mul_r w x y : wrap w (x * wrap w y) = wrap w (x * y).
Proof. apply Zmult_mod_idemp_r. Qed.

Lemma wrap_land w x : 0 <= w -> wrap w x = x .& Z.ones w.
Proof. intros. by rewrite Z.land_ones. Qed.

Lemma testbit_wrap w x i :
  0 <= w -> 0 <= i -> Z.testbit (wrap w x) i = (i <? w) && Z.testbit x i.
Proof.
  intros. unfold wrap. case (Z.ltb_spec i w) as [Hlt|Hge]; simpl.
  - by rewrite Z.mod_pow2_bits_low.
  - by rewrite Z.mod_pow2_bits_high by lia.
Qed.

Lemma fits_testbit w x i : 0 <= w -> fits w x -> w <= i -> Z.testbit x i = false.
Proof.
  intros. rewrite <-(wrap_small w x) by done.
  rewrite testbit_wrap by lia. case (Z.ltb_spec i w); simpl; [lia|done].
Qed.

Lemma fits_intro_testbit w x :
  0 <= w -> 0 <= x -> (forall i, w <= i -> Z.testbit x i = false) -> fits w x.
Proof.
  intros Hw Hx Hb. assert (x = wrap w x) as ->; [|by apply wrap_fits].
  apply Z.bits_inj'; intros i Hi. rewrite testbit_wrap by lia.
  case (Z.ltb_spec i w); simpl; [done|]. intros. by apply Hb.
Qed.

Lemma fits_mono w v x : w <= v -> 0 <= w -> fits w x -> fits v x.
Proof.
  unfold fits. intros. assert (2 ^ w <= 2 ^ v) by (apply Z.pow_le_mono_r; lia). lia.
Qed.

(** Two values of [w] bits are equal when their [w] bits are. *)
Lemma bits_inj_fits w x y :
  0 <= w -> fits w x -> fits w y ->
  (forall i, 0 <= i < w -> Z.testbit x i = Z.testbit y i) -> x = y.
Proof.
  intros Hw Hx Hy Hb. apply Z.bits_inj'; intros i Hi.
  destruct (Z.lt_ge_cases i w) as [?|?]; [by apply Hb|].
  by rewrite !(fits_testbit w).
Qed.

Lemma signed_fits w x : fits w x -> x < 2 ^ (w - 1) -> signed w x = x.
Proof.
  intros Hf Hx. unfold signed. rewrite wrap_small by done.
  by rewrite (proj2 (Z.ltb_lt _ _) Hx).
Qed.

Lemma wrap_signed w x : 0 < w -> wrap w (signed w x) = wrap w x.
Proof.
  intros. unfold signed. case (Z.ltb_spec (wrap w x) (2 ^ (w - 1))); intros.
  - apply wrap_idemp.
  - unfold wrap. rewrite <-(Z_mod_plus_full (x mod 2 ^ w - 2 ^ w) 1 (2 ^ w)).
    rewrite Z.mul_1_l, Z.sub_add. apply Zmod_mod.
Qed.

Lemma signed_wrap w x : signed w (wrap w x) = signed w x.
Proof. unfold signed. by rewrite wrap_idemp. Qed.

Lemma signed_range w x : 0 < w -> - 2 ^ (w - 1) <= signed w x < 2 ^ (w - 1).
Proof.
  intros. pose proof (wrap_fits w x ltac:(lia)) as Hf. unfold fits in Hf.
  assert (2 ^ w = 2 * 2 ^ (w - 1)) by (rewrite <-Z.pow_succ_r by lia; f_equal; lia).
  unfold signed. case (Z.ltb_spec (wrap w x) (2 ^ (w - 1))); lia.
Qed.

Lemma wrap_inj w x y : fits w x -> fits w y -> wrap w x = wrap w y -> x = y.
Proof. intros. by rewrite <-(wrap_small w x), <-(wrap_small w y). Qed.

(** ** Bit reasoning

    [zbits] pushes [Z.testbit] through the bit operators; [solve_bits] proves an
    equation between bit expressions by comparing every bit. *)

Create Rewrite HintDb zbits.

Lemma testbit_bit0 b i : Z.testbit (Z.b2z b) i = b && (i =? 0).
Proof.
  destruct b; simpl.
  - destruct (Z.eqb_spec i 0) as [->|]; [done|].
    destruct i; try done; by destruct p.
  - by rewrite Z.bits_0.
Qed.

Lemma testbit_one k i : 0 <= k -> 0 <= i -> Z.testbit (1 .<< k) i = (i =? k).
Proof.
  intros. rewrite Z.shiftl_spec by done. change 1 with (Z.b2z true). rewrite testbit_bit0. simpl.
  destruct (Z.eqb_spec (i - k) 0), (Z.eqb_spec i k); (done || lia).
Qed.

(** The test of one bit, as the code writes it. *)
Lemma land_bit x k : 0 <= k -> ((x .& (1 .<< k)) =? 0) = negb (Z.testbit x k).
Proof.
  intros Hk. destruct (Z.testbit x k) eqn:E; simpl.
  - apply Z.eqb_neq. intros H0. apply (f_equal (fun z => Z.testbit z k)) in H0.
    rewrite Z.land_spec, testbit_one, E, Z.eqb_refl, Z.bits_0 in H0 by lia. done.
  - apply Z.eqb_eq. apply Z.bits_inj'. intros i Hi. rewrite Z.land_spec, testbit_one, Z.bits_0 by lia.
    destruct (Z.eqb_spec i k) as [->|]; [by rewrite E|by rewrite andb_false_r].
Qed.

Lemma testbit_three k i : 0 <= k -> 0 <= i -> Z.testbit (3 .<< k) i = (i =? k) || (i =? k + 1).
Proof.
  intros. change 3 with ((1 .<< 0) .| (1 .<< 1)).
  rewrite Z.shiftl_lor, !Z.shiftl_shiftl, Z.lor_spec, !testbit_one by lia. f_equal; f_equal; lia.
Qed.

#[export] Hint Rewrite Z.land_spec Z.lor_spec Z.lxor_spec Z.ldiff_spec Z.bits_0
  testbit_bit0 : zbits.
#[export] Hint Rewrite testbit_wrap using lia : zbits.
#[export] Hint Rewrite Z.shiftl_spec Z.shiftr_spec using lia : zbits.
#[export] Hint Rewrite Z.lnot_spec using lia : zbits.

Ltac bits_ext i := apply Z.bits_inj'; intros i ?; autorewrite with zbits.

Lemma fits_land_l w x y : 0 <= w -> fits w x -> 0 <= y -> fits w (x .& y).
Proof.
  intros Hw Hx Hy. apply fits_intro_testbit; [done| |].
  - apply Z.land_nonneg. by right.
  - intros. autorewrite with zbits. by rewrite (fits_testbit w).
Qed.

Lemma fits_land_r w x y : 0 <= w -> 0 <= x -> fits w y -> fits w (x .& y).
Proof. intros. rewrite Z.land_comm. by apply fits_land_l. Qed.

Lemma fits_lor w x y : 0 <= w -> fits w x -> fits w y -> fits w (x .| y).
Proof.
  intros Hw Hx Hy. apply fits_intro_testbit; [done| |].
  - apply Z.lor_nonneg. unfold fits in *. lia.
  - intros. autorewrite with zbits. by rewrite !(fits_testbit w).
Qed.

Lemma fits_lxor w x y : 0 <= w -> fits w x -> fits w y -> fits w (x .^ y).
Proof.
  intros Hw Hx Hy. apply fits_intro_testbit; [done| |].
  - apply Z.lxor_nonneg. unfold fits in *. lia.
  - intros. autorewrite with zbits. by rewrite !(fits_testbit w).
Qed.

Lemma fits_ldiff w x y : 0 <= w -> fits w x -> fits w (x .&~ y).
Proof.
  intros Hw Hx. apply fits_intro_testbit; [done| |].
  - apply Z.ldiff_nonneg. unfold fits in *. lia.
  - intros. autorewrite with zbits. by rewrite (fits_testbit w).
Qed.

Lemma fits_shiftr w x n : 0 <= w -> 0 <= n -> fits w x -> fits w (x .>> n).
Proof.
  intros Hw Hn Hx. apply fits_intro_testbit; [done| |].
  - apply Z.shiftr_nonneg. unfold fits in *. lia.
  - intros. autorewrite with zbits. by rewrite (fits_testbit w) by (done || lia).
Qed.

Lemma fits_bits hi lo x : lo <= hi -> fits (hi - lo + 1) (bits hi lo x).
Proof.
  intros. unfold bits. rewrite <-wrap_land by lia. apply wrap_fits. lia.
Qed.

Lemma bits_div hi lo x : 0 <= lo <= hi -> bits hi lo x = (x / 2 ^ lo) mod 2 ^ (hi - lo + 1).
Proof. intros. unfold bits. by rewrite Z.shiftr_div_pow2, Z.land_ones by lia. Qed.

Lemma bit_div i x : 0 <= i -> bit i x = (x / 2 ^ i) mod 2.
Proof. intros. unfold bit. by rewrite Z.testbit_spec'. Qed.

Lemma testbit_bits hi lo x i :
  0 <= lo -> 0 <= i -> lo <= hi + 1 ->
  Z.testbit (bits hi lo x) i = (i <? hi - lo + 1) && Z.testbit x (i + lo).
Proof.
  intros. unfold bits. rewrite <-wrap_land by lia.
  rewrite testbit_wrap, Z.shiftr_spec by lia. done.
Qed.

Lemma fits_b2z w b : 0 < w -> fits w (Z.b2z b).
Proof.
  intros. unfold fits. assert (2 ^ 1 <= 2 ^ w) by (apply Z.pow_le_mono_r; lia).
  destruct b; simpl; lia.
Qed.

Lemma land_le_r x y : 0 <= y -> x .& y <= y.
Proof.
  intros Hy. assert (y - (x .& y) = y .&~ (x .& y)) as E.
  { apply Z.sub_nocarry_ldiff. bits_ext i. by destruct (Z.testbit x i), (Z.testbit y i). }
  assert (0 <= y .&~ (x .& y)) by (apply Z.ldiff_nonneg; lia). lia.
Qed.

(** Concatenation of bit fields is addition. *)
Lemma lor_shiftl_add x y k : 0 <= k -> fits k x -> (y .<< k) .| x = y * 2 ^ k + x.
Proof.
  intros Hk Hx. rewrite <-Z.shiftl_mul_pow2 by lia. pose proof (Z.add_lor_land (y .<< k) x) as E.
  replace ((y .<< k) .& x) with 0 in E; [lia|]. symmetry.
  apply Z.bits_inj'; intros i Hi. rewrite Z.land_spec, Z.shiftl_spec, Z.bits_0 by lia.
  destruct (Z.lt_ge_cases i k).
  - by rewrite Z.testbit_neg_r by lia.
  - by rewrite (fits_testbit k x), andb_false_r by (done || lia).
Qed.

Lemma land_ones_mod x k : 0 <= k -> x .& Z.ones k = x mod 2 ^ k.
Proof. intros. by apply Z.land_ones. Qed.

Lemma mod_mod_pow2 x j k : 0 <= k <= j -> (x mod 2 ^ j) mod 2 ^ k = x mod 2 ^ k.
Proof.
  intros. replace (2 ^ j) with (2 ^ k * 2 ^ (j - k)) by (rewrite <-Z.pow_add_r by lia; f_equal; lia).
  rewrite Z.rem_mul_r by (pose proof (pow2_pos k); pose proof (pow2_pos (j - k)); lia).
  rewrite (Z.mul_comm (2 ^ k)), Z_mod_plus_full, Zmod_mod. done.
Qed.

Create HintDb fits discriminated.
#[export] Hint Resolve wrap_fits fits_land_l fits_lor fits_lxor fits_ldiff fits_shiftr
  fits_b2z : fits.
#[export] Hint Extern 1 (_ <= _) => lia : fits.
#[export] Hint Extern 1 (_ < _) => lia : fits.
#[export] Hint Extern 2 (fits _ _) => (unfold fits; lia) : fits.

(** ** Arithmetic at a width *)

Lemma wrap_le_idemp w v x : 0 <= w <= v -> wrap w (wrap v x) = wrap w x.
Proof. apply mod_mod_pow2. Qed.

Lemma wrap_add_r_le w v x y : 0 <= w <= v -> wrap w (x + wrap v y) = wrap w (x + y).
Proof. intros. by rewrite <-wrap_add_r, wrap_le_idemp, wrap_add_r. Qed.

Lemma signed_mod w x y : wrap w x = wrap w y -> signed w x = signed w y.
Proof. unfold signed. by intros ->. Qed.

Lemma signed_id w x : 0 < w -> - 2 ^ (w - 1) <= x < 2 ^ (w - 1) -> signed w x = x.
Proof.
  intros Hw Hx. assert (2 ^ w = 2 * 2 ^ (w - 1)) by (rewrite <-Z.pow_succ_r by lia; f_equal; lia).
  unfold signed, wrap. destruct (Z.lt_ge_cases x 0) as [Hneg|Hneg].
  - replace (x mod 2 ^ w) with (x + 2 ^ w).
    + destruct (Z.ltb_spec (x + 2 ^ w) (2 ^ (w - 1))); lia.
    + rewrite <-(Z_mod_plus_full x 1), Z.mul_1_l, Z.mod_small; lia.
  - rewrite Z.mod_small by lia. destruct (Z.ltb_spec x (2 ^ (w - 1))); lia.
Qed.

Lemma signed_signed w x : 0 < w -> signed w (signed w x) = signed w x.
Proof. intros. apply signed_id; [done|]. by apply signed_range. Qed.

Lemma signed_add w x y : 0 < w -> signed w (signed w x + signed w y) = signed w (x + y).
Proof.
  intros. apply signed_mod. rewrite <-wrap_add_l, <-wrap_add_r, !wrap_signed by done.
  by rewrite wrap_add_l, wrap_add_r.
Qed.

Lemma signed_sub w x y : 0 < w -> signed w (signed w x - signed w y) = signed w (x - y).
Proof.
  intros. apply signed_mod. rewrite <-wrap_sub_l, <-wrap_sub_r, !wrap_signed by done.
  by rewrite wrap_sub_l, wrap_sub_r.
Qed.

Lemma signed_add_wrap_l w x y : signed w (wrap w x + y) = signed w (x + y).
Proof. apply signed_mod, wrap_add_l. Qed.
Lemma signed_mul_wrap_l w x y : signed w (wrap w x * y) = signed w (x * y).
Proof. apply signed_mod, wrap_mul_l. Qed.

Lemma signed_mul_l w x y : 0 < w -> signed w (signed w x * y) = signed w (x * y).
Proof.
  intros. apply signed_mod. by rewrite <-wrap_mul_l, wrap_signed, wrap_mul_l by done.
Qed.

Lemma signed_wrap_le w v x : 0 <= w <= v -> signed w (wrap v x) = signed w x.
Proof. intros. apply signed_mod. by apply wrap_le_idemp. Qed.

Lemma signed_add_wrap w v x y : 0 <= w <= v -> signed w (x + wrap v y) = signed w (x + y).
Proof. intros. apply signed_mod. by apply wrap_add_r_le. Qed.

Lemma div_pow2_range k n x : 0 <= k -> 0 <= n -> - 2 ^ k <= x < 2 ^ k -> - 2 ^ k <= x / 2 ^ n < 2 ^ k.
Proof.
  intros Hk Hn Hx. pose proof (pow2_pos n Hn). pose proof (pow2_pos k Hk). split.
  - apply Z.div_le_lower_bound; nia.
  - apply Z.div_lt_upper_bound; nia.
Qed.

Lemma signed_div_pow2 w x n : 0 < w -> 0 <= n -> signed w (signed w x / 2 ^ n) = signed w x / 2 ^ n.
Proof.
  intros. apply signed_id; [done|]. apply div_pow2_range; [lia..|]. by apply signed_range.
Qed.

Lemma wrap_div_pow2 w x n : fits w x -> 0 <= n -> wrap w (x / 2 ^ n) = x / 2 ^ n.
Proof.
  intros [H0 Hx] Hn. pose proof (pow2_pos n Hn). apply wrap_small. split.
  - by apply Z.div_pos.
  - apply Z.div_lt_upper_bound; nia.
Qed.

Lemma land_u32 v : v .& 0xFFFFFFFF = u32 v.
Proof. symmetry. by apply (wrap_land 32). Qed.

Lemma land_31 x : x .& 31 = x mod 32.
Proof. by apply (land_ones_mod x 5). Qed.

(** The record setters [{ s with f := v }] leave [const]s behind. *)
#[global] Arguments RecordSettersUsingExistingGetters.const _ _ _ /.

(** ** Lists *)

Lemma list_alter_insert {A} (f : A -> A) i x (l : list A) :
  l !! i = Some x -> alter f i l = <[i:=f x]> l.
Proof.
  intros Hi. apply list_eq. intros j. pose proof (lookup_lt_Some _ _ _ Hi).
  destruct (decide (i = j)) as [<-|].
  - by rewrite list_lookup_alter_eq, Hi, list_lookup_insert_eq.
  - by rewrite list_lookup_alter_ne, list_lookup_insert_ne.
Qed.

Lemma list_lookup_total_insert_cases {A} `{Inhabited A} (l : list A) i j x :
  (i = j /\ <[i:=x]> l !!! j = x) \/ <[i:=x]> l !!! j = l !!! j.
Proof.
  destruct (decide (i = j)) as [->|]; [|right; by apply list_lookup_total_insert_ne].
  destruct (decide (j < length l)%nat); [left|right].
  - split; [done|]. by apply list_lookup_total_insert_eq.
  - by rewrite list_insert_ge by lia.
Qed.

Lemma lookup_total_fmap_lt {A B} `{Inhabited A, Inhabited B} (f : A -> B) (l : list A) i :
  (i < length l)%nat -> (f <$> l) !!! i = f (l !!! i).
Proof. apply list_lookup_total_fmap. Qed.

(** A closed constant fits. *)
Ltac fits_const := split; [vm_compute; discriminate | vm_compute; reflexivity].
