(* ===== verification/Ring.v ===== *)
(** Ring buffers: the arrays with [head], [tail] and [count] that the reorder
    buffer, the scoreboard and the two store queues share.  [ring_items] is the
    abstraction to a FIFO list, oldest first; the lemmas say what a write through
    [tail], an advance of [head] and an update in place do to that list. *)
From S2P Require Import Prelude.
Local Open Scope nat_scope.

Section ring.
Context {A : Type} `{Inhabited A} (N : nat).
Implicit Types (l : list A) (h t n i k : nat) (x : A).

(** The [k]-th slot after [h]. *)
Definition ring_at h k : nat := (h + k) mod N.

Definition ring_items l h n : list A := (fun k => l !!! ring_at h k) <$> seq 0 n.

(** The pointers are consistent: [tail] is [count] slots after [head]. *)
Record ring_wf l h t n : Prop := {
  ring_len : length l = N;
  ring_head : h < N;
  ring_count : n <= N;
  ring_tail : t = ring_at h n;
}.

Lemma ring_at_lt h k : 0 < N -> ring_at h k < N.
Proof. intros. apply Nat.mod_upper_bound. lia. Qed.

Lemma ring_at_0 h : h < N -> ring_at h 0 = h.
Proof. intros. unfold ring_at. rewrite Nat.add_0_r. by apply Nat.mod_small. Qed.

Lemma ring_at_at h j k : ring_at (ring_at h j) k = ring_at h (j + k).
Proof.
  unfold ring_at. destruct (decide (N = 0)) as [->|]; [simpl; lia|].
  by rewrite Nat.Div0.add_mod_idemp_l, Nat.add_assoc.
Qed.

Lemma ring_at_cases h k :
  h < N -> k <= N -> ring_at h k = if decide (h + k < N) then h + k else h + k - N.
Proof.
  intros. unfold ring_at. case_decide; [by apply Nat.mod_small|].
  replace (h + k) with (h + k - N + 1 * N) at 1 by lia.
  rewrite Nat.Div0.mod_add. apply Nat.mod_small. lia.
Qed.

(** Distinct offsets below the size are distinct slots. *)
Lemma ring_at_inj h j k : h < N -> j < N -> k < N -> ring_at h j = ring_at h k -> j = k.
Proof. intros ???. rewrite !ring_at_cases by lia. repeat case_decide; lia. Qed.

Lemma ring_at_inj_window h j k :
  h < N -> j <= k -> k <= N -> k - j < N -> ring_at h j = ring_at h k -> j = k.
Proof. intros ????. rewrite !ring_at_cases by lia. repeat case_decide; lia. Qed.

Lemma ring_at_head_ne h k : h < N -> 0 < k < N -> h <> ring_at h k.
Proof. intros. rewrite ring_at_cases by lia. case_decide; lia. Qed.

(** Every slot is at some offset. *)
Lemma ring_at_surj h i : h < N -> i < N -> exists k, k < N /\ ring_at h k = i.
Proof.
  intros. destruct (decide (h <= i)).
  - exists (i - h). rewrite ring_at_cases by lia. case_decide; lia.
  - exists (i + N - h). rewrite ring_at_cases by lia. case_decide; lia.
Qed.

Lemma ring_items_length l h n : length (ring_items l h n) = n.
Proof. unfold ring_items. by rewrite length_fmap, length_seq. Qed.

Lemma ring_items_lookup l h n k :
  k < n -> ring_items l h n !! k = Some (l !!! ring_at h k).
Proof. intros. unfold ring_items. by rewrite list_lookup_fmap, lookup_seq_lt. Qed.

Lemma ring_items_lookup_Some l h n k x :
  ring_items l h n !! k = Some x <-> k < n /\ l !!! ring_at h k = x.
Proof.
  split.
  - intros E. pose proof (lookup_lt_Some _ _ _ E) as Hk.
    rewrite ring_items_length in Hk. rewrite ring_items_lookup in E by done.
    split; [done|congruence].
  - intros [? <-]. by apply ring_items_lookup.
Qed.

Lemma ring_items_ext l l' h h' n :
  (forall k, k < n -> l !!! ring_at h k = l' !!! ring_at h' k) ->
  ring_items l h n = ring_items l' h' n.
Proof.
  intros E. apply list_eq. intros k. destruct (decide (k < n)).
  - rewrite !ring_items_lookup by done. f_equal. by apply E.
  - rewrite !lookup_ge_None_2; [done|rewrite ring_items_length; lia..].
Qed.

(** Writing at the tail appends. *)
Lemma ring_items_push l h t n x :
  ring_wf l h t n -> n < N ->
  ring_items (<[t:=x]> l) h (S n) = ring_items l h n ++ [x].
Proof.
  intros [Hl Hh Hn ->] ?. unfold ring_items. rewrite seq_S, fmap_app. simpl. f_equal.
  - apply list_fmap_ext. intros k j [-> Hj]%lookup_seq.
    rewrite list_lookup_total_insert_ne; [done|].
    intros E. apply ring_at_inj in E; lia.
  - rewrite list_lookup_total_insert_eq; [done|].
    rewrite Hl. apply ring_at_lt. lia.
Qed.

Lemma ring_wf_push l h t n x :
  ring_wf l h t n -> n < N -> ring_wf (<[t:=x]> l) h ((t + 1) mod N) (S n).
Proof.
  intros [Hl Hh Hn ->] ?. split; [by rewrite length_insert|done|lia|].
  change ((ring_at h n + 1) mod N) with (ring_at (ring_at h n) 1).
  rewrite ring_at_at. f_equal; lia.
Qed.

Lemma ring_items_snoc l h n : ring_items l h (S n) = ring_items l h n ++ [l !!! ring_at h n].
Proof. unfold ring_items. by rewrite seq_S, fmap_app. Qed.

(** Advancing the head drops the oldest. *)
Lemma ring_items_pop l h n :
  h < N -> ring_items l h (S n) = l !!! h :: ring_items l ((h + 1) mod N) n.
Proof.
  intros. unfold ring_items. simpl. rewrite ring_at_0 by done. f_equal.
  rewrite <-(fmap_S_seq 0), <-list_fmap_compose. apply list_fmap_ext. intros i k _. simpl.
  change ((h + 1) mod N) with (ring_at h 1). by rewrite ring_at_at.
Qed.

Lemma ring_wf_pop l h t n :
  ring_wf l h t (S n) -> ring_wf l ((h + 1) mod N) t n.
Proof.
  intros [Hl Hh Hn ->]. split; [done|by apply Nat.mod_upper_bound; lia|lia|].
  change ((h + 1) mod N) with (ring_at h 1). by rewrite ring_at_at.
Qed.

(** Shrinking the count drops the newest; the tail moves back. *)
Lemma ring_items_take l h n k : k <= n -> ring_items l h k = take k (ring_items l h n).
Proof.
  intros. unfold ring_items. rewrite <-fmap_take, take_seq. f_equal. f_equal. lia.
Qed.

Lemma ring_wf_shrink l h t n k :
  ring_wf l h t n -> k <= n -> ring_wf l h (ring_at h k) k.
Proof. intros [Hl Hh Hn ->] ?. split; [done|done|lia|done]. Qed.

(** An update in place updates the element at that offset. *)
Lemma ring_items_insert l h n k x :
  length l = N -> h < N -> k < n -> n <= N ->
  ring_items (<[ring_at h k:=x]> l) h n = <[k:=x]> (ring_items l h n).
Proof.
  intros Hl Hh Hk Hn. apply list_eq. intros j.
  destruct (decide (j = k)) as [->|].
  - rewrite ring_items_lookup, list_lookup_insert_eq by (rewrite ?ring_items_length; done).
    f_equal. apply list_lookup_total_insert_eq. rewrite Hl. apply ring_at_lt. lia.
  - rewrite list_lookup_insert_ne by done. destruct (decide (j < n)).
    + rewrite !ring_items_lookup by done. f_equal.
      apply list_lookup_total_insert_ne. intros E. apply ring_at_inj in E; lia.
    + rewrite !lookup_ge_None_2; [done|rewrite ring_items_length; lia..].
Qed.

(** A write outside the window is invisible. *)
Lemma ring_items_insert_out l h n k x :
  h < N -> n <= k -> k < N -> ring_items (<[ring_at h k:=x]> l) h n = ring_items l h n.
Proof.
  intros. apply ring_items_ext. intros j ?.
  apply list_lookup_total_insert_ne. intros E. apply ring_at_inj in E; lia.
Qed.

Lemma ring_wf_insert l h t n i x : ring_wf l h t n -> ring_wf (<[i:=x]> l) h t n.
Proof. intros [? ? ? ?]. split; [by rewrite length_insert|done..]. Qed.

(** The slot [(tail + N - 1 - k) % N] is the [k]-th newest. *)
Lemma ring_newest l h t n k :
  ring_wf l h t n -> k < n -> (t + N - 1 - k) mod N = ring_at h (n - 1 - k).
Proof.
  intros [Hl Hh Hn ->] ?. rewrite !ring_at_cases by lia. repeat case_decide; try lia.
  - replace (h + n + N - 1 - k) with (h + (n - 1 - k) + 1 * N) by lia.
    rewrite Nat.Div0.mod_add. apply Nat.mod_small. lia.
  - replace (h + n - N + N - 1 - k) with (h + (n - 1 - k)) by lia.
    apply Nat.mod_small. lia.
  - replace (h + n - N + N - 1 - k) with (h + (n - 1 - k) - N + 1 * N) by lia.
    rewrite Nat.Div0.mod_add. apply Nat.mod_small. lia.
Qed.

(** In particular the slot before the tail is the newest. *)
Lemma ring_newest_0 l h t n :
  ring_wf l h t (S n) -> (t + N - 1) mod N = ring_at h n.
Proof.
  intros Hwf. rewrite <-(Nat.sub_0_r (t + N - 1)), (ring_newest l h t (S n) 0) by (done || lia).
  f_equal. lia.
Qed.
End ring.

Lemma ring_items_fmap {A B} `{Inhabited A, Inhabited B} N (f : A -> B) l h n :
  length l = N -> h < N -> n <= N ->
  ring_items N (f <$> l) h n = f <$> ring_items N l h n.
Proof.
  intros Hl Hh Hn. unfold ring_items. rewrite <-list_fmap_compose.
  apply list_fmap_ext. intros i k [-> ?]%lookup_seq. simpl.
  apply list_lookup_total_fmap. rewrite Hl. apply ring_at_lt. lia.
Qed.

Lemma ring_wf_fmap {A B} `{Inhabited A, Inhabited B} N (f : A -> B) l h t n :
  ring_wf N l h t n -> ring_wf N (f <$> l) h t n.
Proof. intros [? ? ? ?]. split; [by rewrite length_fmap|done..]. Qed.

(** The validity bit of an entry: [P] holds exactly in the window. *)
Section ring_valid.
Context {A : Type} `{Inhabited A} (N : nat) (P : A -> bool).
Implicit Types (l : list A) (h t n i k : nat) (x : A).

Definition ring_valid l h n : Prop :=
  forall k, k < N -> P (l !!! ring_at N h k) = bool_decide (k < n).

Lemma ring_valid_push l h t n x :
  ring_wf N l h t n -> n < N -> P x = true -> ring_valid l h n ->
  ring_valid (<[t:=x]> l) h (S n).
Proof.
  intros [Hl Hh Hn ->] ? Hx Hv k Hk. destruct (decide (k = n)) as [->|].
  - rewrite list_lookup_total_insert_eq by (rewrite Hl; apply ring_at_lt; lia).
    rewrite Hx. symmetry. apply bool_decide_eq_true. lia.
  - rewrite list_lookup_total_insert_ne by (intros E; apply ring_at_inj in E; lia).
    rewrite Hv by done. apply bool_decide_ext. lia.
Qed.

Lemma ring_valid_pop l h t n x :
  ring_wf N l h t (S n) -> P x = false -> ring_valid l h (S n) ->
  ring_valid (<[h:=x]> l) ((h + 1) mod N) n.
Proof.
  intros [Hl Hh Hn ->] Hx Hv k Hk.
  change ((h + 1) mod N) with (ring_at N h 1). rewrite ring_at_at.
  destruct (decide (k = N - 1)) as [->|].
  - replace (ring_at N h (1 + (N - 1))) with h.
    + rewrite list_lookup_total_insert_eq by lia. rewrite Hx.
      symmetry. apply bool_decide_eq_false. lia.
    + rewrite ring_at_cases by lia. case_decide; lia.
  - rewrite list_lookup_total_insert_ne.
    + rewrite Hv by lia. apply bool_decide_ext. lia.
    + rewrite <-(ring_at_0 N h) at 1 by done. intros E. apply ring_at_inj in E; lia.
Qed.

Lemma ring_valid_update l h n i x :
  length l = N -> P x = P (l !!! i) -> ring_valid l h n -> ring_valid (<[i:=x]> l) h n.
Proof.
  intros Hl Hx Hv k Hk. rewrite <-Hv by done.
  destruct (decide (ring_at N h k = i)) as [<-|].
  - rewrite list_lookup_total_insert_eq; [done|].
    rewrite Hl. apply ring_at_lt. lia.
  - by rewrite list_lookup_total_insert_ne.
Qed.

Lemma ring_valid_none l h :
  length l = N -> (forall i, i < N -> P (l !!! i) = false) -> ring_valid l h 0.
Proof.
  intros Hl HP k Hk. rewrite HP by (apply ring_at_lt; lia).
  symmetry. apply bool_decide_eq_false. lia.
Qed.
End ring_valid.

(** Simplify record updates without unfolding the window. *)
Ltac rcbn := cbn -[ring_items ring_at Nat.modulo].

Create HintDb ring discriminated.
#[export] Hint Resolve ring_wf_push ring_wf_pop ring_wf_insert ring_wf_fmap
  ring_valid_push ring_valid_pop ring_valid_update : ring.
#[export] Hint Extern 1 (_ < _) => lia : ring.
