(* ===== verification/ROB.v ===== *)
(** [inc/ROB.h]: the reorder buffer [ReorderBuffer<SIZE>], a circular buffer of
    in-flight instructions.  The model keeps the array and the three counters of
    the class; [rob_items] is the FIFO it implements.  A C++ [int] index is a [Z]
    (it can be negative), the private [head]/[tail]/[count] are never negative
    and are [nat]. *)
From S2P Require Import Prelude Ring.

Record ROBEntry := mkROBEntry {
  rob_valid : bool;
  rob_ready : bool;
  rob_dest_reg : Z;       (* uint8_t *)
  rob_result : Z;         (* uint64_t *)
  rob_is_store : bool;
  rob_is_branch : bool;
  rob_exception : bool;
  rob_pc : Z;             (* uint64_t *)
}.

#[export] Instance ROBEntry_inhabited : Inhabited ROBEntry :=
  populate (mkROBEntry false false 0 0 false false false 0).

Record ReorderBuffer := mkROB {
  rob_entries : list ROBEntry;
  rob_head : nat;
  rob_tail : nat;
  rob_count : nat;
}.

Section rob.
Context (SIZE : nat).
Implicit Types (r : ReorderBuffer) (idx : Z).

Definition rob_new : ReorderBuffer := mkROB (replicate SIZE inhabitant) 0 0 0.

Definition rob_is_full r : bool := (rob_count r =? SIZE)%nat.
Definition rob_is_empty r : bool := (rob_count r =? 0)%nat.
Definition rob_get_count r : nat := rob_count r.
Definition rob_get_head r : ROBEntry := rob_entries r !!! rob_head r.
Definition rob_get_head_index r : Z := Z.of_nat (rob_head r).

(** [operator[]]: no bounds check in the code, [None] is out of the array. *)
Definition rob_at r idx : option ROBEntry :=
  if idx <? 0 then None else rob_entries r !! Z.to_nat idx.

Definition rob_head_ready r : bool :=
  let e := rob_entries r !!! rob_head r in rob_valid e && rob_ready e.

Definition rob_allocate r : Z * ReorderBuffer :=
  if rob_is_full r then (-1, r) else
  let e := rob_entries r !!! rob_tail r in
  let e' := { e with rob_valid := true; rob_ready := false; rob_exception := false } in
  (Z.of_nat (rob_tail r),
   { r with rob_entries := <[rob_tail r := e']> (rob_entries r);
            rob_tail := ((rob_tail r + 1) mod SIZE)%nat;
            rob_count := S (rob_count r) }).

Definition rob_complete idx result dest_reg r : ReorderBuffer :=
  if (idx <? 0) || (Z.of_nat SIZE <=? idx) then r else
  let i := Z.to_nat idx in
  let e := rob_entries r !!! i in
  let e' := { e with rob_ready := true; rob_result := u64 result;
                     rob_dest_reg := u8 dest_reg } in
  { r with rob_entries := <[i := e']> (rob_entries r) }.

Definition rob_retire r : ReorderBuffer :=
  if rob_is_empty r then r else
  let e := rob_entries r !!! rob_head r in
  { r with rob_entries := <[rob_head r := { e with rob_valid := false }]> (rob_entries r);
           rob_head := ((rob_head r + 1) mod SIZE)%nat;
           rob_count := pred (rob_count r) }.

Definition rob_flush r : ReorderBuffer :=
  mkROB ((fun e => { e with rob_valid := false; rob_ready := false }) <$> rob_entries r)
    0 0 0.

(** The FIFO the buffer implements, oldest first, and the invariant: exactly
    the slots of the window are valid. *)
Definition rob_items r : list ROBEntry :=
  ring_items SIZE (rob_entries r) (rob_head r) (rob_count r).

Record rob_wf r : Prop := {
  rob_wf_ring : ring_wf SIZE (rob_entries r) (rob_head r) (rob_tail r) (rob_count r);
  rob_wf_valid : ring_valid SIZE rob_valid (rob_entries r) (rob_head r) (rob_count r);
}.

Lemma rob_new_wf : (0 < SIZE)%nat -> rob_wf rob_new.
Proof.
  intros. split.
  - split; simpl; [by rewrite length_replicate|done|lia|by rewrite ring_at_0].
  - apply ring_valid_none; simpl; [by rewrite length_replicate|].
    intros. by rewrite lookup_total_replicate_2.
Qed.

Lemma rob_items_length r : length (rob_items r) = rob_count r.
Proof. apply ring_items_length. Qed.

Lemma rob_allocate_wf r : rob_wf r -> rob_wf (rob_allocate r).2.
Proof.
  intros [Hr Hv]. pose proof (ring_count _ _ _ _ _ Hr).
  unfold rob_allocate, rob_is_full. case (Nat.eqb_spec (rob_count r) SIZE); [done|].
  intros. split; simpl; eauto with ring.
Qed.

Lemma rob_complete_wf idx v d r : rob_wf r -> rob_wf (rob_complete idx v d r).
Proof.
  intros [Hr Hv]. unfold rob_complete. case_match; [done|].
  split; simpl; [eauto with ring|].
  apply ring_valid_update; [apply Hr|done..].
Qed.

Lemma rob_retire_wf r : rob_wf r -> rob_wf (rob_retire r).
Proof.
  intros [Hr Hv]. unfold rob_retire, rob_is_empty.
  destruct (rob_count r) as [|n] eqn:E; simpl; [by split; rewrite ?E|].
  split; simpl; rewrite ?E; simpl; eauto with ring.
Qed.

Lemma rob_flush_wf r : (0 < SIZE)%nat -> rob_wf r -> rob_wf (rob_flush r).
Proof.
  intros ? [Hr Hv]. pose proof (ring_len _ _ _ _ _ Hr) as Hl. split.
  - split; simpl; [by rewrite length_fmap|done|lia|by rewrite ring_at_0].
  - apply ring_valid_none; simpl; [by rewrite length_fmap|].
    intros i Hi. rewrite lookup_total_fmap_lt by lia. done.
Qed.

(** What each operation does to the FIFO. *)
Lemma rob_allocate_items r :
  rob_wf r -> rob_count r <> SIZE ->
  let e := rob_entries r !!! rob_tail r in
  rob_items (rob_allocate r).2 = rob_items r ++
    [{ e with rob_valid := true; rob_ready := false; rob_exception := false }].
Proof.
  intros [Hr _] Hne e. pose proof (ring_count _ _ _ _ _ Hr).
  unfold rob_allocate, rob_is_full. rewrite (proj2 (Nat.eqb_neq _ _) Hne).
  unfold rob_items; simpl. eapply ring_items_push; [done|lia].
Qed.

Lemma rob_retire_items r : rob_wf r -> rob_items (rob_retire r) = tail (rob_items r).
Proof.
  intros [Hr Hv]. unfold rob_retire, rob_is_empty, rob_items.
  destruct (rob_count r) as [|n] eqn:E; [simpl; by rewrite E|].
  pose proof (ring_head _ _ _ _ _ Hr). pose proof (ring_count _ _ _ _ _ Hr).
  rewrite ring_items_pop by done. simpl.
  apply ring_items_ext. intros k ?. apply list_lookup_total_insert_ne.
  change ((rob_head r + 1) mod SIZE)%nat with (ring_at SIZE (rob_head r) 1).
  rewrite ring_at_at. by apply ring_at_head_ne; lia.
Qed.

Lemma rob_complete_items r k v d :
  rob_wf r -> (k < rob_count r)%nat ->
  rob_items (rob_complete (Z.of_nat (ring_at SIZE (rob_head r) k)) v d r) =
    alter (fun e => { e with rob_ready := true; rob_result := u64 v;
                             rob_dest_reg := u8 d }) k (rob_items r).
Proof.
  intros [Hr Hv] Hk. pose proof (ring_head _ _ _ _ _ Hr). pose proof (ring_count _ _ _ _ _ Hr).
  pose proof (ring_at_lt SIZE (rob_head r) k ltac:(lia)).
  unfold rob_complete. rewrite (proj2 (Z.ltb_ge _ _)), (proj2 (Z.leb_gt _ _)) by lia.
  simpl. rewrite Nat2Z.id. unfold rob_items; simpl.
  rewrite ring_items_insert by (apply Hr || done).
  by erewrite list_alter_insert by (by apply ring_items_lookup).
Qed.
Lemma rob_flush_items r : rob_items (rob_flush r) = [].
Proof. done. Qed.

(** The head is ready exactly when the FIFO has a ready first element. *)
Lemma rob_head_ready_items r :
  (0 < SIZE)%nat -> rob_wf r ->
  rob_head_ready r = match rob_items r with [] => false | e :: _ => rob_ready e end.
Proof.
  intros ? [Hr Hv]. pose proof (ring_head _ _ _ _ _ Hr) as Hh.
  specialize (Hv 0%nat). rewrite ring_at_0 in Hv by done.
  unfold rob_head_ready, rob_items. rewrite Hv by lia.
  destruct (rob_count r) as [|n]; [done|]. by rewrite ring_items_pop.
Qed.

(** An allocation whose entry is then filled in by [f], as the issue stages do it. *)
Lemma rob_issue f r :
  rob_wf r -> rob_count r <> SIZE -> (forall e, rob_valid (f e) = rob_valid e) ->
  let idx := (rob_allocate r).1 in
  let r1 := (rob_allocate r).2 in
  let r2 := { r1 with rob_entries := <[Z.to_nat idx := f (rob_entries r1 !!! Z.to_nat idx)]> (rob_entries r1) } in
  idx = Z.of_nat (ring_at SIZE (rob_head r) (rob_count r)) /\ rob_wf r2 /\ rob_head r2 = rob_head r /\
  exists e, rob_ready e = false /\ rob_items r2 = rob_items r ++ [f e].
Proof.
  intros Hwf Hn Hf idx r1 r2. pose proof (rob_allocate_wf r Hwf) as Hwf1.
  pose proof (rob_allocate_items r Hwf Hn) as Hit. cbv zeta in Hit.
  destruct Hwf as [Hr _]. pose proof (ring_head _ _ _ _ _ Hr). pose proof (ring_count _ _ _ _ _ Hr).
  assert (idx = Z.of_nat (ring_at SIZE (rob_head r) (rob_count r))) as Ei.
  { unfold idx, rob_allocate, rob_is_full. rewrite (proj2 (Nat.eqb_neq _ _)) by done. simpl.
    by rewrite (ring_tail _ _ _ _ _ Hr). }
  assert (rob_head r1 = rob_head r /\ rob_count r1 = S (rob_count r)) as [Eh Ec].
  { unfold r1, rob_allocate, rob_is_full. by rewrite (proj2 (Nat.eqb_neq _ _)). }
  split_and!; [done| |done|].
  - destruct Hwf1 as [Hr1 Hv1]. split; simpl; [eauto with ring|].
    apply ring_valid_update; [apply Hr1|by rewrite Hf|done].
  - eexists. split; [|unfold rob_items in *; simpl; rewrite Ei, Nat2Z.id;
      change (rob_head r2) with (rob_head r1) in *; fold r1 in Hit].
    2: { rewrite Eh, Ec, ring_items_insert by (try lia; apply Hwf1).
      rewrite Eh, Ec in Hit. rewrite Hit, insert_app_r_alt by (rewrite ring_items_length; lia).
      rewrite ring_items_length, Nat.sub_diag. simpl. reflexivity. }
    unfold r1, rob_allocate, rob_is_full. rewrite (proj2 (Nat.eqb_neq _ _)) by done. simpl.
    rewrite (ring_tail _ _ _ _ _ Hr), list_lookup_total_insert_eq; [done|].
    rewrite (ring_len _ _ _ _ _ Hr). apply ring_at_lt. lia.
Qed.

(** Completing the head and retiring it. *)
Lemma rob_commit r e q v d :
  rob_wf r -> rob_items r = e :: q ->
  let r1 := rob_complete (Z.of_nat (rob_head r)) v d r in
  rob_head_ready r1 = true /\
  rob_get_head r1 = { e with rob_ready := true; rob_result := u64 v; rob_dest_reg := u8 d } /\
  rob_wf (rob_retire r1) /\ rob_items (rob_retire r1) = q /\
  rob_head (rob_retire r1) = ring_at SIZE (rob_head r) 1.
Proof.
  intros Hwf Hit r1. pose proof (rob_wf_ring _ Hwf) as Hr.
  pose proof (ring_head _ _ _ _ _ Hr) as Hh. pose proof (rob_items_length r) as Hlen.
  rewrite Hit in Hlen. simpl in Hlen.
  pose proof (rob_complete_items r 0 v d Hwf ltac:(lia)) as H1. rewrite ring_at_0 in H1 by done.
  fold r1 in H1. rewrite Hit in H1. simpl in H1.
  pose proof (rob_complete_wf (Z.of_nat (rob_head r)) v d r Hwf) as Hwf1. fold r1 in Hwf1.
  assert (rob_head r1 = rob_head r /\ rob_count r1 = rob_count r) as [Eh Ec].
  { unfold r1, rob_complete. by case_match. }
  split_and!.
  - rewrite rob_head_ready_items by (done || lia). by rewrite H1.
  - unfold rob_items in H1. rewrite Eh, Ec, <-Hlen, ring_items_pop in H1 by done.
    unfold rob_get_head. rewrite Eh. by injection H1.
  - by apply rob_retire_wf.
  - rewrite rob_retire_items by done. by rewrite H1.
  - unfold rob_retire, rob_is_empty. by rewrite Ec, <-Hlen, Eh.
Qed.

(** [rob_abs r q]: the buffer [r] implements the FIFO [q]. *)
Definition rob_abs r (q : list ROBEntry) : Prop := rob_wf r /\ rob_items r = q.

(** The reorder buffer implements a bounded FIFO. *)
Theorem rob_refines_fifo r q :
  (0 < SIZE)%nat -> rob_abs r q ->
  (if decide (length q = SIZE) then rob_allocate r = (-1, r)
   else exists e, rob_valid e = true /\ rob_ready e = false /\ rob_exception e = false /\
          0 <= (rob_allocate r).1 /\ rob_at (rob_allocate r).2 (rob_allocate r).1 = Some e /\
          rob_abs (rob_allocate r).2 (q ++ [e])) /\
  rob_abs (rob_retire r) (tail q) /\
  (forall k v d, (k < length q)%nat ->
     rob_abs (rob_complete (Z.of_nat (ring_at SIZE (rob_head r) k)) v d r)
       (alter (fun e => { e with rob_ready := true; rob_result := u64 v;
                                 rob_dest_reg := u8 d }) k q)) /\
  rob_abs (rob_flush r) [] /\
  rob_head_ready r = match q with [] => false | e :: _ => rob_ready e end.
Proof.
  intros HS [Hwf <-]. rewrite rob_items_length. pose proof (rob_wf_ring _ Hwf) as Hr.
  split_and!.
  - case_decide as E.
    + unfold rob_allocate, rob_is_full. by rewrite (proj2 (Nat.eqb_eq _ _) E).
    + eexists. split_and!; [..|split; [by apply rob_allocate_wf|by apply rob_allocate_items]];
        try done; unfold rob_allocate, rob_is_full; rewrite (proj2 (Nat.eqb_neq _ _) E); simpl.
      * lia.
      * unfold rob_at; simpl. rewrite (proj2 (Z.ltb_ge _ _)), Nat2Z.id by lia.
        apply list_lookup_insert_eq. destruct Hr as [-> ? ? ->]. by apply ring_at_lt.
  - split; [by apply rob_retire_wf|by apply rob_retire_items].
  - intros. split; [by apply rob_complete_wf|by apply rob_complete_items].
  - split; [by apply rob_flush_wf|done].
  - by apply rob_head_ready_items.
Qed.
End rob.

Arguments rob_wf_ring {_ _} _.
Arguments rob_wf_valid {_ _} _ _ _.

(** A four-entry buffer with one instruction in flight. *)
Example rob_refines_fifo_witness :
  let r := (rob_allocate 4 (rob_new 4)).2 in
  rob_abs 4 r (rob_items 4 r) /\ rob_head_ready r = false /\ rob_abs 4 (rob_retire 4 r) [].
Proof.
  intros r. assert (Hr : rob_abs 4 r (rob_items 4 r)).
  { split; [apply rob_allocate_wf, rob_new_wf; lia|done]. }
  destruct (rob_refines_fifo 4 r (rob_items 4 r) ltac:(lia) Hr) as (_ & Hret & _ & _ & Hrdy).
  split_and!; [exact Hr|exact Hrdy|exact Hret].
Defined.
