(* ===== verification/Scoreboard.v ===== *)
(** [inc/Scoreboard.h]: the scoreboard of the 6-stage RV64 pipeline, at once
    issue FIFO and reorder buffer, with the two clobber tables that say which
    entry produces each register.  [sb_items] is the FIFO of in-flight entries;
    [sb_wf] the invariant every operation preserves. *)
From S2P Require Import Prelude Ring.

Inductive FunctionalUnit :=
  | FU_NONE | FU_ALU | FU_LSU | FU_BRANCH | FU_CSR | FU_MUL | FU_DIV | FU_FPU.

#[export] Instance FunctionalUnit_eq_dec : EqDecision FunctionalUnit.
Proof. solve_decision. Defined.

Record SBEntry := mkSBEntry {
  sb_valid : bool;
  sb_ready : bool;
  sb_rd : Z;              (* uint8_t *)
  sb_result : Z;          (* uint64_t *)
  sb_fu : FunctionalUnit;
  sb_pc : Z;
  sb_is_store : bool;
  sb_is_branch : bool;
  sb_exception : bool;
  sb_exception_cause : Z;
  sb_trans_id : Z;        (* int, -1 is none *)
  sb_writes_to_fp_reg : bool;
}.

Definition sb_entry0 : SBEntry :=
  mkSBEntry false false 0 0 FU_NONE 0 false false false 0 (-1) false.
#[export] Instance SBEntry_inhabited : Inhabited SBEntry := populate sb_entry0.

Record ClobberInfo := mkClobber {
  cl_busy : bool;
  cl_fu : FunctionalUnit;
  cl_trans_id : Z;
}.

Definition clobber0 : ClobberInfo := mkClobber false FU_NONE (-1).
#[export] Instance ClobberInfo_inhabited : Inhabited ClobberInfo := populate clobber0.

Record Scoreboard := mkSB {
  sb_entries : list SBEntry;
  sb_head : nat;
  sb_tail : nat;
  sb_count : nat;
  rd_clobber : list ClobberInfo;   (* ClobberInfo[32] *)
  fp_clobber : list ClobberInfo;
}.

Section scoreboard.
Context (SIZE : nat).
Implicit Types (s : Scoreboard) (idx : Z).

Definition sb_new : Scoreboard :=
  mkSB (replicate SIZE sb_entry0) 0 0 0 (replicate 32 clobber0) (replicate 32 clobber0).

Definition sb_is_full s : bool := (sb_count s =? SIZE)%nat.
Definition sb_is_empty s : bool := (sb_count s =? 0)%nat.
Definition sb_get_count s : nat := sb_count s.
Definition sb_get_head s : SBEntry := sb_entries s !!! sb_head s.
Definition sb_get_head_index s : Z := Z.of_nat (sb_head s).

(** [operator[]] and [get_entry]: unchecked in the code, [None] is out of bounds. *)
Definition sb_get_entry s idx : option SBEntry :=
  if idx <? 0 then None else sb_entries s !! Z.to_nat idx.

Definition sb_head_ready s : bool :=
  (0 <? sb_count s)%nat &&
  sb_valid (sb_entries s !!! sb_head s) && sb_ready (sb_entries s !!! sb_head s).

Definition sb_allocate s : Z * Scoreboard :=
  if sb_is_full s then (-1, s) else
  let idx := sb_tail s in
  let e := { sb_entry0 with sb_valid := true; sb_trans_id := Z.of_nat idx } in
  (Z.of_nat idx,
   { s with sb_entries := <[idx := e]> (sb_entries s);
            sb_tail := ((sb_tail s + 1) mod SIZE)%nat;
            sb_count := S (sb_count s) }).

Definition sb_complete idx result rd s : Scoreboard :=
  if (idx <? 0) || (Z.of_nat SIZE <=? idx) then s else
  let i := Z.to_nat idx in
  let e := sb_entries s !!! i in
  { s with sb_entries :=
      <[i := { e with sb_ready := true; sb_result := u64 result; sb_rd := u8 rd }]>
        (sb_entries s) }.

(** A write through [operator[]], as Issue and EX do to fill an entry. *)
Definition sb_set_entry idx (f : SBEntry -> SBEntry) s : Scoreboard :=
  { s with sb_entries := alter f (Z.to_nat idx) (sb_entries s) }.

Definition sb_retire s : Scoreboard :=
  if sb_is_empty s then s else
  let e := sb_entries s !!! sb_head s in
  { s with sb_entries := <[sb_head s := { e with sb_valid := false }]> (sb_entries s);
           sb_head := ((sb_head s + 1) mod SIZE)%nat;
           sb_count := pred (sb_count s) }.

Definition clobber_clear (c : ClobberInfo) : ClobberInfo :=
  { c with cl_busy := false; cl_trans_id := -1 }.

Definition sb_flush s : Scoreboard :=
  mkSB ((fun e => { e with sb_valid := false; sb_ready := false }) <$> sb_entries s)
    0 0 0 (clobber_clear <$> rd_clobber s) (clobber_clear <$> fp_clobber s).

(** Clear the clobber of [rd] when it points to entry [curr]. *)
Definition clobber_release (curr : nat) (rd : Z) (c : list ClobberInfo) : list ClobberInfo :=
  let ci := c !!! Z.to_nat rd in
  if cl_busy ci && (cl_trans_id ci =? Z.of_nat curr)
  then <[Z.to_nat rd := clobber_clear ci]> c else c.

(** One iteration of the loop of [flush_speculative].  [count--] is on a
    [size_t]; it runs only on a valid entry, of which there are [count]. *)
Definition sb_squash (curr : nat) s : Scoreboard :=
  let e := sb_entries s !!! curr in
  if sb_valid e then
    { s with rd_clobber := clobber_release curr (sb_rd e) (rd_clobber s);
             fp_clobber := clobber_release curr (sb_rd e) (fp_clobber s);
             sb_entries := <[curr := { e with sb_valid := false; sb_ready := false }]>
                             (sb_entries s);
             sb_count := pred (sb_count s) }
  else s.

(** [while (curr != end_tail)]; [None] when the fuel runs out. *)
Fixpoint sb_squash_loop (fuel curr end_tail : nat) s : option Scoreboard :=
  match fuel with
  | O => None
  | S fuel =>
    if (curr =? end_tail)%nat then Some s
    else sb_squash_loop fuel ((curr + 1) mod SIZE)%nat end_tail (sb_squash curr s)
  end.

Definition sb_flush_speculative (branch_rob_idx : Z) s : option Scoreboard :=
  if (branch_rob_idx <? 0) || (Z.of_nat SIZE <=? branch_rob_idx) then Some s else
  let next := ((Z.to_nat branch_rob_idx + 1) mod SIZE)%nat in
  s' ← sb_squash_loop (S SIZE) next (sb_tail s) s;
  Some { s' with sb_tail := next }.
(** The FIFO of in-flight instructions, and the well-formedness invariant: the
    pointers are consistent, exactly the window is valid, and an in-flight entry
    knows its own index and writes a register of the file. *)
Definition sb_items s : list SBEntry :=
  ring_items SIZE (sb_entries s) (sb_head s) (sb_count s).

Definition sb_slot s (k : nat) : nat := ring_at SIZE (sb_head s) k.

Record sb_wf s : Prop := {
  sb_wf_ring : ring_wf SIZE (sb_entries s) (sb_head s) (sb_tail s) (sb_count s);
  sb_wf_valid : ring_valid SIZE sb_valid (sb_entries s) (sb_head s) (sb_count s);
  sb_wf_trans : forall k, (k < sb_count s)%nat ->
    sb_trans_id (sb_entries s !!! sb_slot s k) = Z.of_nat (sb_slot s k);
  sb_wf_dest : forall k, (k < sb_count s)%nat ->
    0 <= sb_rd (sb_entries s !!! sb_slot s k) < 32;
  sb_wf_rd : length (rd_clobber s) = 32%nat;
  sb_wf_fp : length (fp_clobber s) = 32%nat;
}.

Lemma sb_items_length s : length (sb_items s) = sb_count s.
Proof. apply ring_items_length. Qed.

Lemma sb_new_wf : (0 < SIZE)%nat -> sb_wf sb_new.
Proof.
  intros. split; simpl; [| |lia|lia|done..].
  - split; [by rewrite length_replicate|done|lia|by rewrite ring_at_0].
  - apply ring_valid_none; [by rewrite length_replicate|].
    intros. by rewrite lookup_total_replicate_2.
Qed.

(** The transaction ids of the window, as a list. *)
Lemma sb_slot_insert_ne s k i e :
  (sb_head s < SIZE)%nat -> (k < SIZE)%nat -> (i < SIZE)%nat -> i <> k ->
  <[sb_slot s i := e]> (sb_entries s) !!! sb_slot s k = sb_entries s !!! sb_slot s k.
Proof.
  intros. apply list_lookup_total_insert_ne. intros E. apply ring_at_inj in E; lia.
Qed.

Lemma sb_slot_insert_eq s k e :
  length (sb_entries s) = SIZE -> (0 < SIZE)%nat ->
  <[sb_slot s k := e]> (sb_entries s) !!! sb_slot s k = e.
Proof.
  intros Hl ?. apply list_lookup_total_insert_eq. rewrite Hl. by apply ring_at_lt.
Qed.

Lemma sb_allocate_full s : sb_count s = SIZE -> sb_allocate s = (-1, s).
Proof. intros E. unfold sb_allocate, sb_is_full. by rewrite (proj2 (Nat.eqb_eq _ _) E). Qed.

Lemma sb_allocate_wf s : sb_wf s -> sb_wf (sb_allocate s).2.
Proof.
  intros [Hr Hv Ht Hd Hrd Hfp]. pose proof (ring_count _ _ _ _ _ Hr).
  unfold sb_allocate, sb_is_full. case (Nat.eqb_spec (sb_count s) SIZE); [done|].
  intros. destruct (Hr) as [Hl Hh Hn Htl].
  split; simpl; eauto with ring; unfold sb_slot; simpl; intros k Hk; rewrite Htl;
    (destruct (decide (k = sb_count s)) as [->|];
     [ rewrite list_lookup_total_insert_eq by (rewrite Hl; apply ring_at_lt; lia); done
     | rewrite list_lookup_total_insert_ne by (intros E; apply ring_at_inj in E; lia) ]).
  - apply Ht. lia.
  - apply Hd. lia.
Qed.

Lemma sb_allocate_items s :
  sb_wf s -> sb_count s <> SIZE ->
  sb_items (sb_allocate s).2 = sb_items s ++
    [{ sb_entry0 with sb_valid := true; sb_trans_id := Z.of_nat (sb_tail s) }].
Proof.
  intros [Hr _ _ _ _ _] Hne. pose proof (ring_count _ _ _ _ _ Hr).
  unfold sb_allocate, sb_is_full. rewrite (proj2 (Nat.eqb_neq _ _) Hne).
  unfold sb_items; simpl. eapply ring_items_push; [done|lia].
Qed.

(** Any update in place that keeps the valid bit and the index. *)
Lemma sb_update_wf s i e :
  sb_wf s -> sb_valid e = sb_valid (sb_entries s !!! i) ->
  sb_trans_id e = sb_trans_id (sb_entries s !!! i) -> 0 <= sb_rd e < 32 ->
  sb_wf { s with sb_entries := <[i := e]> (sb_entries s) }.
Proof.
  intros [Hr Hv Ht Hd Hrd Hfp] Hve Hte Hde.
  assert (Hk : forall k, (k < sb_count s)%nat ->
    <[i := e]> (sb_entries s) !!! sb_slot s k =
      if decide (sb_slot s k = i) then e else sb_entries s !!! sb_slot s k).
  { intros k Hk. case_decide as E; [|by apply list_lookup_total_insert_ne].
    rewrite <-E. apply sb_slot_insert_eq; [apply Hr|].
    pose proof (ring_count _ _ _ _ _ Hr). lia. }
  split; simpl; eauto with ring; [apply ring_valid_update; [apply Hr|done..]|..];
    intros k Hlt; change (sb_slot _ k) with (sb_slot s k); rewrite Hk by done;
    case_decide as E; subst; rewrite ?Hte; eauto.
Qed.

Lemma sb_complete_wf idx v d s :
  0 <= d < 32 -> sb_wf s -> sb_wf (sb_complete idx v d s).
Proof.
  intros Hd ?. unfold sb_complete. case_match; [done|]. apply sb_update_wf; try done.
  simpl. rewrite wrap_small; [done|]. unfold fits. lia.
Qed.

Lemma sb_complete_items s k v d :
  sb_wf s -> (k < sb_count s)%nat ->
  sb_items (sb_complete (Z.of_nat (sb_slot s k)) v d s) =
    alter (fun e => { e with sb_ready := true; sb_result := u64 v; sb_rd := u8 d })
      k (sb_items s).
Proof.
  intros [Hr _ _ _ _ _] Hk. pose proof (ring_head _ _ _ _ _ Hr). pose proof (ring_count _ _ _ _ _ Hr).
  pose proof (ring_at_lt SIZE (sb_head s) k ltac:(lia)). unfold sb_slot.
  unfold sb_complete. rewrite (proj2 (Z.ltb_ge _ _)), (proj2 (Z.leb_gt _ _)) by lia.
  simpl. rewrite Nat2Z.id. unfold sb_items; simpl.
  rewrite ring_items_insert by (apply Hr || done).
  by erewrite list_alter_insert by (by apply ring_items_lookup).
Qed.
Lemma sb_retire_wf s : sb_wf s -> sb_wf (sb_retire s).
Proof.
  intros Hwf. pose proof Hwf as [Hr Hv Ht Hd Hrd Hfp]. unfold sb_retire, sb_is_empty.
  destruct (sb_count s) as [|n] eqn:E; simpl; [done|].
  pose proof (ring_count _ _ _ _ _ Hr). pose proof (ring_head _ _ _ _ _ Hr).
  split; simpl; rewrite ?E; simpl; eauto with ring; unfold sb_slot; simpl; intros k Hk;
    change ((sb_head s + 1) mod SIZE)%nat with (ring_at SIZE (sb_head s) 1);
    rewrite ring_at_at, list_lookup_total_insert_ne;
    [apply Ht; lia|by apply ring_at_head_ne; lia|apply Hd; lia|by apply ring_at_head_ne; lia].
Qed.

Lemma sb_retire_items s : sb_wf s -> sb_items (sb_retire s) = tail (sb_items s).
Proof.
  intros [Hr Hv _ _ _ _]. unfold sb_retire, sb_is_empty, sb_items.
  destruct (sb_count s) as [|n] eqn:E; [simpl; by rewrite E|].
  pose proof (ring_head _ _ _ _ _ Hr). pose proof (ring_count _ _ _ _ _ Hr).
  rewrite ring_items_pop by done. simpl.
  apply ring_items_ext. intros k ?. apply list_lookup_total_insert_ne.
  change ((sb_head s + 1) mod SIZE)%nat with (ring_at SIZE (sb_head s) 1).
  rewrite ring_at_at. by apply ring_at_head_ne; lia.
Qed.

Lemma sb_flush_wf s : (0 < SIZE)%nat -> sb_wf s -> sb_wf (sb_flush s).
Proof.
  intros ? [Hr _ _ _ Hrd Hfp]. pose proof (ring_len _ _ _ _ _ Hr) as Hl.
  split; simpl; [| |lia|lia|by rewrite length_fmap..].
  - split; [by rewrite length_fmap|done|lia|by rewrite ring_at_0].
  - apply ring_valid_none; [by rewrite length_fmap|].
    intros i Hi. by rewrite lookup_total_fmap_lt by lia.
Qed.

Lemma sb_head_ready_items s :
  (0 < SIZE)%nat -> sb_wf s ->
  sb_head_ready s = match sb_items s with [] => false | e :: _ => sb_ready e end.
Proof.
  intros ? [Hr Hv _ _ _ _]. pose proof (ring_head _ _ _ _ _ Hr) as Hh.
  specialize (Hv 0%nat). rewrite ring_at_0 in Hv by done.
  unfold sb_head_ready, sb_items. rewrite Hv by lia.
  destruct (sb_count s) as [|n]; [done|]. by rewrite ring_items_pop.
Qed.

(** *** Squashing the wrong path *)

Definition sb_kill (e : SBEntry) : SBEntry := { e with sb_valid := false; sb_ready := false }.

(** The clobber of register [r] is released when it names a squashed entry
    (an offset in [[j, n)]) that writes [r]. *)
Definition sb_dropped s (j n : nat) (r : nat) (c : ClobberInfo) : bool :=
  existsb (fun i => (cl_trans_id c =? Z.of_nat (sb_slot s i)) &&
                    (sb_rd (sb_entries s !!! sb_slot s i) =? Z.of_nat r)) (seq j (n - j)).

Definition clobber_after (s : Scoreboard) (j n : nat) (r : nat) (c : ClobberInfo) :=
  if cl_busy c && sb_dropped s j n r c then clobber_clear c else c.

Lemma clobber_release_lookup curr rd c r :
  length c = 32%nat -> 0 <= rd < 32 -> (r < 32)%nat ->
  clobber_release curr rd c !!! r =
    let ci := c !!! r in
    if cl_busy ci && ((cl_trans_id ci =? Z.of_nat curr) && (rd =? Z.of_nat r))
    then clobber_clear ci else ci.
Proof.
  intros Hl Hrd Hr. unfold clobber_release. cbv zeta.
  destruct (decide (Z.to_nat rd = r)) as [E|E].
  - rewrite E, (proj2 (Z.eqb_eq rd (Z.of_nat r))), andb_true_r by lia.
    case_match; [|done]. apply list_lookup_total_insert_eq. lia.
  - rewrite (proj2 (Z.eqb_neq rd (Z.of_nat r))), !andb_false_r by lia.
    case_match; [|done]. by apply list_lookup_total_insert_ne.
Qed.

Lemma clobber_release_length curr rd c : length (clobber_release curr rd c) = length c.
Proof. unfold clobber_release. case_match; [apply length_insert|done]. Qed.

(** The squash loop reaches [tail] and kills exactly the offsets [[j, n)]. *)
Record sb_squashed s s' (j n : nat) : Prop := {
  sq_head : sb_head s' = sb_head s;
  sq_tail : sb_tail s' = sb_tail s;
  sq_count : sb_count s' = (sb_count s - (n - j))%nat;
  sq_len : length (sb_entries s') = SIZE;
  sq_entries : forall i, (i < SIZE)%nat ->
    sb_entries s' !!! sb_slot s i =
      let e := sb_entries s !!! sb_slot s i in
      if decide (j <= i < n)%nat then sb_kill e else e;
  sq_rd_len : length (rd_clobber s') = 32%nat;
  sq_fp_len : length (fp_clobber s') = 32%nat;
  sq_rd : forall r, (r < 32)%nat ->
    rd_clobber s' !!! r = clobber_after s j n r (rd_clobber s !!! r);
  sq_fp : forall r, (r < 32)%nat ->
    fp_clobber s' !!! r = clobber_after s j n r (fp_clobber s !!! r);
}.

Lemma sb_dropped_step s s1 j n r c :
  (forall i, sb_rd (sb_entries s1 !!! sb_slot s i) = sb_rd (sb_entries s !!! sb_slot s i)) ->
  sb_head s1 = sb_head s -> (j < n)%nat ->
  sb_dropped s j n r c =
    ((cl_trans_id c =? Z.of_nat (sb_slot s j)) &&
     (sb_rd (sb_entries s !!! sb_slot s j) =? Z.of_nat r)) || sb_dropped s1 (S j) n r c.
Proof.
  intros He Hh ?. unfold sb_dropped, sb_slot in *. rewrite Hh.
  replace (n - j)%nat with (S (n - S j)) by lia. simpl. f_equal.
  induction (seq (S j) (n - S j)) as [|i js IH]; simpl; [done|].
  by rewrite He, IH.
Qed.

Lemma clobber_after_step s s1 j n r c :
  (forall i, sb_rd (sb_entries s1 !!! sb_slot s i) = sb_rd (sb_entries s !!! sb_slot s i)) ->
  sb_head s1 = sb_head s -> (j < n)%nat ->
  clobber_after s1 (S j) n r
    (if cl_busy c && ((cl_trans_id c =? Z.of_nat (sb_slot s j)) &&
                      (sb_rd (sb_entries s !!! sb_slot s j) =? Z.of_nat r))
     then clobber_clear c else c) = clobber_after s j n r c.
Proof.
  intros He Hh Hj. unfold clobber_after. rewrite (sb_dropped_step s s1 j n) by done.
  destruct (cl_busy c) eqn:Eb; simpl; [|by rewrite Eb].
  generalize ((cl_trans_id c =? Z.of_nat (sb_slot s j)) &&
              (sb_rd (sb_entries s !!! sb_slot s j) =? Z.of_nat r)).
  intros []; simpl; [done|by rewrite Eb].
Qed.
Lemma sb_squash_loop_spec s j n fuel :
  (n - j < fuel)%nat -> (1 <= j <= n)%nat -> (n <= SIZE)%nat -> (n - j <= sb_count s)%nat ->
  (sb_head s < SIZE)%nat -> length (sb_entries s) = SIZE ->
  length (rd_clobber s) = 32%nat -> length (fp_clobber s) = 32%nat ->
  (forall i, (j <= i < n)%nat -> sb_valid (sb_entries s !!! sb_slot s i) = true) ->
  (forall i, (j <= i < n)%nat -> 0 <= sb_rd (sb_entries s !!! sb_slot s i) < 32) ->
  exists s', sb_squash_loop fuel (sb_slot s j) (sb_slot s n) s = Some s' /\
             sb_squashed s s' j n.
Proof.
  revert s j. induction fuel as [|fuel IH]; intros s j; [lia|].
  intros Hf Hj Hn Hc Hh Hl Hrl Hfl Hv Hrd. simpl.
  destruct (decide (j = n)) as [->|Hne].
  - rewrite Nat.eqb_refl. exists s. split; [done|]. split; try done; [lia|..].
    + intros i ?. simpl. case_decide; [lia|done].
    + intros r ?. unfold clobber_after, sb_dropped. rewrite Nat.sub_diag. simpl.
      by rewrite andb_false_r.
    + intros r ?. unfold clobber_after, sb_dropped. rewrite Nat.sub_diag. simpl.
      by rewrite andb_false_r.
  - rewrite (proj2 (Nat.eqb_neq _ _)) by (intros E; apply ring_at_inj_window in E; lia).
    change ((sb_slot s j + 1) mod SIZE)%nat with (ring_at SIZE (sb_slot s j) 1).
    unfold sb_slot at 1. rewrite ring_at_at, Nat.add_1_r.
    set (s1 := sb_squash (sb_slot s j) s).
    pose proof (Hv j ltac:(lia)) as Hvj.
    assert (Hs1 : s1 = { s with
      rd_clobber := clobber_release (sb_slot s j) (sb_rd (sb_entries s !!! sb_slot s j)) (rd_clobber s);
      fp_clobber := clobber_release (sb_slot s j) (sb_rd (sb_entries s !!! sb_slot s j)) (fp_clobber s);
      sb_entries := <[sb_slot s j := sb_kill (sb_entries s !!! sb_slot s j)]> (sb_entries s);
      sb_count := pred (sb_count s) }).
    { unfold s1, sb_squash. by rewrite Hvj. }
    assert (Hslot : forall i, sb_slot s1 i = sb_slot s i) by (intros; by rewrite Hs1).
    assert (Hne' : forall i, (i < SIZE)%nat -> i <> j ->
              sb_entries s1 !!! sb_slot s i = sb_entries s !!! sb_slot s i).
    { intros i ??. rewrite Hs1; simpl. apply sb_slot_insert_ne; lia. }
    assert (Heq : sb_entries s1 !!! sb_slot s j = sb_kill (sb_entries s !!! sb_slot s j)).
    { rewrite Hs1; simpl. apply sb_slot_insert_eq; [done|lia]. }
    assert (Hrds : forall i, sb_rd (sb_entries s1 !!! sb_slot s i) =
                             sb_rd (sb_entries s !!! sb_slot s i)).
    { intros i. rewrite Hs1; simpl.
      destruct (decide (sb_slot s i = sb_slot s j)) as [->|].
      - rewrite sb_slot_insert_eq by (done || lia). done.
      - by rewrite list_lookup_total_insert_ne. }
    destruct (IH s1 (S j)) as (s' & Hloop & Hsq);
      [lia|lia|done|rewrite Hs1; simpl; lia|by rewrite Hs1
      |rewrite Hs1; simpl; by rewrite length_insert
      |rewrite Hs1; simpl; by rewrite clobber_release_length
      |rewrite Hs1; simpl; by rewrite clobber_release_length
      |intros i ?; rewrite Hslot, Hne' by lia; apply Hv; lia
      |intros i ?; rewrite Hslot, Hrds; apply Hrd; lia|].
    rewrite !Hslot in Hloop. exists s'. split; [exact Hloop|].
    assert (sb_head s1 = sb_head s) by (by rewrite Hs1).
    destruct Hsq. split; try done.
    + congruence.
    + rewrite sq_tail0. by rewrite Hs1.
    + rewrite sq_count0. rewrite Hs1; simpl. lia.
    + intros i Hi. rewrite <-Hslot, sq_entries0, Hslot by done. simpl.
      destruct (decide (i = j)) as [->|].
      * rewrite !decide_False, decide_True by lia. done.
      * rewrite Hne' by done. repeat case_decide; (done || lia).
    + intros r Hr. rewrite sq_rd0 by done.
      rewrite <-(clobber_after_step s s1) by (done || lia). f_equal.
      rewrite Hs1; simpl. rewrite clobber_release_lookup by (done || apply Hrd; lia). done.
    + intros r Hr. rewrite sq_fp0 by done.
      rewrite <-(clobber_after_step s s1) by (done || lia). f_equal.
      rewrite Hs1; simpl. rewrite clobber_release_lookup by (done || apply Hrd; lia). done.
Qed.
(** The result of [flush_speculative] on an in-flight branch at offset [k]. *)
Lemma sb_flush_speculative_sq s k :
  sb_wf s -> (k < sb_count s)%nat ->
  exists s', sb_flush_speculative (Z.of_nat (sb_slot s k)) s =
               Some { s' with sb_tail := sb_slot s (S k) } /\
             sb_squashed s s' (S k) (sb_count s).
Proof.
  intros [Hr Hv Ht Hd Hrd Hfp] Hk. destruct (Hr) as [Hl Hh Hn Htl].
  pose proof (ring_at_lt SIZE (sb_head s) k ltac:(lia)).
  unfold sb_flush_speculative. rewrite (proj2 (Z.ltb_ge _ _)), (proj2 (Z.leb_gt _ _))
    by (unfold sb_slot; lia). cbn [orb]. cbv zeta. rewrite Nat2Z.id.
  change ((sb_slot s k + 1) mod SIZE)%nat with (ring_at SIZE (sb_slot s k) 1).
  unfold sb_slot at 1 2. rewrite ring_at_at, Nat.add_1_r, Htl.
  destruct (sb_squash_loop_spec s (S k) (sb_count s) (S SIZE)) as (s' & E & Hsq);
    try done; try lia.
  - intros i Hi. unfold sb_slot. rewrite Hv by lia. apply bool_decide_eq_true. lia.
  - intros i Hi. apply Hd. lia.
  - unfold sb_slot in E |- *. rewrite E. by exists s'.
Qed.

Lemma sb_squashed_wf s s' k :
  sb_wf s -> (k < sb_count s)%nat -> sb_squashed s s' (S k) (sb_count s) ->
  sb_wf { s' with sb_tail := sb_slot s (S k) }.
Proof.
  intros [Hr Hv Ht Hd Hrd Hfp] Hk []. destruct (Hr) as [Hl Hh Hn Htl].
  assert (Hc : sb_count s' = S k) by lia.
  split; simpl; try done; unfold sb_slot; simpl; rewrite ?sq_head0, ?Hc.
  - split; [done|done|lia|done].
  - intros i Hi. fold (sb_slot s i). rewrite sq_entries0 by done. simpl.
    specialize (Hv i Hi). fold (sb_slot s i) in Hv.
    destruct (decide (S k <= i < sb_count s)%nat); simpl.
    + symmetry. apply bool_decide_eq_false. lia.
    + rewrite Hv. apply bool_decide_ext. lia.
  - intros i Hi. fold (sb_slot s i). rewrite sq_entries0 by lia. simpl.
    rewrite decide_False by lia. apply Ht. lia.
  - intros i Hi. fold (sb_slot s i). rewrite sq_entries0 by lia. simpl.
    rewrite decide_False by lia. apply Hd. lia.
Qed.

Lemma sb_squashed_items s s' k :
  sb_wf s -> (k < sb_count s)%nat -> sb_squashed s s' (S k) (sb_count s) ->
  sb_items { s' with sb_tail := sb_slot s (S k) } = take (S k) (sb_items s).
Proof.
  intros [Hr _ _ _ _ _] Hk []. pose proof (ring_count _ _ _ _ _ Hr).
  unfold sb_items; simpl. rewrite sq_head0, sq_count0.
  replace (sb_count s - (sb_count s - S k))%nat with (S k) by lia.
  rewrite <-ring_items_take by lia. apply ring_items_ext. intros i Hi.
  fold (sb_slot s i). rewrite sq_entries0 by lia. simpl. by rewrite decide_False by lia.
Qed.

(** A busy clobber of a table names an in-flight entry that writes the register. *)
Definition clobber_ok s (c : list ClobberInfo) : Prop :=
  forall r, (r < 32)%nat -> cl_busy (c !!! r) = true ->
    exists i, (i < sb_count s)%nat /\ cl_trans_id (c !!! r) = Z.of_nat (sb_slot s i) /\
              sb_rd (sb_entries s !!! sb_slot s i) = Z.of_nat r.

Lemma sb_dropped_true s j n r c i :
  (j <= i < n)%nat -> cl_trans_id c = Z.of_nat (sb_slot s i) ->
  sb_rd (sb_entries s !!! sb_slot s i) = Z.of_nat r -> sb_dropped s j n r c = true.
Proof.
  intros Hi E1 E2. apply existsb_exists. exists i. split.
  - apply in_seq. lia.
  - by rewrite E1, E2, !Z.eqb_refl.
Qed.

Lemma sb_squashed_clobber s s' k c c' :
  sb_wf s -> (k < sb_count s)%nat -> sb_squashed s s' (S k) (sb_count s) ->
  (forall r, (r < 32)%nat -> c' !!! r = clobber_after s (S k) (sb_count s) r (c !!! r)) ->
  clobber_ok s c -> clobber_ok { s' with sb_tail := sb_slot s (S k) } c'.
Proof.
  intros Hwf Hk [] Hc Hok r Hr. rewrite Hc by done. unfold clobber_after.
  destruct (cl_busy (c !!! r)) eqn:Eb; simpl; [|by rewrite Eb].
  destruct (Hok r Hr Eb) as (i & Hi & E1 & E2).
  destruct (sb_dropped _ _ _ _ _) eqn:Ed; simpl; [done|]. intros _.
  destruct (decide (S k <= i)%nat).
  - erewrite sb_dropped_true in Ed; [done|split; [done|exact Hi]|done..].
  - exists i. split_and!; [lia| |].
    + unfold sb_slot; simpl. by rewrite sq_head0.
    + unfold sb_slot; simpl. rewrite sq_head0. fold (sb_slot s i).
      pose proof (ring_count _ _ _ _ _ (sb_wf_ring _ Hwf)).
      rewrite sq_entries0 by lia. simpl. by rewrite decide_False by lia.
Qed.
(** *** The scoreboard as a bounded FIFO with a squash

    A call of the pipeline on the scoreboard, with the handle or the entry it returns.  A
    handle is the index that [allocate] gave out; [sb_step] is what the code does on a call,
    [fifo_step] what the call means for the sequence of in-flight instructions in program
    order, where a handle names the one instruction that carries it. *)
Inductive sb_call :=
  | Allocate (ret : Z)
  | SetEntry (idx : Z) (f : SBEntry -> SBEntry)
  | Complete (idx result rd : Z)
  | Retire (ret : SBEntry)
  | Flush
  | FlushSpeculative (idx : Z).

(** The pipeline refers to in-flight instructions only, fills an entry without touching
    its valid bit and its index, and retires what [head_ready] and [get_head] show. *)
Inductive sb_step : Scoreboard -> sb_call -> Scoreboard -> Prop :=
  | step_allocate s : sb_step s (Allocate (sb_allocate s).1) (sb_allocate s).2
  | step_fill s k (f : SBEntry -> SBEntry) (idx := Z.of_nat (sb_slot s k)) :
      (k < sb_count s)%nat ->
      (forall e, sb_valid (f e) = sb_valid e /\ sb_trans_id (f e) = sb_trans_id e /\
                 0 <= sb_rd (f e) < 32) ->
      sb_step s (SetEntry idx f) (sb_set_entry idx f s)
  | step_complete s k v d (idx := Z.of_nat (sb_slot s k)) :
      (k < sb_count s)%nat -> 0 <= d < 32 ->
      sb_step s (Complete idx v d) (sb_complete idx v d s)
  | step_retire s : sb_head_ready s = true -> sb_step s (Retire (sb_get_head s)) (sb_retire s)
  | step_flush s : sb_step s Flush (sb_flush s)
  | step_flush_speculative s k s' (idx := Z.of_nat (sb_slot s k)) :
      (k < sb_count s)%nat ->
      sb_flush_speculative idx s = Some s' -> sb_step s (FlushSpeculative idx) s'.

(** The instruction at position [k], oldest first, carries the handle [idx]. *)
Definition names (q : list SBEntry) (idx : Z) (k : nat) : Prop := sb_trans_id <$> q !! k = Some idx.

Inductive fifo_step : list SBEntry -> sb_call -> list SBEntry -> Prop :=
  | fifo_full q : length q = SIZE -> fifo_step q (Allocate (-1)) q
  | fifo_allocate q idx :
      (length q < SIZE)%nat -> 0 <= idx < Z.of_nat SIZE -> idx ∉ sb_trans_id <$> q ->
      fifo_step q (Allocate idx) (q ++ [{ sb_entry0 with sb_valid := true; sb_trans_id := idx }])
  | fifo_fill q idx f k : names q idx k -> fifo_step q (SetEntry idx f) (alter f k q)
  | fifo_complete q idx v d k :
      names q idx k ->
      fifo_step q (Complete idx v d)
        (alter (fun e => { e with sb_ready := true; sb_result := u64 v; sb_rd := u8 d }) k q)
  | fifo_retire e q : sb_ready e = true -> fifo_step (e :: q) (Retire e) q
  | fifo_flush q : fifo_step q Flush []
  | fifo_squash q idx k : names q idx k -> fifo_step q (FlushSpeculative idx) (take (S k) q).

(** Sequences of calls. *)
Inductive calls {A} (step : A -> sb_call -> A -> Prop) : A -> list sb_call -> A -> Prop :=
  | calls_nil a : calls step a [] a
  | calls_cons a c b cs z : step a c b -> calls step b cs z -> calls step a (c :: cs) z.

Lemma sb_set_entry_alter s k f :
  length (sb_entries s) = SIZE -> (sb_slot s k < SIZE)%nat ->
  sb_set_entry (Z.of_nat (sb_slot s k)) f s =
    { s with sb_entries := <[sb_slot s k := f (sb_entries s !!! sb_slot s k)]> (sb_entries s) }.
Proof.
  intros Hl Hk. unfold sb_set_entry. rewrite Nat2Z.id.
  by erewrite list_alter_insert by (apply list_lookup_lookup_total_lt; lia).
Qed.

Lemma sb_step_wf s c s' : (0 < SIZE)%nat -> sb_wf s -> sb_step s c s' -> sb_wf s'.
Proof.
  intros HS Hwf Hst. pose proof (sb_wf_ring _ Hwf) as Hr.
  destruct Hst as [s|s k f idx Hk Hf|s k v d idx Hk Hd|s Hh|s|s k s' idx Hk E].
  - by apply sb_allocate_wf.
  - unfold idx. rewrite sb_set_entry_alter by (apply Hr || by apply ring_at_lt).
    apply sb_update_wf; try done; apply Hf.
  - by apply sb_complete_wf.
  - by apply sb_retire_wf.
  - by apply sb_flush_wf.
  - destruct (sb_flush_speculative_sq s k) as (s1 & E' & Hsq); [done..|].
    unfold idx in E. rewrite E' in E. simplify_eq. by apply sb_squashed_wf.
Qed.

(** The handles of the window are its slots. *)
Lemma sb_items_at s k :
  (k < sb_count s)%nat -> sb_items s !! k = Some (sb_entries s !!! sb_slot s k).
Proof. intros. by apply ring_items_lookup. Qed.

Lemma sb_names s k : sb_wf s -> (k < sb_count s)%nat -> names (sb_items s) (Z.of_nat (sb_slot s k)) k.
Proof. intros Hwf Hk. unfold names. rewrite sb_items_at by done. simpl. f_equal. by apply Hwf. Qed.

Lemma sb_names_slot s idx k :
  sb_wf s -> names (sb_items s) idx k -> (k < sb_count s)%nat /\ idx = Z.of_nat (sb_slot s k).
Proof.
  intros Hwf. unfold names. destruct (sb_items s !! k) as [e|] eqn:E; [|done]. intros [= <-].
  apply ring_items_lookup_Some in E as [Hk <-]. split; [done|]. by apply Hwf.
Qed.

Lemma sb_handles_unique s : sb_wf s -> NoDup (sb_trans_id <$> sb_items s).
Proof.
  intros Hwf. destruct (sb_wf_ring _ Hwf) as [Hl Hh Hn _]. apply NoDup_alt. intros i j idx Hi Hj.
  rewrite list_lookup_fmap in Hi, Hj.
  apply sb_names_slot in Hi as [Hi ->]; [|done]. apply sb_names_slot in Hj as [Hj E]; [|done].
  apply (ring_at_inj SIZE (sb_head s)); [lia..|]. apply Nat2Z.inj. exact E.
Qed.

(** The tail is nobody's handle. *)
Lemma sb_tail_fresh s :
  sb_wf s -> (sb_count s < SIZE)%nat -> Z.of_nat (sb_tail s) ∉ sb_trans_id <$> sb_items s.
Proof.
  intros Hwf Hc. destruct (sb_wf_ring _ Hwf) as [Hl Hh Hn Ht].
  intros [k Hk]%list_elem_of_lookup. rewrite list_lookup_fmap in Hk.
  apply sb_names_slot in Hk as [Hk E]; [|done]. rewrite Ht in E. apply Nat2Z.inj in E.
  apply ring_at_inj in E; lia.
Qed.

Lemma sb_get_head_items s e q : sb_wf s -> sb_items s = e :: q -> sb_get_head s = e.
Proof.
  intros Hwf E. assert (sb_items s !! 0%nat = Some e) as E0 by (by rewrite E).
  apply ring_items_lookup_Some in E0 as [_ E0]. rewrite ring_at_0 in E0; [done|apply Hwf].
Qed.

Lemma sb_step_items s c s' :
  (0 < SIZE)%nat -> sb_wf s -> sb_step s c s' -> fifo_step (sb_items s) c (sb_items s').
Proof.
  intros HS Hwf Hst. pose proof (sb_wf_ring _ Hwf) as Hr.
  pose proof (ring_count _ _ _ _ _ Hr) as Hn.
  destruct Hst as [s|s k f idx Hk Hf|s k v d idx Hk Hd|s Hh|s|s k s' idx Hk E].
  - destruct (decide (sb_count s = SIZE)) as [E|E].
    + rewrite sb_allocate_full by done. constructor. by rewrite sb_items_length.
    + rewrite sb_allocate_items by done.
      assert ((sb_allocate s).1 = Z.of_nat (sb_tail s)) as ->.
      { unfold sb_allocate, sb_is_full. by rewrite (proj2 (Nat.eqb_neq _ _) E). }
      constructor; [rewrite sb_items_length; lia| |apply sb_tail_fresh; [done|lia]].
      rewrite (ring_tail _ _ _ _ _ Hr). pose proof (ring_at_lt SIZE (sb_head s) (sb_count s) HS). lia.
  - unfold idx. rewrite sb_set_entry_alter by (apply Hr || by apply ring_at_lt).
    unfold sb_items at 2, sb_slot at 2; simpl. rewrite ring_items_insert by (done || apply Hr).
    erewrite <-list_alter_insert by (by apply ring_items_lookup).
    constructor. by apply sb_names.
  - unfold idx. rewrite sb_complete_items by done. constructor. by apply sb_names.
  - rewrite sb_retire_items by done. rewrite sb_head_ready_items in Hh by done.
    destruct (sb_items s) as [|e q] eqn:E; [done|]. rewrite (sb_get_head_items s e q) by done.
    by constructor.
  - constructor.
  - destruct (sb_flush_speculative_sq s k) as (s1 & E' & Hsq); [done..|].
    unfold idx in E. rewrite E' in E. simplify_eq. rewrite (sb_squashed_items s s1) by done.
    constructor. by apply sb_names.
Qed.

Lemma sb_calls_refine s cs s' :
  (0 < SIZE)%nat -> sb_wf s -> calls sb_step s cs s' ->
  sb_wf s' /\ calls fifo_step (sb_items s) cs (sb_items s').
Proof.
  intros HS Hwf H. induction H as [s|s c s1 cs s2 H1 _ IH]; [split; [done|constructor]|].
  destruct IH as [? Hs]; [by eapply sb_step_wf|]. split; [done|].
  eapply calls_cons; [by apply sb_step_items|exact Hs].
Qed.

(** C28: from reset, every sequence of calls, with the handles and the retired entries that the
    calls return, is one of the bounded FIFO of in-flight instructions: an allocation appends
    under a handle that nobody else carries, or answers -1 exactly when the FIFO is full; a fill
    and a completion change the one instruction that carries the handle; only a ready oldest
    entry retires; a mispredict keeps the branch that carries the handle and what is older.  The
    queries answer from the FIFO: oldest entry and whether it is ready, the entry of a handle,
    full and empty. *)
Theorem scoreboard_refines_fifo cs s :
  (0 < SIZE)%nat -> calls sb_step sb_new cs s ->
  let q := sb_items s in
  calls fifo_step [] cs q /\ NoDup (sb_trans_id <$> q) /\ (length q <= SIZE)%nat /\
  sb_head_ready s = match q with [] => false | e :: _ => sb_ready e end /\
  (forall e, head q = Some e -> sb_get_head s = e) /\
  (forall e, e ∈ q -> sb_get_entry s (sb_trans_id e) = Some e) /\
  sb_is_full s = bool_decide (length q = SIZE) /\ sb_is_empty s = bool_decide (q = []).
Proof.
  intros HS Hc. destruct (sb_calls_refine _ _ _ HS (sb_new_wf HS) Hc) as [Hwf Hs]. cbv zeta.
  destruct (sb_wf_ring _ Hwf) as [Hl Hh Hn Htl]. pose proof (sb_items_length s) as El.
  split_and!; [done|by apply sb_handles_unique|lia|by apply sb_head_ready_items| | | |].
  - intros e E. destruct (sb_items s) as [|e' q] eqn:Eq; [done|]. injection E as <-.
    by apply sb_get_head_items in Eq.
  - intros e [k Hk]%list_elem_of_lookup. apply ring_items_lookup_Some in Hk as [Hk <-].
    fold (sb_slot s k). unfold sb_get_entry. rewrite (sb_wf_trans _ Hwf) by done.
    rewrite (proj2 (Z.ltb_ge _ _)), Nat2Z.id by lia. apply list_lookup_lookup_total_lt.
    rewrite Hl. apply ring_at_lt. lia.
  - unfold sb_is_full. rewrite El. by destruct (Nat.eqb_spec (sb_count s) SIZE); case_bool_decide.
  - unfold sb_is_empty. destruct (sb_items s); simpl in El; rewrite <-El; by case_bool_decide.
Qed.

(** C29: [flush_speculative] terminates, keeps exactly the branch and the older
    entries, and leaves no clobber that names a squashed entry. *)
Theorem flush_speculative_correct s k :
  sb_wf s -> (k < sb_count s)%nat ->
  clobber_ok s (rd_clobber s) -> clobber_ok s (fp_clobber s) ->
  exists s', sb_flush_speculative (Z.of_nat (sb_slot s k)) s = Some s' /\ sb_wf s' /\
    sb_items s' = take (S k) (sb_items s) /\
    clobber_ok s' (rd_clobber s') /\ clobber_ok s' (fp_clobber s').
Proof.
  intros Hwf Hk Hrd Hfp. destruct (sb_flush_speculative_sq s k) as (s' & E & Hsq); [done..|].
  eexists. split_and!; [exact E|by apply sb_squashed_wf|by apply sb_squashed_items| |].
  - apply (sb_squashed_clobber s s' k (rd_clobber s)); try done. apply Hsq.
  - apply (sb_squashed_clobber s s' k (fp_clobber s)); try done. apply Hsq.
Qed.
End scoreboard.

(** Witnesses: four entries, three of them in flight, the youngest producing x5. *)
Definition sb_example : Scoreboard :=
  let s := (sb_allocate 4 (sb_allocate 4 (sb_allocate 4 (sb_new 4)).2).2).2 in
  let s := sb_set_entry 2 (fun e => { e with sb_rd := 5 }) s in
  { s with rd_clobber := <[5%nat := mkClobber true FU_ALU 2]> (rd_clobber s) }.

Example scoreboard_refines_fifo_witness :
  let e := (sb_complete 4 0 7 3 (sb_allocate 4 (sb_allocate 4 (sb_new 4)).2).2) in
  let cs := [Allocate 0; Allocate 1; Complete 0 7 3; Retire (sb_get_head e)] in
  sb_result (sb_get_head e) = 7 /\ length (sb_items 4 (sb_retire 4 e)) = 1%nat /\
  calls (fifo_step 4) [] cs (sb_items 4 (sb_retire 4 e)).
Proof.
  cbv zeta. split_and!; [reflexivity..|].
  apply (scoreboard_refines_fifo 4 _ (sb_retire 4 _) ltac:(lia)).
  eapply calls_cons; [apply step_allocate|]. eapply calls_cons; [apply step_allocate|].
  eapply calls_cons; [apply (step_complete 4 (sb_allocate 4 (sb_allocate 4 (sb_new 4)).2).2 0 7 3); [simpl; lia|lia]|].
  eapply calls_cons; [apply step_retire; reflexivity|]. apply calls_nil.
Defined.

Lemma sb_example_wf : sb_wf 4 sb_example.
Proof.
  split; try done.
  - split; simpl; (lia || done).
  - intros k Hk. do 4 (destruct k as [|k]; [done|]). lia.
  - intros k Hk. change (k < 3)%nat in Hk. do 3 (destruct k as [|k]; [done|]). lia.
  - intros k Hk. change (k < 3)%nat in Hk.
    do 3 (destruct k as [|k]; [vm_compute; split; congruence|]). lia.
Qed.

Example flush_speculative_correct_witness :
  exists s', sb_flush_speculative 4 0 sb_example = Some s' /\
    length (sb_items 4 s') = 1%nat /\ clobber_ok 4 s' (rd_clobber s').
Proof.
  destruct (flush_speculative_correct 4 sb_example 0 sb_example_wf) as (s' & E & _ & Hi & Hc & _).
  - vm_compute. lia.
  - intros r Hr Hb. destruct (decide (r = 5)%nat) as [->|Hne].
    + exists 2%nat. split_and!; [vm_compute; lia|done|done].
    + exfalso. do 32 (destruct r as [|r]; [done|]). lia.
  - intros r Hr Hb. exfalso. do 32 (destruct r as [|r]; [done|]). lia.
  - exists s'. split_and!; [exact E| |exact Hc]. by rewrite Hi.
Defined.
