(* ===== verification/Bytes.v ===== *)
(** Byte-addressed storage: little-endian splitting of words into byte lists, and
    arrays of bytes [Z -> Z] with block reads ([load_bytes]) and block writes
    ([store_bytes]), the meaning of [std::copy_n] between a payload and [mem]. *)
From S2P Require Import Prelude.

(** ** Little-endian words *)

Fixpoint le_split (n : nat) (v : Z) : list Z :=
  match n with O => [] | S n => u8 v :: le_split n (v .>> 8) end.

Fixpoint le_combine (l : list Z) : Z :=
  match l with [] => 0 | b :: l => b .| (le_combine l .<< 8) end.

Definition is_bytes (l : list Z) : Prop := Forall (fits 8) l.

Definition byte_at (l : list Z) (i : nat) : Z := default 0 (l !! i).

Lemma byte_at_fits l i : is_bytes l -> fits 8 (byte_at l i).
Proof.
  intros Hl. unfold byte_at. destruct (l !! i) eqn:E; simpl.
  - by eapply Forall_lookup_1.
  - unfold fits; lia.
Qed.

Lemma byte_at_ge l i : (length l <= i)%nat -> byte_at l i = 0.
Proof. intros. unfold byte_at. by rewrite lookup_ge_None_2. Qed.

Lemma le_split_length n v : length (le_split n v) = n.
Proof. revert v. induction n as [|n IH]; intros v; simpl; [done|]. by rewrite IH. Qed.

Lemma le_split_bytes n v : is_bytes (le_split n v).
Proof.
  revert v. induction n as [|n IH]; intros v; constructor; [|apply IH].
  apply wrap_fits. lia.
Qed.

Lemma le_split_lookup n v i :
  (i < n)%nat -> byte_at (le_split n v) i = u8 (v .>> (8 * Z.of_nat i)).
Proof.
  revert v i. induction n as [|n IH]; intros v i Hi; [lia|].
  destruct i as [|i]; [done|].
  change (byte_at (le_split n (v .>> 8)) i = u8 (v .>> (8 * Z.of_nat (S i)))).
  rewrite IH, Z.shiftr_shiftr by lia. f_equal. f_equal. lia.
Qed.

Lemma le_combine_nonneg l : is_bytes l -> 0 <= le_combine l.
Proof.
  induction 1 as [|b l Hb Hl IH]; simpl; [done|]. unfold fits in Hb.
  apply Z.lor_nonneg. split; [lia|]. by apply Z.shiftl_nonneg.
Qed.

Lemma testbit_le_combine l i :
  is_bytes l -> 0 <= i ->
  Z.testbit (le_combine l) i = Z.testbit (byte_at l (Z.to_nat (i / 8))) (i mod 8).
Proof.
  intros Hl. revert i. induction Hl as [|b l Hb Hl IH]; intros i Hi; simpl.
  - unfold byte_at. by rewrite lookup_nil, !Z.bits_0.
  - rewrite Z.lor_spec, Z.shiftl_spec by lia. destruct (Z.lt_ge_cases i 8).
    + rewrite Z.div_small, Z.mod_small by lia. simpl.
      rewrite (Z.testbit_neg_r _ (i - 8)) by lia. apply orb_false_r.
    + rewrite (fits_testbit 8 b) by (done || lia). simpl. rewrite IH by lia.
      replace (i / 8) with (Z.succ ((i - 8) / 8)).
      * rewrite Z2Nat.inj_succ by (apply Z.div_pos; lia).
        change (byte_at (b :: l) (S ?n)) with (byte_at l n).
        f_equal. replace i with (i - 8 + 1 * 8) at 2 by lia. by rewrite Z_mod_plus_full.
      * replace i with (i - 8 + 1 * 8) at 2 by lia. rewrite Z_div_plus_full by lia. lia.
Qed.

Lemma le_combine_fits l : is_bytes l -> fits (8 * Z.of_nat (length l)) (le_combine l).
Proof.
  intros Hl. apply fits_intro_testbit; [lia|by apply le_combine_nonneg|].
  intros i Hi. rewrite testbit_le_combine by (done || lia).
  assert (Z.of_nat (length l) <= i / 8) by (apply Z.div_le_lower_bound; lia).
  rewrite byte_at_ge by lia. apply Z.bits_0.
Qed.

(** Splitting then combining keeps the low [8 n] bits. *)
Lemma le_combine_split n v : le_combine (le_split n v) = wrap (8 * Z.of_nat n) v.
Proof.
  apply Z.bits_inj'; intros i Hi. rewrite testbit_wrap by lia.
  rewrite testbit_le_combine by (apply le_split_bytes || lia).
  assert (0 <= i / 8) by (apply Z.div_pos; lia).
  pose proof (Z.mod_pos_bound i 8 ltac:(lia)). pose proof (Z.div_mod i 8 ltac:(lia)).
  destruct (Z.ltb_spec i (8 * Z.of_nat n)); simpl.
  - rewrite le_split_lookup by lia. rewrite testbit_wrap by lia.
    rewrite (proj2 (Z.ltb_lt (i mod 8) 8)), Z.shiftr_spec, Z2Nat.id by lia. simpl. f_equal. lia.
  - rewrite byte_at_ge by (rewrite le_split_length; lia).
    apply Z.bits_0.
Qed.

Lemma le_split_combine l : is_bytes l -> le_split (length l) (le_combine l) = l.
Proof.
  induction 1 as [|b l Hb Hl IH]; simpl; [done|]. f_equal.
  - apply Z.bits_inj'; intros i Hi. autorewrite with zbits.
    destruct (Z.ltb_spec i 8); simpl; [|by rewrite (fits_testbit 8)].
    rewrite (Z.testbit_neg_r _ (i - 8)) by lia. apply orb_false_r.
  - transitivity (le_split (length l) (le_combine l)); [|exact IH]. f_equal. apply Z.bits_inj'; intros i Hi.
    rewrite Z.shiftr_spec, Z.lor_spec, Z.shiftl_spec by lia.
    rewrite (fits_testbit 8 b) by (done || lia). simpl. f_equal. lia.
Qed.

(** ** Byte arrays *)

Definition bytemem := Z -> Z.

Definition store_bytes (m : bytemem) (a : Z) (l : list Z) : bytemem :=
  fun x => if (a <=? x) && (x <? a + Z.of_nat (length l)) then byte_at l (Z.to_nat (x - a)) else m x.

Definition load_bytes (m : bytemem) (a : Z) (n : nat) : list Z :=
  (fun i => m (a + Z.of_nat i)) <$> seq 0 n.

Definition mem_ok (m : bytemem) : Prop := forall x, fits 8 (m x).

(** A little-endian access of [size] bytes. *)
Definition load (m : bytemem) (a size : Z) : Z := le_combine (load_bytes m a (Z.to_nat size)).
Definition store (m : bytemem) (a size v : Z) : bytemem :=
  store_bytes m a (le_split (Z.to_nat size) v).

Lemma load_bytes_length m a n : length (load_bytes m a n) = n.
Proof. unfold load_bytes. by rewrite length_fmap, length_seq. Qed.

Lemma load_bytes_lookup m a n i :
  (i < n)%nat -> byte_at (load_bytes m a n) i = m (a + Z.of_nat i).
Proof.
  intros. unfold byte_at, load_bytes. by rewrite list_lookup_fmap, lookup_seq_lt.
Qed.

Lemma load_bytes_ok m a n : mem_ok m -> is_bytes (load_bytes m a n).
Proof. intros Hm. unfold load_bytes, is_bytes. apply Forall_fmap, Forall_true. intros; apply Hm. Qed.

Lemma load_bytes_ext m m' a n :
  (forall x, a <= x < a + Z.of_nat n -> m x = m' x) -> load_bytes m a n = load_bytes m' a n.
Proof.
  intros E. apply list_fmap_ext. intros i k [-> ?]%lookup_seq. apply E. lia.
Qed.

Lemma load_ext m m' a size :
  (forall x, a <= x < a + size -> m x = m' x) -> load m a size = load m' a size.
Proof. intros E. unfold load. f_equal. apply load_bytes_ext. intros; apply E; lia. Qed.

Lemma load_fits m a size : mem_ok m -> 0 <= size -> fits (8 * size) (load m a size).
Proof.
  intros. unfold load.
  replace (8 * size) with (8 * Z.of_nat (length (load_bytes m a (Z.to_nat size)))).
  - by apply le_combine_fits, load_bytes_ok.
  - rewrite load_bytes_length. lia.
Qed.

Lemma store_bytes_ok m a l : mem_ok m -> is_bytes l -> mem_ok (store_bytes m a l).
Proof.
  intros Hm Hl x. unfold store_bytes. case_match eqn:E; [|apply Hm].
  by apply byte_at_fits.
Qed.

Lemma store_ok m a size v : mem_ok m -> mem_ok (store m a size v).
Proof. intros. apply store_bytes_ok; [done|apply le_split_bytes]. Qed.

(** The byte of a stored word at an address of the range. *)
Lemma store_in m a size v x :
  a <= x < a + size -> store m a size v x = u8 (v .>> (8 * (x - a))).
Proof.
  intros. unfold store, store_bytes. rewrite le_split_length.
  rewrite (proj2 (Z.leb_le _ _)), (proj2 (Z.ltb_lt _ _)) by lia. simpl.
  rewrite le_split_lookup by lia. by rewrite Z2Nat.id by lia.
Qed.

Lemma store_out m a size v x : ~ (a <= x < a + size) -> store m a size v x = m x.
Proof.
  intros. unfold store, store_bytes. rewrite le_split_length.
  destruct (Z.leb_spec a x), (Z.ltb_spec x (a + Z.of_nat (Z.to_nat size))); simpl; (done || lia).
Qed.

Lemma load_store_disjoint m a size v a' size' :
  a + size <= a' \/ a' + size' <= a -> load (store m a size v) a' size' = load m a' size'.
Proof. intros. apply load_ext. intros. apply store_out. lia. Qed.

Lemma testbit_load m a size i :
  mem_ok m -> 0 <= size -> 0 <= i ->
  Z.testbit (load m a size) i = (i <? 8 * size) && Z.testbit (m (a + i / 8)) (i mod 8).
Proof.
  intros Hm Hs Hi. destruct (Z.ltb_spec i (8 * size)); simpl.
  - unfold load. rewrite testbit_le_combine by (by apply load_bytes_ok || lia).
    assert (0 <= i / 8) by (apply Z.div_pos; lia).
    assert (i / 8 < size) by (apply Z.div_lt_upper_bound; lia).
    rewrite load_bytes_lookup by lia. by rewrite Z2Nat.id by lia.
  - apply (fits_testbit (8 * size)); [lia|by apply load_fits|done].
Qed.

(** A load contained in a store reads a slice of the stored word. *)
Lemma load_store_contained m a size v a' size' :
  mem_ok m -> a <= a' -> 0 <= size' -> a' + size' <= a + size ->
  load (store m a size v) a' size' = wrap (8 * size') (v .>> (8 * (a' - a))).
Proof.
  intros Hm Ha Hs Hc. apply Z.bits_inj'; intros i Hi.
  rewrite testbit_load, testbit_wrap by (by apply store_ok || lia).
  destruct (Z.ltb_spec i (8 * size')); simpl; [|done].
  assert (0 <= i / 8) by (apply Z.div_pos; lia).
  assert (i / 8 < size') by (apply Z.div_lt_upper_bound; lia).
  pose proof (Z.mod_pos_bound i 8 ltac:(lia)). pose proof (Z.div_mod i 8 ltac:(lia)).
  rewrite store_in by lia. rewrite testbit_wrap by lia.
  rewrite (proj2 (Z.ltb_lt (i mod 8) 8)), !Z.shiftr_spec by lia. simpl. f_equal. lia.
Qed.

Lemma load_store_same m a size v :
  mem_ok m -> 0 <= size -> load (store m a size v) a size = wrap (8 * size) v.
Proof.
  intros. rewrite load_store_contained by (done || lia). by rewrite Z.sub_diag, Z.shiftr_0_r.
Qed.

#[export] Hint Resolve store_ok store_bytes_ok load_bytes_ok le_split_bytes : fits.
