(* ===== verification/StoreBuffer.v ===== *)
(** [inc/StoreBuffer.h]: the split store buffer, a speculative FIFO filled by EX
    and a committed FIFO drained to memory, with store-to-load forwarding.  The
    reference is the {e coherent view} [sb_view]: memory with the committed and
    then the speculative stores applied in program order. *)
From S2P Require Import Prelude Ring Bytes Scoreboard.

Record StoreBufferEntry := mkSBE {
  sbe_valid : bool;
  sbe_address : Z;    (* uint64_t *)
  sbe_data : Z;       (* uint64_t *)
  sbe_size : Z;       (* int: 1, 2, 4 or 8 *)
  sbe_trans_id : Z;   (* int *)
}.

Definition sbe0 : StoreBufferEntry := mkSBE false 0 0 0 (-1).
#[export] Instance StoreBufferEntry_inhabited : Inhabited StoreBufferEntry := populate sbe0.

Record StoreBuffer := mkStB {
  stb_spec : list StoreBufferEntry;
  spec_head : nat; spec_tail : nat; spec_count : nat;
  stb_committed : list StoreBufferEntry;
  commit_head : nat; commit_tail : nat; commit_count : nat;
}.

(** [FwdResult], the out-parameter [fwd_data] attached to the hit. *)
Inductive FwdResult := FwdHit (fwd_data : Z) | FwdPartialOverlap | FwdMiss.

Section store_buffer.
Context (SPEC_DEPTH COMMIT_DEPTH : nat).
Implicit Types (b : StoreBuffer) (e : StoreBufferEntry) (q : list StoreBufferEntry).

Definition stb_new : StoreBuffer :=
  mkStB (replicate SPEC_DEPTH sbe0) 0 0 0 (replicate COMMIT_DEPTH sbe0) 0 0 0.

Definition spec_is_full b : bool := (spec_count b =? SPEC_DEPTH)%nat.
Definition commit_is_full b : bool := (commit_count b =? COMMIT_DEPTH)%nat.
Definition stb_is_full b : bool := spec_is_full b.
Definition stb_is_empty b : bool := (spec_count b =? 0)%nat && (commit_count b =? 0)%nat.

Definition add_store (address data size trans_id : Z) b : Z * StoreBuffer :=
  if (spec_count b =? SPEC_DEPTH)%nat then (-1, b) else
  (Z.of_nat (spec_tail b),
   { b with stb_spec := <[spec_tail b := mkSBE true address data size trans_id]> (stb_spec b);
            spec_tail := ((spec_tail b + 1) mod SPEC_DEPTH)%nat;
            spec_count := S (spec_count b) }).

Definition commit_store b : bool * StoreBuffer :=
  if (spec_count b =? 0)%nat then (false, b)
  else if (commit_count b =? COMMIT_DEPTH)%nat then (false, b)
  else
    let e := stb_spec b !!! spec_head b in
    (true,
     { b with stb_committed := <[commit_tail b := { e with sbe_valid := true }]> (stb_committed b);
              commit_tail := ((commit_tail b + 1) mod COMMIT_DEPTH)%nat;
              commit_count := S (commit_count b);
              stb_spec := <[spec_head b := { e with sbe_valid := false }]> (stb_spec b);
              spec_head := ((spec_head b + 1) mod SPEC_DEPTH)%nat;
              spec_count := pred (spec_count b) }).

(** One turn of the loop of [drain_one]: pop the oldest committed entry. *)
Definition drain_pop b : StoreBufferEntry * StoreBuffer :=
  let e := stb_committed b !!! commit_head b in
  (e, { b with stb_committed := <[commit_head b := { e with sbe_valid := false }]> (stb_committed b);
               commit_head := ((commit_head b + 1) mod COMMIT_DEPTH)%nat;
               commit_count := pred (commit_count b) }).

(** [while (commit_count > 0)]; the fuel is the count, which each turn lowers. *)
Fixpoint drain_loop (fuel : nat) b : option (Z * Z * Z) * StoreBuffer :=
  match fuel with
  | O => (None, b)
  | S fuel =>
    if (0 <? commit_count b)%nat then
      let '(e, b') := drain_pop b in
      if sbe_valid e then (Some (sbe_address e, sbe_data e, sbe_size e), b')
      else drain_loop fuel b'
    else (None, b)
  end.

Definition drain_one b : option (Z * Z * Z) * StoreBuffer :=
  drain_loop (S (commit_count b)) b.

(** The test both queues make on an entry, [None] when the loop goes on. *)
Definition fwd_entry (load_addr load_size : Z) e : option FwdResult :=
  if sbe_valid e then
    let store_addr := sbe_address e in
    let store_size := sbe_size e in
    let overlap_start := Z.max load_addr store_addr in
    let overlap_end := Z.min (u64 (load_addr + load_size)) (u64 (store_addr + store_size)) in
    if overlap_start <? overlap_end then
      if (store_addr <=? load_addr) &&
         (u64 (load_addr + load_size) <=? u64 (store_addr + store_size))
      then
        let offset := load_addr - store_addr in
        let shifted := sbe_data e .>> (offset * 8) in
        let mask := if load_size =? 8 then Z.ones 64 else u64 (1 .<< (load_size * 8)) - 1 in
        Some (FwdHit (shifted .& mask))
      else Some FwdPartialOverlap
    else None
  else None.

(** [for (k = 0; k < count; k++)] with [i = (tail + DEPTH - 1 - k) % DEPTH]. *)
Fixpoint fwd_scan (l : list StoreBufferEntry) (tail depth k todo : nat)
    (load_addr load_size : Z) : option FwdResult :=
  match todo with
  | O => None
  | S todo =>
    match fwd_entry load_addr load_size (l !!! ((tail + depth - 1 - k) mod depth)%nat) with
    | Some r => Some r
    | None => fwd_scan l tail depth (S k) todo load_addr load_size
    end
  end.

Definition forward_load (load_addr load_size : Z) b : FwdResult :=
  match fwd_scan (stb_spec b) (spec_tail b) SPEC_DEPTH 0 (spec_count b) load_addr load_size with
  | Some r => r
  | None =>
    match fwd_scan (stb_committed b) (commit_tail b) COMMIT_DEPTH 0 (commit_count b)
            load_addr load_size with
    | Some r => r
    | None => FwdMiss
    end
  end.

Definition invalidate_entry (addr size : Z) e : StoreBufferEntry :=
  let end_ := u64 (addr + size) in
  if sbe_valid e then
    let e_end := u64 (sbe_address e + sbe_size e) in
    if (addr <? e_end) && (sbe_address e <? end_) then { e with sbe_valid := false } else e
  else e.

Definition invalidate_address (addr size : Z) b : StoreBuffer :=
  { b with stb_spec := invalidate_entry addr size <$> stb_spec b;
           stb_committed := invalidate_entry addr size <$> stb_committed b }.

Definition sbe_clear e : StoreBufferEntry := { e with sbe_valid := false }.

Definition stb_flush_speculative b : StoreBuffer :=
  { b with stb_spec := sbe_clear <$> stb_spec b;
           spec_head := 0%nat; spec_tail := 0%nat; spec_count := 0%nat }.

(** [flush_speculative(branch_rob_idx, scoreboard)]: drop the youngest entries
    whose scoreboard entry is no longer valid. *)
Fixpoint stb_squash_loop (fuel : nat) (sb : Scoreboard) b : StoreBuffer :=
  match fuel with
  | O => b
  | S fuel =>
    if (0 <? spec_count b)%nat then
      let prev := ((spec_tail b + SPEC_DEPTH - 1) mod SPEC_DEPTH)%nat in
      let e := stb_spec b !!! prev in
      let tid := sbe_trans_id e in
      if (0 <=? tid) && negb (sb_valid (default sb_entry0 (sb_get_entry sb tid))) then
        stb_squash_loop fuel sb
          { b with stb_spec := <[prev := { e with sbe_valid := false }]> (stb_spec b);
                   spec_tail := prev;
                   spec_count := pred (spec_count b) }
      else b
    else b
  end.

Definition stb_flush_squashed (sb : Scoreboard) b : StoreBuffer :=
  stb_squash_loop (S (spec_count b)) sb b.

Definition stb_flush_all b : StoreBuffer :=
  let b := stb_flush_speculative b in
  { b with stb_committed := sbe_clear <$> stb_committed b;
           commit_head := 0%nat; commit_tail := 0%nat; commit_count := 0%nat }.

Definition stb_flush b : StoreBuffer := stb_flush_all b.

Definition alias_check (a b : Z) : bool := (a .& 0xFFF) =? (b .& 0xFFF).
(** *** The pending stores, in program order, and the coherent view *)

Definition committed_items b : list StoreBufferEntry :=
  ring_items COMMIT_DEPTH (stb_committed b) (commit_head b) (commit_count b).
Definition spec_items b : list StoreBufferEntry :=
  ring_items SPEC_DEPTH (stb_spec b) (spec_head b) (spec_count b).
Definition pending b : list StoreBufferEntry := committed_items b ++ spec_items b.

Definition apply_store (m : bytemem) e : bytemem :=
  if sbe_valid e then store m (sbe_address e) (sbe_size e) (sbe_data e) else m.
Definition view_of (m : bytemem) q : bytemem := foldl apply_store m q.
Definition sb_view (m : bytemem) b : bytemem := view_of m (pending b).

(** A store the pipeline can make: a 64-bit word of at most 8 bytes that does not
    run past the end of the address space. *)
Record entry_ok e : Prop := {
  eo_addr : 0 <= sbe_address e;
  eo_size : 0 < sbe_size e <= 8;
  eo_end : sbe_address e + sbe_size e < 2 ^ 64;
  eo_data : fits 64 (sbe_data e);
}.

Record stb_wf b : Prop := {
  stb_wf_spec : ring_wf SPEC_DEPTH (stb_spec b) (spec_head b) (spec_tail b) (spec_count b);
  stb_wf_commit :
    ring_wf COMMIT_DEPTH (stb_committed b) (commit_head b) (commit_tail b) (commit_count b);
  stb_wf_ok : Forall entry_ok (pending b);
}.

Definition load_ok (a size : Z) : Prop :=
  0 <= a /\ (size = 1 \/ size = 2 \/ size = 4 \/ size = 8) /\ a + size < 2 ^ 64.

Lemma view_of_app m q q' : view_of m (q ++ q') = view_of (view_of m q) q'.
Proof. apply foldl_app. Qed.

Lemma apply_store_mem_ok m e : mem_ok m -> mem_ok (apply_store m e).
Proof. intros. unfold apply_store. case_match; auto with fits. Qed.

Lemma view_of_mem_ok m q : mem_ok m -> mem_ok (view_of m q).
Proof.
  revert m. induction q as [|e q IH]; intros m Hm; simpl; [done|].
  by apply IH, apply_store_mem_ok.
Qed.

Lemma view_of_ext m m' q x : m x = m' x -> view_of m q x = view_of m' q x.
Proof.
  revert m m'. induction q as [|e q IH]; intros m m' E; simpl; [done|].
  apply IH. unfold apply_store. case_match; [|done]. unfold store, store_bytes.
  by rewrite E.
Qed.

(** Invalid entries do not show. *)
Lemma view_of_invalid m q : Forall (fun e => sbe_valid e = false) q -> view_of m q = m.
Proof.
  induction 1 as [|e q He Hq IH]; simpl; [done|].
  unfold apply_store. rewrite He. exact IH.
Qed.

(** *** Forwarding *)

(** The scan is a search of the newest-first list. *)
Fixpoint fwd_list (la ls : Z) q : option FwdResult :=
  match q with
  | [] => None
  | e :: q => match fwd_entry la ls e with Some r => Some r | None => fwd_list la ls q end
  end.

Lemma fwd_list_app la ls q q' :
  fwd_list la ls (q ++ q') =
    match fwd_list la ls q with Some r => Some r | None => fwd_list la ls q' end.
Proof. induction q as [|e q IH]; simpl; [done|]. by destruct (fwd_entry la ls e). Qed.

Lemma fwd_scan_list N l h t n la ls k todo :
  ring_wf N l h t n -> (k + todo = n)%nat ->
  fwd_scan l t N k todo la ls = fwd_list la ls (reverse (ring_items N l h todo)).
Proof.
  intros Hwf. revert k. induction todo as [|todo IH]; intros k Hk; [done|].
  cbn [fwd_scan]. rewrite (ring_newest N l h t n) by (done || lia).
  replace (n - 1 - k)%nat with todo by lia.
  rewrite (ring_items_snoc N l h todo), reverse_snoc. cbn [fwd_list].
  by rewrite (IH (S k)) by lia.
Qed.

Lemma forward_load_pending la ls b :
  stb_wf b -> forward_load la ls b = default FwdMiss (fwd_list la ls (reverse (pending b))).
Proof.
  intros [Hs Hc _]. unfold forward_load, pending.
  rewrite (fwd_scan_list _ _ _ _ _ _ _ 0 _ Hs), (fwd_scan_list _ _ _ _ _ _ _ 0 _ Hc) by lia.
  rewrite reverse_app, fwd_list_app. fold (spec_items b) (committed_items b).
  destruct (fwd_list la ls (reverse (spec_items b))); [done|].
  by destruct (fwd_list la ls (reverse (committed_items b))).
Qed.

Definition overlaps (la ls : Z) e : Prop :=
  la < sbe_address e + sbe_size e /\ sbe_address e < la + ls.
Definition contains (la ls : Z) e : Prop :=
  sbe_address e <= la /\ la + ls <= sbe_address e + sbe_size e.

Lemma fwd_mask ls x :
  ls = 1 \/ ls = 2 \/ ls = 4 \/ ls = 8 ->
  x .& (if ls =? 8 then Z.ones 64 else u64 (1 .<< (ls * 8)) - 1) = wrap (8 * ls) x.
Proof. intros [->|[->|[->| ->]]]; rewrite (wrap_land (8 * _) x) by lia; reflexivity. Qed.

(** The per-entry test, case by case. *)
Lemma fwd_entry_spec la ls e :
  load_ok la ls -> entry_ok e ->
  match fwd_entry la ls e with
  | None => sbe_valid e = false \/ ~ overlaps la ls e
  | Some (FwdHit v) => sbe_valid e = true /\ contains la ls e /\
                       v = wrap (8 * ls) (sbe_data e .>> (8 * (la - sbe_address e)))
  | Some FwdPartialOverlap => sbe_valid e = true /\ overlaps la ls e /\ ~ contains la ls e
  | Some FwdMiss => False
  end.
Proof.
  intros (Ha & Hs & He) [Ea Es Ee Ed]. unfold fwd_entry, overlaps, contains.
  destruct (sbe_valid e); [|by left].
  rewrite (wrap_small 64 (la + ls)), (wrap_small 64 (sbe_address e + sbe_size e))
    by (unfold fits; lia).
  destruct (Z.ltb_spec (Z.max la (sbe_address e))
              (Z.min (la + ls) (sbe_address e + sbe_size e))) as [Ho|Ho].
  - destruct (Z.leb_spec (sbe_address e) la), (Z.leb_spec (la + ls) (sbe_address e + sbe_size e));
      simpl; try (split_and!; (done || lia)).
    split_and!; [done|done|done|]. rewrite fwd_mask by done. by rewrite (Z.mul_comm (la - _) 8).
  - right. lia.
Qed.
(** What forwarding promises for a buffer with the pending stores [q]. *)
Definition fwd_promise (m : bytemem) q (la ls : Z) (r : FwdResult) : Prop :=
  match r with
  | FwdHit v => v = load (view_of m q) la ls
  | FwdMiss => load m la ls = load (view_of m q) la ls
  | FwdPartialOverlap =>
      exists q1 e q2, q = q1 ++ e :: q2 /\ sbe_valid e = true /\
        overlaps la ls e /\ ~ contains la ls e /\
        Forall (fun e' => sbe_valid e' = false \/ ~ overlaps la ls e') q2
  end.

Lemma apply_store_load_miss m e la ls :
  sbe_valid e = false \/ ~ overlaps la ls e ->
  load (apply_store m e) la ls = load m la ls.
Proof.
  unfold apply_store, overlaps. intros [->|Ho]; [done|]. case_match; [|done].
  apply load_store_disjoint. lia.
Qed.

Lemma fwd_list_correct m q la ls :
  mem_ok m -> load_ok la ls -> Forall entry_ok q ->
  fwd_promise m q la ls (default FwdMiss (fwd_list la ls (reverse q))).
Proof.
  intros Hm Hl. induction q as [|e q IH] using rev_ind; intros Hq; [reflexivity|].
  apply Forall_app in Hq as [Hq He]. rewrite Forall_singleton in He. specialize (IH Hq).
  rewrite reverse_snoc. cbn [fwd_list].
  pose proof (fwd_entry_spec la ls e Hl He) as Hf.
  destruct (fwd_entry la ls e) as [[v| |]|]; simpl in Hf |- *.
  - destruct Hf as (Hv & [Hc1 Hc2] & ->). rewrite view_of_app. simpl.
    unfold apply_store. rewrite Hv, load_store_contained; [done| |done|destruct Hl; lia|done].
    by apply view_of_mem_ok.
  - exists q, e, []. destruct Hf as (? & ? & ?). split_and!; done.
  - done.
  - destruct (default FwdMiss (fwd_list la ls (reverse q))) as [v| |]; simpl in IH |- *.
    + rewrite IH, view_of_app. simpl. by rewrite apply_store_load_miss.
    + destruct IH as (q1 & e' & q2 & -> & ? & ? & ? & Hq2).
      exists q1, e', (q2 ++ [e]). rewrite <-app_assoc. split_and!; try done.
      apply Forall_app. split; [done|]. by constructor.
    + rewrite IH, view_of_app. simpl. by rewrite apply_store_load_miss.
Qed.

Lemma forward_load_promise m b la ls :
  mem_ok m -> stb_wf b -> load_ok la ls ->
  fwd_promise m (pending b) la ls (forward_load la ls b).
Proof.
  intros Hm Hwf Hl. rewrite forward_load_pending by done.
  apply fwd_list_correct; [done..|apply Hwf].
Qed.

(** C27: store-to-load forwarding is coherent: a hit returns the load of the view
    with every older pending store applied, a miss means memory already holds
    that value, and a stall happens only when the youngest pending store that
    overlaps the load does not contain it. *)
Theorem forward_load_correct m b la ls :
  mem_ok m -> stb_wf b -> load_ok la ls ->
  match forward_load la ls b with
  | FwdHit v => v = load (sb_view m b) la ls
  | FwdMiss => load m la ls = load (sb_view m b) la ls
  | FwdPartialOverlap =>
      exists q1 e q2, pending b = q1 ++ e :: q2 /\ sbe_valid e = true /\
        overlaps la ls e /\ ~ contains la ls e /\
        Forall (fun e' => sbe_valid e' = false \/ ~ overlaps la ls e') q2
  end.
Proof. apply forward_load_promise. Qed.

(** *** The other operations on the pending stores *)

Lemma stb_new_wf : (0 < SPEC_DEPTH)%nat -> (0 < COMMIT_DEPTH)%nat -> stb_wf stb_new.
Proof.
  intros. split; simpl; [..|by constructor];
    (split; [by rewrite length_replicate|done|lia|by rewrite ring_at_0]).
Qed.

Lemma add_store_full a d sz t b :
  spec_is_full b = true -> add_store a d sz t b = (-1, b).
Proof. unfold add_store, spec_is_full. by intros ->. Qed.

Lemma add_store_pending a d sz t b :
  stb_wf b -> spec_is_full b = false ->
  pending (add_store a d sz t b).2 = pending b ++ [mkSBE true a d sz t].
Proof.
  intros [Hs Hc Hok] Hf. pose proof (ring_count _ _ _ _ _ Hs).
  unfold add_store. unfold spec_is_full in Hf. rewrite Hf. apply Nat.eqb_neq in Hf.
  unfold pending, spec_items, committed_items; simpl.
  rewrite (ring_items_push _ _ _ _ _ _ Hs) by lia. by rewrite app_assoc.
Qed.

Lemma add_store_wf a d sz t b :
  stb_wf b -> entry_ok (mkSBE true a d sz t) -> stb_wf (add_store a d sz t b).2.
Proof.
  intros Hwf He. destruct (spec_is_full b) eqn:Hf; [by rewrite add_store_full|].
  pose proof (add_store_pending a d sz t b Hwf Hf) as Hp.
  split; [..|rewrite Hp; apply Forall_app; split; [apply Hwf|by constructor]];
    destruct Hwf as [Hs Hc Hok]; pose proof (ring_count _ _ _ _ _ Hs);
    unfold add_store; unfold spec_is_full in Hf; rewrite Hf; apply Nat.eqb_neq in Hf;
    simpl; eauto with ring.
Qed.

(** [commit_store] moves the oldest speculative store; the order of the pending
    stores does not change. *)
Lemma commit_store_pending b :
  stb_wf b -> (commit_store b).1 = true ->
  pending (commit_store b).2 =
    committed_items b ++
    match spec_items b with [] => [] | e :: q => { e with sbe_valid := true } :: q end.
Proof.
  intros [Hs Hc Hok]. pose proof (ring_count _ _ _ _ _ Hc). pose proof (ring_head _ _ _ _ _ Hs).
  pose proof (ring_count _ _ _ _ _ Hs).
  unfold commit_store. case (Nat.eqb_spec (spec_count b) 0); [done|]. intros Hn.
  case (Nat.eqb_spec (commit_count b) COMMIT_DEPTH); [done|]. intros Hf _.
  unfold pending, committed_items, spec_items; rcbn.
  rewrite (ring_items_push _ _ _ _ _ _ Hc) by lia. rewrite <-app_assoc. f_equal. rcbn.
  destruct (spec_count b) as [|n]; [done|]. rewrite ring_items_pop by done. rcbn. f_equal.
  apply ring_items_ext. intros k ?. apply list_lookup_total_insert_ne.
  change ((spec_head b + 1) mod SPEC_DEPTH)%nat with (ring_at SPEC_DEPTH (spec_head b) 1).
  rewrite ring_at_at. by apply ring_at_head_ne; lia.
Qed.
Lemma commit_store_inv b :
  (commit_store b).1 = true ->
  exists n, spec_count b = S n /\ commit_count b <> COMMIT_DEPTH /\
    (commit_store b).2 =
      let e := stb_spec b !!! spec_head b in
      { b with stb_committed := <[commit_tail b := { e with sbe_valid := true }]> (stb_committed b);
               commit_tail := ((commit_tail b + 1) mod COMMIT_DEPTH)%nat;
               commit_count := S (commit_count b);
               stb_spec := <[spec_head b := { e with sbe_valid := false }]> (stb_spec b);
               spec_head := ((spec_head b + 1) mod SPEC_DEPTH)%nat;
               spec_count := pred (spec_count b) }.
Proof.
  unfold commit_store. case (Nat.eqb_spec (spec_count b) 0); [done|]. intros Hn.
  case (Nat.eqb_spec (commit_count b) COMMIT_DEPTH); [done|]. intros Hf _.
  exists (pred (spec_count b)). split_and!; [lia|done|done].
Qed.

Lemma commit_store_wf b : stb_wf b -> stb_wf (commit_store b).2.
Proof.
  intros Hwf. destruct (commit_store b).1 eqn:E.
  - pose proof (commit_store_pending b Hwf E) as Hp. destruct Hwf as [Hs Hc Hok].
    split; [..|rewrite Hp].
    + destruct (commit_store_inv b E) as (n & En & Hne & ->). rcbn. rewrite En in Hs |- *. rcbn.
      eauto with ring.
    + pose proof (ring_count _ _ _ _ _ Hc).
      destruct (commit_store_inv b E) as (n & En & Hne & ->). rcbn. eauto with ring.
    + unfold pending in Hok. apply Forall_app in Hok as [Hok1 Hok2].
      apply Forall_app. split; [done|]. destruct Hok2 as [|e q [????] Hq]; [done|].
      by constructor.
  - unfold commit_store in E |- *. by repeat case_match.
Qed.

(** Committing a store keeps the coherent view, as long as the entry at the
    head of the speculative queue has not been invalidated. *)
Lemma commit_store_view m b :
  stb_wf b -> Forall (fun e => sbe_valid e = true) (take 1 (spec_items b)) ->
  sb_view m (commit_store b).2 = sb_view m b.
Proof.
  intros Hwf Hv. destruct (commit_store b).1 eqn:E.
  - unfold sb_view. rewrite commit_store_pending by done. unfold pending. f_equal. f_equal.
    destruct (spec_items b) as [|e q]; [done|]. simpl in Hv.
    rewrite Forall_singleton in Hv. destruct e; simpl in *. by rewrite Hv.
  - unfold commit_store in E |- *. by repeat case_match.
Qed.

Lemma drain_pop_pending b :
  stb_wf b -> (0 < commit_count b)%nat ->
  pending b = (drain_pop b).1 :: pending (drain_pop b).2 /\ stb_wf (drain_pop b).2.
Proof.
  intros [Hs Hc Hok] Hn. pose proof (ring_count _ _ _ _ _ Hc). pose proof (ring_head _ _ _ _ _ Hc).
  assert (Hp : pending b = (drain_pop b).1 :: pending (drain_pop b).2).
  { unfold pending, committed_items, spec_items, drain_pop; rcbn.
    destruct (commit_count b) as [|n]; [lia|]. rewrite ring_items_pop by done. rcbn.
    f_equal. f_equal.
    apply ring_items_ext. intros k ?. symmetry. apply list_lookup_total_insert_ne.
    change ((commit_head b + 1) mod COMMIT_DEPTH)%nat with (ring_at COMMIT_DEPTH (commit_head b) 1).
    rewrite ring_at_at. by apply ring_at_head_ne; lia. }
  split; [exact Hp|]. split.
  - unfold drain_pop; rcbn. exact Hs.
  - unfold drain_pop; rcbn. destruct (commit_count b) as [|n]; [lia|]. rcbn. eauto with ring.
  - rewrite Hp in Hok. by inversion Hok.
Qed.

(** [drain_one] pops invalidated entries until it finds a live one; the loop ends
    because each turn lowers the count. *)
Lemma drain_one_pending b :
  stb_wf b ->
  exists dead, Forall (fun e => sbe_valid e = false) dead /\ stb_wf (drain_one b).2 /\
    match (drain_one b).1 with
    | Some (a, d, sz) => exists e, sbe_valid e = true /\ sbe_address e = a /\ sbe_data e = d /\
        sbe_size e = sz /\ pending b = dead ++ e :: pending (drain_one b).2
    | None => pending b = dead ++ pending (drain_one b).2 /\ committed_items (drain_one b).2 = []
    end.
Proof.
  intros Hwf. unfold drain_one. remember (S (commit_count b)) as fuel eqn:Ef.
  assert (Hf : (commit_count b < fuel)%nat) by lia. clear Ef. revert b Hwf Hf.
  induction fuel as [|fuel IH]; intros b Hwf Hf; [lia|]. cbn [drain_loop].
  destruct (Nat.ltb_spec 0 (commit_count b)) as [Hn|Hn].
  - pose proof (drain_pop_pending b Hwf Hn) as [Hp Hwf'].
    assert (Hc : commit_count (drain_pop b).2 = pred (commit_count b)) by done.
    destruct (drain_pop b) as [e b'] eqn:Ed. simpl in Hp, Hwf', Hc.
    destruct (sbe_valid e) eqn:Ev; simpl.
    + exists []. split_and!; [by constructor|done|]. exists e. by split_and!.
    + destruct (IH b' Hwf' ltac:(lia)) as (dead & Hdead & Hwf'' & Hm).
      exists (e :: dead). split_and!; [by constructor|done|]. rewrite Hp.
      destruct (drain_loop fuel b').1 as [[[a d] sz]|].
      * destruct Hm as (e' & ? & ? & ? & ? & ->). exists e'. by split_and!.
      * destruct Hm as [-> ?]. by split.
  - exists []. simpl. split_and!; [by constructor|done|done|].
    unfold committed_items. by replace (commit_count b) with 0%nat by lia.
Qed.

(** Draining and writing to memory keeps the view, byte for byte. *)
Lemma drain_one_view m b :
  stb_wf b ->
  sb_view m b =
    match (drain_one b).1 with
    | Some (a, d, sz) => sb_view (store m a sz d) (drain_one b).2
    | None => sb_view m (drain_one b).2
    end.
Proof.
  intros Hwf. destruct (drain_one_pending b Hwf) as (dead & Hdead & _ & Hm).
  unfold sb_view. destruct (drain_one b).1 as [[[a d] sz]|].
  - destruct Hm as (e & Hv & <- & <- & <- & ->). rewrite view_of_app, (view_of_invalid m dead) by done.
    simpl. unfold apply_store. by rewrite Hv.
  - destruct Hm as [-> _]. by rewrite view_of_app, (view_of_invalid m dead) by done.
Qed.
(** A store through an empty buffer: added, committed and drained. *)
Lemma store_passes a d sz t b :
  (0 < SPEC_DEPTH)%nat -> (0 < COMMIT_DEPTH)%nat ->
  stb_wf b -> pending b = [] -> entry_ok (mkSBE true a d sz t) ->
  let b2 := (commit_store (add_store a d sz t b).2).2 in
  (drain_one b2).1 = Some (a, d, sz) /\ stb_wf (drain_one b2).2 /\ pending (drain_one b2).2 = [].
Proof.
  intros HS HC Hwf Hp He b2.
  assert (committed_items b = [] /\ spec_items b = []) as [Hc Hs] by (by apply app_nil).
  assert (commit_count b = 0%nat /\ spec_count b = 0%nat) as [Nc Ns].
  { unfold committed_items, spec_items in *.
    apply (f_equal length) in Hc, Hs. by rewrite ring_items_length in Hc, Hs. }
  assert (spec_is_full b = false) as Hf by (unfold spec_is_full; rewrite Ns; apply Nat.eqb_neq; lia).
  pose proof (add_store_wf a d sz t b Hwf He) as Hwf1.
  pose proof (add_store_pending a d sz t b Hwf Hf) as Hp1. rewrite Hp in Hp1. simpl in Hp1.
  set (b1 := (add_store a d sz t b).2) in *.
  assert (spec_count b1 = 1%nat /\ commit_count b1 = 0%nat) as [Ns1 Nc1].
  { unfold b1, add_store. rewrite Ns. rewrite (proj2 (Nat.eqb_neq _ _)) by lia. by rewrite <-Nc. }
  assert (committed_items b1 = []) as Hc1 by (unfold committed_items; by rewrite Nc1).
  assert ((commit_store b1).1 = true) as E1.
  { unfold commit_store. rewrite Ns1, Nc1. clear - HC. by destruct COMMIT_DEPTH; [lia|]. }
  pose proof (commit_store_pending b1 Hwf1 E1) as Hp2. pose proof (commit_store_wf b1 Hwf1) as Hwf2.
  unfold pending in Hp1. rewrite Hc1 in Hp1, Hp2. simpl in Hp1, Hp2. rewrite Hp1 in Hp2. simpl in Hp2.
  fold b2 in Hp2, Hwf2.
  assert (0 < commit_count b2)%nat as Nc2.
  { unfold b2. destruct (commit_store_inv b1 E1) as (n & _ & _ & ->). simpl. lia. }
  pose proof (drain_pop_pending b2 Hwf2 Nc2) as [Hd Hwf3]. rewrite Hp2 in Hd.
  unfold drain_one. cbn [drain_loop]. rewrite (proj2 (Nat.ltb_lt _ _) Nc2).
  destruct (drain_pop b2) as [e b3]. simpl in Hd, Hwf3. injection Hd as <- Hd. by simpl.
Qed.

(** *** Invalidation and flushes *)

Lemma invalidate_pending a sz b :
  stb_wf b -> pending (invalidate_address a sz b) = invalidate_entry a sz <$> pending b.
Proof.
  intros [[] [] _]. unfold pending, spec_items, committed_items, invalidate_address; rcbn.
  by rewrite fmap_app, !ring_items_fmap.
Qed.

Lemma invalidate_entry_spec a sz e :
  0 <= a -> 0 < sz -> a + sz < 2 ^ 64 -> entry_ok e ->
  (sbe_valid (invalidate_entry a sz e) = true <-> sbe_valid e = true /\ ~ overlaps a sz e) /\
  (sbe_valid (invalidate_entry a sz e) = true -> invalidate_entry a sz e = e).
Proof.
  intros Ha Hs He [Ea Es Ee Ed]. unfold invalidate_entry, overlaps.
  rewrite !wrap_small by (unfold fits; lia).
  destruct (sbe_valid e) eqn:Ev; [|rewrite Ev; by split; [split; [|intros []]|]].
  destruct (Z.ltb_spec a (sbe_address e + sbe_size e)), (Z.ltb_spec (sbe_address e) (a + sz));
    simpl; rewrite ?Ev; (split; [|done]); split; intros; (done || lia).
Qed.

(** A byte no live pending store covers is the byte of memory. *)
Lemma view_of_uncovered m q x :
  Forall (fun e => sbe_valid e = true ->
            ~ (sbe_address e <= x < sbe_address e + sbe_size e)) q ->
  view_of m q x = m x.
Proof.
  intros Hq. revert m. induction Hq as [|e q He Hq IH]; intros m; simpl; [done|].
  rewrite IH. unfold apply_store. case_match; [|done]. by apply store_out, He.
Qed.

(** After [invalidate_address], a load of the invalidated range reads memory:
    the value the AMO or SC wrote directly is what the hart sees. *)
Theorem invalidate_address_exposes_memory m b a sz :
  stb_wf b -> 0 <= a -> 0 < sz -> a + sz < 2 ^ 64 ->
  load (sb_view m (invalidate_address a sz b)) a sz = load m a sz.
Proof.
  intros Hwf Ha Hs He. apply load_ext. intros x Hx. unfold sb_view.
  rewrite invalidate_pending by done. apply view_of_uncovered, Forall_fmap.
  pose proof (stb_wf_ok b Hwf) as Hall. eapply Forall_impl; [|exact Hall]. intros e Hok Hv.
  destruct (invalidate_entry_spec a sz e Ha Hs He Hok) as [[H1 _] H2].
  rewrite H2 by done. destruct (H1 Hv) as [_ Ho]. unfold overlaps in Ho. simpl in Ho. lia.
Qed.

Lemma flush_speculative_pending b :
  pending (stb_flush_speculative b) = committed_items b.
Proof. unfold pending. apply app_nil_r. Qed.

Lemma flush_all_pending b : pending (stb_flush_all b) = [].
Proof. done. Qed.

(** C0: [flush_speculative(branch, scoreboard)] ends and drops from the young end
    exactly the longest run of stores whose scoreboard entry was squashed. *)
Theorem flush_squashed_pending sb b :
  stb_wf b ->
  exists kept dropped,
    spec_items b = kept ++ dropped /\
    pending (stb_flush_squashed sb b) = committed_items b ++ kept /\
    stb_wf (stb_flush_squashed sb b) /\
    let squashed e := (0 <=? sbe_trans_id e) &&
          negb (sb_valid (default sb_entry0 (sb_get_entry sb (sbe_trans_id e)))) in
    Forall (fun e => squashed e = true) dropped /\
    match list.last kept with Some e => squashed e = false | None => True end.
Proof.
  intros Hwf. unfold stb_flush_squashed. remember (S (spec_count b)) as fuel eqn:Ef.
  assert (Hf : (spec_count b < fuel)%nat) by lia. clear Ef. revert b Hwf Hf.
  induction fuel as [|fuel IH]; intros b Hwf Hf; [lia|]. cbn [stb_squash_loop]. cbv zeta.
  pose proof Hwf as [Hs Hc Hok]. pose proof (ring_count _ _ _ _ _ Hs).
  pose proof (ring_head _ _ _ _ _ Hs). destruct (Nat.ltb_spec 0 (spec_count b)) as [Hn|Hn].
  2: { assert (Hit : spec_items b = []).
       { unfold spec_items. by replace (spec_count b) with 0%nat by lia. }
       exists [], []. split_and!; [done|unfold pending; by rewrite Hit|done|constructor|done]. }
  destruct (spec_count b) as [|n] eqn:En; [lia|].
  rewrite (ring_newest_0 _ _ _ _ _ Hs).
  assert (Hit : spec_items b = ring_items SPEC_DEPTH (stb_spec b) (spec_head b) n ++
                  [stb_spec b !!! ring_at SPEC_DEPTH (spec_head b) n]).
  { unfold spec_items. rewrite En. apply ring_items_snoc. }
  case_match eqn:Esq.
  - set (b' := { b with stb_spec := _; spec_tail := _; spec_count := _ }).
    assert (Hb' : spec_items b' = ring_items SPEC_DEPTH (stb_spec b) (spec_head b) n).
    { unfold spec_items, b'; rcbn. apply ring_items_insert_out; lia. }
    assert (Hwf' : stb_wf b').
    { split; unfold b'; rcbn; [|exact Hc|].
      - apply ring_wf_insert. by apply (ring_wf_shrink _ _ _ _ _ n) in Hs; [|lia].
      - change (Forall entry_ok (committed_items b ++ spec_items b')). rewrite Hb'. unfold pending in Hok. rewrite Hit, app_assoc in Hok.
        by apply Forall_app in Hok as [Hok _]. }
    destruct (IH b' Hwf' ltac:(unfold b'; rcbn; lia)) as (kept & dropped & E1 & E2 & E3 & E4 & E5).
    exists kept, (dropped ++ [stb_spec b !!! ring_at SPEC_DEPTH (spec_head b) n]).
    split_and!; try done.
    + by rewrite Hit, <-Hb', E1, app_assoc.
    + apply Forall_app. split; [exact E4|]. constructor; [exact Esq|constructor].
  - exists (spec_items b), []. split_and!; [by rewrite app_nil_r|done|done|by constructor|].
    rewrite Hit, last_snoc. exact Esq.
Qed.
(** *** The buffer in front of memory is a sequential memory

    [stb_step] interleaves, in any order, what EX, the load unit, commit and the
    drain do; [mem_step] is a plain memory without a buffer. *)
Inductive label := LStore (a sz d : Z) | LLoad (a sz v : Z) | LTau.

Inductive stb_step : bytemem * StoreBuffer -> label -> bytemem * StoreBuffer -> Prop :=
  | stb_add m b a d sz t :
      spec_is_full b = false -> entry_ok (mkSBE true a d sz t) ->
      stb_step (m, b) (LStore a sz d) (m, (add_store a d sz t b).2)
  | stb_load_hit m b a sz v :
      load_ok a sz -> forward_load a sz b = FwdHit v -> stb_step (m, b) (LLoad a sz v) (m, b)
  | stb_load_miss m b a sz :
      load_ok a sz -> forward_load a sz b = FwdMiss ->
      stb_step (m, b) (LLoad a sz (load m a sz)) (m, b)
  | stb_commit m b : stb_step (m, b) LTau (m, (commit_store b).2)
  | stb_drain m b a d sz :
      (drain_one b).1 = Some (a, d, sz) ->
      stb_step (m, b) LTau (store m a sz d, (drain_one b).2).

Inductive mem_step : bytemem -> label -> bytemem -> Prop :=
  | mem_store am a sz d : mem_step am (LStore a sz d) (store am a sz d)
  | mem_load am a sz : mem_step am (LLoad a sz (load am a sz)) am
  | mem_tau am : mem_step am LTau am.

Inductive trace {S} (step : S -> label -> S -> Prop) : S -> list label -> S -> Prop :=
  | trace_nil s : trace step s [] s
  | trace_cons s l s1 tr s2 :
      step s l s1 -> trace step s1 tr s2 -> trace step s (l :: tr) s2.

Definition stb_rel (s : bytemem * StoreBuffer) (am : bytemem) : Prop :=
  mem_ok s.1 /\ stb_wf s.2 /\ Forall (fun e => sbe_valid e = true) (pending s.2) /\
  forall x, sb_view s.1 s.2 x = am x.

Lemma commit_store_pending_valid b :
  stb_wf b -> Forall (fun e => sbe_valid e = true) (pending b) ->
  pending (commit_store b).2 = pending b.
Proof.
  intros Hwf Hv. destruct (commit_store b).1 eqn:E.
  - rewrite commit_store_pending by done. unfold pending in Hv |- *. f_equal.
    apply Forall_app in Hv as [_ Hv]. destruct Hv as [|e q He Hq]; [done|].
    destruct e; simpl in *. by rewrite He.
  - unfold commit_store in E |- *. by repeat case_match.
Qed.

Lemma stb_step_sim s l s' am :
  stb_rel s am -> stb_step s l s' -> exists am', mem_step am l am' /\ stb_rel s' am'.
Proof.
  intros (Hm & Hwf & Hv & Hview) Hst.
  destruct Hst as [m b a d sz t Hf He|m b a sz v Hl Hf|m b a sz Hl Hf|m b|m b a d sz Hd];
    simpl in Hm, Hwf, Hv, Hview.
  - eexists. split; [constructor|]. pose proof (add_store_pending a d sz t b Hwf Hf) as Hp.
    split_and!; simpl; [done|by apply add_store_wf| |].
    + rewrite Hp. apply Forall_app. split; [done|]. by constructor.
    + intros x. unfold sb_view. rewrite Hp, view_of_app. simpl. unfold apply_store; simpl.
      unfold store, store_bytes. case_match; [done|]. apply Hview.
  - pose proof (forward_load_promise m b a sz Hm Hwf Hl) as Hc. rewrite Hf in Hc. simpl in Hc.
    exists am. split; [|by split_and!].
    rewrite Hc, (load_ext _ am) by (intros; apply Hview). constructor.
  - pose proof (forward_load_promise m b a sz Hm Hwf Hl) as Hc. rewrite Hf in Hc. simpl in Hc.
    exists am. split; [|by split_and!].
    rewrite Hc, (load_ext _ am) by (intros; apply Hview). constructor.
  - exists am. split; [constructor|]. pose proof (commit_store_pending_valid b Hwf Hv) as Hp.
    split_and!; simpl; [done|by apply commit_store_wf|by rewrite Hp|].
    intros x. unfold sb_view. rewrite Hp. apply Hview.
  - exists am. split; [constructor|]. pose proof (drain_one_view m b Hwf) as Hdv.
    destruct (drain_one_pending b Hwf) as (dead & Hdead & Hwf' & Hm'). rewrite Hd in Hm', Hdv.
    destruct Hm' as (e & He & <- & <- & <- & Hp). split_and!; simpl; [by auto with fits|done| |].
    + rewrite Hp in Hv. apply Forall_app in Hv as [_ Hv]. by inversion Hv.
    + intros x. rewrite <-Hdv. apply Hview.
Qed.

(** C26: stores, loads (forwarded or read from memory), commits and drains, in any
    interleaving, are indistinguishable from a memory without a store buffer. *)
Theorem store_buffer_refines_memory m tr s :
  (0 < SPEC_DEPTH)%nat -> (0 < COMMIT_DEPTH)%nat -> mem_ok m ->
  trace stb_step (m, stb_new) tr s ->
  exists am, trace mem_step m tr am /\ forall x, sb_view s.1 s.2 x = am x.
Proof.
  intros HS HC Hm Htr.
  assert (H : forall s0 am0, trace stb_step s0 tr s -> stb_rel s0 am0 ->
            exists am, trace mem_step am0 tr am /\ stb_rel s am).
  { intros s0 am0 H0. revert am0. clear Htr.
    induction H0 as [s0|s0 l s1 tr s2 H1 H2 IH]; intros am0 HR.
    - exists am0. split; [constructor|done].
    - destruct (stb_step_sim _ _ _ _ HR H1) as (am1 & Hst & HR1).
      destruct (IH am1 HR1) as (am & Ht & HR2). exists am. split; [|done].
      by econstructor. }
  destruct (H _ m Htr) as (am & Ht & (_ & _ & _ & Hv)).
  - split_and!; simpl; [done|by apply stb_new_wf|by constructor|done].
  - by exists am.
Qed.
End store_buffer.

(** ** Witnesses: an 8-byte store pending in the committed queue, a younger 2-byte
    store in the speculative one. *)
Definition stb_example : StoreBuffer :=
  let b := (add_store 4 0x1000 0x1122334455667788 8 0 (stb_new 4 4)).2 in
  let b := (commit_store 4 4 b).2 in
  (add_store 4 0x1002 0xABCD 2 1 b).2.

Definition zero_mem : bytemem := fun _ => 0.

Lemma zero_mem_ok : mem_ok zero_mem.
Proof. intros x. unfold zero_mem, fits. lia. Qed.

Lemma stb_example_wf : stb_wf 4 4 stb_example.
Proof.
  unfold stb_example.
  repeat first [apply add_store_wf | apply commit_store_wf | apply stb_new_wf; lia];
    split; simpl; unfold fits; lia.
Qed.

Example forward_load_correct_witness :
  forward_load 4 4 0x1004 4 stb_example = FwdHit 0x11223344 /\
  load (sb_view 4 4 zero_mem stb_example) 0x1004 4 = 0x11223344 /\
  forward_load 4 4 0x1000 8 stb_example = FwdPartialOverlap.
Proof.
  assert (E : forward_load 4 4 0x1004 4 stb_example = FwdHit 0x11223344) by (vm_compute; done).
  split_and!; [exact E| |vm_compute; done].
  pose proof (forward_load_correct 4 4 zero_mem stb_example 0x1004 4 zero_mem_ok stb_example_wf) as H.
  rewrite E in H. symmetry. apply H. unfold load_ok. lia.
Defined.

Example invalidate_address_exposes_memory_witness :
  load (sb_view 4 4 zero_mem (invalidate_address 0x1002 2 stb_example)) 0x1002 2 = 0.
Proof.
  rewrite (invalidate_address_exposes_memory 4 4 zero_mem stb_example 0x1002 2 stb_example_wf)
    by lia. reflexivity.
Defined.

Example flush_squashed_pending_witness :
  exists kept dropped, spec_items 4 stb_example = kept ++ dropped /\
    pending 4 4 (stb_flush_squashed 4 (sb_new 4) stb_example) =
      committed_items 4 stb_example ++ kept.
Proof.
  destruct (flush_squashed_pending 4 4 (sb_new 4) stb_example stb_example_wf)
    as (kept & dropped & E1 & E2 & _). by exists kept, dropped.
Defined.

Example store_buffer_refines_memory_witness :
  exists am, trace mem_step zero_mem
      [LStore 0x1000 8 0x1122334455667788; LTau; LLoad 0x1004 4 0x11223344] am /\
    am 0x1000 = 0x88.
Proof.
  set (b1 := (add_store 4 0x1000 0x1122334455667788 8 0 (stb_new 4 4)).2).
  assert (Htr : trace (stb_step 4 4) (zero_mem, stb_new 4 4)
      [LStore 0x1000 8 0x1122334455667788; LTau; LLoad 0x1004 4 0x11223344]
      (zero_mem, (commit_store 4 4 b1).2)).
  { eapply trace_cons; [apply (stb_add _ _ _ _ _ _ _ 0); [done|split; simpl; unfold fits; lia]|].
    eapply trace_cons; [apply stb_commit|].
    eapply trace_cons; [|apply trace_nil].
    apply stb_load_hit; [unfold load_ok; lia|vm_compute; done]. }
  destruct (store_buffer_refines_memory 4 4 zero_mem _ _ ltac:(lia) ltac:(lia) zero_mem_ok Htr)
    as (am & Ht & Hv).
  exists am. split; [exact Ht|]. rewrite <-Hv. vm_compute. done.
Defined.

(** A finding: [commit_store] marks the moved entry valid even when
    [invalidate_address] killed it in the speculative queue, so the stale store
    comes back.  The pipeline avoids it by issuing an AMO only on an empty buffer. *)
Example commit_store_revives_invalidated :
  let b := (add_store 4 0x1000 7 8 0 (stb_new 4 4)).2 in
  let b' := invalidate_address 0x1000 8 b in
  forward_load 4 4 0x1000 8 b' = FwdMiss /\
  forward_load 4 4 0x1000 8 (commit_store 4 4 b').2 = FwdHit 7.
Proof. vm_compute. done. Qed.
