(* ===== verification/Memory.v ===== *)
(** [src/Memory.cpp] and [src/MemoryInterface.cpp]: the flat memory behind its TLM
    socket and the CPU's access functions.  A TLM payload is a record; the byte
    buffer its data pointer designates is the list [p_data].  [Target] is the
    interface of anything a transaction can be sent to. *)
From S2P Require Import Prelude Bytes.

Inductive tlm_command := TLM_READ | TLM_WRITE | TLM_IGNORE.
Inductive tlm_status :=
  | TLM_INCOMPLETE | TLM_OK | TLM_GENERIC_ERROR | TLM_ADDRESS_ERROR | TLM_COMMAND_ERROR
  | TLM_BURST_ERROR | TLM_BYTE_ENABLE_ERROR.

#[export] Instance tlm_command_eq_dec : EqDecision tlm_command.
Proof. solve_decision. Defined.
#[export] Instance tlm_status_eq_dec : EqDecision tlm_status.
Proof. solve_decision. Defined.

Record payload := mkPayload {
  p_cmd : tlm_command;
  p_addr : Z;
  p_data : list Z;            (* data pointer and data length *)
  p_byte_enable : bool;       (* is the byte-enable pointer set *)
  p_status : tlm_status;
  p_dmi_allowed : bool;
}.

Definition p_len (p : payload) : Z := Z.of_nat (length (p_data p)).

(** [is_response_error]: every status below [TLM_OK], the incomplete one included. *)
Definition is_response_error (p : payload) : bool :=
  match p_status p with TLM_OK => false | _ => true end.

(** A TLM target: [b_transport] on the target's state and the delay (in ps). *)
Class Target (S : Type) := b_transport : payload -> Z -> S -> payload * Z * S.

(** ** Memory *)

Definition SIZE : Z := 0x20000000.

Record memory := mkMemory {
  mem : bytemem;              (* std::array<uint8_t, SIZE> *)
  m_latency : Z;
  dmi_allowed : bool;
  program_counter : Z;
  DISABLE_DMI : bool;         (* getenv("DISABLE_DMI"), which get_direct_mem_ptr reads *)
}.

Definition mem_b_transport (p : payload) (delay : Z) (s : memory) : payload * Z * memory :=
  let adr := p_addr p in
  let len := p_len p in
  if (SIZE <=? adr) || (SIZE <? u64 (adr + len))
  then ({ p with p_status := TLM_ADDRESS_ERROR }, delay, s)
  else if p_byte_enable p then ({ p with p_status := TLM_BYTE_ENABLE_ERROR }, delay, s)
  else
    let '(p', s') :=
      match p_cmd p with
      | TLM_READ => ({ p with p_data := load_bytes (mem s) adr (length (p_data p)) }, s)
      | TLM_WRITE => (p, { s with mem := store_bytes (mem s) adr (p_data p) })
      | TLM_IGNORE => (p, s)
      end in
    ({ p' with p_dmi_allowed := dmi_allowed s; p_status := TLM_OK }, delay + m_latency s, s').

#[export] Instance memory_target : Target memory := mem_b_transport.

(** The direct access a fetch may be granted: [get_direct_mem_ptr] answers whether it is,
    [direct_read off n] is a [memcpy] of [n] bytes from the pointer it gives plus [off];
    [None] is an access outside of the array behind the pointer. *)
Class DirectMem (S : Type) := {
  get_direct_mem_ptr : S -> bool;
  direct_read : Z -> nat -> S -> option (list Z)
}.

Definition mem_get_direct_mem_ptr (s : memory) : bool :=
  if DISABLE_DMI s then false else dmi_allowed s.

(** The window of addresses the pointer is valid for, as [dmi_data] gives it. *)
Definition dmi_window : Z * Z := (0, SIZE - 1).

Definition mem_direct_read (off : Z) (n : nat) (s : memory) : option (list Z) :=
  if (0 <=? off) && (off + Z.of_nat n <=? SIZE) then Some (load_bytes (mem s) off n) else None.

#[export] Instance memory_direct : DirectMem memory := {
  get_direct_mem_ptr := mem_get_direct_mem_ptr;
  direct_read := mem_direct_read
}.

(** [transport_dbg]: clips the length instead of failing; no timing. *)
Definition mem_transport_dbg (p : payload) (s : memory) : Z * payload * memory :=
  let adr := p_addr p in
  let len := p_len p in
  if SIZE <=? adr then (0, { p with p_status := TLM_ADDRESS_ERROR }, s) else
  let num_bytes := Z.min len (SIZE - adr) in
  let n := Z.to_nat num_bytes in
  match p_cmd p with
  | TLM_READ =>
      (num_bytes, { p with p_data := load_bytes (mem s) adr n ++ drop n (p_data p) }, s)
  | TLM_WRITE => (num_bytes, p, { s with mem := store_bytes (mem s) adr (take n (p_data p)) })
  | TLM_IGNORE => (num_bytes, p, s)
  end.

Definition getPCfromHEX (s : memory) : Z := program_counter s.

(** [loadBin], on the contents of the file; [None] is [SC_REPORT_ERROR]. *)
Definition loadBin (file : list Z) (phys_offset : Z) (s : memory) : option memory :=
  let DRAM_BASE := 0x80000000 in
  if (phys_offset <? DRAM_BASE) || (DRAM_BASE + SIZE <=? phys_offset) then None else
  let mem_offset := phys_offset - DRAM_BASE in
  if SIZE <? u64 (mem_offset + Z.of_nat (length file)) then None else
  Some { s with mem := store_bytes (mem s) mem_offset file; dmi_allowed := false }.

(** ** MemoryInterface *)

Section memory_interface.
Context {S : Type} `{Target S}.

(** The word read: the [size] bytes the target returned over a zeroed word.
    [None] is [SC_REPORT_ERROR]. *)
Definition readDataMem (addr size : Z) (s : S) : option Z * S :=
  let '(p, _, s') :=
    b_transport (mkPayload TLM_READ addr (replicate (Z.to_nat size) 0) false TLM_INCOMPLETE false)
      0 s in
  (if is_response_error p then None else Some (u32 (le_combine (p_data p))), s').

Definition readDataMem64 (addr size : Z) (s : S) : option Z * S :=
  let '(p, _, s') :=
    b_transport (mkPayload TLM_READ addr (replicate (Z.to_nat size) 0) false TLM_INCOMPLETE false)
      0 s in
  (if is_response_error p then None else Some (u64 (le_combine (p_data p))), s').

Definition writeDataMem (addr data size : Z) (s : S) : option unit * S :=
  let '(p, _, s') :=
    b_transport (mkPayload TLM_WRITE addr (le_split (Z.to_nat size) (u32 data)) false
                   TLM_INCOMPLETE false) 0 s in
  (if is_response_error p then None else Some tt, s').

Definition writeDataMem64 (addr data size : Z) (s : S) : option unit * S :=
  let '(p, _, s') :=
    b_transport (mkPayload TLM_WRITE addr (le_split (Z.to_nat size) (u64 data)) false
                   TLM_INCOMPLETE false) 0 s in
  (if is_response_error p then None else Some tt, s').
End memory_interface.

(** ** Facts *)

(** The range check of [b_transport] accepts exactly the in-bounds accesses. *)
Definition in_bounds (adr len : Z) : Prop := adr + len <= SIZE /\ adr < SIZE.

Lemma mem_range_check adr len :
  0 <= adr -> 0 <= len < 2 ^ 32 ->
  ((SIZE <=? adr) || (SIZE <? u64 (adr + len)) = false <-> in_bounds adr len).
Proof.
  intros Ha Hl. unfold in_bounds.
  destruct (Z.leb_spec SIZE adr); simpl; [split; [done|lia]|].
  rewrite wrap_small by (unfold fits, SIZE in *; lia).
  destruct (Z.ltb_spec SIZE (adr + len)); split; (done || lia).
Qed.

Lemma mem_b_transport_read adr l s :
  0 <= adr -> in_bounds adr (Z.of_nat (length l)) ->
  forall delay, mem_b_transport (mkPayload TLM_READ adr l false TLM_INCOMPLETE false) delay s =
    (mkPayload TLM_READ adr (load_bytes (mem s) adr (length l)) false TLM_OK (dmi_allowed s),
     delay + m_latency s, s).
Proof.
  intros Ha Hb delay. unfold mem_b_transport, p_len. simpl.
  rewrite (proj2 (mem_range_check adr (Z.of_nat (length l)) Ha ltac:(unfold in_bounds, SIZE in Hb; lia)))
    by done. done.
Qed.

Lemma mem_b_transport_write adr l s :
  0 <= adr -> in_bounds adr (Z.of_nat (length l)) ->
  forall delay, mem_b_transport (mkPayload TLM_WRITE adr l false TLM_INCOMPLETE false) delay s =
    (mkPayload TLM_WRITE adr l false TLM_OK (dmi_allowed s), delay + m_latency s,
     { s with mem := store_bytes (mem s) adr l }).
Proof.
  intros Ha Hb delay. unfold mem_b_transport, p_len. simpl.
  rewrite (proj2 (mem_range_check adr (Z.of_nat (length l)) Ha ltac:(unfold in_bounds, SIZE in Hb; lia)))
    by done. done.
Qed.

Lemma load_bytes_store_bytes m a l : load_bytes (store_bytes m a l) a (length l) = l.
Proof.
  apply list_eq. intros i. destruct (decide (i < length l)%nat) as [Hi|Hi].
  - unfold load_bytes. rewrite list_lookup_fmap, lookup_seq_lt by done. simpl.
    unfold store_bytes. rewrite (proj2 (Z.leb_le _ _)), (proj2 (Z.ltb_lt _ _)) by lia. simpl.
    replace (Z.to_nat (a + Z.of_nat i - a)) with i by lia. unfold byte_at.
    destruct (lookup_lt_is_Some_2 l i Hi) as [x Hx]. by rewrite Hx.
  - rewrite !lookup_ge_None_2; [done|lia|rewrite load_bytes_length; lia].
Qed.

Lemma readDataMem64_memory a size s :
  0 <= a -> 0 < size <= 8 -> a + size <= SIZE ->
  readDataMem64 a size s = (Some (u64 (load (mem s) a size)), s).
Proof.
  intros Ha Hs Hb. unfold readDataMem64, b_transport, memory_target.
  rewrite mem_b_transport_read by (rewrite ?length_replicate; unfold in_bounds, SIZE in *; lia).
  simpl. by rewrite length_replicate.
Qed.

Lemma writeDataMem64_memory a v size s :
  0 <= a -> 0 < size <= 8 -> a + size <= SIZE ->
  writeDataMem64 a v size s = (Some tt, { s with mem := store (mem s) a size (u64 v) }).
Proof.
  intros Ha Hs Hb. unfold writeDataMem64, b_transport, memory_target.
  rewrite mem_b_transport_write by (rewrite ?le_split_length; unfold in_bounds, SIZE in *; lia).
  done.
Qed.

(** A 1- to 8-byte word written through [writeDataMem64] reads back through
    [readDataMem64] truncated to its size, and the bytes outside the written range
    are untouched. *)
Theorem data_mem64_roundtrip a v size s :
  0 <= a -> 0 < size <= 8 -> a + size <= SIZE -> mem_ok (mem s) ->
  let s' := (writeDataMem64 a v size s).2 in
  (readDataMem64 a size s').1 = Some (wrap (8 * size) v) /\
  (forall x, ~ (a <= x < a + size) -> mem s' x = mem s x).
Proof.
  intros Ha Hs Hb Hm s'. unfold s'. rewrite writeDataMem64_memory by done. simpl. split.
  - rewrite readDataMem64_memory by done. simpl. rewrite load_store_same by (done || lia).
    f_equal. apply Z.bits_inj'; intros i Hi. autorewrite with zbits.
    destruct (Z.ltb_spec i 64), (Z.ltb_spec i (8 * size)); simpl; (done || lia).
  - intros x Hx. by apply store_out.
Qed.

(** Memory accepts exactly the in-bounds transactions without byte enables: a
    rejected one changes nothing and reports why, an accepted one is a block copy. *)
Theorem mem_b_transport_spec p delay s :
  0 <= p_addr p -> p_len p < 2 ^ 32 ->
  let '(p', delay', s') := mem_b_transport p delay s in
  (in_bounds (p_addr p) (p_len p) -> p_byte_enable p = false ->
     p_status p' = TLM_OK /\ delay' = delay + m_latency s /\
     (p_cmd p = TLM_READ ->
        s' = s /\ p_data p' = load_bytes (mem s) (p_addr p) (length (p_data p))) /\
     (p_cmd p = TLM_WRITE -> p_data p' = p_data p /\
        load_bytes (mem s') (p_addr p) (length (p_data p)) = p_data p)) /\
  (~ in_bounds (p_addr p) (p_len p) ->
     p_status p' = TLM_ADDRESS_ERROR /\ s' = s /\ p_data p' = p_data p /\ delay' = delay).
Proof.
  intros Ha Hl. unfold mem_b_transport.
  pose proof (mem_range_check (p_addr p) (p_len p) Ha ltac:(unfold p_len in *; lia)) as Hc.
  destruct (_ || _) eqn:E.
  - split; [|done]. intros Hb. apply Hc in Hb. done.
  - pose proof (proj1 Hc eq_refl) as Hin. destruct (p_byte_enable p) eqn:Eb; [by split|].
    destruct (p_cmd p) eqn:Ec; simpl; (split; [|done]); intros _ _; split_and!; try done.
    intros _. split; [done|]. apply load_bytes_store_bytes.
Qed.

(** C0: [loadBin] puts the file at its physical offset in the DRAM window, and
    refuses a file that does not fit. *)
Theorem loadBin_spec file off s :
  Z.of_nat (length file) < 2 ^ 63 ->
  match loadBin file off s with
  | Some s' => 0x80000000 <= off /\ off + Z.of_nat (length file) <= 0x80000000 + SIZE /\
      load_bytes (mem s') (off - 0x80000000) (length file) = file /\
      (forall x, ~ (off - 0x80000000 <= x < off - 0x80000000 + Z.of_nat (length file)) ->
         mem s' x = mem s x)
  | None => off < 0x80000000 \/ 0x80000000 + SIZE < off + Z.of_nat (length file) \/
            0x80000000 + SIZE <= off
  end.
Proof.
  intros Hl. unfold loadBin.
  destruct (Z.ltb_spec off 0x80000000); simpl; [lia|].
  destruct (Z.leb_spec (0x80000000 + SIZE) off); simpl; [lia|].
  rewrite wrap_small by (unfold fits, SIZE in *; lia).
  destruct (Z.ltb_spec SIZE (off - 0x80000000 + Z.of_nat (length file))); [lia|].
  split_and!; [lia|lia|apply load_bytes_store_bytes|].
  intros x Hx. simpl. unfold store_bytes.
  destruct (Z.leb_spec (off - 0x80000000) x),
    (Z.ltb_spec x (off - 0x80000000 + Z.of_nat (length file))); simpl; (done || lia).
Qed.

(** Witnesses. *)
Definition memory0 : memory := mkMemory (fun _ => 0) 0 false 0 false.

Example data_mem64_roundtrip_witness :
  (readDataMem64 0x100 4 (writeDataMem64 0x100 0x1122334455667788 4 memory0).2).1 =
    Some 0x55667788.
Proof.
  apply (data_mem64_roundtrip 0x100 0x1122334455667788 4 memory0);
    [lia|lia|unfold SIZE; lia|intros x; simpl; unfold fits; lia].
Defined.

Example mem_b_transport_spec_witness :
  (mem_b_transport (mkPayload TLM_READ (SIZE - 2) [0;0;0;0] false TLM_INCOMPLETE false) 0 memory0).1.1
    = mkPayload TLM_READ (SIZE - 2) [0;0;0;0] false TLM_ADDRESS_ERROR false.
Proof.
  pose proof (mem_b_transport_spec
    (mkPayload TLM_READ (SIZE - 2) [0;0;0;0] false TLM_INCOMPLETE false) 0 memory0
    ltac:(unfold SIZE; simpl; lia) ltac:(unfold p_len; simpl; lia)) as H.
  destruct (mem_b_transport _ _ _) as [[p' d'] s'] eqn:E.
  destruct H as [_ H]. destruct H as (Hs & _).
  - unfold in_bounds, p_len; simpl. lia.
  - revert E. vm_compute. intros E. by simplify_eq.
Defined.

Example loadBin_spec_witness :
  exists s', loadBin [1;2;3] 0x80200000 memory0 = Some s' /\ load_bytes (mem s') 0x200000 3 = [1;2;3].
Proof.
  pose proof (loadBin_spec [1;2;3] 0x80200000 memory0 ltac:(simpl; lia)) as H.
  destruct (loadBin [1;2;3] 0x80200000 memory0) as [s'|] eqn:E.
  - exists s'. split; [done|]. apply H.
  - exfalso. revert H. unfold SIZE; simpl. lia.
Defined.
