(* ===== verification/HexLoader.v ===== *)
(** [Memory::readHexFile] of [src/Memory.cpp]: the reader of Intel HEX files.

    A file is its bytes; [std::getline] splits it into lines, [std::stoi] and [std::stol] in base
    16 read a number as [strtol] does and throw when there is no digit.  [None] is an exception
    or [SC_REPORT_ERROR].  [hex_roundtrip] compares the reader with the records that a file was
    written from. *)
From S2P Require Import Prelude Bytes Memory.
From Stdlib Require String Ascii.

(** ** Numbers *)

Definition is_space (c : Z) : bool := ((9 <=? c) && (c <=? 13)) || (c =? 32).
Definition hex_digit (c : Z) : option Z :=
  if (48 <=? c) && (c <=? 57) then Some (c - 48)
  else if (65 <=? c) && (c <=? 70) then Some (c - 55)
  else if (97 <=? c) && (c <=? 102) then Some (c - 87)
  else None.

Fixpoint skip_space (l : list Z) : list Z :=
  match l with c :: l' => if is_space c then skip_space l' else l | [] => [] end.

(** The value of the longest prefix of digits. *)
Fixpoint digits (acc : Z) (l : list Z) : Z :=
  match l with
  | c :: l => match hex_digit c with Some d => digits (16 * acc + d) l | None => acc end
  | [] => acc
  end.

(** [std::stol(s, nullptr, 16)]: spaces, a sign, an optional 0x that a digit follows, digits. *)
Definition unsigned16 (l : list Z) : option Z :=
  let l := match l with
           | c :: x :: d :: r =>
               if (c =? 48) && ((x =? 120) || (x =? 88)) && bool_decide (is_Some (hex_digit d)) then d :: r else l
           | _ => l
           end in
  match l with c :: _ => match hex_digit c with Some _ => Some (digits 0 l) | None => None end
             | [] => None end.
Definition stol16 (l : list Z) : option Z :=
  match skip_space l with
  | c :: r => if c =? 45 then Z.opp <$> unsigned16 r else unsigned16 (if c =? 43 then r else c :: r)
  | [] => None
  end.

Definition substr (pos n : nat) (l : list Z) : list Z := take n (drop pos l).

(** [getline]: the lines of a file, the last one without its end included. *)
Fixpoint getlines (line : list Z) (file : list Z) : list (list Z) :=
  match file with
  | [] => match line with [] => [] | _ => [line] end
  | c :: file => if c =? 10 then line :: getlines [] file else getlines (line ++ [c]) file
  end.

(** ** The reader *)

Definition DRAM_BASE : Z := 0x80000000.

(** The index in [mem] of an address: the DRAM window is mapped down. *)
Definition hex_index (a64 : Z) : Z :=
  u32 (if (DRAM_BASE <=? a64) && (a64 <? DRAM_BASE + SIZE) then a64 - DRAM_BASE else a64).

(** The bytes [i], [i + 1], ... of a data record. *)
Fixpoint hex_data (n i : nat) (address : Z) (line : list Z) (m : bytemem) : option bytemem :=
  match n with
  | O => Some m
  | S n =>
      let a := hex_index (address + Z.of_nat i) in
      if (a <? SIZE) && (9 + i * 2 + 2 <=? length line)%nat then
        match stol16 (substr (9 + i * 2) 2 line) with
        | Some v => hex_data n (S i) address line (fun x => if x =? a then u8 v else m x)
        | None => None
        end
      else hex_data n (S i) address line m
  end.

(** The memory, its program counter, [extended_address] and [memory_offset]. *)
Record hex_state := mkHex { hx_mem : bytemem; hx_pc : Z; extended_address : Z; memory_offset : Z }.

Definition hex_line (line : list Z) (s : hex_state) : option hex_state :=
  if negb (match line with c :: _ => c =? 58 | [] => false end) then Some s
  else if (length line <? 11)%nat then Some s
  else
    let type := substr 7 2 line in
    if bool_decide (type = [48; 48]) then
      match stol16 (substr 1 2 line), stol16 (substr 3 4 line) with
      | Some byte_count, Some a =>
          let address := u32 (u32 a + extended_address s + memory_offset s) in
          match hex_data (Z.to_nat byte_count) 0 address line (hx_mem s) with
          | Some m => Some { s with hx_mem := m }
          | None => None
          end
      | _, _ => None
      end
    else if bool_decide (type = [48; 50]) then
      if (length line <? 15)%nat then Some s
      else match stol16 (substr 9 4 line) with
           | Some v => Some { s with extended_address := u32 (v * 16) } | None => None end
    else if bool_decide (type = [48; 51]) then
      if (length line <? 19)%nat then Some s
      else match stol16 (substr 9 4 line), stol16 (substr 13 4 line) with
           | Some cs, Some ip => Some { s with hx_pc := u32 (u32 ip + u32 (cs * 16)) }
           | _, _ => None end
    else if bool_decide (type = [48; 52]) then
      if (length line <? 15)%nat then Some s
      else match stol16 (substr 9 4 line) with
           | Some v => Some { s with memory_offset := u32 (u32 v .<< 16); extended_address := 0 }
           | None => None end
    else if bool_decide (type = [48; 53]) then
      if (length line <? 19)%nat then Some s
      else match stol16 (substr 9 8 line) with
           | Some v => Some { s with hx_pc := u32 v } | None => None end
    else Some s.

Fixpoint hex_lines (lines : list (list Z)) (s : hex_state) : option hex_state :=
  match lines with
  | [] => Some s
  | line :: lines => match hex_line line s with Some s => hex_lines lines s | None => None end
  end.

(** The file, or [None] when it cannot be opened. *)
Definition readHexFile (hexfile : option (list Z)) (s : memory) : option memory :=
  match hexfile with
  | None => None
  | Some file =>
      match hex_lines (getlines [] file) (mkHex (mem s) (program_counter s) 0 0) with
      | Some x => Some { s with mem := hx_mem x; program_counter := hx_pc x;
                                dmi_allowed := memory_offset x =? 0 }
      | None => None
      end
  end.

(** ** Records *)

Inductive hex_record :=
| Data (addr : Z) (l : list Z)
| EndOfFile
| ExtendedSegment (base : Z)
| StartSegment (cs ip : Z)
| ExtendedLinear (base : Z)
| StartLinear (eip : Z).

Definition be16 (v : Z) : list Z := [v / 256; v mod 256].
Definition record_type (r : hex_record) : Z :=
  match r with
  | Data _ _ => 0 | EndOfFile => 1 | ExtendedSegment _ => 2 | StartSegment _ _ => 3
  | ExtendedLinear _ => 4 | StartLinear _ => 5
  end.
Definition record_addr (r : hex_record) : Z := match r with Data a _ => a | _ => 0 end.
Definition record_payload (r : hex_record) : list Z :=
  match r with
  | Data _ l => l
  | EndOfFile => []
  | ExtendedSegment v | ExtendedLinear v => be16 v
  | StartSegment cs ip => be16 cs ++ be16 ip
  | StartLinear v => be16 (v / 2 ^ 16) ++ be16 (v mod 2 ^ 16)
  end.
Definition record_bytes (r : hex_record) : list Z :=
  let body := Z.of_nat (length (record_payload r)) :: be16 (record_addr r) ++ record_type r :: record_payload r in
  body ++ [u8 (- foldr Z.add 0 body)].

(** The text: a colon and two digits for each byte. *)
Definition hex_char (d : Z) : Z := if d <? 10 then 48 + d else 55 + d.
Definition nibbles (l : list Z) : list Z := l ≫= (fun b => [b / 16; b mod 16]).
Definition print_record (r : hex_record) : list Z := 58 :: (hex_char <$> nibbles (record_bytes r)).
(** Lines end with a line feed, a carriage return before it or not. *)
Definition print_file (cr : bool) (rs : list hex_record) : list Z :=
  rs ≫= (fun r => print_record r ++ (if cr then [13; 10] else [10])).

(** ** What the records mean *)

Definition record_effect (r : hex_record) (s : hex_state) : hex_state :=
  match r with
  | Data a l => { s with hx_mem := store_bytes (hx_mem s) (hex_index (u32 (a + extended_address s + memory_offset s))) l }
  | EndOfFile => s
  | ExtendedSegment v => { s with extended_address := v * 16 }
  | StartSegment cs ip => { s with hx_pc := cs * 16 + ip }
  | ExtendedLinear v => { s with memory_offset := v * 2 ^ 16; extended_address := 0 }
  | StartLinear v => { s with hx_pc := v }
  end.

(** The fields have their widths, and the bytes of a data record lie in the memory. *)
Definition record_ok (s : hex_state) (r : hex_record) : Prop :=
  match r with
  | Data a l => fits 16 a /\ is_bytes l /\ (length l < 256)%nat /\
                hex_index (u32 (a + extended_address s + memory_offset s)) + Z.of_nat (length l) <= SIZE
  | EndOfFile => True
  | ExtendedSegment v | ExtendedLinear v => fits 16 v
  | StartSegment cs ip => fits 16 cs /\ fits 16 ip
  | StartLinear v => fits 32 v
  end.
Fixpoint records_ok (s : hex_state) (rs : list hex_record) : Prop :=
  match rs with [] => True | r :: rs => record_ok s r /\ records_ok (record_effect r s) rs end.

Definition same_state (s s' : hex_state) : Prop :=
  (forall x, hx_mem s x = hx_mem s' x) /\ hx_pc s = hx_pc s' /\
  extended_address s = extended_address s' /\ memory_offset s = memory_offset s'.
#[export] Instance same_state_equiv : Equivalence same_state.
Proof.
  split.
  - by intros s.
  - intros s s' (? & ? & ? & ?). by split_and!.
  - intros s s' s'' (E1 & ? & ? & ?) (E2 & ? & ? & ?). split_and!; [intros; by rewrite E1|congruence..].
Qed.

(** ** Reading back what was printed *)

Definition nibble (d : Z) : Prop := 0 <= d < 16.

Lemma hex_char_cases d : nibble d -> 48 <= hex_char d <= 57 \/ 65 <= hex_char d <= 70.
Proof. unfold nibble, hex_char. intros. destruct (Z.ltb_spec d 10); lia. Qed.

Lemma hex_digit_char d : nibble d -> hex_digit (hex_char d) = Some d.
Proof.
  unfold nibble, hex_char, hex_digit. intros. destruct (Z.ltb_spec d 10).
  - rewrite (proj2 (Z.leb_le 48 _)), (proj2 (Z.leb_le _ 57)) by lia. simpl. f_equal. lia.
  - rewrite (proj2 (Z.leb_gt (55 + d) 57)), andb_false_r by lia.
    rewrite (proj2 (Z.leb_le 65 _)), (proj2 (Z.leb_le _ 70)) by lia. simpl. f_equal. lia.
Qed.

Fixpoint number (acc : Z) (ds : list Z) : Z := match ds with [] => acc | d :: ds => number (16 * acc + d) ds end.

Lemma digits_char ds acc : Forall nibble ds -> digits acc (hex_char <$> ds) = number acc ds.
Proof.
  intros H. revert acc. induction H as [|d ds Hd Hds IH]; intros acc; [done|].
  simpl. by rewrite hex_digit_char, IH.
Qed.

Lemma unsigned16_char ds : Forall nibble ds -> ds <> [] -> unsigned16 (hex_char <$> ds) = Some (number 0 ds).
Proof.
  intros H Hn. rewrite <-(digits_char ds 0 H). destruct H as [|d ds1 Hd Hds]; [done|].
  assert (match hex_char <$> d :: ds1 with
          | c :: x :: y :: r =>
              if (c =? 48) && ((x =? 120) || (x =? 88)) && bool_decide (is_Some (hex_digit y)) then y :: r
              else hex_char <$> d :: ds1
          | _ => hex_char <$> d :: ds1 end = hex_char <$> d :: ds1) as E.
  { destruct Hds as [|d1 ds2 Hd1 [|d2 ds3 Hd2 _]]; [done..|]. simpl.
    assert ((hex_char d1 =? 120) || (hex_char d1 =? 88) = false) as ->; [|rewrite andb_false_r; reflexivity].
    apply orb_false_intro; apply Z.eqb_neq; destruct (hex_char_cases d1 Hd1); lia. }
  unfold unsigned16. cbv zeta.
  match goal with |- context [match ?x with [] => None | c :: _ => _ end] => replace x with (hex_char <$> d :: ds1) end.
  simpl. by rewrite hex_digit_char.
Qed.

Lemma stol16_char ds : Forall nibble ds -> ds <> [] -> stol16 (hex_char <$> ds) = Some (number 0 ds).
Proof.
  intros H Hn. rewrite <-(unsigned16_char ds H Hn). destruct H as [|d ds1 Hd Hds]; [done|].
  assert (forall c, c < 48 \/ 57 < c < 65 -> (hex_char d =? c) = false) as Ec
    by (intros c Hc; apply Z.eqb_neq; destruct (hex_char_cases d Hd); lia).
  assert (is_space (hex_char d) = false) as Es.
  { unfold is_space. rewrite Ec by lia. rewrite orb_false_r. apply andb_false_intro2, Z.leb_gt.
    destruct (hex_char_cases d Hd); lia. }
  unfold stol16. simpl. by rewrite Es, !Ec by lia.
Qed.

(** The fields of a printed line. *)
Lemma nibbles_cons b l : nibbles (b :: l) = b / 16 :: b mod 16 :: nibbles l.
Proof. done. Qed.
Lemma length_nibbles l : length (nibbles l) = (2 * length l)%nat.
Proof. induction l as [|b l IH]; [done|]. rewrite nibbles_cons. simpl. lia. Qed.
Lemma drop_nibbles j l : drop (2 * j) (nibbles l) = nibbles (drop j l).
Proof.
  revert l. induction j as [|j IH]; intros l; [done|].
  replace (2 * S j)%nat with (S (S (2 * j))) by lia. destruct l as [|b l]; [done|]. apply (IH l).
Qed.
Lemma take_nibbles n l : take (2 * n) (nibbles l) = nibbles (take n l).
Proof.
  revert l. induction n as [|n IH]; intros l; [done|].
  replace (2 * S n)%nat with (S (S (2 * n))) by lia. destruct l as [|b l]; [done|].
  rewrite firstn_cons, !nibbles_cons, !firstn_cons. do 2 f_equal. apply IH.
Qed.
Lemma nibbles_ok l : is_bytes l -> Forall nibble (nibbles l).
Proof.
  intros H. induction H as [|b l Hb Hl IH]; [constructor|]. unfold fits in Hb. change (2 ^ 8) with 256 in Hb.
  constructor; [|constructor; [|exact IH]]; unfold nibble.
  - split; [apply Z.div_pos; lia|apply Z.div_lt_upper_bound; lia].
  - apply Z.mod_pos_bound. lia.
Qed.
Lemma number_nibbles acc b l : number acc (nibbles (b :: l)) = number (256 * acc + b) (nibbles l).
Proof. rewrite nibbles_cons. simpl. f_equal. pose proof (Z.div_mod b 16). lia. Qed.

Section line.
Context (bs e : list Z) (Hbs : is_bytes bs).
Let line := 58 :: (hex_char <$> nibbles bs) ++ e.

Lemma substr_line j n :
  (j + n <= length bs)%nat -> substr (1 + 2 * j) (2 * n) line = hex_char <$> nibbles (take n (drop j bs)).
Proof.
  intros Hj. unfold substr, line. change (1 + 2 * j)%nat with (S (2 * j)).
  cbn [drop]. rewrite drop_app_le by (rewrite length_fmap, length_nibbles; lia).
  rewrite take_app_le by (rewrite length_drop, length_fmap, length_nibbles; lia).
  by rewrite <-fmap_drop, <-fmap_take, drop_nibbles, take_nibbles.
Qed.

Lemma stol_line j n :
  (j + n <= length bs)%nat -> (0 < n)%nat ->
  stol16 (substr (1 + 2 * j) (2 * n) line) = Some (number 0 (nibbles (take n (drop j bs)))).
Proof.
  intros Hj Hn. rewrite substr_line by done. apply stol16_char.
  - apply nibbles_ok. by apply Forall_take, Forall_drop.
  - intros E%(f_equal length). rewrite length_nibbles, length_take, length_drop in E. simpl in E. lia.
Qed.

Lemma length_line : length line = (1 + 2 * length bs + length e)%nat.
Proof. unfold line. simpl. rewrite length_app, length_fmap, length_nibbles. lia. Qed.

(** The loop over a data record stores its bytes. *)
Lemma hex_data_line n i address m l c :
  bs = take 4 bs ++ l ++ [c] -> (4 <= length bs)%nat -> (i + n = length l)%nat ->
  hex_index address + Z.of_nat (length l) <= SIZE -> 0 <= address < 2 ^ 32 ->
  exists m', hex_data n i address line m = Some m' /\
    forall x, m' x = if (hex_index address + Z.of_nat i <=? x) && (x <? hex_index address + Z.of_nat (length l))
                     then byte_at l (Z.to_nat (x - hex_index address)) else m x.
Proof.
  intros Hl H4 Hi HS HA. revert i m Hi. induction n as [|n IH]; intros i m Hi.
  - exists m. split; [done|]. intros x. rewrite (proj2 (andb_false_iff _ _)); [done|].
    destruct (Z.leb_spec (hex_index address + Z.of_nat i) x); [right; apply Z.ltb_ge; lia|by left].
  - assert (length bs = (5 + length l)%nat) as Elen.
    { pose proof (f_equal length Hl) as E. rewrite !length_app, length_take in E. cbn [length] in E. lia. }
    assert (hex_index (address + Z.of_nat i) = hex_index address + Z.of_nat i) as Ea.
    { assert (u32 address = address) as Eu by (by apply wrap_small). unfold hex_index in *.
      change SIZE with 0x20000000 in *. unfold DRAM_BASE in *.
      destruct (Z.leb_spec 0x80000000 address), (Z.ltb_spec address (0x80000000 + 0x20000000)); cbn [andb] in *.
      - assert (u32 (address - 0x80000000) = address - 0x80000000) as Ed by (apply wrap_small; unfold fits; lia).
        rewrite Ed in *. rewrite (proj2 (Z.leb_le _ _)), (proj2 (Z.ltb_lt _ _)) by lia. cbn [andb].
        rewrite wrap_small by (unfold fits; lia). lia.
      - lia.
      - rewrite Eu in *. rewrite (proj2 (Z.leb_gt _ (address + _))) by lia. apply wrap_small. unfold fits. lia.
      - lia. }
    assert (0 <= hex_index address) by (apply wrap_fits; lia).
    cbn [hex_data]. rewrite Ea, length_line.
    rewrite (proj2 (Z.ltb_lt _ SIZE)), (proj2 (Nat.leb_le _ _)) by lia. cbn [andb].
    replace (9 + i * 2)%nat with (1 + 2 * (4 + i))%nat by lia.
    pose proof (stol_line (4 + i) 1 ltac:(lia) ltac:(lia)) as Ew. change (2 * 1)%nat with 2%nat in Ew. rewrite Ew.
    assert (i < length l)%nat as Hil by lia. destruct (lookup_lt_is_Some_2 l i Hil) as [b Hb].
    assert (bs !! (4 + i)%nat = Some b) as Hbb.
    { rewrite Hl, lookup_app_r by (rewrite length_take; lia). rewrite length_take, Nat.min_l by lia.
      replace (4 + i - 4)%nat with i by lia. by rewrite lookup_app_l. }
    assert (take 1 (drop (4 + i) bs) = [b]) as -> by (erewrite drop_S by done; done).
    rewrite number_nibbles. cbn [number nibbles]. pose proof (list.Forall_lookup_1 _ _ _ _ Hbs Hbb) as Hbf. simpl in Hbf.
    change (number (256 * 0 + b) (nibbles [])) with (256 * 0 + b). rewrite Z.mul_0_r, Z.add_0_l, (wrap_small 8 b) by done.
    destruct (IH (S i) (fun x => if x =? hex_index address + Z.of_nat i then b else m x)) as (m' & Em & Hm); [lia|].
    exists m'. split; [done|]. intros x. rewrite Hm. clear Hm IH.
    destruct (Z.eqb_spec x (hex_index address + Z.of_nat i)) as [->|Hx].
    + rewrite (proj2 (Z.leb_gt _ (hex_index address + Z.of_nat i))) by lia. simpl.
      rewrite Z.leb_refl, (proj2 (Z.ltb_lt _ _)) by lia. simpl. unfold byte_at.
      replace (Z.to_nat _) with i by lia. by rewrite Hb.
    + replace (hex_index address + Z.of_nat (S i) <=? x) with (hex_index address + Z.of_nat i <=? x); [done|].
      destruct (Z.leb_spec (hex_index address + Z.of_nat i) x), (Z.leb_spec (hex_index address + Z.of_nat (S i)) x); lia.
Qed.
End line.

Lemma be16_ok v : fits 16 v -> is_bytes (be16 v).
Proof.
  unfold fits. intros Hv. change (2 ^ 16) with 65536 in Hv.
  constructor; [|constructor; [|constructor]]; unfold fits; change (2 ^ 8) with 256.
  - split; [apply Z.div_pos; lia|apply Z.div_lt_upper_bound; lia].
  - apply Z.mod_pos_bound. lia.
Qed.

Lemma number_be16 acc v l : number acc (nibbles (be16 v ++ l)) = number (65536 * acc + v) (nibbles l).
Proof.
  change (be16 v ++ l) with (v / 256 :: v mod 256 :: l). rewrite !number_nibbles. f_equal.
  pose proof (Z.div_mod v 256). lia.
Qed.

Lemma record_bytes_eq r : exists c,
  record_bytes r = Z.of_nat (length (record_payload r)) :: be16 (record_addr r) ++
                   record_type r :: record_payload r ++ [c] /\ fits 8 c.
Proof.
  exists (u8 (- foldr Z.add 0 (Z.of_nat (length (record_payload r)) ::
             be16 (record_addr r) ++ record_type r :: record_payload r))).
  split; [done|apply wrap_fits; lia].
Qed.

Lemma payload_ok s r : record_ok s r ->
  is_bytes (record_payload r) /\ (length (record_payload r) < 256)%nat /\ fits 16 (record_addr r).
Proof.
  assert (fits 16 0) by fits_const. destruct r as [a l| |v|cs ip|v|v];
    cbn [record_ok record_payload record_addr].
  - by intros (? & ? & ? & _).
  - intros _. split_and!; [by apply Forall_nil|simpl; lia|done].
  - intros. split_and!; [by apply be16_ok|simpl; lia|done].
  - intros [??]. split_and!; [|simpl; lia|done]. apply Forall_app. split; by apply be16_ok.
  - intros. split_and!; [by apply be16_ok|simpl; lia|done].
  - intros [H0 Hv]. split_and!; [|simpl; lia|done]. apply Forall_app.
    split; apply be16_ok; [|apply wrap_fits; lia]. split; [apply Z.div_pos; lia|].
    apply Z.div_lt_upper_bound; [lia|]. done.
Qed.

Lemma record_bytes_ok s r : record_ok s r -> is_bytes (record_bytes r).
Proof.
  intros H. destruct (payload_ok s r H) as (Hp & Hl & Ha). destruct (record_bytes_eq r) as (c & -> & Hc).
  constructor; [unfold fits; change (2 ^ 8) with 256; lia|]. apply Forall_app. split; [by apply be16_ok|].
  constructor; [destruct r; fits_const|]. apply Forall_app. split; [done|by constructor].
Qed.

#[export] Instance record_effect_proper r : Proper (same_state ==> same_state) (record_effect r).
Proof.
  intros s s' (Hm & Hp & He & Ho). destruct r; split_and!; simpl; try congruence; try done.
  intros x. unfold store_bytes. rewrite He, Ho, Hm. done.
Qed.

(** The value of a field of one, two or four bytes. *)
Ltac hex_field :=
  cbn [take drop app be16]; rewrite !number_nibbles;
  change (nibbles []) with (@nil Z); cbn [number];
  repeat match goal with |- context [?v / 256] =>
    lazymatch goal with H : v = 256 * (v / 256) + v mod 256 |- _ => fail | _ => pose proof (Z.div_mod v 256 ltac:(lia)) end
  end;
  try match goal with |- _ = ?v => pose proof (Z.div_mod v (2 ^ 16) ltac:(lia)) end; lia.

(** A printed line has the effect of its record. *)
Lemma hex_line_record r e s :
  record_ok s r ->
  exists s', hex_line (print_record r ++ e) s = Some s' /\ same_state s' (record_effect r s).
Proof.
  intros Hr. pose proof (record_bytes_ok s r Hr) as Hbs. destruct (payload_ok s r Hr) as (Hp & Hl & Ha).
  destruct (record_bytes_eq r) as (c & Eb & Hc).
  change (print_record r ++ e) with (58 :: (hex_char <$> nibbles (record_bytes r)) ++ e).
  pose proof (substr_line (record_bytes r) e 3 1) as Ht.
  pose proof (fun j n => stol_line (record_bytes r) e Hbs j n) as Hs.
  pose proof (length_line (record_bytes r) e) as Hlen.
  pose proof (fun n i a m l c => hex_data_line (record_bytes r) e Hbs n i a m l c) as Hd.
  set (line := 58 :: (hex_char <$> nibbles (record_bytes r)) ++ e) in *.
  assert (length (record_bytes r) = (5 + length (record_payload r))%nat) as El.
  { rewrite Eb. simpl. rewrite length_app. simpl. lia. }
  rewrite El in *. rewrite Eb in Ht, Hs, Hd.
  specialize (Ht ltac:(lia)). change (take 1 _) with [record_type r] in Ht.
  assert (forall j n v, (j + n <= 5 + length (record_payload r))%nat -> (0 < n)%nat ->
    number 0 (nibbles (take n (drop j (Z.of_nat (length (record_payload r)) :: be16 (record_addr r) ++
      record_type r :: record_payload r ++ [c])))) = v -> stol16 (substr (1 + 2 * j) (2 * n) line) = Some v) as Hn.
  { intros j n v ? ? <-. by apply Hs. }
  unfold hex_line. rewrite Hlen. change (substr 7 2 line) with (substr (1 + 2 * 3) (2 * 1) line). rewrite Ht.
  change (match line with c :: _ => c =? 58 | [] => false end) with true. cbn [negb].
  rewrite (proj2 (Nat.ltb_ge _ 11)) by lia. change (substr 3 4 line) with (substr (1 + 2 * 1) (2 * 2) line).
  change (substr 1 2 line) with (substr (1 + 2 * 0) (2 * 1) line).
  change (substr 9 4 line) with (substr (1 + 2 * 4) (2 * 2) line).
  change (substr 13 4 line) with (substr (1 + 2 * 6) (2 * 2) line).
  change (substr 9 8 line) with (substr (1 + 2 * 4) (2 * 4) line).
  assert (forall v, fits 16 v -> u32 v = v) as E16
    by (intros v Hv; apply wrap_small; apply (fits_mono 16); [lia..|done]).
  destruct r as [a l| |v|cs ip|v|v]; cbn [record_type record_payload record_addr length be16 app] in *;
    repeat (let x := fresh in
      match goal with |- context [bool_decide ?p] => set (x := bool_decide p); vm_compute in x; subst x end);
    cbv iota.
  - rewrite (Hn 0%nat 1%nat (Z.of_nat (length l))), (Hn 1%nat 2%nat a) by (lia || hex_field).
    destruct Hr as (_ & _ & _ & Hin). rewrite (E16 a) by done. rewrite Nat2Z.id.
    destruct (Hd (length l) 0%nat (u32 (a + extended_address s + memory_offset s)) (hx_mem s) l c)
      as (m & -> & Hm); [done|lia|lia|done|apply wrap_fits; lia|].
    eexists. split; [done|]. split; [|done]. intros x. cbn [hx_mem]. rewrite Hm, Z.add_0_r. done.
  - by exists s.
  - rewrite (proj2 (Nat.ltb_ge _ 15)) by lia. rewrite (Hn 4%nat 2%nat v) by (lia || hex_field).
    eexists. split; [done|]. split_and!; try done. cbn. apply wrap_small. unfold record_ok, fits in *. lia.
  - rewrite (proj2 (Nat.ltb_ge _ 19)) by lia. destruct Hr as [Hcs Hip].
    rewrite (Hn 4%nat 2%nat cs), (Hn 6%nat 2%nat ip) by (lia || hex_field).
    eexists. split; [done|]. split_and!; try done. cbn [hx_pc record_effect]. rewrite (E16 ip) by done.
    unfold fits in *. rewrite (wrap_small 32 (cs * 16)) by (unfold fits; lia).
    rewrite wrap_small by (unfold fits; lia). cbn. lia.
  - rewrite (proj2 (Nat.ltb_ge _ 15)) by lia. rewrite (Hn 4%nat 2%nat v) by (lia || hex_field).
    eexists. split; [done|]. split_and!; try done. change (u32 (u32 v .<< 16) = v * 2 ^ 16).
    rewrite (E16 v), Z.shiftl_mul_pow2 by (done || lia). apply wrap_small. unfold record_ok, fits in *. lia.
  - rewrite (proj2 (Nat.ltb_ge _ 19)) by lia. rewrite (Hn 4%nat 4%nat v) by (lia || hex_field).
    eexists. split; [done|]. split_and!; try done. by apply wrap_small.
Qed.

Lemma getlines_line acc l rest :
  Forall (fun c => c <> 10) l -> getlines acc (l ++ 10 :: rest) = (acc ++ l) :: getlines [] rest.
Proof.
  intros H. revert acc. induction H as [|c l Hc Hl IH]; intros acc; simpl; [by rewrite app_nil_r|].
  rewrite (proj2 (Z.eqb_neq c 10)), IH, <-(assoc_L (++)) by done. done.
Qed.

Lemma print_record_chars s r : record_ok s r -> Forall (fun c => c <> 10) (print_record r).
Proof.
  intros Hr. constructor; [done|]. apply Forall_fmap. refine (list.Forall_impl _ _ _ (nibbles_ok _ (record_bytes_ok s r Hr)) _).
  intros d Hd. simpl. destruct (hex_char_cases d Hd); lia.
Qed.

Lemma record_ok_proper s s' r : same_state s s' -> record_ok s r -> record_ok s' r.
Proof. intros (_ & _ & He & Ho). destruct r; simpl; by rewrite ?He, ?Ho. Qed.
Lemma records_ok_proper rs s s' : same_state s s' -> records_ok s rs -> records_ok s' rs.
Proof.
  revert s s'. induction rs as [|r rs IH]; intros s s' Hs; [done|]. intros [Hr Hrs]. split.
  - by eapply record_ok_proper.
  - eapply IH; [|exact Hrs]. by apply record_effect_proper.
Qed.

Definition records_effect (rs : list hex_record) (s : hex_state) : hex_state :=
  fold_left (fun s r => record_effect r s) rs s.
#[export] Instance records_effect_proper rs : Proper (same_state ==> same_state) (records_effect rs).
Proof.
  induction rs as [|r rs IH]; intros s s' Hs; [done|]. apply IH. by apply record_effect_proper.
Qed.

Lemma hex_lines_records cr rs s :
  records_ok s rs ->
  exists s', hex_lines (getlines [] (print_file cr rs)) s = Some s' /\ same_state s' (records_effect rs s).
Proof.
  revert s. induction rs as [|r rs IH]; intros s; [by exists s|]. intros [Hr Hrs].
  set (e := if cr then [13] else []).
  assert (print_file cr (r :: rs) = (print_record r ++ e) ++ 10 :: print_file cr rs) as ->.
  { unfold print_file. cbn [mbind list_bind]. subst e. destruct cr; by rewrite <-!(assoc_L (++)). }
  rewrite getlines_line.
  - cbn [hex_lines app]. destruct (hex_line_record r e s Hr) as (s1 & -> & H1).
    destruct (IH s1) as (s2 & -> & H2); [by eapply records_ok_proper|].
    exists s2. split; [done|]. etransitivity; [exact H2|]. by apply (records_effect_proper rs).
  - apply Forall_app. split; [by eapply print_record_chars|]. subst e. destruct cr; by repeat constructor.
Qed.

(** C36: Reading an Intel HEX file gives the memory that the records it was written from describe:
    every data record is stored at its address, the bases and the DRAM window applied, the
    start address is the program counter, and direct access is allowed when no linear base
    is in force at the end. *)
Theorem hex_roundtrip cr rs (s : memory) :
  records_ok (mkHex (mem s) (program_counter s) 0 0) rs ->
  exists s', readHexFile (Some (print_file cr rs)) s = Some s' /\
    let x := records_effect rs (mkHex (mem s) (program_counter s) 0 0) in
    (forall a, mem s' a = hx_mem x a) /\ program_counter s' = hx_pc x /\
    dmi_allowed s' = (memory_offset x =? 0) /\ m_latency s' = m_latency s.
Proof.
  intros H. destruct (hex_lines_records cr rs _ H) as (x & Hx & Hm & Hp & He & Ho).
  unfold readHexFile. rewrite Hx. eexists. split; [done|]. cbn. by rewrite Ho.
Qed.

Lemma hex_roundtrip_witness :
  let rs := [ExtendedLinear 0x8000; Data 0x100 [0x13; 0; 0; 0]; StartLinear 0x80000100; EndOfFile] in
  exists s', readHexFile (Some (print_file true rs)) memory0 = Some s' /\
             mem s' 0x100 = 0x13 /\ program_counter s' = 0x80000100.
Proof.
  intros rs. destruct (hex_roundtrip true rs memory0) as (s' & E & Hm & Hp & _).
  - repeat (first [split | done | fits_const | by repeat constructor | (simpl; lia)]).
  - exists s'. split; [exact E|]. split; [rewrite Hm; by vm_compute|rewrite Hp; by vm_compute].
Defined.

(** ** Files that were not written so *)

Import Stdlib.Strings.String.

Definition text (s : String.string) : list Z := (fun c => Z.of_N (Ascii.N_of_ascii c)) <$> String.list_ascii_of_string s.
Definition read_hex (lines : list String.string) : option memory :=
  readHexFile (Some (mjoin ((fun s => text s ++ [10]) <$> lines))) memory0.

(** The checksum is not compared: this one is wrong, and the byte is stored. *)
Example hex_checksum_ignored :
  (fun s => mem s 0x10) <$> read_hex [":01001000AB00"%string] = Some 0xAB.
Proof. by vm_compute. Qed.

(** A count larger than the line is not an error: the missing bytes are left as they were. *)
Example hex_short_line : (fun s => (mem s 0x10, mem s 0x11)) <$> read_hex [":10001000AB00"%string] = Some (0xAB, 0).
Proof. by vm_compute. Qed.

(** A line that has no digits where a number is read throws. *)
Example hex_no_digits : read_hex [":zz001000AB00"%string] = None.
Proof. by vm_compute. Qed.

(** Lower-case digits and lines that are not records. *)
Example hex_lower_case :
  (fun s => mem s 0x10) <$> read_hex ["# a comment"%string; ":01001000ab44"%string; ""%string] = Some 0xAB.
Proof. by vm_compute. Qed.
