(* ===== verification/BusCtrl.v ===== *)
(** [src/BusCtrl.cpp]: the TLM bus.  The targets behind the sockets are arbitrary
    instances of [Target]; an optional socket that is not bound is [None].  The
    state of the bus is the state of its targets and the stop flag raised by the
    HTIF addresses. *)
From S2P Require Import Prelude Bytes Memory.

Definition TRACE_MEMORY_ADDRESS : Z := 0x40000000.
Definition TIMER_MEMORY_ADDRESS_LO : Z := 0x40004000.
Definition TIMER_MEMORY_ADDRESS_HI : Z := 0x40004004.
Definition TIMERCMP_MEMORY_ADDRESS_LO : Z := 0x40004008.
Definition TIMERCMP_MEMORY_ADDRESS_HI : Z := 0x4000400C.
Definition UART0_BASE_ADDRESS : Z := 0x10000000.
Definition CLINT_BASE_ADDRESS : Z := 0x02000000.
Definition PLIC_BASE_ADDRESS : Z := 0x0C000000.
Definition DMA_BASE_ADDRESS : Z := 0x30000000.
Definition SYSCALL_BASE_ADDRESS : Z := 0x60000000.
Definition TO_HOST_ADDRESS : Z := 0x90000000.
Definition HTIF_TOHOST_ADDR : Z := 0x80001000.
Definition DRAM_BASE_ADDRESS : Z := 0x80000000.
Definition DRAM_SIZE : Z := 0x20000000.

(** What the bus does with a transaction. *)
Inductive route :=
  | R_Htif | R_Memory (adr : Z) | R_Uart (adr : Z) | R_Clint (adr : Z) | R_Plic (adr : Z)
  | R_Dma (adr : Z) | R_Syscall (adr : Z) | R_Timer (adr : Z) | R_Trace (adr : Z).

Definition in_region (a base size : Z) : bool := (base <=? a) && (a <? base + size).

Definition decode_route (adr_bytes : Z) (cmd : tlm_command) : route :=
  let adr := adr_bytes / 4 in
  if adr_bytes =? TO_HOST_ADDRESS then R_Htif
  else if in_region adr_bytes DRAM_BASE_ADDRESS DRAM_SIZE then
    if (adr_bytes =? HTIF_TOHOST_ADDR) && bool_decide (cmd = TLM_WRITE) then R_Htif
    else R_Memory (adr_bytes - DRAM_BASE_ADDRESS)
  else if in_region adr_bytes UART0_BASE_ADDRESS 0x100 then R_Uart (adr_bytes - UART0_BASE_ADDRESS)
  else if in_region adr_bytes CLINT_BASE_ADDRESS 0x10000 then
    R_Clint (adr_bytes - CLINT_BASE_ADDRESS)
  else if in_region adr_bytes PLIC_BASE_ADDRESS 0x400000 then
    R_Plic (adr_bytes - PLIC_BASE_ADDRESS)
  else if in_region adr_bytes DMA_BASE_ADDRESS 0x1000 then R_Dma (adr_bytes - DMA_BASE_ADDRESS)
  else if in_region adr_bytes SYSCALL_BASE_ADDRESS 0x1000 then
    R_Syscall (adr_bytes - SYSCALL_BASE_ADDRESS)
  else if (adr =? TIMER_MEMORY_ADDRESS_HI / 4) || (adr =? TIMER_MEMORY_ADDRESS_LO / 4) ||
          (adr =? TIMERCMP_MEMORY_ADDRESS_HI / 4) || (adr =? TIMERCMP_MEMORY_ADDRESS_LO / 4)
  then R_Timer adr_bytes
  else if adr =? TRACE_MEMORY_ADDRESS / 4 then R_Trace adr_bytes
  else R_Memory adr_bytes.

(** [memcpy(&val, data, min(len, 8))] and the verdict printed. *)
Inductive htif_verdict := HtifPass | HtifFail (test : Z) | HtifStop (val : Z).

Definition htif_verdict_of (p : payload) : htif_verdict :=
  let val := match p_cmd p with
             | TLM_WRITE => le_combine (take 8 (p_data p)) | _ => 0 end in
  if val =? 1 then HtifPass else if (val .& 1) =? 1 then HtifFail (val .>> 1) else HtifStop val.

Section bus.
Context {U C P D S T R : Type}
  `{Target U, Target C, Target P, Target D, Target S, Target T, Target R}.

Record bus := mkBus {
  bus_memory : memory;
  bus_uart : option U;
  bus_clint : option C;
  bus_plic : option P;
  bus_dma : option D;
  bus_syscall : option S;
  bus_timer : T;
  bus_trace : R;
  bus_stopped : option htif_verdict;   (* sc_stop() *)
}.

(** Forward to a target at the local address, restore the address, answer OK. *)
Definition forward {X : Type} `{Target X} (local : Z) (p : payload) (delay : Z) (x : X) :
    payload * Z * X :=
  let '(p', delay', x') := b_transport { p with p_addr := local } delay x in
  ({ p' with p_addr := p_addr p; p_status := TLM_OK }, delay', x').

(** The same on an optional socket: an unbound one only answers OK. *)
Definition forward_opt {X : Type} `{Target X} (local : Z) (p : payload) (delay : Z)
    (x : option X) : payload * Z * option X :=
  match x with
  | Some x => let '(p', delay', x') := forward local p delay x in (p', delay', Some x')
  | None => ({ p with p_status := TLM_OK }, delay, None)
  end.

Definition bus_b_transport (p : payload) (delay : Z) (b : bus) : payload * Z * bus :=
  match decode_route (p_addr p) (p_cmd p) with
  | R_Htif => ({ p with p_status := TLM_OK }, delay,
               { b with bus_stopped := Some (htif_verdict_of p) })
  | R_Memory a => let '(p', d', x) := forward a p delay (bus_memory b) in
                  (p', d', { b with bus_memory := x })
  | R_Uart a => let '(p', d', x) := forward_opt a p delay (bus_uart b) in
                (p', d', { b with bus_uart := x })
  | R_Clint a => let '(p', d', x) := forward_opt a p delay (bus_clint b) in
                 (p', d', { b with bus_clint := x })
  | R_Plic a => let '(p', d', x) := forward_opt a p delay (bus_plic b) in
                (p', d', { b with bus_plic := x })
  | R_Dma a => let '(p', d', x) := forward_opt a p delay (bus_dma b) in
               (p', d', { b with bus_dma := x })
  | R_Syscall a => let '(p', d', x) := forward_opt a p delay (bus_syscall b) in
                   (p', d', { b with bus_syscall := x })
  | R_Timer a => let '(p', d', x) := forward a p delay (bus_timer b) in
                 (p', d', { b with bus_timer := x })
  | R_Trace a => let '(p', d', x) := forward a p delay (bus_trace b) in
                 (p', d', { b with bus_trace := x })
  end.

#[export] Instance bus_target : Target bus := bus_b_transport.

(** The memory's answer, whatever the address: the pointer is to the memory array, and
    the address map plays no part in what is read through it. *)
Definition instr_direct_mem_ptr (b : bus) : bool := get_direct_mem_ptr (bus_memory b).

#[export] Instance bus_direct : DirectMem bus := {
  get_direct_mem_ptr := instr_direct_mem_ptr;
  direct_read off n b := direct_read off n (bus_memory b)
}.
End bus.
Arguments bus : clear implicits.

(** The regions of the memory map, as sets of addresses. *)
Definition region (r : route) (a : Z) : Prop :=
  match r with
  | R_Htif => a = TO_HOST_ADDRESS \/ a = HTIF_TOHOST_ADDR
  | R_Memory l => (a = l + DRAM_BASE_ADDRESS /\ 0 <= l < DRAM_SIZE) \/
                  (a = l /\ ~ DRAM_BASE_ADDRESS <= a < DRAM_BASE_ADDRESS + DRAM_SIZE)
  | R_Uart l => a = l + UART0_BASE_ADDRESS /\ 0 <= l < 0x100
  | R_Clint l => a = l + CLINT_BASE_ADDRESS /\ 0 <= l < 0x10000
  | R_Plic l => a = l + PLIC_BASE_ADDRESS /\ 0 <= l < 0x400000
  | R_Dma l => a = l + DMA_BASE_ADDRESS /\ 0 <= l < 0x1000
  | R_Syscall l => a = l + SYSCALL_BASE_ADDRESS /\ 0 <= l < 0x1000
  | R_Timer l => a = l /\ TIMER_MEMORY_ADDRESS_LO <= a < TIMERCMP_MEMORY_ADDRESS_HI + 4
  | R_Trace l => a = l /\ TRACE_MEMORY_ADDRESS <= a < TRACE_MEMORY_ADDRESS + 4
  end.

(** The device regions: everything but memory and the HTIF words. *)
Definition device_region (a : Z) : Prop :=
  (UART0_BASE_ADDRESS <= a < UART0_BASE_ADDRESS + 0x100) \/
  (CLINT_BASE_ADDRESS <= a < CLINT_BASE_ADDRESS + 0x10000) \/
  (PLIC_BASE_ADDRESS <= a < PLIC_BASE_ADDRESS + 0x400000) \/
  (DMA_BASE_ADDRESS <= a < DMA_BASE_ADDRESS + 0x1000) \/
  (SYSCALL_BASE_ADDRESS <= a < SYSCALL_BASE_ADDRESS + 0x1000) \/
  (TIMER_MEMORY_ADDRESS_LO <= a < TIMERCMP_MEMORY_ADDRESS_HI + 4) \/
  (TRACE_MEMORY_ADDRESS <= a < TRACE_MEMORY_ADDRESS + 4).

Lemma in_region_spec a base size : in_region a base size = true <-> base <= a < base + size.
Proof. unfold in_region. rewrite andb_true_iff, Z.leb_le, Z.ltb_lt. done. Qed.

Lemma in_region_false a base size : in_region a base size = false <-> ~ base <= a < base + size.
Proof. rewrite <-in_region_spec. by destruct (in_region a base size). Qed.

Ltac bus_consts :=
  unfold TO_HOST_ADDRESS, HTIF_TOHOST_ADDR, DRAM_BASE_ADDRESS, DRAM_SIZE, UART0_BASE_ADDRESS,
    CLINT_BASE_ADDRESS, PLIC_BASE_ADDRESS, DMA_BASE_ADDRESS, SYSCALL_BASE_ADDRESS,
    TIMER_MEMORY_ADDRESS_LO, TIMER_MEMORY_ADDRESS_HI, TIMERCMP_MEMORY_ADDRESS_LO,
    TIMERCMP_MEMORY_ADDRESS_HI, TRACE_MEMORY_ADDRESS in *.

Lemma word_eqb a w c :
  c = 4 * w -> reflect (c <= a < c + 4) (a / 4 =? c / 4).
Proof.
  intros ->. rewrite (Z.mul_comm 4 w), Z.div_mul by lia.
  pose proof (Z.div_mod a 4 ltac:(lia)). pose proof (Z.mod_pos_bound a 4 ltac:(lia)).
  destruct (Z.eqb_spec (a / 4) w); constructor; lia.
Qed.

(** The decoder's conditions as facts about the address. *)
Lemma decode_route_cases (P : route -> Prop) a cmd :
  (a = TO_HOST_ADDRESS -> P R_Htif) ->
  (a = HTIF_TOHOST_ADDR -> cmd = TLM_WRITE -> P R_Htif) ->
  (a <> TO_HOST_ADDRESS -> (a = HTIF_TOHOST_ADDR -> cmd <> TLM_WRITE) ->
     DRAM_BASE_ADDRESS <= a < DRAM_BASE_ADDRESS + DRAM_SIZE -> P (R_Memory (a - DRAM_BASE_ADDRESS))) ->
  (UART0_BASE_ADDRESS <= a < UART0_BASE_ADDRESS + 0x100 -> P (R_Uart (a - UART0_BASE_ADDRESS))) ->
  (CLINT_BASE_ADDRESS <= a < CLINT_BASE_ADDRESS + 0x10000 -> P (R_Clint (a - CLINT_BASE_ADDRESS))) ->
  (PLIC_BASE_ADDRESS <= a < PLIC_BASE_ADDRESS + 0x400000 -> P (R_Plic (a - PLIC_BASE_ADDRESS))) ->
  (DMA_BASE_ADDRESS <= a < DMA_BASE_ADDRESS + 0x1000 -> P (R_Dma (a - DMA_BASE_ADDRESS))) ->
  (SYSCALL_BASE_ADDRESS <= a < SYSCALL_BASE_ADDRESS + 0x1000 ->
     P (R_Syscall (a - SYSCALL_BASE_ADDRESS))) ->
  (TIMER_MEMORY_ADDRESS_LO <= a < TIMERCMP_MEMORY_ADDRESS_HI + 4 -> P (R_Timer a)) ->
  (TRACE_MEMORY_ADDRESS <= a < TRACE_MEMORY_ADDRESS + 4 -> P (R_Trace a)) ->
  (~ device_region a -> ~ (DRAM_BASE_ADDRESS <= a < DRAM_BASE_ADDRESS + DRAM_SIZE) ->
     P (R_Memory a)) ->
  P (decode_route a cmd).
Proof.
  intros H1 H2 H3 H4 H5 H6 H7 H8 H9 H10 H11. unfold decode_route.
  destruct (Z.eqb_spec a TO_HOST_ADDRESS) as [|N1]; [auto|].
  destruct (in_region a DRAM_BASE_ADDRESS DRAM_SIZE) eqn:E1.
  { apply in_region_spec in E1. destruct (Z.eqb_spec a HTIF_TOHOST_ADDR); simpl; [|by apply H3].
    case_bool_decide; [auto|by apply H3]. }
  destruct (in_region a UART0_BASE_ADDRESS _) eqn:E2; [by apply H4, in_region_spec|].
  destruct (in_region a CLINT_BASE_ADDRESS _) eqn:E3; [by apply H5, in_region_spec|].
  destruct (in_region a PLIC_BASE_ADDRESS _) eqn:E4; [by apply H6, in_region_spec|].
  destruct (in_region a DMA_BASE_ADDRESS _) eqn:E5; [by apply H7, in_region_spec|].
  destruct (in_region a SYSCALL_BASE_ADDRESS _) eqn:E6; [by apply H8, in_region_spec|].
  rewrite in_region_false in E1, E2, E3, E4, E5, E6.
  destruct (word_eqb a 0x10001001 TIMER_MEMORY_ADDRESS_HI eq_refl),
    (word_eqb a 0x10001000 TIMER_MEMORY_ADDRESS_LO eq_refl),
    (word_eqb a 0x10001003 TIMERCMP_MEMORY_ADDRESS_HI eq_refl),
    (word_eqb a 0x10001002 TIMERCMP_MEMORY_ADDRESS_LO eq_refl),
    (word_eqb a 0x10000000 TRACE_MEMORY_ADDRESS eq_refl); simpl;
    unfold device_region in *; bus_consts;
    first [apply H9; lia | apply H10; lia | apply H11; lia].
Qed.

(** The memory map: every address is routed to the target that owns it, at its
    local offset; a device address never reaches memory, and a DRAM address that is
    not an HTIF word always does. *)
Theorem decode_route_correct a cmd :
  region (decode_route a cmd) a /\
  (device_region a ->
     match decode_route a cmd with R_Memory _ | R_Htif => False | _ => True end) /\
  (DRAM_BASE_ADDRESS <= a < DRAM_BASE_ADDRESS + DRAM_SIZE ->
     a <> TO_HOST_ADDRESS -> (a <> HTIF_TOHOST_ADDR \/ cmd <> TLM_WRITE) ->
     decode_route a cmd = R_Memory (a - DRAM_BASE_ADDRESS)).
Proof.
  apply decode_route_cases; unfold region, device_region; bus_consts; intros;
    (split; [lia|split; [first [done | intros; lia]|]]);
    intros; first [lia | done | tauto].
Qed.

Section bus_facts.
Context {U C P D S T R : Type}
  `{Target U, Target C, Target P, Target D, Target S, Target T, Target R}.
Abbreviation bus := (bus U C P D S T R).

Lemma forward_ok {X} `{Target X} a p d (x : X) :
  p_status (forward a p d x).1.1 = TLM_OK /\ p_addr (forward a p d x).1.1 = p_addr p.
Proof. unfold forward. by destruct (b_transport _ d x) as [[p' d'] x']. Qed.

Lemma forward_opt_ok {X} `{Target X} a p d (x : option X) :
  p_status (forward_opt a p d x).1.1 = TLM_OK /\ p_addr (forward_opt a p d x).1.1 = p_addr p.
Proof.
  destruct x as [x|]; [|done]. unfold forward_opt. pose proof (forward_ok a p d x).
  by destruct (forward a p d x) as [[p' d'] x'].
Qed.

(** The bus answers OK to every transaction and restores its address, whatever
    its target answered: an error response of memory never reaches the CPU. *)
Theorem bus_always_ok p d (b : bus) :
  p_status (bus_b_transport p d b).1.1 = TLM_OK /\
  p_addr (bus_b_transport p d b).1.1 = p_addr p.
Proof.
  unfold bus_b_transport. destruct (decode_route _ _) as [|a|a|a|a|a|a|a|a]; [done|..];
  match goal with
  | |- context [forward_opt ?a ?p ?d ?x] =>
      pose proof (forward_opt_ok a p d x); by destruct (forward_opt a p d x) as [[? ?] ?]
  | |- context [forward ?a ?p ?d ?x] =>
      pose proof (forward_ok a p d x); by destruct (forward a p d x) as [[? ?] ?]
  end.
Qed.

(** Isolation: a transaction changes the state of the one target it is routed
    to and of no other. *)
Theorem bus_isolation p d (b : bus) :
  let b' := (bus_b_transport p d b).2 in
  let r := decode_route (p_addr p) (p_cmd p) in
  (match r with R_Memory _ => True | _ => bus_memory b' = bus_memory b end) /\
  (match r with R_Uart _ => True | _ => bus_uart b' = bus_uart b end) /\
  (match r with R_Clint _ => True | _ => bus_clint b' = bus_clint b end) /\
  (match r with R_Plic _ => True | _ => bus_plic b' = bus_plic b end) /\
  (match r with R_Dma _ => True | _ => bus_dma b' = bus_dma b end) /\
  (match r with R_Syscall _ => True | _ => bus_syscall b' = bus_syscall b end) /\
  (match r with R_Timer _ => True | _ => bus_timer b' = bus_timer b end) /\
  (match r with R_Trace _ => True | _ => bus_trace b' = bus_trace b end) /\
  (match r with R_Htif => True | _ => bus_stopped b' = bus_stopped b end).
Proof.
  unfold bus_b_transport. destruct (decode_route _ _) as [|a|a|a|a|a|a|a|a]; [done|..];
  match goal with
  | |- context [forward_opt ?a ?p ?d ?x] => by destruct (forward_opt a p d x) as [[? ?] ?]
  | |- context [forward ?a ?p ?d ?x] => by destruct (forward a p d x) as [[? ?] ?]
  end.
Qed.

Lemma bus_read_dram a size (b : bus) :
  DRAM_BASE_ADDRESS <= a -> a + size <= DRAM_BASE_ADDRESS + SIZE -> 0 < size <= 8 ->
  a <> TO_HOST_ADDRESS ->
  readDataMem64 a size b =
    (Some (u64 (load (mem (bus_memory b)) (a - DRAM_BASE_ADDRESS) size)), b).
Proof.
  intros Ha He Hs Hn. unfold readDataMem64. unfold b_transport, bus_target, bus_b_transport. simpl.
  assert (decode_route a TLM_READ = R_Memory (a - DRAM_BASE_ADDRESS)) as ->.
  { apply decode_route_cases; unfold SIZE in *; unfold device_region; bus_consts; try done;
      intros; exfalso; lia. }
  unfold forward. change (b_transport _ 0 (bus_memory b)) with
    (mem_b_transport (mkPayload TLM_READ (a - DRAM_BASE_ADDRESS) (replicate (Z.to_nat size) 0)
      false TLM_INCOMPLETE false) 0 (bus_memory b)).
  rewrite mem_b_transport_read
    by (rewrite ?length_replicate; unfold in_bounds, SIZE in *; bus_consts; lia).
  simpl. rewrite length_replicate. by destruct b.
Qed.

Lemma bus_write_dram a v size (b : bus) :
  DRAM_BASE_ADDRESS <= a -> a + size <= DRAM_BASE_ADDRESS + SIZE -> 0 < size <= 8 ->
  a <> TO_HOST_ADDRESS -> a <> HTIF_TOHOST_ADDR ->
  writeDataMem64 a v size b =
    (Some tt, { b with bus_memory := { bus_memory b with mem :=
       store (mem (bus_memory b)) (a - DRAM_BASE_ADDRESS) size (u64 v) } }).
Proof.
  intros Ha He Hs Hn Hn2. unfold writeDataMem64. unfold b_transport, bus_target, bus_b_transport.
  simpl. assert (decode_route a TLM_WRITE = R_Memory (a - DRAM_BASE_ADDRESS)) as ->.
  { apply decode_route_cases; unfold SIZE in *; unfold device_region; bus_consts; try done;
      intros; exfalso; lia. }
  unfold forward. change (b_transport _ 0 (bus_memory b)) with
    (mem_b_transport (mkPayload TLM_WRITE (a - DRAM_BASE_ADDRESS)
      (le_split (Z.to_nat size) (u64 v)) false TLM_INCOMPLETE false) 0 (bus_memory b)).
  rewrite mem_b_transport_write
    by (rewrite ?le_split_length; unfold in_bounds, SIZE in *; bus_consts; lia).
  done.
Qed.

(** Through the bus, DRAM at 0x80000000 is a memory: a word written at any
    address but the HTIF words reads back, truncated to its size. *)
Theorem bus_dram_roundtrip a v size (b : bus) :
  DRAM_BASE_ADDRESS <= a -> a + size <= DRAM_BASE_ADDRESS + SIZE -> 0 < size <= 8 ->
  a <> TO_HOST_ADDRESS -> a <> HTIF_TOHOST_ADDR -> mem_ok (mem (bus_memory b)) ->
  (readDataMem64 a size (writeDataMem64 a v size b).2).1 = Some (wrap (8 * size) v).
Proof.
  intros Ha He Hs Hn Hn2 Hm. rewrite bus_write_dram, bus_read_dram by done. simpl.
  rewrite load_store_same by (done || lia). f_equal. apply Z.bits_inj'; intros i Hi.
  autorewrite with zbits. destruct (Z.ltb_spec i 64), (Z.ltb_spec i (8 * size)); simpl; (done || lia).
Qed.
End bus_facts.

(** Witnesses: a bus whose device sockets are all memories. *)
Definition bus0 : bus memory memory memory memory memory memory memory :=
  mkBus memory0 (Some memory0) (Some memory0) (Some memory0) None None memory0 memory0 None.

Example decode_route_correct_witness :
  region (decode_route 0x0C200004 TLM_READ) 0x0C200004 /\
  decode_route 0x80200000 TLM_WRITE = R_Memory 0x200000.
Proof.
  split; [apply decode_route_correct|].
  apply (decode_route_correct 0x80200000 TLM_WRITE); bus_consts; lia.
Defined.

Example bus_dram_roundtrip_witness :
  (readDataMem64 0x80200000 8 (writeDataMem64 0x80200000 0x1122334455667788 8 bus0).2).1 =
    Some 0x1122334455667788.
Proof.
  apply (bus_dram_roundtrip 0x80200000 0x1122334455667788 8 bus0);
    try (unfold SIZE; bus_consts; lia). intros x; simpl; unfold fits; lia.
Defined.

(** Findings.  Reading the DRAM word at [TO_HOST_ADDRESS] stops the simulation, and
    an out-of-range read reports success with the zeros of the CPU's buffer. *)
Example tohost_read_stops :
  bus_stopped (readDataMem64 0x90000000 8 bus0).2 = Some (HtifStop 0).
Proof. reflexivity. Qed.

Example out_of_range_read_succeeds :
  (readDataMem64 0x9FFFFFFC 8 bus0).1 = Some 0 /\
  p_status (mem_b_transport (mkPayload TLM_READ 0x1FFFFFFC (replicate 8 0) false
    TLM_INCOMPLETE false) 0 memory0).1.1 = TLM_ADDRESS_ERROR.
Proof. split; vm_compute; reflexivity. Qed.
