(* ===== verification/PhysMem.v ===== *)
(** The interface between the memory system and its clients (the page-table walker,
    the store buffer's drain, AMOs): a state that behaves, on a domain of accesses, as
    a byte array read and written by [readDataMem64] and [writeDataMem64].  The flat
    memory and the bus's DRAM window are its two instances. *)
From S2P Require Import Prelude Bytes Memory BusCtrl.

Class PhysMem (S : Type) `{Target S} := {
  pm_bytes : S -> bytemem;
  pm_dom : Z -> Z -> Prop;
  pm_wf : S -> Prop;
  pm_bytes_ok s : pm_wf s -> mem_ok (pm_bytes s);
  pm_read a size s :
    pm_wf s -> pm_dom a size -> readDataMem64 a size s = (Some (load (pm_bytes s) a size), s);
  pm_write a v size s :
    pm_wf s -> pm_dom a size -> fits 64 v ->
    exists s', writeDataMem64 a v size s = (Some tt, s') /\ pm_wf s' /\
      forall x, pm_bytes s' x = store (pm_bytes s) a size v x;
}.

Lemma load_u64 m a size : mem_ok m -> 0 <= size <= 8 -> u64 (load m a size) = load m a size.
Proof.
  intros Hm Hs. apply wrap_small. apply (fits_mono (8 * size)); [lia|lia|]. apply load_fits; (done || lia).
Qed.

#[export] Program Instance memory_physmem : PhysMem memory := {
  pm_bytes := mem;
  pm_dom a size := 0 <= a /\ 0 < size <= 8 /\ a + size <= SIZE;
  pm_wf s := mem_ok (mem s);
}.
Next Obligation. done. Qed.
Next Obligation.
  intros a size s Hwf (Ha & Hs & Hb). rewrite readDataMem64_memory by done.
  by rewrite load_u64 by (done || lia).
Qed.
Next Obligation.
  intros a v size s Hwf (Ha & Hs & Hb) Hv. rewrite writeDataMem64_memory by done.
  eexists. split_and!; [reflexivity|simpl; by apply store_ok|].
  intros x. simpl. by rewrite wrap_small.
Qed.

(** The DRAM window seen through the bus, the two HTIF words excluded, when the memory
    does not grant direct access (an image loaded at the DRAM base). *)
Section bus_physmem.
Context {U C P D S T R : Type}
  `{Target U, Target C, Target P, Target D, Target S, Target T, Target R}.

#[export] Program Instance bus_physmem : PhysMem (bus U C P D S T R) := {
  pm_bytes b := fun x => mem (bus_memory b) (x - DRAM_BASE_ADDRESS);
  pm_dom a size := DRAM_BASE_ADDRESS <= a /\ 0 < size <= 8 /\ a + size <= DRAM_BASE_ADDRESS + SIZE /\
                   a <> TO_HOST_ADDRESS /\ a <> HTIF_TOHOST_ADDR;
  pm_wf b := mem_ok (mem (bus_memory b)) /\ get_direct_mem_ptr (bus_memory b) = false;
}.
Next Obligation. intros b [Hwf _] x. apply Hwf. Qed.
Next Obligation.
  intros a size b [Hwf _] (Ha & Hs & Hb & Hn1 & Hn2). rewrite bus_read_dram by done.
  assert (E : load (fun x => mem (bus_memory b) (x - DRAM_BASE_ADDRESS)) a size =
              load (mem (bus_memory b)) (a - DRAM_BASE_ADDRESS) size).
  { unfold load, load_bytes. f_equal. apply list_fmap_ext. intros i k _. f_equal. lia. }
  rewrite E. by rewrite load_u64 by (done || lia).
Qed.
Next Obligation.
  intros a v size b [Hwf Hdmi] (Ha & Hs & Hb & Hn1 & Hn2) Hv. rewrite bus_write_dram by done.
  eexists. split_and!; [reflexivity|simpl; by apply store_ok|exact Hdmi|].
  intros x. simpl. rewrite wrap_small by done. unfold store, store_bytes.
  rewrite le_split_length.
  replace (a - DRAM_BASE_ADDRESS <=? x - DRAM_BASE_ADDRESS) with (a <=? x)
    by (bus_consts; destruct (Z.leb_spec a x), (Z.leb_spec (a - 0x80000000) (x - 0x80000000)); lia).
  replace (x - DRAM_BASE_ADDRESS <? a - DRAM_BASE_ADDRESS + Z.of_nat (Z.to_nat size))
    with (x <? a + Z.of_nat (Z.to_nat size))
    by (bus_consts; destruct (Z.ltb_spec x (a + Z.of_nat (Z.to_nat size))),
          (Z.ltb_spec (x - 0x80000000) (a - 0x80000000 + Z.of_nat (Z.to_nat size))); lia).
  case_match; [|done]. do 2 f_equal. lia.
Qed.
End bus_physmem.

(** The 32-bit accessors, through the same contract. *)
Section narrow.
Context {S : Type} `{PhysMem S}.

Lemma readDataMem_narrow a size (s : S) :
  readDataMem a size s = (u32 <$> (readDataMem64 a size s).1, (readDataMem64 a size s).2).
Proof.
  unfold readDataMem, readDataMem64. destruct (b_transport _ _ _) as [[p d] s']. simpl.
  destruct (is_response_error p); simpl; [done|]. by rewrite wrap_le_idemp by lia.
Qed.

Lemma writeDataMem_narrow a v size (s : S) :
  writeDataMem a v size s = writeDataMem64 a (u32 v) size s.
Proof.
  unfold writeDataMem, writeDataMem64. rewrite (wrap_small 64 (u32 v)); [done|].
  apply (fits_mono 32); [lia..|]. by apply wrap_fits.
Qed.

Lemma pm_read32 a size (s : S) :
  pm_wf s -> pm_dom a size -> 0 < size <= 4 ->
  readDataMem a size s = (Some (load (pm_bytes s) a size), s).
Proof.
  intros Hw Hd Hs. rewrite readDataMem_narrow, pm_read by done. simpl. do 2 f_equal.
  apply wrap_small. apply (fits_mono (8 * size)); [lia..|].
  apply load_fits; [by apply pm_bytes_ok|lia].
Qed.

Lemma pm_write32 a v size (s : S) :
  pm_wf s -> pm_dom a size ->
  exists s', writeDataMem a v size s = (Some tt, s') /\ pm_wf s' /\
    forall x, pm_bytes s' x = store (pm_bytes s) a size (u32 v) x.
Proof.
  intros Hw Hd. rewrite writeDataMem_narrow. apply pm_write; [done..|].
  apply (fits_mono 32); [lia..|]. by apply wrap_fits.
Qed.
End narrow.

(** A double word is its two words. *)
Lemma load_8_halves m a :
  mem_ok m -> load m a 8 = load m a 4 .| (load m (a + 4) 4 .<< 32).
Proof.
  intros Hm. apply Z.bits_inj'. intros i Hi.
  rewrite Z.lor_spec, Z.shiftl_spec, !testbit_load by (done || lia).
  destruct (Z.ltb_spec i 32) as [L|L].
  - rewrite (Z.testbit_neg_r _ (i - 32)), orb_false_r by lia.
    rewrite (proj2 (Z.ltb_lt i (8 * 8))), (proj2 (Z.ltb_lt i (8 * 4))) by lia. done.
  - rewrite (proj2 (Z.ltb_ge i (8 * 4))) by lia. simpl. rewrite testbit_load by (done || lia).
    replace ((i - 32) mod 8) with (i mod 8) by (Z.to_euclidean_division_equations; lia).
    replace (a + 4 + (i - 32) / 8) with (a + i / 8) by (Z.to_euclidean_division_equations; lia).
    f_equal. destruct (Z.ltb_spec i (8 * 8)), (Z.ltb_spec (i - 32) (8 * 4)); (done || lia).
Qed.

Lemma store_8_halves m a v x :
  store (store m a 4 v) (a + 4) 4 (v .>> 32) x = store m a 8 v x.
Proof.
  destruct (decide (a <= x < a + 8)) as [I|O].
  - rewrite (store_in m a 8) by lia. destruct (decide (a + 4 <= x)).
    + rewrite store_in, Z.shiftr_shiftr by lia. do 2 f_equal. lia.
    + rewrite store_out, store_in by lia. done.
  - by rewrite !store_out by lia.
Qed.

Lemma store_wrap m a size v w :
  0 <= size -> 8 * size <= w -> forall x, store m a size (wrap w v) x = store m a size v x.
Proof.
  intros Hs Hw x. destruct (decide (a <= x < a + size)) as [I|O]; [|by rewrite !store_out].
  rewrite !store_in by lia. apply Z.bits_inj'. intros i Hi. autorewrite with zbits.
  destruct (Z.ltb_spec i 8); simpl; [|done].
  by rewrite (proj2 (Z.ltb_lt _ w)) by lia.
Qed.

(** Instruction fetch: the transaction's buffer is the core's instruction register, so
    the law is about a read into an arbitrary buffer.  [instr_dmi] says that direct
    access, where it is granted, reads the same bytes. *)
Class InstrMem (S : Type) `{PhysMem S} `{DirectMem S} := {
  instr_read a l (s : S) :
    pm_wf s -> pm_dom a (Z.of_nat (length l)) ->
    exists d dmi, b_transport (mkPayload TLM_READ a l false TLM_INCOMPLETE false) 0 s =
      (mkPayload TLM_READ a (load_bytes (pm_bytes s) a (length l)) false TLM_OK dmi, d, s);
  instr_dmi : Prop;
  instr_grant (s : S) : pm_wf s -> get_direct_mem_ptr s = true -> instr_dmi;
  instr_direct a n (s : S) :
    instr_dmi -> pm_wf s -> pm_dom a (Z.of_nat n) ->
    direct_read a n s = Some (load_bytes (pm_bytes s) a n)
}.

#[export] Program Instance memory_instrmem : InstrMem memory := { instr_dmi := True }.
Next Obligation.
  intros a l s Hwf (Ha & Hs & Hb). unfold b_transport, memory_target.
  rewrite mem_b_transport_read by (unfold in_bounds, SIZE in *; lia). by eexists _, _.
Qed.
Next Obligation. done. Qed.
Next Obligation.
  intros a n s _ _ (Ha & Hs & Hb). simpl. unfold mem_direct_read.
  by rewrite (proj2 (Z.leb_le 0 a)), (proj2 (Z.leb_le (a + Z.of_nat n) SIZE)) by lia.
Qed.

Section bus_instrmem.
Context {U C P D S T R : Type}
  `{Target U, Target C, Target P, Target D, Target S, Target T, Target R}.

#[export] Program Instance bus_instrmem : InstrMem (bus U C P D S T R) := { instr_dmi := False }.
Next Obligation.
  intros a l b [Hwf _] (Ha & Hs & Hb & Hn1 & Hn2). unfold b_transport, bus_target, bus_b_transport. simpl.
  assert (decode_route a TLM_READ = R_Memory (a - DRAM_BASE_ADDRESS)) as ->.
  { apply decode_route_cases; unfold SIZE in *; unfold device_region; bus_consts; try done;
      intros; exfalso; lia. }
  unfold forward. change (b_transport _ 0 (bus_memory b)) with
    (mem_b_transport (mkPayload TLM_READ (a - DRAM_BASE_ADDRESS) l
      false TLM_INCOMPLETE false) 0 (bus_memory b)).
  rewrite mem_b_transport_read by (unfold in_bounds, SIZE in *; bus_consts; lia).
  eexists _, _. simpl. replace (load_bytes (fun x => mem (bus_memory b) (x - DRAM_BASE_ADDRESS)) a (length l))
    with (load_bytes (mem (bus_memory b)) (a - DRAM_BASE_ADDRESS) (length l)); [by destruct b|].
  unfold load_bytes. apply list_fmap_ext. intros i k _. f_equal. lia.
Qed.
Next Obligation. intros b [_ Hd] Hg. simpl in Hg. unfold instr_direct_mem_ptr in Hg. congruence. Qed.
Next Obligation. done. Qed.

(** Direct access ignores the address map: where it is granted, a fetch from the DRAM
    window reads outside of the memory array. *)
Lemma direct_fetch_outside (b : bus U C P D S T R) a :
  DRAM_BASE_ADDRESS <= a -> direct_read a 4 b = None.
Proof.
  intros Ha. simpl. unfold mem_direct_read.
  by rewrite (proj2 (Z.leb_gt (a + Z.of_nat 4) SIZE)), andb_false_r by (unfold SIZE; bus_consts; lia).
Qed.
End bus_instrmem.
