(* ===== verification/Regs.v ===== *)
(** [inc/Registers.h], [src/Registers.cpp] and [inc/extension_base.h]: the register
    bank, program counter and CSR map of the functional cores, the instruction-field
    accessors and the exception entry shared by the ISA extensions.

    The C++ methods mutate the register bank, the memory interface and the simulator
    they point to; here each is a computation of the state-and-error monad [M] over
    the record [hart].  The error case [None] stands for the two ways a method does
    not return: [SC_REPORT_ERROR], which throws, and an operation whose behaviour C++
    leaves undefined and the host traps (an over-wide shift, the signed division that
    overflows).  [T] is [uint32_t] or [uint64_t]: [XLEN] is 32 or 64. *)
From S2P Require Import Prelude Bytes Memory.

(** ** The constants of [Registers.h] *)

Module RegsH.
Definition CSR_CYCLE : Z := 0xC00.
Definition CSR_TIME : Z := 0xC01.
Definition CSR_CYCLEH : Z := 0xC80.
Definition CSR_TIMEH : Z := 0xC81.
Definition CSR_MCYCLE : Z := 0xB00.
Definition CSR_MCYCLEH : Z := 0xB80.
Definition CSR_MSTATUS : Z := 0x300.
Definition CSR_MISA : Z := 0x301.
Definition CSR_MTVEC : Z := 0x305.
Definition CSR_MEPC : Z := 0x341.
Definition CSR_MCAUSE : Z := 0x342.
Definition CSR_MTVAL : Z := 0x343.
Definition CSR_MIP : Z := 0x344.
Definition CSR_SEPC : Z := 0x141.
Definition MISA_A_EXTENSION : Z := 1 .<< 0.
Definition MISA_C_EXTENSION : Z := 1 .<< 2.
Definition MISA_I_BASE : Z := 1 .<< 8.
Definition MISA_M_EXTENSION : Z := 1 .<< 12.
Definition MISA_MXL : Z := 1 .<< 30.
Definition MSTATUS_MIE : Z := 1 .<< 3.
Definition MSTATUS_MPIE : Z := 1 .<< 7.
Definition MIP_MEIP : Z := 1 .<< 11.
End RegsH.
Import RegsH.

(** ** The state *)

Record hart (S : Type) := mkHart {
  register_bank : list Z;
  register_PC : Z;
  CSR : gmap Z Z;
  mem_intf : S;
  TLB_A_Entries : gset Z;     (* the reservations the [A_extension] object holds, *)
  TLB_A_Entries_64 : gset Z;  (* for LR.W and for LR.D *)
  stopped : bool;             (* [sc_stop] was called *)
  sim_time : Z                (* [sc_time_stamp().to_double()] *)
}.
Arguments mkHart {S} _ _ _ _ _ _ _ _.
Arguments register_bank {S} _.
Arguments register_PC {S} _.
Arguments CSR {S} _.
Arguments mem_intf {S} _.
Arguments TLB_A_Entries {S} _.
Arguments TLB_A_Entries_64 {S} _.
Arguments stopped {S} _.
Arguments sim_time {S} _.

Definition M (S A : Type) : Type := hart S -> option (A * hart S).

#[export] Instance M_ret {S} : MRet (M S) := fun A a h => Some (a, h).
#[export] Instance M_bind {S} : MBind (M S) :=
  fun A B f m h => match m h with Some (a, h') => f a h' | None => None end.

(** The operation C++ leaves undefined, or the error that ends the simulation. *)
Definition fail {S A} : M S A := fun _ => None.

Section registers.
Context {S : Type} `{Target S}.
Variable XLEN : Z.

(** [initCSR], for the two widths; the map's values are [unsigned int]. *)
Definition initCSR : gmap Z Z :=
  if XLEN =? 32 then
    <[CSR_MSTATUS := MISA_MXL]>
      (<[CSR_MISA := MISA_MXL .| MISA_M_EXTENSION .| MISA_C_EXTENSION .|
                     MISA_A_EXTENSION .| MISA_I_BASE]> ∅)
  else
    <[CSR_MSTATUS := MISA_MXL]>
      (<[CSR_MISA := u32 ((2 .<< 30) .| MISA_M_EXTENSION .| MISA_C_EXTENSION .|
                          MISA_A_EXTENSION .| MISA_I_BASE)]> ∅).

(** [Registers()]: the stack pointer at the end of the memory, the PC at DRAM. *)
Definition Registers (m : S) : hart S :=
  mkHart (<[2%nat := wrap XLEN (SIZE - 4)]> (replicate 32 0)) 0x80000000 initCSR m ∅ ∅ false 0.

Definition setValue (reg_num value : Z) : M S unit := fun h =>
  Some (tt, if negb (reg_num =? 0) && (reg_num <? 32)
            then { h with register_bank := <[Z.to_nat reg_num := wrap XLEN value]> (register_bank h) }
            else h).

Definition getValue (reg_num : Z) : M S Z := fun h =>
  Some (if reg_num <? 32 then register_bank h !!! Z.to_nat reg_num else 2 ^ XLEN - 1, h).

Definition getPC : M S Z := fun h => Some (register_PC h, h).
Definition setPC (new_pc : Z) : M S unit := fun h =>
  Some (tt, { h with register_PC := wrap XLEN new_pc }).
Definition incPC : M S unit := fun h =>
  Some (tt, { h with register_PC := wrap XLEN (register_PC h + 4) }).
Definition incPCby2 : M S unit := fun h =>
  Some (tt, { h with register_PC := wrap XLEN (register_PC h + 2) }).

(** [CSR[csr]] of an absent key inserts and returns 0. *)
Definition getCSR (csr : Z) : M S Z := fun h =>
  let cycles := u64 (sim_time h) in
  Some (if (csr =? CSR_CYCLE) || (csr =? CSR_MCYCLE) then cycles .& 0xFFFFFFFF
        else if (csr =? CSR_CYCLEH) || (csr =? CSR_MCYCLEH) then u32 ((cycles .>> 32) .& 0xFFFFFFFF)
        else if csr =? CSR_TIME then cycles .& 0xFFFFFFFF
        else if csr =? CSR_TIMEH then u32 ((cycles .>> 32) .& 0xFFFFFFFF)
        else default 0 (CSR h !! csr), h).

(** The map's value type is [unsigned int]: bits 63:32 of a 64-bit [value] are lost. *)
Definition setCSR (csr value : Z) : M S unit := fun h =>
  Some (tt, if csr =? CSR_MISA then h else { h with CSR := <[csr := u32 value]> (CSR h) }).

Definition sc_stop : M S unit := fun h => Some (tt, { h with stopped := true }).

(** The data-memory interface, on the memory the register bank runs against. *)
Definition lift_mem {A} (op : S -> option A * S) : M S A := fun h =>
  match op (mem_intf h) with
  | (Some a, s) => Some (a, { h with mem_intf := s })
  | (None, _) => None
  end.
Definition read_mem (addr size : Z) : M S Z := lift_mem (readDataMem (u64 addr) size).
Definition read_mem64 (addr size : Z) : M S Z := lift_mem (readDataMem64 (u64 addr) size).
Definition write_mem (addr data size : Z) : M S unit := lift_mem (writeDataMem (u64 addr) data size).
Definition write_mem64 (addr data size : Z) : M S unit :=
  lift_mem (writeDataMem64 (u64 addr) data size).

(** ** [extension_base] *)

Inductive Exception_cause :=
| INSTRUCTION_MISALIGN | INSTRUCTION_ACCESS | ILLEGAL_INSTRUCTION | BREAK
| LOAD_ADDR_MISALIGN | LOAD_ACCESS_FAULT | CALL_FROM_M_MODE.

Definition cause_code (c : Exception_cause) : Z :=
  match c with
  | INSTRUCTION_MISALIGN => 0 | INSTRUCTION_ACCESS => 1 | ILLEGAL_INSTRUCTION => 2 | BREAK => 3
  | LOAD_ADDR_MISALIGN => 4 | LOAD_ACCESS_FAULT => 5 | CALL_FROM_M_MODE => 11
  end.

Definition RaiseException (cause : Exception_cause) (inst : Z) : M S unit :=
  pc ← getPC;
  let current_pc := u32 pc in
  ms ← getCSR CSR_MSTATUS;
  let m_cause := u32 ms .| cause_code cause in
  tvec ← getCSR CSR_MTVEC;
  let new_pc := u32 tvec in
  setCSR CSR_MEPC current_pc;;
  match cause with
  | ILLEGAL_INSTRUCTION => setCSR CSR_MTVAL inst
  | LOAD_ADDR_MISALIGN => setCSR CSR_MTVAL current_pc
  | BREAK => sc_stop
  | _ => setCSR CSR_MTVAL 0
  end;;
  setCSR CSR_MCAUSE (cause_code cause);;
  setCSR CSR_MSTATUS m_cause;;
  setPC new_pc.

Definition NOP : M S bool := sc_stop;; mret true.
End registers.

(** The fields of [m_instr], a [sc_uint<32>]. *)
Definition get_rd (m_instr : Z) : Z := bits 11 7 m_instr.
Definition get_rs1 (m_instr : Z) : Z := bits 19 15 m_instr.
Definition get_rs2 (m_instr : Z) : Z := bits 24 20 m_instr.
Definition get_funct3 (m_instr : Z) : Z := bits 14 12 m_instr.
Definition get_shamt_slli (m_instr : Z) : Z := bits 25 20 m_instr.

(** ** Facts *)

(** The register bank as the ISA sees it. *)
Definition reg {S} (h : hart S) (n : Z) : Z := register_bank h !!! Z.to_nat n.

(** [rd <- v], x0 excepted. *)
Definition write_reg {S} (rd v : Z) (h : hart S) : hart S :=
  if rd =? 0 then h else { h with register_bank := <[Z.to_nat rd := v]> (register_bank h) }.

Record hart_wf {S} (XLEN : Z) (h : hart S) : Prop := {
  hwf_length : length (register_bank h) = 32%nat;
  hwf_regs : Forall (fits XLEN) (register_bank h);
  hwf_x0 : reg h 0 = 0;
  hwf_pc : fits XLEN (register_PC h);
  hwf_csr : map_Forall (fun _ v => fits 32 v) (CSR h)
}.

(** A computation keeps an invariant of the hart. *)
Definition keeps {S A} (P : hart S -> Prop) (m : M S A) : Prop :=
  forall h a h', P h -> m h = Some (a, h') -> P h'.

Section facts.
Context {S : Type} `{Target S}.
Variable XLEN : Z.
Hypothesis XLEN_pos : 0 < XLEN.

Lemma bind_eq {A B} (m : M S A) (f : A -> M S B) h :
  (m ≫= f) h = match m h with Some (a, h') => f a h' | None => None end.
Proof. done. Qed.

Lemma ret_eq {A} (a : A) (h : hart S) : (mret a : M S A) h = Some (a, h).
Proof. done. Qed.
Lemma getPC_eq (h : hart S) : getPC h = Some (register_PC h, h).
Proof. done. Qed.
Lemma setPC_eq v (h : hart S) :
  setPC XLEN v h = Some (tt, { h with register_PC := wrap XLEN v }).
Proof. done. Qed.
Lemma incPC_eq (h : hart S) :
  incPC XLEN h = Some (tt, { h with register_PC := wrap XLEN (register_PC h + 4) }).
Proof. done. Qed.
Lemma if_app {A} (b : bool) (m1 m2 : M S A) h :
  (if b then m1 else m2) h = if b then m1 h else m2 h.
Proof. by destruct b. Qed.

Lemma keeps_bind {A B} P (m : M S A) (f : A -> M S B) :
  keeps P m -> (forall a, keeps P (f a)) -> keeps P (m ≫= f).
Proof.
  intros Hm Hf h b h' HP. rewrite bind_eq. destruct (m h) as [[a h1]|] eqn:E; [|done].
  intros Hb. eapply Hf; [|exact Hb]. by eapply Hm.
Qed.

Lemma keeps_ret {A} P (a : A) : keeps P (mret a : M S A).
Proof. intros h b h' HP [= _ <-]. done. Qed.

Lemma keeps_fail {A} P : keeps P (fail : M S A).
Proof. done. Qed.

Lemma keeps_if {A} P (b : bool) (m1 m2 : M S A) :
  keeps P m1 -> keeps P m2 -> keeps P (if b then m1 else m2).
Proof. by destruct b. Qed.

Lemma reg_fits (h : hart S) n : hart_wf XLEN h -> 0 <= n < 32 -> fits XLEN (reg h n).
Proof.
  intros [Hl Hr _ _ _] Hn. unfold reg. rewrite list.Forall_lookup in Hr.
  apply (Hr (Z.to_nat n)). apply list_lookup_lookup_total_lt. lia.
Qed.

Lemma reg_write_reg (h : hart S) rd v n :
  hart_wf XLEN h -> 0 <= rd < 32 -> 0 <= n < 32 ->
  reg (write_reg rd v h) n = if (n =? rd) && negb (rd =? 0) then v else reg h n.
Proof.
  intros [Hl _ _ _ _] Hrd Hn. unfold reg, write_reg.
  destruct (Z.eqb_spec rd 0) as [->|]; simpl; [by rewrite andb_false_r|].
  destruct (Z.eqb_spec n rd) as [->|]; simpl.
  - apply list_lookup_total_insert_eq. lia.
  - apply list_lookup_total_insert_ne. lia.
Qed.

Lemma write_reg_wf (h : hart S) rd v :
  hart_wf XLEN h -> 0 <= rd -> fits XLEN v -> hart_wf XLEN (write_reg rd v h).
Proof.
  intros [Hl Hr H0 Hp Hc] Hrd Hv. unfold write_reg.
  destruct (Z.eqb_spec rd 0) as [->|]; [by split|]. split; simpl; try done.
  - by rewrite length_insert.
  - by apply Forall_insert.
  - unfold reg. simpl. rewrite list_lookup_total_insert_ne by lia. exact H0.
Qed.

Lemma setValue_eq rd v (h : hart S) :
  0 <= rd < 32 -> setValue XLEN rd v h = Some (tt, write_reg rd (wrap XLEN v) h).
Proof.
  intros Hr. unfold setValue, write_reg. rewrite (proj2 (Z.ltb_lt rd 32)) by lia.
  by destruct (rd =? 0).
Qed.

Lemma getValue_eq n (h : hart S) : 0 <= n < 32 -> getValue XLEN n h = Some (reg h n, h).
Proof. intros Hn. unfold getValue. by rewrite (proj2 (Z.ltb_lt n 32)) by lia. Qed.

Lemma keeps_setValue rd v : 0 <= rd -> keeps (hart_wf XLEN) (setValue XLEN rd v : M S unit).
Proof.
  intros Hrd h a h' Hwf. destruct (Z.ltb_spec rd 32).
  - rewrite setValue_eq by lia. intros [= _ <-]. apply write_reg_wf; [done..|].
    apply wrap_fits. lia.
  - unfold setValue. rewrite (proj2 (Z.ltb_ge rd 32)), andb_false_r by lia. by intros [= _ <-].
Qed.

Lemma keeps_getValue P n : keeps P (getValue XLEN n : M S Z).
Proof. by intros h a h' HP [= _ <-]. Qed.
Lemma keeps_getPC P : keeps P (getPC : M S Z).
Proof. by intros h a h' HP [= _ <-]. Qed.
Lemma keeps_getCSR P c : keeps P (getCSR c : M S Z).
Proof. by intros h a h' HP [= _ <-]. Qed.

Lemma keeps_setPC v : keeps (hart_wf XLEN) (setPC XLEN v : M S unit).
Proof. intros h a h' [] [= _ <-]. split; try done. apply wrap_fits. lia. Qed.
Lemma keeps_incPC : keeps (hart_wf XLEN) (incPC XLEN : M S unit).
Proof. intros h a h' [] [= _ <-]. split; try done. apply wrap_fits. lia. Qed.
Lemma keeps_incPCby2 : keeps (hart_wf XLEN) (incPCby2 XLEN : M S unit).
Proof. intros h a h' [] [= _ <-]. split; try done. apply wrap_fits. lia. Qed.

Lemma keeps_setCSR c v : keeps (hart_wf XLEN) (setCSR c v : M S unit).
Proof.
  intros h a h' [] [= _ <-]. case_match; [by split|]. split; try done.
  simpl. apply map_Forall_insert_2; [apply wrap_fits; lia|done].
Qed.

Lemma keeps_sc_stop : keeps (hart_wf XLEN) (sc_stop : M S unit).
Proof. by intros h a h' [] [= _ <-]. Qed.

Lemma keeps_lift_mem {A} (op : S -> option A * S) : keeps (hart_wf XLEN) (lift_mem op).
Proof.
  intros h a h' []. unfold lift_mem. destruct (op (mem_intf h)) as [[x|] s]; [|done].
  intros [= _ <-]. by split.
Qed.

Lemma Registers_wf (m : S) : XLEN = 32 \/ XLEN = 64 -> hart_wf XLEN (Registers XLEN m).
Proof.
  intros HX. assert (fits XLEN 0 /\ fits XLEN 0x80000000) as [? ?].
  { assert (2 ^ 32 <= 2 ^ XLEN) by (apply Z.pow_le_mono_r; lia). unfold fits. lia. }
  split; cbn [register_bank Registers register_PC CSR]; [done| |done|done|].
  - apply Forall_insert; [by apply Forall_replicate|apply wrap_fits; lia].
  - unfold initCSR. destruct HX as [-> | ->]; cbn [Z.eqb Pos.eqb]; cbv iota;
      (apply map_Forall_insert_2; [fits_const|]);
      (apply map_Forall_insert_2; [fits_const|apply map_Forall_empty]).
Qed.
End facts.

(** The fields of an instruction word are in range. *)
Lemma bits_range hi lo x : lo <= hi -> 0 <= bits hi lo x < 2 ^ (hi - lo + 1).
Proof. intros. by apply fits_bits. Qed.
Lemma get_rd_range w : 0 <= get_rd w < 32.
Proof. by apply (bits_range 11 7). Qed.
Lemma get_rs1_range w : 0 <= get_rs1 w < 32.
Proof. by apply (bits_range 19 15). Qed.
Lemma get_rs2_range w : 0 <= get_rs2 w < 32.
Proof. by apply (bits_range 24 20). Qed.

(** [keeps] proves that a computation keeps the hart well formed, from the lemmas of
    its primitives. *)
Create HintDb keeps discriminated.
#[export] Hint Resolve keeps_ret keeps_fail keeps_setValue keeps_getValue keeps_getPC
  keeps_getCSR keeps_setPC keeps_incPC keeps_incPCby2 keeps_setCSR keeps_sc_stop
  keeps_lift_mem : keeps.
#[export] Hint Extern 2 (0 <= _) => (apply get_rd_range || lia) : keeps.
#[export] Hint Extern 2 (0 < _) => lia : keeps.
Ltac keeps :=
  repeat lazymatch goal with
  | |- keeps _ (_ ≫= _) => apply keeps_bind; [|intros ?]
  | |- keeps _ (if _ then _ else _) => apply keeps_if
  | |- keeps _ (let _ := _ in _) => cbv zeta
  | |- keeps _ (match ?x with _ => _ end) => destruct x
  end; eauto with keeps.

Lemma keeps_RaiseException {S} XLEN c inst :
  0 < XLEN -> keeps (hart_wf XLEN) (RaiseException XLEN c inst : M S unit).
Proof. intros. unfold RaiseException. keeps. Qed.
#[export] Hint Resolve keeps_RaiseException : keeps.

(** [hexec] runs the primitives of a computation on a hart. *)
Ltac field_range :=
  solve [apply get_rd_range | apply get_rs1_range | apply get_rs2_range | lia].
Ltac hexec :=
  cbv zeta;
  repeat first
    [ rewrite bind_eq | rewrite ret_eq | rewrite getPC_eq | rewrite setPC_eq | rewrite incPC_eq
    | rewrite if_app | rewrite getValue_eq by field_range | rewrite setValue_eq by field_range ];
  cbv beta iota.
