(* ===== verification/BaseISA.v ===== *)
(** [inc/BASE_ISA.h], [src/BASE_ISA.cpp]: decode and execution of RV32I/RV64I, Zicsr and
    the privileged instructions.  [m_instr] is the instruction word the C++ object keeps;
    [XLEN] selects the template instance, and the methods [BASE_ISA.cpp] specialises
    branch on it.  The [debug] log and the performance counters are not modelled. *)
From S2P Require Import Prelude Bytes Memory Regs.
Import RegsH.

(** ** Opcodes *)

Inductive opCodes :=
| OP_LUI | OP_AUIPC | OP_JAL | OP_JALR
| OP_BEQ | OP_BNE | OP_BLT | OP_BGE | OP_BLTU | OP_BGEU
| OP_LB | OP_LH | OP_LW | OP_LBU | OP_LHU
| OP_SB | OP_SH | OP_SW
| OP_ADDI | OP_SLTI | OP_SLTIU | OP_XORI | OP_ORI | OP_ANDI | OP_SLLI | OP_SRLI | OP_SRAI
| OP_ADD | OP_SUB | OP_SLL | OP_SLT | OP_SLTU | OP_XOR | OP_SRL | OP_SRA | OP_OR | OP_AND
| OP_FENCE | OP_ECALL | OP_EBREAK
| OP_CSRRW | OP_CSRRS | OP_CSRRC | OP_CSRRWI | OP_CSRRSI | OP_CSRRCI
| OP_URET | OP_SRET | OP_MRET | OP_WFI | OP_SFENCE
| OP_LWU | OP_LD | OP_SD | OP_ADDIW | OP_SLLIW | OP_SRLIW | OP_SRAIW
| OP_ADDW | OP_SUBW | OP_SLLW | OP_SRLW | OP_SRAW
| OP_ERROR.

#[export] Instance opCodes_eq_dec : EqDecision opCodes.
Proof. solve_decision. Defined.

(** ** Fields and immediates *)

Definition get_funct7 (m_instr : Z) : Z := bits 31 25 m_instr.
Definition get_imm_U (m_instr : Z) : Z := bits 31 12 m_instr.
Definition get_shamt (m_instr : Z) : Z := bits 25 20 m_instr.
Definition get_csr (m_instr : Z) : Z := bits 31 20 m_instr.
Definition opcode (m_instr : Z) : Z := bits 6 0 m_instr.

Section isa.
Context {S : Type} `{Target S}.
Variable XLEN : Z.

Abbreviation unsigned_T := (wrap XLEN).
Abbreviation signed_T := (signed XLEN).

(** [aux |= (0b11...1) << k]: the [int] constant is [-2^k], converted to [T]; the
    64-bit instance then also sets the high half. *)
Definition sign_extend (k aux m_instr : Z) : Z :=
  let aux := if bit 31 m_instr =? 1 then
               let aux := aux .| unsigned_T (- 2 ^ k) in
               if XLEN =? 32 then aux else aux .| unsigned_T (0xFFFFFFFF .<< 32)
             else aux in
  signed_T aux.

Definition get_imm_I (m_instr : Z) : Z := sign_extend 12 (bits 31 20 m_instr) m_instr.
Definition get_imm_S (m_instr : Z) : Z :=
  let aux := bits 31 25 m_instr .<< 5 in
  let aux := aux .| bits 11 7 m_instr in
  sign_extend 12 aux m_instr.
Definition get_imm_B (m_instr : Z) : Z :=
  let aux := 0 .| (bit 7 m_instr .<< 11) in
  let aux := aux .| (bits 30 25 m_instr .<< 5) in
  let aux := aux .| (bit 31 m_instr .<< 12) in
  let aux := aux .| (bits 11 8 m_instr .<< 1) in
  sign_extend 12 aux m_instr.
Definition get_imm_J (m_instr : Z) : Z :=
  let aux := bit 31 m_instr .<< 20 in
  let aux := aux .| (bits 19 12 m_instr .<< 12) in
  let aux := aux .| (bit 20 m_instr .<< 11) in
  let aux := aux .| (bits 30 21 m_instr .<< 1) in
  sign_extend 20 aux m_instr.

(** ** Execution *)

Abbreviation setValue := (setValue XLEN).
Abbreviation getValue := (getValue XLEN).
Abbreviation setPC := (setPC XLEN).
Abbreviation incPC := (incPC XLEN).
Abbreviation RaiseException := (RaiseException XLEN).

Implicit Types m_instr : Z.

Definition Exec_LUI m_instr : M S bool :=
  let rd := get_rd m_instr in
  let imm := unsigned_T (s32 (unsigned_T (get_imm_U m_instr .<< 12))) in
  setValue rd imm;; mret true.

Definition Exec_AUIPC m_instr : M S bool :=
  let rd := get_rd m_instr in
  let imm := unsigned_T (s32 (unsigned_T (get_imm_U m_instr .<< 12))) in
  pc ← getPC;
  let new_pc := unsigned_T (pc + imm) in
  setValue rd new_pc;; mret true.

Definition Exec_JAL m_instr : M S bool :=
  let rd := get_rd m_instr in
  let mem_addr := get_imm_J m_instr in
  old_pc ← getPC;
  let new_pc := unsigned_T (old_pc + mem_addr) in
  setPC new_pc;;
  let old_pc := unsigned_T (old_pc + 4) in
  setValue rd old_pc;; mret true.

Definition Exec_JALR m_instr : M S bool :=
  let rd := get_rd m_instr in
  let rs1 := get_rs1 m_instr in
  let offset := get_imm_I m_instr in
  old_pc ← getPC;
  v ← getValue rs1;
  let new_pc := unsigned_T (unsigned_T (v + offset) .& unsigned_T (Z.lnot 1)) in
  setValue rd (unsigned_T (old_pc + 4));;
  setPC new_pc;; mret true.

Definition Exec_BEQ m_instr : M S bool :=
  v1 ← getValue (get_rs1 m_instr);
  v2 ← getValue (get_rs2 m_instr);
  let val1 := unsigned_T v1 in
  let val2 := unsigned_T v2 in
  (if val1 =? val2 then
     pc ← getPC;
     setPC (unsigned_T (pc + get_imm_B m_instr))
   else incPC);;
  mret true.

Definition Exec_BNE m_instr : M S bool :=
  v1 ← getValue (get_rs1 m_instr);
  v2 ← getValue (get_rs2 m_instr);
  let val1 := unsigned_T v1 in
  let val2 := unsigned_T v2 in
  (if negb (val1 =? val2) then
     pc ← getPC;
     setPC (unsigned_T (pc + get_imm_B m_instr))
   else incPC);;
  mret true.

Definition Exec_BLT m_instr : M S bool :=
  v1 ← getValue (get_rs1 m_instr);
  v2 ← getValue (get_rs2 m_instr);
  let val1 := signed_T v1 in
  let val2 := signed_T v2 in
  (if val1 <? val2 then
     pc ← getPC;
     setPC (unsigned_T (pc + get_imm_B m_instr))
   else incPC);;
  mret true.

Definition Exec_BGE m_instr : M S bool :=
  v1 ← getValue (get_rs1 m_instr);
  v2 ← getValue (get_rs2 m_instr);
  let val1 := signed_T v1 in
  let val2 := signed_T v2 in
  (if val2 <=? val1 then
     pc ← getPC;
     setPC (unsigned_T (pc + get_imm_B m_instr))
   else incPC);;
  mret true.

Definition Exec_BLTU m_instr : M S bool :=
  v1 ← getValue (get_rs1 m_instr);
  v2 ← getValue (get_rs2 m_instr);
  let val1 := unsigned_T v1 in
  let val2 := unsigned_T v2 in
  (if val1 <? val2 then
     pc ← getPC;
     setPC (unsigned_T (pc + get_imm_B m_instr))
   else incPC);;
  mret true.

Definition Exec_BGEU m_instr : M S bool :=
  v1 ← getValue (get_rs1 m_instr);
  v2 ← getValue (get_rs2 m_instr);
  let val1 := unsigned_T v1 in
  let val2 := unsigned_T v2 in
  (if val2 <=? val1 then
     pc ← getPC;
     setPC (unsigned_T (pc + get_imm_B m_instr))
   else incPC);;
  mret true.

Definition Exec_LB m_instr : M S bool :=
  let rd := get_rd m_instr in
  let imm := get_imm_I m_instr in
  v ← getValue (get_rs1 m_instr);
  let mem_addr := unsigned_T (imm + v) in
  x ← read_mem mem_addr 1;
  let data := s8 x in
  setValue rd data;; mret true.

Definition Exec_LH m_instr : M S bool :=
  let rd := get_rd m_instr in
  let imm := get_imm_I m_instr in
  v ← getValue (get_rs1 m_instr);
  let mem_addr := unsigned_T (imm + v) in
  x ← read_mem mem_addr 2;
  let data := s16 x in
  setValue rd data;; mret true.

Definition Exec_LW m_instr : M S bool :=
  let rd := get_rd m_instr in
  let imm := get_imm_I m_instr in
  v ← getValue (get_rs1 m_instr);
  let mem_addr := unsigned_T (imm + v) in
  x ← read_mem mem_addr 4;
  let data := s32 x in
  setValue rd data;; mret true.

Definition Exec_LBU m_instr : M S bool :=
  let rd := get_rd m_instr in
  let imm := get_imm_I m_instr in
  v ← getValue (get_rs1 m_instr);
  let mem_addr := unsigned_T (imm + v) in
  x ← read_mem mem_addr 1;
  let data := u8 x in
  setValue rd data;; mret true.

Definition Exec_LHU m_instr : M S bool :=
  let rd := get_rd m_instr in
  let imm := get_imm_I m_instr in
  v ← getValue (get_rs1 m_instr);
  let mem_addr := unsigned_T (imm + v) in
  x ← read_mem mem_addr 2;
  let data := u16 x in
  setValue rd data;; mret true.

Definition Exec_LWU m_instr : M S bool :=
  let rd := get_rd m_instr in
  let imm := get_imm_I m_instr in
  v ← getValue (get_rs1 m_instr);
  let mem_addr := unsigned_T (imm + v) in
  x ← read_mem mem_addr 4;
  let data := u32 x in
  setValue rd data;; mret true.

Definition Exec_LD m_instr : M S bool :=
  let rd := get_rd m_instr in
  let imm := get_imm_I m_instr in
  v ← getValue (get_rs1 m_instr);
  let offset := signed_T v in
  let mem_addr := unsigned_T (imm + offset) in
  lo ← read_mem mem_addr 4;
  let data := u32 lo in
  hi ← read_mem (unsigned_T (mem_addr + 4)) 4;
  let aux := u32 hi in
  let data := data .| u64 (aux .<< 32) in
  setValue rd data;; mret true.

Definition Exec_SD m_instr : M S bool :=
  let imm := get_imm_S m_instr in
  v ← getValue (get_rs1 m_instr);
  let mem_addr := unsigned_T (imm + v) in
  data ← getValue (get_rs2 m_instr);
  write_mem mem_addr (data .& 0xFFFFFFFF) 4;;
  write_mem (unsigned_T (mem_addr + 4)) (data .>> 32) 4;;
  mret true.

Definition Exec_SB m_instr : M S bool :=
  let imm := get_imm_S m_instr in
  v ← getValue (get_rs1 m_instr);
  let mem_addr := unsigned_T (imm + v) in
  v2 ← getValue (get_rs2 m_instr);
  let data := u32 v2 in
  write_mem mem_addr data 1;;
  mret true.

Definition Exec_SH m_instr : M S bool :=
  let imm := get_imm_S m_instr in
  v ← getValue (get_rs1 m_instr);
  let mem_addr := unsigned_T (imm + v) in
  v2 ← getValue (get_rs2 m_instr);
  let data := u32 v2 in
  write_mem mem_addr data 2;;
  mret true.

Definition Exec_SW m_instr : M S bool :=
  let imm := get_imm_S m_instr in
  v ← getValue (get_rs1 m_instr);
  let mem_addr := unsigned_T (imm + v) in
  v2 ← getValue (get_rs2 m_instr);
  let data := u32 v2 in
  write_mem mem_addr data 4;;
  mret true.

Definition Exec_ADDI m_instr : M S bool :=
  let rd := get_rd m_instr in
  let imm := get_imm_I m_instr in
  v ← getValue (get_rs1 m_instr);
  let calc := unsigned_T (v + imm) in
  setValue rd calc;; mret true.

Definition Exec_ADDIW m_instr : M S bool :=
  let rd := get_rd m_instr in
  let imm := s32 (get_imm_I m_instr) in
  v ← getValue (get_rs1 m_instr);
  let aux := s32 (v .& 0xFFFFFFFF) in
  let aux := s32 (aux + imm) in
  let calc := s32 aux in
  setValue rd calc;; mret true.

Definition Exec_SLTI m_instr : M S bool :=
  let rd := get_rd m_instr in
  let imm := get_imm_I m_instr in
  v ← getValue (get_rs1 m_instr);
  let val1 := signed_T v in
  (if val1 <? imm then setValue rd 1 else setValue rd 0);; mret true.

Definition Exec_SLTIU m_instr : M S bool :=
  let rd := get_rd m_instr in
  let imm := unsigned_T (get_imm_I m_instr) in
  v ← getValue (get_rs1 m_instr);
  let val1 := unsigned_T v in
  (if val1 <? imm then setValue rd 1 else setValue rd 0);; mret true.

Definition Exec_XORI m_instr : M S bool :=
  let rd := get_rd m_instr in
  let imm := get_imm_I m_instr in
  v ← getValue (get_rs1 m_instr);
  let calc := v .^ unsigned_T imm in
  setValue rd calc;; mret true.

Definition Exec_ORI m_instr : M S bool :=
  let rd := get_rd m_instr in
  let imm := get_imm_I m_instr in
  v ← getValue (get_rs1 m_instr);
  let calc := v .| unsigned_T imm in
  setValue rd calc;; mret true.

Definition Exec_ANDI m_instr : M S bool :=
  let rd := get_rd m_instr in
  let imm := get_imm_I m_instr in
  v ← getValue (get_rs1 m_instr);
  let calc := v .& unsigned_T imm in
  setValue rd calc;; mret true.

Definition Exec_SLLI m_instr : M S bool :=
  let rd := get_rd m_instr in
  let rs1 := get_rs1 m_instr in
  let rs2 := if XLEN =? 32 then get_shamt m_instr else get_shamt_slli m_instr in
  if (if XLEN =? 32 then 0x20 <=? rs2 else 0x40 <=? rs2) then
    sc_stop;; RaiseException ILLEGAL_INSTRUCTION m_instr;; mret false
  else
    let shift := rs2 .& (if XLEN =? 32 then 0x1F else 0x3F) in
    v ← getValue rs1;
    let calc := unsigned_T (v .<< shift) in
    setValue rd calc;; mret true.

Definition Exec_SRLI m_instr : M S bool :=
  let rd := get_rd m_instr in
  let rs2 := if XLEN =? 32 then get_rs2 m_instr else get_shamt_slli m_instr in
  let shift := rs2 .& (if XLEN =? 32 then 0x1F else 0x3F) in
  v ← getValue (get_rs1 m_instr);
  let calc := v .>> shift in
  setValue rd calc;; mret true.

Definition Exec_SRAI m_instr : M S bool :=
  let rd := get_rd m_instr in
  let rs2 := if XLEN =? 32 then get_rs2 m_instr else get_shamt_slli m_instr in
  let shift := rs2 .& (if XLEN =? 32 then 0x1F else 0x3F) in
  v ← getValue (get_rs1 m_instr);
  let calc := signed_T v .>> shift in
  setValue rd calc;; mret true.

Definition Exec_SLLIW m_instr : M S bool :=
  let rd := get_rd m_instr in
  let rs2 := get_shamt m_instr in
  if 0x20 <=? rs2 then
    sc_stop;; RaiseException ILLEGAL_INSTRUCTION m_instr;; mret false
  else
    let shift := rs2 .& 0x1F in
    v ← getValue (get_rs1 m_instr);
    let calc := unsigned_T (s32 (u32 (u32 v .<< shift))) in
    setValue rd calc;; mret true.

Definition Exec_SRLIW m_instr : M S bool :=
  let rd := get_rd m_instr in
  let rs2 := get_shamt m_instr in
  if 0x20 <=? rs2 then
    sc_stop;; RaiseException ILLEGAL_INSTRUCTION m_instr;; mret false
  else
    let shift := rs2 .& 0x1F in
    v ← getValue (get_rs1 m_instr);
    let calc := unsigned_T (s32 (u32 (v .& 0xFFFFFFFF) .>> shift)) in
    setValue rd calc;; mret true.

Definition Exec_SRAIW m_instr : M S bool :=
  let rd := get_rd m_instr in
  let rs2 := get_shamt_slli m_instr in
  let shift := rs2 .& 0x1F in
  v ← getValue (get_rs1 m_instr);
  let calc := s32 (s32 v .>> shift) in
  setValue rd calc;; mret true.

Definition Exec_ADDW m_instr : M S bool :=
  let rd := get_rd m_instr in
  v1 ← getValue (get_rs1 m_instr);
  v2 ← getValue (get_rs2 m_instr);
  let calc := unsigned_T (s32 (unsigned_T (v1 + v2) .& 0xFFFFFFFF)) in
  setValue rd calc;; mret true.

Definition Exec_SUBW m_instr : M S bool :=
  let rd := get_rd m_instr in
  v1 ← getValue (get_rs1 m_instr);
  v2 ← getValue (get_rs2 m_instr);
  let calc := unsigned_T (s32 (unsigned_T (v1 - v2) .& 0xFFFFFFFF)) in
  setValue rd calc;; mret true.

Definition Exec_SLLW m_instr : M S bool :=
  let rd := get_rd m_instr in
  v1 ← getValue (get_rs1 m_instr);
  v2 ← getValue (get_rs2 m_instr);
  let shift := v2 .& 0x1F in
  let calc := unsigned_T (s32 (s32 (v1 .& 0xFFFFFFFF) .<< shift)) in
  setValue rd calc;; mret true.

Definition Exec_SRLW m_instr : M S bool :=
  let rd := get_rd m_instr in
  v1 ← getValue (get_rs1 m_instr);
  v2 ← getValue (get_rs2 m_instr);
  let shift := v2 .& 0x1F in
  let calc := unsigned_T (s32 (u32 (v1 .& 0xFFFFFFFF) .>> shift)) in
  setValue rd calc;; mret true.

Definition Exec_SRAW m_instr : M S bool :=
  let rd := get_rd m_instr in
  v1 ← getValue (get_rs1 m_instr);
  v2 ← getValue (get_rs2 m_instr);
  let shift := v2 .& 0x1F in
  let calc := s32 (v1 .& 0xFFFFFFFF) .>> shift in
  setValue rd calc;; mret true.

(** ADD, SUB and ADDIW add and subtract in the signed type.  An overflow of the signed type is
    undefined in C++; [signed_T] wraps it around, which is what compilers emit and what the
    instruction needs. *)
Definition Exec_ADD m_instr : M S bool :=
  let rd := get_rd m_instr in
  v1 ← getValue (get_rs1 m_instr);
  v2 ← getValue (get_rs2 m_instr);
  let calc := signed_T (signed_T v1 + signed_T v2) in
  setValue rd calc;; mret true.

Definition Exec_SUB m_instr : M S bool :=
  let rd := get_rd m_instr in
  v1 ← getValue (get_rs1 m_instr);
  v2 ← getValue (get_rs2 m_instr);
  let calc := signed_T (signed_T v1 - signed_T v2) in
  setValue rd calc;; mret true.

Definition Exec_SLL m_instr : M S bool :=
  let rd := get_rd m_instr in
  v1 ← getValue (get_rs1 m_instr);
  v2 ← getValue (get_rs2 m_instr);
  let shift := v2 .& (if XLEN =? 32 then 0x1F else 0x3F) in
  let calc := unsigned_T (v1 .<< shift) in
  setValue rd calc;; mret true.

Definition Exec_SLT m_instr : M S bool :=
  let rd := get_rd m_instr in
  v1 ← getValue (get_rs1 m_instr);
  v2 ← getValue (get_rs2 m_instr);
  let val1 := signed_T v1 in
  let val2 := signed_T v2 in
  (if val1 <? val2 then setValue rd 1 else setValue rd 0);; mret true.

Definition Exec_SLTU m_instr : M S bool :=
  let rd := get_rd m_instr in
  v1 ← getValue (get_rs1 m_instr);
  v2 ← getValue (get_rs2 m_instr);
  let val1 := unsigned_T v1 in
  let val2 := unsigned_T v2 in
  (if val1 <? val2 then setValue rd 1 else setValue rd 0);; mret true.

Definition Exec_XOR m_instr : M S bool :=
  let rd := get_rd m_instr in
  v1 ← getValue (get_rs1 m_instr);
  v2 ← getValue (get_rs2 m_instr);
  let calc := v1 .^ v2 in
  setValue rd calc;; mret true.

Definition Exec_SRL m_instr : M S bool :=
  let rd := get_rd m_instr in
  v1 ← getValue (get_rs1 m_instr);
  v2 ← getValue (get_rs2 m_instr);
  let shift := v2 .& (if XLEN =? 32 then 0x1F else 0x3F) in
  let calc := v1 .>> shift in
  setValue rd calc;; mret true.

Definition Exec_SRA m_instr : M S bool :=
  let rd := get_rd m_instr in
  v1 ← getValue (get_rs1 m_instr);
  v2 ← getValue (get_rs2 m_instr);
  let shift := v2 .& (if XLEN =? 32 then 0x1F else 0x3F) in
  let calc := signed_T v1 .>> shift in
  setValue rd calc;; mret true.

Definition Exec_OR m_instr : M S bool :=
  let rd := get_rd m_instr in
  v1 ← getValue (get_rs1 m_instr);
  v2 ← getValue (get_rs2 m_instr);
  let calc := v1 .| v2 in
  setValue rd calc;; mret true.

Definition Exec_AND m_instr : M S bool :=
  let rd := get_rd m_instr in
  v1 ← getValue (get_rs1 m_instr);
  v2 ← getValue (get_rs2 m_instr);
  let calc := v1 .& v2 in
  setValue rd calc;; mret true.

(** The simulation stops when the next word is an ECALL. *)
Definition Exec_FENCE (m_instr : Z) : M S bool :=
  pc ← getPC;
  let ant_pc := u32 (u32 pc + 4) in
  ant_inst ← read_mem ant_pc 4;
  (if ant_inst =? 0x73 then sc_stop else mret tt);; mret true.

Definition Exec_ECALL m_instr : M S bool :=
  RaiseException CALL_FROM_M_MODE m_instr;; mret false.

Definition Exec_EBREAK m_instr : M S bool :=
  RaiseException BREAK m_instr;; mret false.

Definition Exec_CSRRW m_instr : M S bool :=
  let rd := get_rd m_instr in
  let csr := get_csr m_instr in
  aux ← getCSR csr;
  aux2 ← getValue (get_rs1 m_instr);
  (if negb (rd =? 0) then setValue rd aux else mret tt);;
  setCSR csr aux2;; mret true.

Definition Exec_CSRRS m_instr : M S bool :=
  let rd := get_rd m_instr in
  let csr := get_csr m_instr in
  if rd =? 0 then mret false else
  aux ← getCSR csr;
  bitmask ← getValue (get_rs1 m_instr);
  setValue rd aux;;
  let aux2 := aux .| bitmask in
  setCSR csr aux2;; mret true.

Definition Exec_CSRRC m_instr : M S bool :=
  let rd := get_rd m_instr in
  let csr := get_csr m_instr in
  if rd =? 0 then mret true else
  aux ← getCSR csr;
  bitmask ← getValue (get_rs1 m_instr);
  setValue rd aux;;
  let aux2 := aux .&~ bitmask in
  setCSR csr aux2;; mret true.

Definition Exec_CSRRWI m_instr : M S bool :=
  let rd := get_rd m_instr in
  let rs1 := get_rs1 m_instr in
  let csr := get_csr m_instr in
  (if negb (rd =? 0) then aux ← getCSR csr; setValue rd aux else mret tt);;
  setCSR csr rs1;; mret true.

Definition Exec_CSRRSI m_instr : M S bool :=
  let rd := get_rd m_instr in
  let rs1 := get_rs1 m_instr in
  let csr := get_csr m_instr in
  if rs1 =? 0 then mret true else
  aux ← getCSR csr;
  setValue rd aux;;
  setCSR csr (aux .| rs1);; mret true.

Definition Exec_CSRRCI m_instr : M S bool :=
  let rd := get_rd m_instr in
  let rs1 := get_rs1 m_instr in
  let csr := get_csr m_instr in
  if rs1 =? 0 then mret true else
  aux ← getCSR csr;
  setValue rd aux;;
  setCSR csr (aux .&~ rs1);; mret true.

Definition Exec_MRET (m_instr : Z) : M S bool :=
  new_pc ← getCSR CSR_MEPC;
  setPC new_pc;;
  csr_temp ← getCSR CSR_MSTATUS;
  let csr_temp := if negb ((csr_temp .& MSTATUS_MPIE) =? 0) then csr_temp .| MSTATUS_MIE
                  else csr_temp in
  let csr_temp := csr_temp .| MSTATUS_MPIE in
  setCSR CSR_MSTATUS csr_temp;; mret true.

Definition Exec_SRET (m_instr : Z) : M S bool :=
  new_pc ← getCSR CSR_SEPC;
  setPC new_pc;; mret true.

Definition Exec_WFI (m_instr : Z) : M S bool := mret true.
Definition Exec_SFENCE (m_instr : Z) : M S bool := mret true.

(** The result is [(PC_not_affected, breakpoint)]; the handlers whose value the C++
    ignores leave [PC_not_affected] at its initial [true], the control transfers clear
    it. *)
Definition exec_instruction m_instr (code : opCodes) : M S (bool * bool) :=
  let keep (e : Z -> M S bool) := e m_instr;; mret (true, false) in
  let jump (e : Z -> M S bool) := e m_instr;; mret (false, false) in
  let ret (e : Z -> M S bool) (bp : bool) := b ← e m_instr; mret (b, bp) in
  match code with
  | OP_LUI => keep Exec_LUI
  | OP_AUIPC => keep Exec_AUIPC
  | OP_JAL => jump Exec_JAL
  | OP_JALR => jump Exec_JALR
  | OP_BEQ => jump Exec_BEQ
  | OP_BNE => jump Exec_BNE
  | OP_BLT => jump Exec_BLT
  | OP_BGE => jump Exec_BGE
  | OP_BLTU => jump Exec_BLTU
  | OP_BGEU => jump Exec_BGEU
  | OP_LB => keep Exec_LB
  | OP_LH => keep Exec_LH
  | OP_LW => keep Exec_LW
  | OP_LBU => keep Exec_LBU
  | OP_LHU => keep Exec_LHU
  | OP_LWU => keep Exec_LWU
  | OP_LD => keep Exec_LD
  | OP_SB => keep Exec_SB
  | OP_SH => keep Exec_SH
  | OP_SW => keep Exec_SW
  | OP_SD => keep Exec_SD
  | OP_ADDI => keep Exec_ADDI
  | OP_SLTI => keep Exec_SLTI
  | OP_SLTIU => keep Exec_SLTIU
  | OP_XORI => keep Exec_XORI
  | OP_ORI => keep Exec_ORI
  | OP_ANDI => keep Exec_ANDI
  | OP_SLLI => ret Exec_SLLI false
  | OP_SRLI => keep Exec_SRLI
  | OP_SRAI => keep Exec_SRAI
  | OP_ADD => keep Exec_ADD
  | OP_SUB => keep Exec_SUB
  | OP_SLL => keep Exec_SLL
  | OP_SLT => keep Exec_SLT
  | OP_SLTU => keep Exec_SLTU
  | OP_XOR => keep Exec_XOR
  | OP_SRL => keep Exec_SRL
  | OP_SRA => keep Exec_SRA
  | OP_OR => keep Exec_OR
  | OP_AND => keep Exec_AND
  | OP_FENCE => keep Exec_FENCE
  | OP_ECALL => ret Exec_ECALL true
  | OP_EBREAK => ret Exec_EBREAK false
  | OP_CSRRW => keep Exec_CSRRW
  | OP_CSRRS => keep Exec_CSRRS
  | OP_CSRRC => keep Exec_CSRRC
  | OP_CSRRWI => keep Exec_CSRRWI
  | OP_CSRRSI => keep Exec_CSRRSI
  | OP_CSRRCI => keep Exec_CSRRCI
  | OP_MRET => jump Exec_MRET
  | OP_SRET => jump Exec_SRET
  | OP_WFI => keep Exec_WFI
  | OP_SFENCE => keep Exec_SFENCE
  | OP_ADDIW => keep Exec_ADDIW
  | OP_SLLIW => keep Exec_SLLIW
  | OP_SRLIW => keep Exec_SRLIW
  | OP_SRAIW => keep Exec_SRAIW
  | OP_ADDW => keep Exec_ADDW
  | OP_SUBW => keep Exec_SUBW
  | OP_SLLW => keep Exec_SLLW
  | OP_SRLW => keep Exec_SRLW
  | OP_SRAW => keep Exec_SRAW
  | OP_URET | OP_ERROR => NOP;; mret (true, false)
  end.
End isa.

(** ** Decode *)

Definition decode_branch (f3 : Z) : opCodes :=
  if f3 =? 0 then OP_BEQ else if f3 =? 1 then OP_BNE else if f3 =? 4 then OP_BLT
  else if f3 =? 5 then OP_BGE else if f3 =? 6 then OP_BLTU else if f3 =? 7 then OP_BGEU
  else OP_ERROR.

Definition decode_load (f3 : Z) : opCodes :=
  if f3 =? 0 then OP_LB else if f3 =? 1 then OP_LH else if f3 =? 2 then OP_LW
  else if f3 =? 4 then OP_LBU else if f3 =? 5 then OP_LHU else if f3 =? 6 then OP_LWU
  else if f3 =? 3 then OP_LD else OP_ERROR.

Definition decode_store (f3 : Z) : opCodes :=
  if f3 =? 0 then OP_SB else if f3 =? 1 then OP_SH else if f3 =? 2 then OP_SW
  else if f3 =? 3 then OP_SD else OP_ERROR.

Definition decode_op_imm (f3 top6 : Z) : opCodes :=
  if f3 =? 0 then OP_ADDI else if f3 =? 2 then OP_SLTI else if f3 =? 3 then OP_SLTIU
  else if f3 =? 4 then OP_XORI else if f3 =? 6 then OP_ORI else if f3 =? 7 then OP_ANDI
  else if f3 =? 1 then OP_SLLI
  else if f3 =? 5 then
    if top6 =? 0 then OP_SRLI else if top6 =? 0x10 then OP_SRAI else OP_ERROR
  else OP_ERROR.

Definition decode_op (f3 f7 : Z) : opCodes :=
  if negb (f7 =? 0) && negb (f7 =? 0x20) then OP_ERROR
  else if f3 =? 0 then if f7 =? 0 then OP_ADD else if f7 =? 0x20 then OP_SUB else OP_ERROR
  else if f3 =? 1 then OP_SLL else if f3 =? 2 then OP_SLT else if f3 =? 3 then OP_SLTU
  else if f3 =? 4 then OP_XOR
  else if f3 =? 5 then if f7 =? 0 then OP_SRL else if f7 =? 0x20 then OP_SRA else OP_ERROR
  else if f3 =? 6 then OP_OR else if f3 =? 7 then OP_AND else OP_ERROR.

Definition decode_system (f3 csr f7 : Z) : opCodes :=
  if f3 =? 0 then
    if csr =? 0 then OP_ECALL else if csr =? 1 then OP_EBREAK else if csr =? 2 then OP_URET
    else if csr =? 0x102 then OP_SRET else if csr =? 0x302 then OP_MRET
    else if csr =? 0x105 then OP_WFI else if csr =? 9 then OP_SFENCE
    else if f7 =? 9 then OP_SFENCE else OP_ERROR
  else if f3 =? 1 then OP_CSRRW else if f3 =? 2 then OP_CSRRS else if f3 =? 3 then OP_CSRRC
  else if f3 =? 5 then OP_CSRRWI else if f3 =? 6 then OP_CSRRSI else if f3 =? 7 then OP_CSRRCI
  else OP_ERROR.

Definition decode_op_imm32 (f3 top6 : Z) : opCodes :=
  if f3 =? 0 then OP_ADDIW else if f3 =? 1 then OP_SLLIW
  else if f3 =? 5 then
    if top6 =? 0 then OP_SRLIW else if top6 =? 0x10 then OP_SRAIW else OP_ERROR
  else OP_ERROR.

Definition decode_op32 (f3 f7 top6 : Z) : opCodes :=
  if negb (f7 =? 0) && negb (f7 =? 0x20) then OP_ERROR
  else if f3 =? 0 then if top6 =? 0 then OP_ADDW else if top6 =? 0x10 then OP_SUBW else OP_ERROR
  else if f3 =? 1 then OP_SLLW
  else if f3 =? 5 then if top6 =? 0 then OP_SRLW else if top6 =? 0x10 then OP_SRAW else OP_ERROR
  else OP_ERROR.

Definition decode (m_instr : Z) : opCodes :=
  let op := opcode m_instr in
  let f3 := get_funct3 m_instr in
  let f7 := get_funct7 m_instr in
  let top6 := m_instr .>> 26 in
  if op =? 0x37 then OP_LUI
  else if op =? 0x17 then OP_AUIPC
  else if op =? 0x6F then OP_JAL
  else if op =? 0x67 then OP_JALR
  else if op =? 0x63 then decode_branch f3
  else if op =? 0x03 then decode_load f3
  else if op =? 0x23 then decode_store f3
  else if op =? 0x13 then decode_op_imm f3 top6
  else if op =? 0x33 then decode_op f3 f7
  else if op =? 0x0F then OP_FENCE
  else if op =? 0x73 then decode_system f3 (get_csr m_instr) f7
  else if op =? 0x1B then decode_op_imm32 f3 top6
  else if op =? 0x3B then decode_op32 f3 f7 top6
  else OP_ERROR.
