(* ===== verification/BaseISAProofs.v ===== *)
(** The RV32I/RV64I instructions against the unprivileged specification: what each
    opcode computes, the assembler/decoder round trip, and the invariant of the hart. *)
From S2P Require Import Prelude Bytes Memory PhysMem Regs BaseISA.
Import RegsH.

(** ** The specification *)

(** The result of an integer instruction on the XLEN-bit values [a] and [b]. *)
Definition alu_spec (XLEN : Z) (op : opCodes) (a b : Z) : Z :=
  let sh := b mod XLEN in
  let sh5 := b mod 32 in
  match op with
  | OP_LUI => b
  | OP_AUIPC | OP_ADD | OP_ADDI => wrap XLEN (a + b)
  | OP_SUB => wrap XLEN (a - b)
  | OP_SLL | OP_SLLI => wrap XLEN (a * 2 ^ sh)
  | OP_SRL | OP_SRLI => a / 2 ^ sh
  | OP_SRA | OP_SRAI => wrap XLEN (signed XLEN a / 2 ^ sh)
  | OP_SLT | OP_SLTI => Z.b2z (signed XLEN a <? signed XLEN b)
  | OP_SLTU | OP_SLTIU => Z.b2z (a <? b)
  | OP_XOR | OP_XORI => a .^ b
  | OP_OR | OP_ORI => a .| b
  | OP_AND | OP_ANDI => a .& b
  | OP_ADDW | OP_ADDIW => wrap XLEN (s32 (a + b))
  | OP_SUBW => wrap XLEN (s32 (a - b))
  | OP_SLLW | OP_SLLIW => wrap XLEN (s32 (a * 2 ^ sh5))
  | OP_SRLW | OP_SRLIW => wrap XLEN (s32 (u32 a / 2 ^ sh5))
  | OP_SRAW | OP_SRAIW => wrap XLEN (s32 a / 2 ^ sh5)
  | _ => 0
  end.

Inductive alu_class := ALU_U | ALU_I | ALU_shift | ALU_R.

Definition alu_class_of (op : opCodes) : option alu_class :=
  match op with
  | OP_LUI | OP_AUIPC => Some ALU_U
  | OP_ADDI | OP_SLTI | OP_SLTIU | OP_XORI | OP_ORI | OP_ANDI | OP_ADDIW => Some ALU_I
  | OP_SLLI | OP_SRLI | OP_SRAI | OP_SLLIW | OP_SRLIW | OP_SRAIW => Some ALU_shift
  | OP_ADD | OP_SUB | OP_SLL | OP_SLT | OP_SLTU | OP_XOR | OP_SRL | OP_SRA | OP_OR | OP_AND
  | OP_ADDW | OP_SUBW | OP_SLLW | OP_SRLW | OP_SRAW => Some ALU_R
  | _ => None
  end.

(** The operands of an instruction word. *)
Definition alu_src1 {S} (op : opCodes) (w : Z) (h : hart S) : Z :=
  match op with OP_LUI => 0 | OP_AUIPC => register_PC h | _ => reg h (get_rs1 w) end.
Definition alu_src2 {S} (XLEN : Z) (c : alu_class) (w : Z) (h : hart S) : Z :=
  match c with
  | ALU_U => wrap XLEN (s32 (get_imm_U w * 2 ^ 12))
  | ALU_I => wrap XLEN (get_imm_I XLEN w)
  | ALU_shift => get_shamt w
  | ALU_R => reg h (get_rs2 w)
  end.

(** The immediate shifts whose sixth amount bit the code checks. *)
Definition shamt_legal (XLEN : Z) (op : opCodes) (w : Z) : Prop :=
  match op with
  | OP_SLLI => XLEN = 32 -> get_shamt w < 32
  | OP_SLLIW | OP_SRLIW => get_shamt w < 32
  | _ => True
  end.

Ltac unfold_exec :=
  unfold Exec_LUI, Exec_AUIPC, Exec_JAL, Exec_JALR, Exec_BEQ, Exec_BNE, Exec_BLT, 
    Exec_BGE, Exec_BLTU, Exec_BGEU, Exec_LB, Exec_LH, Exec_LW, Exec_LBU, Exec_LHU, 
    Exec_LWU, Exec_LD, Exec_SD, Exec_SB, Exec_SH, Exec_SW, Exec_ADDI, Exec_ADDIW, 
    Exec_SLTI, Exec_SLTIU, Exec_XORI, Exec_ORI, Exec_ANDI, Exec_SLLI, Exec_SRLI, 
    Exec_SRAI, Exec_SLLIW, Exec_SRLIW, Exec_SRAIW, Exec_ADDW, Exec_SUBW, Exec_SLLW, 
    Exec_SRLW, Exec_SRAW, Exec_ADD, Exec_SUB, Exec_SLL, Exec_SLT, Exec_SLTU, 
    Exec_XOR, Exec_SRL, Exec_SRA, Exec_OR, Exec_AND, Exec_FENCE, Exec_ECALL, 
    Exec_EBREAK, Exec_CSRRW, Exec_CSRRS, Exec_CSRRC, Exec_CSRRWI, Exec_CSRRSI, 
    Exec_CSRRCI, Exec_MRET, Exec_SRET, Exec_WFI, Exec_SFENCE.

Section width.
Context {S : Type} `{Target S}.
Variable XLEN : Z.
Hypothesis XLEN_ok : XLEN = 32 \/ XLEN = 64.

Lemma shamt_mask x :
  x .& (if XLEN =? 32 then 0x1F else 0x3F) = x mod XLEN.
Proof.
  destruct XLEN_ok as [-> | ->]; cbn [Z.eqb Pos.eqb]; cbv iota;
    [apply (land_ones_mod x 5)|apply (land_ones_mod x 6)]; lia.
Qed.

Lemma mod_XLEN_nonneg x : 0 <= x mod XLEN.
Proof. apply Z.mod_pos_bound. lia. Qed.
Lemma mod_32_nonneg x : 0 <= x mod 32.
Proof. by apply Z.mod_pos_bound. Qed.

(** The amount field of SRLI and SRAI: five bits in the 32-bit instance. *)
Lemma shamt_field w : (if XLEN =? 32 then get_rs2 w else get_shamt_slli w) mod XLEN =
  get_shamt w mod XLEN.
Proof.
  destruct XLEN_ok as [-> | ->]; cbn [Z.eqb Pos.eqb]; cbv iota; [|done].
  unfold get_rs2, get_shamt, bits. rewrite !Z.land_ones by lia.
  change (2 ^ (24 - 20 + 1)) with (2 ^ 5). change (2 ^ (25 - 20 + 1)) with (2 ^ 6).
  change 32 with (2 ^ 5). rewrite !mod_mod_pow2 by lia. done.
Qed.

Lemma shift_code x n : 0 <= n -> (x .<< n) = x * 2 ^ n /\ (x .>> n) = x / 2 ^ n.
Proof. split; [by apply Z.shiftl_mul_pow2|by apply Z.shiftr_div_pow2]. Qed.
End width.

(** [alu_norm] brings the C++ result and the specification to one form. *)
Ltac alu_norm :=
  rewrite ?shamt_mask, ?shamt_field, ?land_31, ?land_u32 by assumption;
  rewrite ?Z.shiftl_mul_pow2, ?Z.shiftr_div_pow2
    by (lia || apply mod_32_nonneg || (apply mod_XLEN_nonneg; assumption));
  rewrite ?signed_add, ?signed_sub, ?signed_wrap, ?signed_signed, ?signed_wrap_le,
    ?signed_add_wrap, ?signed_add_wrap_l, ?signed_mul_wrap_l, ?wrap_signed, ?signed_mul_l,
    ?wrap_idemp, ?wrap_add_r, ?wrap_mul_l, ?wrap_mul_r, ?signed_div_pow2, ?wrap_div_pow2
    by (lia || assumption || apply mod_32_nonneg || (apply mod_XLEN_nonneg; assumption)).

Section alu.
Context {S : Type} `{Target S}.
Variable XLEN : Z.
Hypothesis XLEN_ok : XLEN = 32 \/ XLEN = 64.

(** The comparisons write 1 or 0. *)
Lemma set_flag (b : bool) rd (h : hart S) :
  match
    match (if b then Some (tt, write_reg rd (wrap XLEN 1) h)
           else Some (tt, write_reg rd (wrap XLEN 0) h)) with
    | Some (_, h') => (mret true : M S bool) h'
    | None => None
    end
  with
  | Some (_, h') => (mret (true, false) : M S (bool * bool)) h'
  | None => None
  end = Some ((true, false), write_reg rd (Z.b2z b) h).
Proof. destruct XLEN_ok as [-> | ->], b; exact eq_refl. Qed.

Lemma wrap_lxor a b : fits XLEN a -> fits XLEN b -> wrap XLEN (a .^ b) = a .^ b.
Proof. intros. apply wrap_small, fits_lxor; (lia || done). Qed.
Lemma wrap_lor a b : fits XLEN a -> fits XLEN b -> wrap XLEN (a .| b) = a .| b.
Proof. intros. apply wrap_small, fits_lor; (lia || done). Qed.
Lemma wrap_land_fits a b : fits XLEN a -> fits XLEN b -> wrap XLEN (a .& b) = a .& b.
Proof. intros ? [? _]. apply wrap_small, fits_land_l; (lia || done). Qed.

Lemma signed_imm_I w : signed XLEN (get_imm_I XLEN w) = get_imm_I XLEN w.
Proof. apply signed_signed. lia. Qed.

Lemma get_shamt_if (b : bool) w : (if b then get_shamt w else get_shamt_slli w) = get_shamt w.
Proof. by destruct b. Qed.

Lemma slli_check w :
  (XLEN = 32 -> get_shamt w < 32) ->
  (if XLEN =? 32 then 32 <=? get_shamt w else 64 <=? get_shamt w) = false.
Proof.
  intros Hw. pose proof (bits_range 25 20 w ltac:(lia)) as R.
  destruct XLEN_ok as [-> | ->]; cbn [Z.eqb Pos.eqb]; cbv iota; apply Z.leb_gt.
  - by apply Hw.
  - apply R.
Qed.

Lemma exec_alu w op c (h : hart S) :
  hart_wf XLEN h -> alu_class_of op = Some c -> shamt_legal XLEN op w ->
  exec_instruction XLEN w op h =
    Some ((true, false),
      write_reg (get_rd w)
        (alu_spec XLEN op (alu_src1 op w h) (alu_src2 XLEN c w h)) h).
Proof.
  intros Hwf Hc Hs.
  pose proof (reg_fits XLEN h (get_rs1 w) Hwf (get_rs1_range w)) as F1.
  pose proof (reg_fits XLEN h (get_rs2 w) Hwf (get_rs2_range w)) as F2.
  assert (fits XLEN (wrap XLEN (get_imm_I XLEN w))) as FI by (apply wrap_fits; lia).
  destruct op; try discriminate Hc; injection Hc as <-; cbn [exec_instruction].
  all: unfold_exec; hexec.
  all: unfold alu_src1, alu_src2, alu_spec.
  all: rewrite ?wrap_lxor, ?wrap_lor, ?wrap_land_fits, ?get_shamt_if by assumption.
  all: alu_norm; rewrite ?signed_imm_I, ?(wrap_small XLEN (reg h _)) by assumption.
  all: try exact eq_refl.
  all: try apply set_flag.
  - by rewrite slli_check.
  - by rewrite (proj2 (Z.leb_gt 32 (get_shamt w)) Hs).
  - by rewrite (proj2 (Z.leb_gt 32 (get_shamt w)) Hs).
Qed.
End alu.

(** ** Control transfers *)

Definition branch_taken (XLEN : Z) (op : opCodes) (a b : Z) : option bool :=
  match op with
  | OP_BEQ => Some (a =? b)
  | OP_BNE => Some (negb (a =? b))
  | OP_BLT => Some (signed XLEN a <? signed XLEN b)
  | OP_BGE => Some (signed XLEN b <=? signed XLEN a)
  | OP_BLTU => Some (a <? b)
  | OP_BGEU => Some (b <=? a)
  | _ => None
  end.

(** The next pc of a branch or jump; [None] for the other opcodes. *)
Definition next_pc {S} (XLEN : Z) (op : opCodes) (w : Z) (h : hart S) : option Z :=
  match op with
  | OP_JAL => Some (wrap XLEN (register_PC h + get_imm_J XLEN w))
  | OP_JALR => Some (2 * (wrap XLEN (reg h (get_rs1 w) + get_imm_I XLEN w) / 2))
  | _ =>
    t ← branch_taken XLEN op (reg h (get_rs1 w)) (reg h (get_rs2 w));
    Some (wrap XLEN (register_PC h + if (t : bool) then get_imm_B XLEN w else 4))
  end.

Definition links (op : opCodes) : bool :=
  match op with OP_JAL | OP_JALR => true | _ => false end.

(** ** Loads and stores *)

Definition load_spec (XLEN : Z) (op : opCodes) : option (Z * (Z -> Z)) :=
  match op with
  | OP_LB => Some (1, fun v => wrap XLEN (s8 v))
  | OP_LH => Some (2, fun v => wrap XLEN (s16 v))
  | OP_LW => Some (4, fun v => wrap XLEN (s32 v))
  | OP_LBU => Some (1, fun v => v)
  | OP_LHU => Some (2, fun v => v)
  | OP_LWU => Some (4, fun v => v)
  | OP_LD => Some (8, fun v => wrap XLEN v)
  | _ => None
  end.

Definition store_spec (op : opCodes) : option Z :=
  match op with
  | OP_SB => Some 1 | OP_SH => Some 2 | OP_SW => Some 4 | OP_SD => Some 8 | _ => None
  end.

(** The accesses [Exec_LD] and [Exec_SD] make are two words. *)
Definition dom_access {S} `{PhysMem S} (XLEN a size : Z) : Prop :=
  if decide (size = 8) then pm_dom (S := S) a 4 /\ pm_dom (S := S) (a + 4) 4 /\ a + 4 < 2 ^ XLEN
  else pm_dom (S := S) a size.

Section memory_ops.
Context {S : Type} `{PhysMem S}.
Variable XLEN : Z.
Hypothesis XLEN_ok : XLEN = 32 \/ XLEN = 64.

Lemma clear_bit0 x : x .& wrap XLEN (Z.lnot 1) = 2 * (wrap XLEN x / 2).
Proof.
  apply Z.bits_inj'. intros i Hi. rewrite Z.land_spec, testbit_wrap, Z.lnot_spec by lia.
  destruct (Z.eqb_spec i 0) as [->|Hn].
  - rewrite Z.testbit_even_0. change (Z.testbit 1 0) with true. by rewrite !andb_false_r.
  - replace i with (Z.succ (i - 1)) at 4 by lia. rewrite Z.testbit_even_succ by lia.
    rewrite <-Z.div2_div, Z.div2_spec, Z.shiftr_spec, testbit_wrap by lia.
    replace (i - 1 + 1) with i by lia. change 1 with (Z.b2z true). rewrite testbit_bit0.
    rewrite (proj2 (Z.eqb_neq i 0)) by done. simpl. rewrite andb_true_r. by rewrite andb_comm.
Qed.

Lemma read_mem_eq a size (h : hart S) :
  fits XLEN a -> pm_wf (mem_intf h) -> pm_dom a size -> 0 < size <= 4 ->
  read_mem a size h = Some (load (pm_bytes (mem_intf h)) a size, h).
Proof.
  intros Ha Hw Hd Hs. unfold read_mem, lift_mem.
  rewrite wrap_small by (apply (fits_mono XLEN); (lia || done)).
  rewrite pm_read32 by done. by destruct h.
Qed.

Lemma write_mem_eq a v size (h : hart S) :
  fits XLEN a -> pm_wf (mem_intf h) -> pm_dom a size ->
  exists s', write_mem a v size h = Some (tt, { h with mem_intf := s' }) /\ pm_wf s' /\
    forall x, pm_bytes s' x = store (pm_bytes (mem_intf h)) a size (u32 v) x.
Proof.
  intros Ha Hw Hd. unfold write_mem, lift_mem.
  rewrite wrap_small by (apply (fits_mono XLEN); (lia || done)).
  destruct (pm_write32 a v size (mem_intf h) Hw Hd) as (s' & -> & Hw' & E). by exists s'.
Qed.

Lemma load_size_fits (s : S) a size k :
  pm_wf s -> 0 <= size -> 8 * size <= k -> fits k (load (pm_bytes s) a size).
Proof.
  intros. apply (fits_mono (8 * size)); [lia..|]. by apply load_fits; [apply pm_bytes_ok|].
Qed.

Lemma exec_control w op pc' (h : hart S) :
  hart_wf XLEN h -> next_pc XLEN op w h = Some pc' ->
  exec_instruction XLEN w op h =
    Some ((false, false),
      (let h' := { h with register_PC := pc' } in
       if links op then write_reg (get_rd w) (wrap XLEN (register_PC h + 4)) h' else h')).
Proof.
  intros Hwf Hpc.
  pose proof (reg_fits XLEN h (get_rs1 w) Hwf (get_rs1_range w)) as F1.
  pose proof (reg_fits XLEN h (get_rs2 w) Hwf (get_rs2_range w)) as F2.
  destruct op; try discriminate Hpc; cbn in Hpc; injection Hpc as <-;
    cbn [exec_instruction links]; unfold_exec; hexec.
  all: rewrite ?wrap_idemp, ?(wrap_small XLEN (reg h (get_rs1 w))),
    ?(wrap_small XLEN (reg h (get_rs2 w))) by assumption.
  all: try (match goal with |- context [if ?b then Some _ else Some _] => destruct b end;
            exact eq_refl).
  - exact eq_refl.
  - rewrite clear_bit0, wrap_idemp. rewrite (wrap_small XLEN (2 * _)).
    + unfold write_reg. by destruct (get_rd w =? 0).
    + pose proof (wrap_fits XLEN (reg h (get_rs1 w) + get_imm_I XLEN w) ltac:(lia)) as [? ?].
      split; Z.to_euclidean_division_equations; lia.
Qed.

Lemma exec_load w op size ext (h : hart S) :
  hart_wf XLEN h -> pm_wf (mem_intf h) -> load_spec XLEN op = Some (size, ext) ->
  let a := wrap XLEN (reg h (get_rs1 w) + get_imm_I XLEN w) in
  dom_access (S := S) XLEN a size ->
  exec_instruction XLEN w op h =
    Some ((true, false),
      write_reg (get_rd w) (wrap XLEN (ext (load (pm_bytes (mem_intf h)) a size))) h).
Proof.
  intros Hwf Hpm Hl a Ha.
  assert (fits XLEN a) as Fa by (apply wrap_fits; lia).
  pose proof (load_size_fits (mem_intf h) a) as Fl.
  assert (Ea : wrap XLEN (get_imm_I XLEN w + reg h (get_rs1 w)) = a)
    by (unfold a; f_equal; lia).
  destruct op; try discriminate Hl; injection Hl as <- <-;
    cbn [exec_instruction]; unfold_exec; hexec; unfold dom_access in Ha; simpl in Ha.
  1-6: rewrite Ea, read_mem_eq by (done || lia); hexec;
    rewrite ?wrap_idemp, ?(wrap_small _ (load _ _ _)) by (apply Fl; (done || lia)); exact eq_refl.
  destruct Ha as (Ha1 & Ha2 & Ha3).
  assert (Es : wrap XLEN (get_imm_I XLEN w + signed XLEN (reg h (get_rs1 w))) = a).
  { by rewrite <-Ea, <-(wrap_add_r XLEN _ (signed XLEN _)), wrap_signed, wrap_add_r by lia. }
  rewrite Es, read_mem_eq by (done || lia). hexec.
  rewrite (wrap_small XLEN (a + 4)) by (unfold fits in *; lia).
  rewrite read_mem_eq by (unfold fits in *; done || lia). hexec.
  pose proof (Fl 4 32 Hpm ltac:(lia) ltac:(lia)) as F4.
  pose proof (load_size_fits (mem_intf h) (a + 4) 4 32 Hpm ltac:(lia) ltac:(lia)) as F8.
  rewrite (wrap_small 32 (load _ a 4)), (wrap_small 32 (load _ (a + 4) 4)) by done.
  rewrite load_8_halves by (by apply pm_bytes_ok). rewrite wrap_idemp.
  rewrite (wrap_small 64 (_ .<< 32)); [exact eq_refl|].
  rewrite Z.shiftl_mul_pow2 by lia. unfold fits in *. lia.
Qed.

Lemma exec_store w op size (h : hart S) :
  hart_wf XLEN h -> pm_wf (mem_intf h) -> store_spec op = Some size ->
  let a := wrap XLEN (reg h (get_rs1 w) + get_imm_S XLEN w) in
  dom_access (S := S) XLEN a size ->
  exists s', exec_instruction XLEN w op h =
      Some ((true, false), { h with mem_intf := s' }) /\ pm_wf s' /\
    forall x, pm_bytes s' x =
      store (pm_bytes (mem_intf h)) a size (reg h (get_rs2 w)) x.
Proof.
  intros Hwf Hpm Hl a Ha.
  assert (fits XLEN a) as Fa by (apply wrap_fits; lia).
  pose proof (reg_fits XLEN h (get_rs2 w) Hwf (get_rs2_range w)) as F2.
  assert (Ea : wrap XLEN (get_imm_S XLEN w + reg h (get_rs1 w)) = a)
    by (unfold a; f_equal; lia).
  destruct op; try discriminate Hl; injection Hl as <-;
    cbn [exec_instruction]; unfold_exec; hexec; unfold dom_access in Ha; simpl in Ha; rewrite Ea.
  1-3: match goal with |- context [write_mem ?x ?v ?n] =>
         destruct (write_mem_eq x v n h Fa Hpm Ha) as (s' & E & Hw & Hs') end;
    exists s'; rewrite E; split_and!; [exact eq_refl|done|];
    intros x; rewrite Hs', wrap_idemp; by rewrite store_wrap by lia.
  destruct Ha as (Ha1 & Ha2 & Ha3). rewrite (wrap_small XLEN (a + 4)) by (unfold fits in *; lia).
  set (v := reg h (get_rs2 w)) in *.
  destruct (write_mem_eq a (v .& 0xFFFFFFFF) 4 h Fa Hpm Ha1) as (s1 & E1 & Hw1 & Hs1).
  destruct (write_mem_eq (a + 4) (v .>> 32) 4 { h with mem_intf := s1 }
              ltac:(unfold fits in *; lia) ltac:(exact Hw1) Ha2) as (s2 & E2 & Hw2 & Hs2).
  exists s2. rewrite E1. cbv beta iota. rewrite bind_eq, E2.
  split_and!; [exact eq_refl|done|]. intros x. rewrite Hs2. cbn [mem_intf].
  rewrite <-(store_8_halves _ a). rewrite store_wrap by lia.
  unfold store, store_bytes. rewrite !le_split_length. case_match; [done|].
  change (pm_bytes s1 x = store (pm_bytes (mem_intf h)) a 4 v x).
  rewrite Hs1, land_u32, wrap_idemp. by rewrite store_wrap by lia.
Qed.
End memory_ops.

(** ** The assembler *)

Inductive format := FU | FJ | FB | FI | FShift | FS | FR | FCsr | FPriv.

Definition fmt (op : opCodes) : option format :=
  match op with
  | OP_LUI | OP_AUIPC => Some FU
  | OP_JAL => Some FJ
  | OP_JALR | OP_LB | OP_LH | OP_LW | OP_LBU | OP_LHU | OP_LWU | OP_LD
  | OP_ADDI | OP_SLTI | OP_SLTIU | OP_XORI | OP_ORI | OP_ANDI | OP_ADDIW | OP_FENCE => Some FI
  | OP_BEQ | OP_BNE | OP_BLT | OP_BGE | OP_BLTU | OP_BGEU => Some FB
  | OP_SB | OP_SH | OP_SW | OP_SD => Some FS
  | OP_SLLI | OP_SRLI | OP_SRAI | OP_SLLIW | OP_SRLIW | OP_SRAIW => Some FShift
  | OP_ADD | OP_SUB | OP_SLL | OP_SLT | OP_SLTU | OP_XOR | OP_SRL | OP_SRA | OP_OR | OP_AND
  | OP_ADDW | OP_SUBW | OP_SLLW | OP_SRLW | OP_SRAW | OP_SFENCE => Some FR
  | OP_CSRRW | OP_CSRRS | OP_CSRRC | OP_CSRRWI | OP_CSRRSI | OP_CSRRCI => Some FCsr
  | OP_ECALL | OP_EBREAK | OP_URET | OP_SRET | OP_MRET | OP_WFI => Some FPriv
  | OP_ERROR => None
  end.

(** Major opcode, funct3 and funct7 (for [FPriv], the whole funct12) of the manual. *)
Definition code_of (op : opCodes) : Z * Z * Z :=
  match op with
  | OP_LUI => (0x37, 0, 0) | OP_AUIPC => (0x17, 0, 0) | OP_JAL => (0x6F, 0, 0)
  | OP_JALR => (0x67, 0, 0)
  | OP_BEQ => (0x63, 0, 0) | OP_BNE => (0x63, 1, 0) | OP_BLT => (0x63, 4, 0)
  | OP_BGE => (0x63, 5, 0) | OP_BLTU => (0x63, 6, 0) | OP_BGEU => (0x63, 7, 0)
  | OP_LB => (0x03, 0, 0) | OP_LH => (0x03, 1, 0) | OP_LW => (0x03, 2, 0) | OP_LD => (0x03, 3, 0)
  | OP_LBU => (0x03, 4, 0) | OP_LHU => (0x03, 5, 0) | OP_LWU => (0x03, 6, 0)
  | OP_SB => (0x23, 0, 0) | OP_SH => (0x23, 1, 0) | OP_SW => (0x23, 2, 0) | OP_SD => (0x23, 3, 0)
  | OP_ADDI => (0x13, 0, 0) | OP_SLTI => (0x13, 2, 0) | OP_SLTIU => (0x13, 3, 0)
  | OP_XORI => (0x13, 4, 0) | OP_ORI => (0x13, 6, 0) | OP_ANDI => (0x13, 7, 0)
  | OP_SLLI => (0x13, 1, 0) | OP_SRLI => (0x13, 5, 0) | OP_SRAI => (0x13, 5, 0x20)
  | OP_ADD => (0x33, 0, 0) | OP_SUB => (0x33, 0, 0x20) | OP_SLL => (0x33, 1, 0)
  | OP_SLT => (0x33, 2, 0) | OP_SLTU => (0x33, 3, 0) | OP_XOR => (0x33, 4, 0)
  | OP_SRL => (0x33, 5, 0) | OP_SRA => (0x33, 5, 0x20) | OP_OR => (0x33, 6, 0)
  | OP_AND => (0x33, 7, 0)
  | OP_FENCE => (0x0F, 0, 0)
  | OP_ECALL => (0x73, 0, 0x000) | OP_EBREAK => (0x73, 0, 0x001) | OP_URET => (0x73, 0, 0x002)
  | OP_SRET => (0x73, 0, 0x102) | OP_MRET => (0x73, 0, 0x302) | OP_WFI => (0x73, 0, 0x105)
  | OP_SFENCE => (0x73, 0, 0x09)
  | OP_CSRRW => (0x73, 1, 0) | OP_CSRRS => (0x73, 2, 0) | OP_CSRRC => (0x73, 3, 0)
  | OP_CSRRWI => (0x73, 5, 0) | OP_CSRRSI => (0x73, 6, 0) | OP_CSRRCI => (0x73, 7, 0)
  | OP_ADDIW => (0x1B, 0, 0) | OP_SLLIW => (0x1B, 1, 0) | OP_SRLIW => (0x1B, 5, 0)
  | OP_SRAIW => (0x1B, 5, 0x20)
  | OP_ADDW => (0x3B, 0, 0) | OP_SUBW => (0x3B, 0, 0x20) | OP_SLLW => (0x3B, 1, 0)
  | OP_SRLW => (0x3B, 5, 0) | OP_SRAW => (0x3B, 5, 0x20)
  | OP_ERROR => (0, 0, 0)
  end.

(** An instruction with its operands; the ones its format lacks are ignored. *)
Record asm := mkAsm { a_op : opCodes; a_rd : Z; a_rs1 : Z; a_rs2 : Z; a_imm : Z }.

Definition word (f7 rs2 rs1 f3 rd opc : Z) : Z :=
  f7 * 2 ^ 25 + rs2 * 2 ^ 20 + rs1 * 2 ^ 15 + f3 * 2 ^ 12 + rd * 2 ^ 7 + opc.

Definition encode (i : asm) : Z :=
  let '(opc, f3, f7) := code_of (a_op i) in
  let u := a_imm i in
  match fmt (a_op i) with
  | Some FU => u * 2 ^ 12 + a_rd i * 2 ^ 7 + opc
  | Some FJ =>
      let u := u mod 2 ^ 21 in
      word (u / 2 ^ 20 * 64 + (u / 32) mod 64) ((u / 2) mod 16 * 2 + (u / 2048) mod 2)
        ((u / 2 ^ 15) mod 32) ((u / 2 ^ 12) mod 8) (a_rd i) opc
  | Some FB =>
      let u := u mod 2 ^ 13 in
      word (u / 2 ^ 12 * 64 + (u / 32) mod 64) (a_rs2 i) (a_rs1 i) f3
        ((u / 2) mod 16 * 2 + (u / 2048) mod 2) opc
  | Some FI =>
      let u := u mod 2 ^ 12 in word (u / 32) (u mod 32) (a_rs1 i) f3 (a_rd i) opc
  | Some FShift => word (f7 + u / 32) (u mod 32) (a_rs1 i) f3 (a_rd i) opc
  | Some FS =>
      let u := u mod 2 ^ 12 in word (u / 32) (a_rs2 i) (a_rs1 i) f3 (u mod 32) opc
  | Some FR => word f7 (a_rs2 i) (a_rs1 i) f3 (a_rd i) opc
  | Some FCsr => word (u / 32) (u mod 32) (a_rs1 i) f3 (a_rd i) opc
  | Some FPriv => word (f7 / 32) (f7 mod 32) 0 f3 0 opc
  | None => 0
  end.

Definition imm_range (op : opCodes) (u : Z) : Prop :=
  match fmt op with
  | Some FU => 0 <= u < 2 ^ 20
  | Some FJ => - 2 ^ 20 <= u < 2 ^ 20 /\ u mod 2 = 0
  | Some FB => - 2 ^ 12 <= u < 2 ^ 12 /\ u mod 2 = 0
  | Some FI | Some FS => - 2 ^ 11 <= u < 2 ^ 11
  | Some FShift => 0 <= u < match op with OP_SLLIW | OP_SRLIW | OP_SRAIW => 32 | _ => 64 end
  | Some FCsr => 0 <= u < 2 ^ 12
  | _ => True
  end.

Record asm_ok (i : asm) : Prop := {
  ao_op : a_op i <> OP_ERROR;
  ao_rd : 0 <= a_rd i < 32;
  ao_rs1 : 0 <= a_rs1 i < 32;
  ao_rs2 : 0 <= a_rs2 i < 32;
  ao_imm : imm_range (a_op i) (a_imm i)
}.

(** What the field accessors must answer on the encoding. *)
Definition operands (XLEN : Z) (i : asm) (w : Z) : Prop :=
  match fmt (a_op i) with
  | Some FU => get_rd w = a_rd i /\ get_imm_U w = a_imm i
  | Some FJ => get_rd w = a_rd i /\ get_imm_J XLEN w = a_imm i
  | Some FB => get_rs1 w = a_rs1 i /\ get_rs2 w = a_rs2 i /\ get_imm_B XLEN w = a_imm i
  | Some FI => get_rd w = a_rd i /\ get_rs1 w = a_rs1 i /\ get_imm_I XLEN w = a_imm i
  | Some FShift => get_rd w = a_rd i /\ get_rs1 w = a_rs1 i /\ get_shamt w = a_imm i
  | Some FS => get_rs1 w = a_rs1 i /\ get_rs2 w = a_rs2 i /\ get_imm_S XLEN w = a_imm i
  | Some FR => get_rd w = a_rd i /\ get_rs1 w = a_rs1 i /\ get_rs2 w = a_rs2 i
  | Some FCsr => get_rd w = a_rd i /\ get_rs1 w = a_rs1 i /\ get_csr w = a_imm i
  | _ => True
  end.

Lemma lor_neg_pow2 k x : 0 <= k -> x .| (- 2 ^ k) = x mod 2 ^ k - 2 ^ k.
Proof.
  intros Hk. replace (- 2 ^ k) with (Z.lnot (Z.ones k)) by (rewrite Z.ones_equiv; unfold Z.lnot; lia).
  apply Z.bits_inj'. intros i Hi. replace (x mod 2 ^ k - 2 ^ k) with (Z.lnot (Z.ones k .&~ x)).
  - rewrite Z.lor_spec, !Z.lnot_spec, Z.ldiff_spec by lia.
    destruct (Z.testbit x i), (Z.testbit (Z.ones k) i); done.
  - assert (Z.ones k .&~ x = Z.ones k - x mod 2 ^ k) as ->.
    { rewrite <-Z.land_ones by lia. rewrite Z.sub_nocarry_ldiff.
      - apply Z.bits_inj'. intros j Hj. autorewrite with zbits.
        destruct (Z.testbit x j), (Z.testbit (Z.ones k) j); done.
      - apply Z.bits_inj'. intros j Hj. autorewrite with zbits.
        destruct (Z.testbit x j), (Z.testbit (Z.ones k) j); done. }
    rewrite Z.ones_equiv. unfold Z.lnot. lia.
Qed.

Section roundtrip.
Variable XLEN : Z.
Hypothesis XLEN_ok : XLEN = 32 \/ XLEN = 64.

(** [aux] sign-extended from bit [k], in the two's complement of [XLEN] bits. *)
Lemma sign_extend_spec k aux w :
  0 <= k < 31 -> 0 <= aux < 2 ^ 31 ->
  sign_extend XLEN k aux w = if bit 31 w =? 1 then aux mod 2 ^ k - 2 ^ k else aux.
Proof.
  intros Hk Ha. assert (2 ^ k <= 2 ^ 31) by (apply Z.pow_le_mono_r; lia).
  assert (2 ^ 31 <= 2 ^ (XLEN - 1)) by (apply Z.pow_le_mono_r; lia).
  pose proof (pow2_pos k ltac:(lia)).
  unfold sign_extend. destruct (bit 31 w =? 1).
  2: { apply signed_id; lia. }
  assert (E : wrap XLEN (aux .| wrap XLEN (- 2 ^ k)) = wrap XLEN (aux mod 2 ^ k - 2 ^ k)).
  { rewrite <-lor_neg_pow2 by lia. bits_ext j. by destruct (j <? XLEN). }
  assert (signed XLEN (aux mod 2 ^ k - 2 ^ k) = aux mod 2 ^ k - 2 ^ k) as Eid.
  { pose proof (Z.mod_pos_bound aux (2 ^ k) ltac:(lia)). apply signed_id; lia. }
  transitivity (signed XLEN (aux .| wrap XLEN (- 2 ^ k)));
    [|by rewrite <-Eid; apply signed_mod].
  destruct XLEN_ok as [-> | ->]; cbn [Z.eqb Pos.eqb]; cbv iota; [done|].
  apply signed_mod. bits_ext j.
  replace (- 2 ^ k) with (Z.lnot (Z.ones k)) by (rewrite Z.ones_equiv; unfold Z.lnot; lia).
  rewrite Z.lnot_spec by lia.
  destruct (Z.ltb_spec j 64) as [L|]; simpl; [|done].
  destruct (Z.lt_ge_cases j 32).
  - rewrite (Z.testbit_neg_r _ (j - 32)) by lia. by rewrite orb_false_r.
  - rewrite (Z.ones_spec_high k j) by lia. simpl. by rewrite orb_true_r.
Qed.

(** A word's immediates, arithmetically. *)
Lemma bit31_spec w : fits 32 w -> (bit 31 w =? 1) = (2 ^ 31 <=? w).
Proof.
  intros Hw. unfold fits in Hw. rewrite bit_div by lia.
  destruct (Z.eqb_spec ((w / 2 ^ 31) mod 2) 1), (Z.leb_spec (2 ^ 31) w); try done; exfalso;
    Z.to_euclidean_division_equations; lia.
Qed.

Lemma lor_mul_add x y k : 0 <= k -> fits k x -> (y * 2 ^ k) .| x = y * 2 ^ k + x.
Proof. intros. rewrite <-lor_shiftl_add by done. by rewrite Z.shiftl_mul_pow2. Qed.

Lemma get_imm_I_word w :
  fits 32 w ->
  get_imm_I XLEN w = w / 2 ^ 20 - if 2 ^ 31 <=? w then 2 ^ 12 else 0.
Proof.
  intros Hw. unfold get_imm_I. pose proof (bits_range 31 20 w ltac:(lia)).
  rewrite sign_extend_spec, bit31_spec, bits_div by (done || lia). unfold fits in Hw.
  destruct (Z.leb_spec (2 ^ 31) w); Z.to_euclidean_division_equations; lia.
Qed.

Lemma get_imm_S_word w :
  fits 32 w ->
  get_imm_S XLEN w = w / 2 ^ 25 * 32 + (w / 2 ^ 7) mod 32 - if 2 ^ 31 <=? w then 2 ^ 12 else 0.
Proof.
  intros Hw. unfold get_imm_S. cbv zeta.
  pose proof (bits_range 31 25 w ltac:(lia)). pose proof (bits_range 11 7 w ltac:(lia)).
  rewrite lor_shiftl_add by (lia || done).
  rewrite sign_extend_spec, bit31_spec by (done || lia).
  rewrite !bits_div by lia. unfold fits in Hw.
  destruct (Z.leb_spec (2 ^ 31) w); Z.to_euclidean_division_equations; lia.
Qed.

Lemma bit_range i x : 0 <= bit i x < 2.
Proof. unfold bit. destruct (Z.testbit x i); simpl; lia. Qed.

Lemma get_imm_B_word w :
  fits 32 w ->
  get_imm_B XLEN w =
    ((w / 2 ^ 7) mod 2) * 2 ^ 11 + (w / 2 ^ 25) mod 64 * 32 + (w / 2 ^ 8) mod 16 * 2 -
    if 2 ^ 31 <=? w then 2 ^ 12 else 0.
Proof.
  intros Hw. unfold get_imm_B. cbv zeta.
  pose proof (bits_range 30 25 w ltac:(lia)) as R1. pose proof (bits_range 11 8 w ltac:(lia)) as R2.
  change (2 ^ (30 - 25 + 1)) with 64 in R1. change (2 ^ (11 - 8 + 1)) with 16 in R2.
  pose proof (bit_range 7 w) as R3. pose proof (bit_range 31 w) as R4.
  rewrite Z.lor_0_l, !Z.shiftl_mul_pow2 by lia.
  rewrite lor_mul_add by (unfold fits; lia).
  rewrite (Z.lor_comm _ (bit 31 w * 2 ^ 12)), lor_mul_add by (unfold fits; lia).
  replace (bit 31 w * 2 ^ 12 + (bit 7 w * 2 ^ 11 + bits 30 25 w * 2 ^ 5)) with
    ((bit 31 w * 2 ^ 7 + bit 7 w * 2 ^ 6 + bits 30 25 w) * 2 ^ 5) by lia.
  rewrite lor_mul_add by (unfold fits; lia).
  rewrite sign_extend_spec, bit31_spec by (done || lia).
  rewrite !bits_div, !bit_div by lia. unfold fits in Hw.
  destruct (Z.leb_spec (2 ^ 31) w); Z.to_euclidean_division_equations; lia.
Qed.

Lemma get_imm_J_word w :
  fits 32 w ->
  get_imm_J XLEN w =
    ((w / 2 ^ 12) mod 256) * 2 ^ 12 + (w / 2 ^ 20) mod 2 * 2 ^ 11 + (w / 2 ^ 21) mod 1024 * 2 -
    if 2 ^ 31 <=? w then 2 ^ 20 else 0.
Proof.
  intros Hw. unfold get_imm_J. cbv zeta.
  pose proof (bits_range 19 12 w ltac:(lia)) as R1. pose proof (bits_range 30 21 w ltac:(lia)) as R2.
  change (2 ^ (19 - 12 + 1)) with 256 in R1. change (2 ^ (30 - 21 + 1)) with 1024 in R2.
  pose proof (bit_range 20 w) as R3. pose proof (bit_range 31 w) as R4.
  rewrite !Z.shiftl_mul_pow2 by lia.
  rewrite lor_mul_add by (unfold fits; lia).
  replace (bit 31 w * 2 ^ 20 + bits 19 12 w * 2 ^ 12) with
    ((bit 31 w * 2 ^ 8 + bits 19 12 w) * 2 ^ 12) by lia.
  rewrite lor_mul_add by (unfold fits; lia).
  replace ((bit 31 w * 2 ^ 8 + bits 19 12 w) * 2 ^ 12 + bit 20 w * 2 ^ 11) with
    ((bit 31 w * 2 ^ 9 + bits 19 12 w * 2 + bit 20 w) * 2 ^ 11) by lia.
  rewrite lor_mul_add by (unfold fits; lia).
  rewrite sign_extend_spec, bit31_spec by (done || lia).
  rewrite !bits_div, !bit_div by lia. unfold fits in Hw.
  destruct (Z.leb_spec (2 ^ 31) w); Z.to_euclidean_division_equations; lia.
Qed.
End roundtrip.

(** The fields of an assembled word. *)
Section word.
Variables f7 rs2 rs1 f3 rd opc : Z.
Hypotheses (Hf7 : 0 <= f7 < 128) (Hrs2 : 0 <= rs2 < 32) (Hrs1 : 0 <= rs1 < 32)
  (Hf3 : 0 <= f3 < 8) (Hrd : 0 <= rd < 32) (Hopc : 0 <= opc < 128).
Let w := word f7 rs2 rs1 f3 rd opc.

Lemma word_fits : fits 32 w.
Proof. unfold fits, w, word. lia. Qed.
Lemma word_opcode : opcode w = opc.
Proof. unfold opcode, w, word. rewrite bits_div by lia. Z.to_euclidean_division_equations; lia. Qed.
Lemma word_rd : get_rd w = rd.
Proof. unfold get_rd, w, word. rewrite bits_div by lia. Z.to_euclidean_division_equations; lia. Qed.
Lemma word_funct3 : get_funct3 w = f3.
Proof. unfold get_funct3, w, word. rewrite bits_div by lia. Z.to_euclidean_division_equations; lia. Qed.
Lemma word_rs1 : get_rs1 w = rs1.
Proof. unfold get_rs1, w, word. rewrite bits_div by lia. Z.to_euclidean_division_equations; lia. Qed.
Lemma word_rs2 : get_rs2 w = rs2.
Proof. unfold get_rs2, w, word. rewrite bits_div by lia. Z.to_euclidean_division_equations; lia. Qed.
Lemma word_funct7 : get_funct7 w = f7.
Proof. unfold get_funct7, w, word. rewrite bits_div by lia. Z.to_euclidean_division_equations; lia. Qed.
Lemma word_csr : get_csr w = f7 * 32 + rs2.
Proof. unfold get_csr, w, word. rewrite bits_div by lia. Z.to_euclidean_division_equations; lia. Qed.
Lemma word_shamt : get_shamt w = f7 mod 2 * 32 + rs2.
Proof. unfold get_shamt, w, word. rewrite bits_div by lia. Z.to_euclidean_division_equations; lia. Qed.
Lemma word_top6 : w .>> 26 = f7 / 2.
Proof. unfold w, word. rewrite Z.shiftr_div_pow2 by lia. Z.to_euclidean_division_equations; lia. Qed.
End word.

Lemma code_of_range op :
  let '(opc, f3, f7) := code_of op in
  0 <= opc < 128 /\ 0 <= f3 < 8 /\
  match fmt op with Some FPriv => 0 <= f7 < 4096 | _ => 0 <= f7 < 128 end.
Proof. destruct op; cbv; intuition congruence. Qed.

Definition decode_fields (opc f3 f7 csr : Z) : opCodes :=
  if opc =? 0x37 then OP_LUI
  else if opc =? 0x17 then OP_AUIPC
  else if opc =? 0x6F then OP_JAL
  else if opc =? 0x67 then OP_JALR
  else if opc =? 0x63 then decode_branch f3
  else if opc =? 0x03 then decode_load f3
  else if opc =? 0x23 then decode_store f3
  else if opc =? 0x13 then decode_op_imm f3 (f7 / 2)
  else if opc =? 0x33 then decode_op f3 f7
  else if opc =? 0x0F then OP_FENCE
  else if opc =? 0x73 then decode_system f3 csr f7
  else if opc =? 0x1B then decode_op_imm32 f3 (f7 / 2)
  else if opc =? 0x3B then decode_op32 f3 f7 (f7 / 2)
  else OP_ERROR.

Lemma decode_word f7 rs2 rs1 f3 rd opc :
  0 <= f7 < 128 -> 0 <= rs2 < 32 -> 0 <= rs1 < 32 -> 0 <= f3 < 8 -> 0 <= rd < 32 ->
  0 <= opc < 128 ->
  decode (word f7 rs2 rs1 f3 rd opc) = decode_fields opc f3 f7 (f7 * 32 + rs2).
Proof.
  intros. unfold decode, decode_fields.
  by rewrite word_opcode, word_funct3, word_funct7, word_csr, word_top6.
Qed.

(** Each format's encoding is a [word] with fields in range, from which the operands
    are read back. *)
Definition is_word (w f7 rs2 rs1 f3 rd opc : Z) : Prop :=
  w = word f7 rs2 rs1 f3 rd opc /\ 0 <= f7 < 128 /\ 0 <= rs2 < 32 /\ 0 <= rs1 < 32 /\
  0 <= f3 < 8 /\ 0 <= rd < 32 /\ 0 <= opc < 128.

Lemma is_word_decode w f7 rs2 rs1 f3 rd opc :
  is_word w f7 rs2 rs1 f3 rd opc ->
  fits 32 w /\ decode w = decode_fields opc f3 f7 (f7 * 32 + rs2) /\
  get_rd w = rd /\ get_rs1 w = rs1 /\ get_rs2 w = rs2 /\ get_csr w = f7 * 32 + rs2 /\
  get_shamt w = f7 mod 2 * 32 + rs2.
Proof.
  intros (-> & ? & ? & ? & ? & ? & ?).
  split_and!; [by apply word_fits|by apply decode_word|by apply word_rd|by apply word_rs1
    |by apply word_rs2|by apply word_csr|by apply word_shamt].
Qed.

Ltac euclid := Z.to_euclidean_division_equations; lia.

Section imm.
Variables (XLEN : Z) (XLEN_ok : XLEN = 32 \/ XLEN = 64).
Variables f7 rs2 rs1 f3 rd opc w : Z.
Hypothesis Hw : is_word w f7 rs2 rs1 f3 rd opc.

Lemma top_bit : (2 ^ 31 <=? w) = (64 <=? f7).
Proof.
  destruct Hw as (-> & ? & ? & ? & ? & ? & ?). unfold word.
  match goal with |- (?a <=? ?b) = (?c <=? ?d) =>
    destruct (Z.leb_spec a b), (Z.leb_spec c d) end; (done || (exfalso; lia)).
Qed.

Ltac imm_word L :=
  pose proof top_bit as T; destruct Hw as (-> & ? & ? & ? & ? & ? & ?);
  rewrite L, T by (done || by apply word_fits); clear T; unfold word;
  destruct (64 <=? f7); euclid.

Lemma itype_imm : get_imm_I XLEN w = f7 * 32 + rs2 - if 64 <=? f7 then 2 ^ 12 else 0.
Proof. imm_word get_imm_I_word. Qed.

Lemma stype_imm : get_imm_S XLEN w = f7 * 32 + rd - if 64 <=? f7 then 2 ^ 12 else 0.
Proof. imm_word get_imm_S_word. Qed.

Lemma btype_imm :
  get_imm_B XLEN w =
    rd mod 2 * 2 ^ 11 + f7 mod 64 * 32 + rd / 2 * 2 - if 64 <=? f7 then 2 ^ 12 else 0.
Proof. imm_word get_imm_B_word. Qed.

Lemma jtype_imm :
  get_imm_J XLEN w =
    (rs1 * 8 + f3) * 2 ^ 12 + rs2 mod 2 * 2 ^ 11 + f7 mod 64 * 32 + rs2 / 2 * 2 -
    if 64 <=? f7 then 2 ^ 20 else 0.
Proof. imm_word get_imm_J_word. Qed.
End imm.

Lemma shift_top u : 0 <= u < 64 -> u / 32 = 0 \/ u / 32 = 1.
Proof. intros. euclid. Qed.

(** Every encoding is a word whose fields are in range, with the fields of its format. *)
Lemma encode_word i :
  asm_ok i ->
  exists f7 rs2 rs1 f3 rd opc, is_word (encode i) f7 rs2 rs1 f3 rd opc /\
    decode_fields opc f3 f7 (f7 * 32 + rs2) = a_op i /\
    match fmt (a_op i) with
    | Some FU => rd = a_rd i /\ (f7 * 32 + rs2) * 2 ^ 8 + rs1 * 8 + f3 = a_imm i
    | Some FJ => rd = a_rd i /\
        (rs1 * 8 + f3) * 2 ^ 12 + rs2 mod 2 * 2 ^ 11 + f7 mod 64 * 32 + rs2 / 2 * 2 -
          (if 64 <=? f7 then 2 ^ 20 else 0) = a_imm i
    | Some FB => rs1 = a_rs1 i /\ rs2 = a_rs2 i /\
        rd mod 2 * 2 ^ 11 + f7 mod 64 * 32 + rd / 2 * 2 -
          (if 64 <=? f7 then 2 ^ 12 else 0) = a_imm i
    | Some FI => rd = a_rd i /\ rs1 = a_rs1 i /\
        f7 * 32 + rs2 - (if 64 <=? f7 then 2 ^ 12 else 0) = a_imm i
    | Some FShift => rd = a_rd i /\ rs1 = a_rs1 i /\ f7 mod 2 * 32 + rs2 = a_imm i
    | Some FS => rs1 = a_rs1 i /\ rs2 = a_rs2 i /\
        f7 * 32 + rd - (if 64 <=? f7 then 2 ^ 12 else 0) = a_imm i
    | Some FR => rd = a_rd i /\ rs1 = a_rs1 i /\ rs2 = a_rs2 i
    | Some FCsr => rd = a_rd i /\ rs1 = a_rs1 i /\ f7 * 32 + rs2 = a_imm i
    | _ => True
    end.
Proof.
  destruct i as [op rd rs1 rs2 u]. intros [Hop H1 H2 H3 H4]. simpl in *.
  unfold encode, imm_range in *. simpl in *.
  destruct op; try done; cbn [code_of fmt] in *; cbv zeta;
    repeat match goal with H : _ /\ _ |- _ => destruct H end.
  all: match goal with
  | |- context [is_word (?i * 2 ^ 12 + ?d * 2 ^ 7 + ?o)] =>
      exists (i / 2 ^ 13), ((i / 2 ^ 8) mod 32), ((i / 8) mod 32), (i mod 8), d, o
  | |- context [is_word (word ?a ?b ?c ?d ?e ?f)] => exists a, b, c, d, e, f
  end.
  all: split; [unfold is_word; split_and!; try (unfold word; euclid)|split].
  all: try exact eq_refl.
  all: try (split_and!; [done..|]; try (case_match eqn:E); euclid).
  all: try exact I.
  1,2,4,5: destruct (shift_top u ltac:(lia)) as [-> | ->]; exact eq_refl.
  unfold decode_fields, decode_system. simpl (Z.eqb _ _).
  repeat match goal with |- context [?a =? ?b] =>
    rewrite (proj2 (Z.eqb_neq a b)) by lia end. done.
Qed.

Lemma decode_encode_lemma XLEN i :
  XLEN = 32 \/ XLEN = 64 -> asm_ok i ->
  fits 32 (encode i) /\ decode (encode i) = a_op i /\ operands XLEN i (encode i).
Proof.
  intros HX Hi. destruct (encode_word i Hi) as (f7 & rs2 & rs1 & f3 & rd & opc & Hw & Hd & Ho).
  pose proof (is_word_decode _ _ _ _ _ _ _ Hw) as (Hf & Hdw & Hrd & Hrs1 & Hrs2 & Hcsr & Hsh).
  split_and!; [done|congruence|]. unfold operands. destruct (fmt (a_op i)) as [[]|]; try done.
  - destruct Ho as [<- <-]. split; [done|]. clear - Hw.
    destruct Hw as (-> & ? & ? & ? & ? & ? & ?). unfold get_imm_U, word. rewrite bits_div by lia.
    euclid.
  - by rewrite Hrd, (jtype_imm XLEN HX f7 rs2 rs1 f3 rd opc).
  - by rewrite Hrs1, Hrs2, (btype_imm XLEN HX f7 rs2 rs1 f3 rd opc).
  - by rewrite Hrd, Hrs1, (itype_imm XLEN HX f7 rs2 rs1 f3 rd opc).
  - by rewrite Hrd, Hrs1, Hsh.
  - by rewrite Hrs1, Hrs2, (stype_imm XLEN HX f7 rs2 rs1 f3 rd opc).
  - by rewrite Hrd, Hrs1, Hrs2.
  - by rewrite Hrd, Hrs1, Hcsr.
Qed.

(** ** The properties *)

(** The operands of an integer instruction as the assembly gives them, on the pc and the
    registers [r]. *)
Definition asm_src2 (XLEN : Z) (c : alu_class) (i : asm) (r : Z -> Z) : Z :=
  match c with
  | ALU_U => wrap XLEN (s32 (a_imm i * 2 ^ 12))
  | ALU_I => wrap XLEN (a_imm i)
  | ALU_shift => a_imm i
  | ALU_R => r (a_rs2 i)
  end.
Definition asm_src1 (i : asm) (pc : Z) (r : Z -> Z) : Z :=
  match a_op i with OP_LUI => 0 | OP_AUIPC => pc | _ => r (a_rs1 i) end.

(** [len] is the length of the instruction. *)
Definition asm_next_pc (XLEN len : Z) (i : asm) (pc : Z) (r : Z -> Z) : option Z :=
  match a_op i with
  | OP_JAL => Some (wrap XLEN (pc + a_imm i))
  | OP_JALR => Some (2 * (wrap XLEN (r (a_rs1 i) + a_imm i) / 2))
  | op =>
    t ← branch_taken XLEN op (r (a_rs1 i)) (r (a_rs2 i));
    Some (wrap XLEN (pc + if (t : bool) then a_imm i else len))
  end.

Lemma exec_asm_alu {S} `{Target S} XLEN i c (h : hart S) :
  XLEN = 32 \/ XLEN = 64 -> hart_wf XLEN h -> asm_ok i -> alu_class_of (a_op i) = Some c ->
  (c = ALU_shift -> a_imm i < XLEN) ->
  exec_instruction XLEN (encode i) (decode (encode i)) h =
    Some ((true, false),
      write_reg (a_rd i) (alu_spec XLEN (a_op i) (asm_src1 i (register_PC h) (reg h)) (asm_src2 XLEN c i (reg h))) h).
Proof.
  intros HX Hwf Hi Hc Hsh. destruct (decode_encode_lemma XLEN i HX Hi) as (_ & -> & Ho).
  pose proof (ao_imm i Hi) as Him. unfold imm_range in Him.
  assert (shamt_legal XLEN (a_op i) (encode i) /\ get_rd (encode i) = a_rd i /\
    alu_src1 (a_op i) (encode i) h = asm_src1 i (register_PC h) (reg h) /\
    alu_src2 XLEN c (encode i) h = asm_src2 XLEN c i (reg h)) as (Hl & Hrd & H1 & H2).
  2: { rewrite (exec_alu XLEN HX _ _ c) by done. by rewrite Hrd, H1, H2. }
  unfold operands in Ho. unfold alu_src1, asm_src1, alu_src2, asm_src2.
  destruct (a_op i); try discriminate Hc; injection Hc as <-; cbn [fmt shamt_legal] in *;
    repeat match goal with H : _ /\ _ |- _ => destruct H end;
    repeat match goal with H : ?f (encode i) = _ |- _ => rewrite H; clear H
                         | H : ?f XLEN (encode i) = _ |- _ => rewrite H; clear H end;
    split_and!; try done; try (intros ->; by apply Hsh); lia.
Qed.

Lemma exec_asm_control {S} `{PhysMem S} XLEN i pc' (h : hart S) :
  XLEN = 32 \/ XLEN = 64 -> hart_wf XLEN h -> asm_ok i -> asm_next_pc XLEN 4 i (register_PC h) (reg h) = Some pc' ->
  exec_instruction XLEN (encode i) (decode (encode i)) h =
    Some ((false, false),
      (let h' := { h with register_PC := pc' } in
       if links (a_op i) then write_reg (a_rd i) (wrap XLEN (register_PC h + 4)) h' else h')).
Proof.
  intros HX Hwf Hi Hpc. destruct (decode_encode_lemma XLEN i HX Hi) as (_ & -> & Ho).
  assert (next_pc XLEN (a_op i) (encode i) h = Some pc' /\
    (links (a_op i) = true -> get_rd (encode i) = a_rd i)) as [Hn Hrd].
  2: { rewrite (exec_control XLEN HX _ _ pc') by done.
       destruct (links (a_op i)); [by rewrite Hrd|done]. }
  revert Hpc. unfold operands in Ho. unfold next_pc, asm_next_pc.
  destruct (a_op i); try done; cbn [fmt links] in *;
    repeat match goal with H : _ /\ _ |- _ => destruct H end;
    repeat match goal with H : ?f (encode i) = _ |- _ => rewrite H; clear H
                         | H : ?f XLEN (encode i) = _ |- _ => rewrite H; clear H end; done.
Qed.

Lemma exec_asm_memory {S} `{PhysMem S} XLEN i (h : hart S) :
  XLEN = 32 \/ XLEN = 64 -> hart_wf XLEN h -> asm_ok i -> pm_wf (mem_intf h) ->
  let a := wrap XLEN (reg h (a_rs1 i) + a_imm i) in
  (forall size ext, load_spec XLEN (a_op i) = Some (size, ext) -> dom_access (S := S) XLEN a size ->
     exec_instruction XLEN (encode i) (decode (encode i)) h =
       Some ((true, false),
         write_reg (a_rd i) (wrap XLEN (ext (load (pm_bytes (mem_intf h)) a size))) h)) /\
  (forall size, store_spec (a_op i) = Some size -> dom_access (S := S) XLEN a size ->
     exists s', exec_instruction XLEN (encode i) (decode (encode i)) h =
         Some ((true, false), { h with mem_intf := s' }) /\ pm_wf s' /\
       forall x, pm_bytes s' x =
         store (pm_bytes (mem_intf h)) a size (reg h (a_rs2 i)) x).
Proof.
  intros HX Hwf Hi Hpm a. destruct (decode_encode_lemma XLEN i HX Hi) as (_ & -> & Ho).
  unfold operands in Ho. split.
  - intros size ext Hl Ha.
    assert (get_rd (encode i) = a_rd i /\ get_rs1 (encode i) = a_rs1 i /\
      get_imm_I XLEN (encode i) = a_imm i) as (Hrd & Hrs & Him)
      by (destruct (a_op i); try discriminate Hl; exact Ho).
    rewrite (exec_load XLEN HX (encode i) (a_op i) size ext h) by (rewrite ?Hrs, ?Him; done).
    by rewrite Hrd, Hrs, Him.
  - intros size Hl Ha.
    assert (get_rs1 (encode i) = a_rs1 i /\ get_rs2 (encode i) = a_rs2 i /\
      get_imm_S XLEN (encode i) = a_imm i) as (Hrs & Hrs2 & Him)
      by (destruct (a_op i); try discriminate Hl; exact Ho).
    pose proof (exec_store XLEN HX (encode i) (a_op i) size h Hwf Hpm Hl) as E.
    rewrite Hrs, Hrs2, Him in E. by apply E.
Qed.

(** C7: assembling an instruction of RV32I, RV64I, Zicsr or the privileged set gives a
    32-bit word that [decode] maps back to the opcode and the field accessors to the
    operands, immediates sign-extended. *)
Theorem decode_encode XLEN i :
  XLEN = 32 \/ XLEN = 64 -> asm_ok i ->
  fits 32 (encode i) /\ decode (encode i) = a_op i /\ operands XLEN i (encode i).
Proof. apply decode_encode_lemma. Qed.

(** C8: every integer instruction writes the value the specification gives it to [rd]
    (x0 excepted) and changes nothing else. *)
Theorem alu_instruction_correct {S} `{Target S} XLEN i c (h : hart S) :
  XLEN = 32 \/ XLEN = 64 -> hart_wf XLEN h -> asm_ok i -> alu_class_of (a_op i) = Some c ->
  (c = ALU_shift -> a_imm i < XLEN) ->
  exec_instruction XLEN (encode i) (decode (encode i)) h =
    Some ((true, false),
      write_reg (a_rd i) (alu_spec XLEN (a_op i) (asm_src1 i (register_PC h) (reg h)) (asm_src2 XLEN c i (reg h))) h).
Proof. apply exec_asm_alu. Qed.

(** Jumps and branches set the pc the specification gives and link the return
    address. *)
Theorem control_instruction_correct {S} `{PhysMem S} XLEN i pc' (h : hart S) :
  XLEN = 32 \/ XLEN = 64 -> hart_wf XLEN h -> asm_ok i -> asm_next_pc XLEN 4 i (register_PC h) (reg h) = Some pc' ->
  exec_instruction XLEN (encode i) (decode (encode i)) h =
    Some ((false, false),
      (let h' := { h with register_PC := pc' } in
       if links (a_op i) then write_reg (a_rd i) (wrap XLEN (register_PC h + 4)) h' else h')).
Proof. apply exec_asm_control. Qed.

(** C9: loads and stores, on any memory that keeps the contract of [PhysMem] (the flat
    memory, DRAM through the bus): a load writes the little-endian value at rs1 + imm,
    sign- or zero-extended, to [rd]; a store changes exactly its bytes. *)
Theorem memory_instruction_correct {S} `{PhysMem S} XLEN i (h : hart S) :
  XLEN = 32 \/ XLEN = 64 -> hart_wf XLEN h -> asm_ok i -> pm_wf (mem_intf h) ->
  let a := wrap XLEN (reg h (a_rs1 i) + a_imm i) in
  (forall size ext, load_spec XLEN (a_op i) = Some (size, ext) -> dom_access (S := S) XLEN a size ->
     exec_instruction XLEN (encode i) (decode (encode i)) h =
       Some ((true, false),
         write_reg (a_rd i) (wrap XLEN (ext (load (pm_bytes (mem_intf h)) a size))) h)) /\
  (forall size, store_spec (a_op i) = Some size -> dom_access (S := S) XLEN a size ->
     exists s', exec_instruction XLEN (encode i) (decode (encode i)) h =
         Some ((true, false), { h with mem_intf := s' }) /\ pm_wf s' /\
       forall x, pm_bytes s' x =
         store (pm_bytes (mem_intf h)) a size (reg h (a_rs2 i)) x).
Proof. apply exec_asm_memory. Qed.

(** ** Witnesses *)

Definition hart0 : hart memory := Registers 64 memory0.

Lemma hart0_wf : hart_wf 64 hart0.
Proof. apply Registers_wf; [done|by right]. Qed.

Ltac asm_okay := split; vm_compute; intuition congruence.

Lemma decode_encode_witness :
  decode (encode (mkAsm OP_BEQ 0 5 6 (-8))) = OP_BEQ /\
  get_imm_B 64 (encode (mkAsm OP_BEQ 0 5 6 (-8))) = -8.
Proof.
  destruct (decode_encode 64 (mkAsm OP_BEQ 0 5 6 (-8)) ltac:(by right) ltac:(asm_okay))
    as (_ & H1 & _ & _ & H2). by split.
Defined.

Lemma alu_instruction_correct_witness :
  exec_instruction 64 (encode (mkAsm OP_ADDI 5 2 0 (-16)))
    (decode (encode (mkAsm OP_ADDI 5 2 0 (-16)))) hart0 =
  Some ((true, false), write_reg 5 0x1FFFFFEC hart0).
Proof.
  apply (alu_instruction_correct 64 (mkAsm OP_ADDI 5 2 0 (-16)) ALU_I hart0);
    [by right|apply hart0_wf|asm_okay|done|done].
Defined.

Lemma control_instruction_correct_witness :
  exec_instruction 64 (encode (mkAsm OP_JAL 1 0 0 (-4)))
    (decode (encode (mkAsm OP_JAL 1 0 0 (-4)))) hart0 =
  Some ((false, false),
    write_reg 1 0x80000004 { hart0 with register_PC := 0x7FFFFFFC }).
Proof.
  apply (control_instruction_correct 64 (mkAsm OP_JAL 1 0 0 (-4)) 0x7FFFFFFC hart0);
    [by right|apply hart0_wf|asm_okay|done].
Defined.

Lemma memory_instruction_correct_witness :
  exec_instruction 64 (encode (mkAsm OP_LW 5 0 0 0x100))
    (decode (encode (mkAsm OP_LW 5 0 0 0x100))) hart0 =
  Some ((true, false), write_reg 5 0 hart0).
Proof.
  destruct (memory_instruction_correct 64 (mkAsm OP_LW 5 0 0 0x100) hart0) as [H _];
    [by right|apply hart0_wf|asm_okay|intros x; by vm_compute|].
  apply (H 4 (fun v => wrap 64 (s32 v))); [done|]. vm_compute. intuition congruence.
Defined.

(** A signed addition that overflows wraps around here; in the C++ it is undefined. *)
Example add_signed_overflow :
  let h := write_reg 6 1 (write_reg 5 (2 ^ 63 - 1) hart0) in
  exec_instruction 64 (encode (mkAsm OP_ADD 7 5 6 0)) OP_ADD h = Some ((true, false), write_reg 7 (2 ^ 63) h).
Proof. by vm_compute. Qed.
