(* ===== verification/MExt.v ===== *)
(** [inc/M_extension.h], [src/M_extension.cpp]: multiplication and division.  The 64-bit
    high products go through [sc_bigint<128>]; the signed divisions whose overflow C++
    leaves undefined (and x86 traps) are [fail]. *)
From S2P Require Import Prelude Bytes Memory PhysMem Regs BaseISA BaseISAProofs.

(** ** Opcodes *)

Inductive op_M_Codes :=
| OP_M_MUL | OP_M_MULH | OP_M_MULHSU | OP_M_MULHU | OP_M_DIV | OP_M_DIVU | OP_M_REM | OP_M_REMU
| OP_M_MULW | OP_M_DIVW | OP_M_DIVUW | OP_M_REMW | OP_M_REMUW
| OP_M_ERROR.

#[export] Instance op_M_Codes_eq_dec : EqDecision op_M_Codes.
Proof. solve_decision. Defined.

(** [opcode()] of this class is funct3. *)
Definition m_decode (m_instr : Z) : op_M_Codes :=
  let op := bits 14 12 m_instr in
  if bits 6 0 m_instr =? 0x33 then
    if op =? 0 then OP_M_MUL else if op =? 1 then OP_M_MULH else if op =? 2 then OP_M_MULHSU
    else if op =? 3 then OP_M_MULHU else if op =? 4 then OP_M_DIV else if op =? 5 then OP_M_DIVU
    else if op =? 6 then OP_M_REM else if op =? 7 then OP_M_REMU else OP_M_ERROR
  else
    if op =? 0 then OP_M_MULW else if op =? 4 then OP_M_DIVW else if op =? 5 then OP_M_DIVUW
    else if op =? 6 then OP_M_REMW else if op =? 7 then OP_M_REMUW else OP_M_ERROR.

Section m_extension.
Context {S : Type} `{Target S}.
Variable XLEN : Z.

Abbreviation unsigned_T := (wrap XLEN).
Abbreviation signed_T := (signed XLEN).
Abbreviation setValue := (setValue XLEN).
Abbreviation getValue := (getValue XLEN).
Implicit Types m_instr : Z.

Definition Exec_M_MUL m_instr : M S unit :=
  let rd := get_rd m_instr in
  v1 ← getValue (get_rs1 m_instr);
  let multiplier := signed_T (s64 v1) in
  v2 ← getValue (get_rs2 m_instr);
  let multiplicand := signed_T v2 in
  let result := s64 (signed_T (multiplier * multiplicand)) in
  setValue rd (signed_T result).

Definition Exec_M_MULH m_instr : M S unit :=
  let rd := get_rd m_instr in
  v1 ← getValue (get_rs1 m_instr);
  let multiplier := signed_T v1 in
  v2 ← getValue (get_rs2 m_instr);
  let multiplicand := signed_T v2 in
  if XLEN =? 32 then
    let result := s64 (multiplier * multiplicand) in
    setValue rd (s32 ((result .>> 32) .& 0xFFFFFFFF))
  else
    let res := wrap 128 (multiplier * multiplicand) in
    setValue rd (s64 (bits 127 64 res)).

Definition Exec_M_MULHSU m_instr : M S unit :=
  let rd := get_rd m_instr in
  v1 ← getValue (get_rs1 m_instr);
  let multiplier := signed_T v1 in
  v2 ← getValue (get_rs2 m_instr);
  let multiplicand := v2 in
  if XLEN =? 32 then
    let result := s64 (u64 (u64 multiplier * u64 multiplicand)) in
    let result := (result .>> 32) .& 0xFFFFFFFF in
    setValue rd (s32 result)
  else
    let res := wrap 128 (multiplier * multiplicand) in
    setValue rd (s64 (bits 127 64 res)).

Definition Exec_M_MULHU m_instr : M S unit :=
  let rd := get_rd m_instr in
  v1 ← getValue (get_rs1 m_instr);
  v2 ← getValue (get_rs2 m_instr);
  if XLEN =? 32 then
    let multiplier := u32 (s32 v1) in
    let multiplicand := u32 (s32 v2) in
    let result := u64 (multiplier * multiplicand) in
    setValue rd (s32 ((result .>> 32) .& 0xFFFFFFFF))
  else
    let res := wrap 128 (v1 * v2) in
    setValue rd (u64 (bits 127 64 res)).

(** C++ signed division truncates; its overflow is undefined. *)
Definition Exec_M_DIV m_instr : M S unit :=
  let rd := get_rd m_instr in
  v1 ← getValue (get_rs1 m_instr);
  let dividend := signed_T v1 in
  v2 ← getValue (get_rs2 m_instr);
  let divisor := signed_T v2 in
  if divisor =? 0 then setValue rd (-1)
  else if (divisor =? -1) && (dividend =? s32 0x80000000) then setValue rd 0x80000000
  else if (divisor =? -1) && (dividend =? - 2 ^ (XLEN - 1)) then fail
  else setValue rd (Z.quot dividend divisor).

Definition Exec_M_DIVU m_instr : M S unit :=
  let rd := get_rd m_instr in
  dividend ← getValue (get_rs1 m_instr);
  divisor ← getValue (get_rs2 m_instr);
  if divisor =? 0 then setValue rd (u64 (-1)) else setValue rd (dividend / divisor).

Definition Exec_M_REM m_instr : M S unit :=
  let rd := get_rd m_instr in
  v1 ← getValue (get_rs1 m_instr);
  let dividend := signed_T v1 in
  v2 ← getValue (get_rs2 m_instr);
  let divisor := signed_T v2 in
  if divisor =? 0 then setValue rd dividend
  else if (divisor =? -1) && (dividend =? s32 0x80000000) then setValue rd 0
  else if (divisor =? -1) && (dividend =? - 2 ^ (XLEN - 1)) then fail
  else setValue rd (Z.rem dividend divisor).

Definition Exec_M_REMU m_instr : M S unit :=
  let rd := get_rd m_instr in
  dividend ← getValue (get_rs1 m_instr);
  divisor ← getValue (get_rs2 m_instr);
  if divisor =? 0 then setValue rd dividend else setValue rd (dividend mod divisor).

Definition Exec_M_MULW m_instr : M S unit :=
  let rd := get_rd m_instr in
  v1 ← getValue (get_rs1 m_instr);
  v2 ← getValue (get_rs2 m_instr);
  let multiplier := u32 (v1 .& 0xFFFFFFFF) in
  let multiplicand := u32 (v2 .& 0xFFFFFFFF) in
  let result := s32 (u32 (multiplier * multiplicand) .& 0xFFFFFFFF) in
  setValue rd result.

Definition Exec_M_DIVW m_instr : M S unit :=
  let rd := get_rd m_instr in
  v1 ← getValue (get_rs1 m_instr);
  v2 ← getValue (get_rs2 m_instr);
  let dividend := s32 (v1 .& 0xFFFFFFFF) in
  let divisor := s32 (v2 .& 0xFFFFFFFF) in
  if divisor =? 0 then setValue rd (-1)
  else if (divisor =? -1) && (dividend =? s32 0x80000000) then setValue rd 0x80000000
  else setValue rd (Z.quot dividend divisor).

Definition Exec_M_DIVUW m_instr : M S unit :=
  let rd := get_rd m_instr in
  v1 ← getValue (get_rs1 m_instr);
  v2 ← getValue (get_rs2 m_instr);
  let dividend := u32 (v1 .& 0xFFFFFFFF) in
  let divisor := u32 (v2 .& 0xFFFFFFFF) in
  if divisor =? 0 then setValue rd (-1) else setValue rd (s32 (dividend / divisor)).

Definition Exec_M_REMW m_instr : M S unit :=
  let rd := get_rd m_instr in
  v1 ← getValue (get_rs1 m_instr);
  v2 ← getValue (get_rs2 m_instr);
  let dividend := s32 (v1 .& 0xFFFFFFFF) in
  let divisor := s32 (v2 .& 0xFFFFFFFF) in
  if divisor =? 0 then setValue rd dividend
  else if divisor =? -1 then setValue rd 0
  else setValue rd (Z.rem dividend divisor).

Definition Exec_M_REMUW m_instr : M S unit :=
  let rd := get_rd m_instr in
  v1 ← getValue (get_rs1 m_instr);
  v2 ← getValue (get_rs2 m_instr);
  let dividend := u32 (v1 .& 0xFFFFFFFF) in
  let divisor := u32 (v2 .& 0xFFFFFFFF) in
  if divisor =? 0 then setValue rd (s32 dividend) else setValue rd (s32 (dividend mod divisor)).

(** Always [PC_not_affected]. *)
Definition m_exec_instruction m_instr (code : op_M_Codes) : M S bool :=
  match code with
  | OP_M_MUL => Exec_M_MUL m_instr
  | OP_M_MULH => Exec_M_MULH m_instr
  | OP_M_MULHSU => Exec_M_MULHSU m_instr
  | OP_M_MULHU => Exec_M_MULHU m_instr
  | OP_M_DIV => Exec_M_DIV m_instr
  | OP_M_DIVU => Exec_M_DIVU m_instr
  | OP_M_REM => Exec_M_REM m_instr
  | OP_M_REMU => Exec_M_REMU m_instr
  | OP_M_MULW => Exec_M_MULW m_instr
  | OP_M_DIVW => Exec_M_DIVW m_instr
  | OP_M_DIVUW => Exec_M_DIVUW m_instr
  | OP_M_REMW => Exec_M_REMW m_instr
  | OP_M_REMUW => Exec_M_REMUW m_instr
  | OP_M_ERROR => sc_stop
  end;; mret true.
End m_extension.

(** ** The specification *)

Definition m_spec (XLEN : Z) (op : op_M_Codes) (a b : Z) : Z :=
  let sa := signed XLEN a in
  let sb := signed XLEN b in
  match op with
  | OP_M_MUL => wrap XLEN (a * b)
  | OP_M_MULH => wrap XLEN (sa * sb / 2 ^ XLEN)
  | OP_M_MULHSU => wrap XLEN (sa * b / 2 ^ XLEN)
  | OP_M_MULHU => a * b / 2 ^ XLEN
  | OP_M_DIV => if sb =? 0 then 2 ^ XLEN - 1 else wrap XLEN (Z.quot sa sb)
  | OP_M_DIVU => if b =? 0 then 2 ^ XLEN - 1 else a / b
  | OP_M_REM => if sb =? 0 then a else wrap XLEN (Z.rem sa sb)
  | OP_M_REMU => if b =? 0 then a else a mod b
  | OP_M_MULW => wrap XLEN (s32 (a * b))
  | OP_M_DIVW => if s32 b =? 0 then 2 ^ XLEN - 1 else wrap XLEN (s32 (Z.quot (s32 a) (s32 b)))
  | OP_M_DIVUW => if u32 b =? 0 then 2 ^ XLEN - 1 else wrap XLEN (s32 (u32 a / u32 b))
  | OP_M_REMW => if s32 b =? 0 then wrap XLEN (s32 a) else wrap XLEN (s32 (Z.rem (s32 a) (s32 b)))
  | OP_M_REMUW => if u32 b =? 0 then wrap XLEN (s32 a) else wrap XLEN (s32 (u32 a mod u32 b))
  | OP_M_ERROR => 0
  end.

(** The signed overflow -2^(n-1) / -1. *)
Definition overflows (n a b : Z) : Prop := signed n a = - 2 ^ (n - 1) /\ signed n b = -1.

(** Where the code departs from the specification: the 64-bit overflow is undefined and
    the result of the overflowing DIVW is not sign-extended. *)
Definition m_departs (XLEN : Z) (op : op_M_Codes) (a b : Z) : Prop :=
  match op with
  | OP_M_DIV | OP_M_REM => XLEN = 64 /\ overflows 64 a b
  | OP_M_DIVW => XLEN = 64 /\ overflows 32 a b
  | OP_M_ERROR => True
  | _ => False
  end.

(** ** Arithmetic *)

Lemma wrap_signed_le w v x : 0 <= w <= v -> 0 < v -> wrap w (signed v x) = wrap w x.
Proof.
  intros. by rewrite <-(wrap_le_idemp w v (signed v x)), wrap_signed, wrap_le_idemp by lia.
Qed.

Lemma signed_signed_le w v x : 0 < w <= v -> signed w (signed v x) = signed w x.
Proof. intros. apply signed_mod, wrap_signed_le; lia. Qed.

Lemma wrap_mul_signed w x y : 0 < w -> wrap w (signed w x * signed w y) = wrap w (x * y).
Proof.
  intros. by rewrite <-wrap_mul_l, <-wrap_mul_r, !wrap_signed, wrap_mul_r, wrap_mul_l by lia.
Qed.

Lemma high_word_128 p : bits 127 64 (wrap 128 p) = u64 (p / 2 ^ 64).
Proof.
  rewrite bits_div by lia. change (127 - 64 + 1) with 64. unfold wrap.
  change (2 ^ 128) with (2 ^ 64 * 2 ^ 64). rewrite Z.rem_mul_r by lia.
  rewrite Z.add_comm, Z.mul_comm, Z.div_add_l by lia.
  rewrite (Z.div_small (p mod 2 ^ 64)) by (apply Z.mod_pos_bound; lia).
  by rewrite Z.add_0_r, Zmod_mod.
Qed.

Lemma high_word_64 p : u32 (s32 ((p .>> 32) .& 0xFFFFFFFF)) = u32 (p / 2 ^ 32).
Proof. by rewrite land_u32, signed_wrap, wrap_signed, Z.shiftr_div_pow2 by lia. Qed.

Lemma high_fits w a b : 0 <= w -> fits w a -> fits w b -> fits w (a * b / 2 ^ w).
Proof.
  intros Hw [Ha1 Ha2] [Hb1 Hb2]. pose proof (pow2_pos w Hw). split.
  - apply Z.div_pos; nia.
  - apply Z.div_lt_upper_bound; nia.
Qed.

Lemma wrap_minus_1 w : 0 <= w -> wrap w (-1) = 2 ^ w - 1.
Proof.
  intros Hw. pose proof (pow2_pos w Hw). unfold wrap.
  rewrite <-(Z_mod_plus_full _ 1), Z.mod_small; lia.
Qed.

Lemma wrap_div w a b : fits w a -> fits w b -> b <> 0 -> wrap w (a / b) = a / b.
Proof.
  intros [? ?] [? ?] Hb. apply wrap_small. split.
  - apply Z.div_pos; lia.
  - apply Z.div_lt_upper_bound; nia.
Qed.

Lemma wrap_mod w a b : fits w a -> fits w b -> b <> 0 -> wrap w (a mod b) = a mod b.
Proof. intros [? ?] [? ?] Hb. apply wrap_small. pose proof (Z.mod_pos_bound a b). split; lia. Qed.

Lemma quot_range k x y :
  0 < k -> - k <= x < k -> y <> 0 -> ~ (x = - k /\ y = -1) -> - k <= Z.quot x y < k.
Proof.
  intros Hk Hx Hy Hn. pose proof (Z.quot_rem' x y). pose proof (Z.rem_bound_abs x y Hy).
  pose proof (Z.rem_sign_nz x y Hy).
  assert (Z.abs (Z.quot x y) <= Z.abs x).
  { rewrite <-Z.quot_abs by done. apply Z.quot_le_upper_bound; nia. }
  destruct (decide (Z.quot x y = k)); [|lia]. exfalso.
  assert (x = - k) as -> by lia. apply Hn. split; [done|]. nia.
Qed.

Lemma rem_range k x y : 0 < k -> - k <= x < k -> y <> 0 -> - k <= Z.rem x y < k.
Proof.
  intros Hk Hx Hy. assert (Z.abs (Z.rem x y) <= Z.abs x) by
    (rewrite <-Z.rem_abs by done; apply Z.rem_le; lia).
  destruct (decide (x = - k)) as [->|]; [|lia].
  pose proof (Z.rem_nonpos (- k) y Hy ltac:(lia)). lia.
Qed.

Section correct.
Context {S : Type} `{Target S}.
Variable XLEN : Z.
Hypothesis XLEN_ok : XLEN = 32 \/ XLEN = 64.

(** The value each instruction writes, before its conversion to [T]. *)
Lemma div_result a b :
  fits XLEN a -> fits XLEN b -> ~ (XLEN = 64 /\ overflows 64 a b) -> signed XLEN b <> 0 ->
  ((signed XLEN b =? -1) && (signed XLEN a =? - 2 ^ 31) = true ->
     wrap XLEN 0x80000000 = wrap XLEN (Z.quot (signed XLEN a) (signed XLEN b)) /\
     Z.rem (signed XLEN a) (signed XLEN b) = 0) /\
  ((signed XLEN b =? -1) && (signed XLEN a =? - 2 ^ 31) = false ->
     (signed XLEN b =? -1) && (signed XLEN a =? - 2 ^ (XLEN - 1)) = false).
Proof.
  intros Ha Hb Hn Hz. split.
  - intros [->%Z.eqb_eq ->%Z.eqb_eq]%andb_prop. destruct XLEN_ok as [-> | ->]; done.
  - intros E. apply andb_false_iff. apply andb_false_iff in E as [E|E]; [by left|].
    destruct XLEN_ok as [-> | ->]; [by right|]. unfold overflows in Hn.
    destruct (Z.eqb_spec (signed 64 b) (-1)), (Z.eqb_spec (signed 64 a) (- 2 ^ (64 - 1))); auto.
    exfalso. by apply Hn.
Qed.

Lemma divw_result a b :
  ~ (XLEN = 64 /\ overflows 32 a b) -> s32 b <> 0 ->
  wrap XLEN (if (s32 b =? -1) && (s32 a =? s32 0x80000000) then 0x80000000
             else Z.quot (s32 a) (s32 b)) = wrap XLEN (s32 (Z.quot (s32 a) (s32 b))).
Proof.
  intros Hn Hz. change (s32 0x80000000) with (- 2 ^ 31).
  destruct (Z.eqb_spec (s32 b) (-1)) as [Eb|], (Z.eqb_spec (s32 a) (- 2 ^ 31)) as [Ea|]; simpl.
  1: { rewrite Eb, Ea. destruct XLEN_ok as [-> | ->]; [done|]. by destruct Hn. }
  all: rewrite (signed_id 32 (Z.quot _ _)); [done|lia|].
  all: apply (quot_range (2 ^ 31)); [lia|by apply (signed_range 32)|done|].
  all: intros [? ?]; congruence.
Qed.

Lemma remw_result a b :
  s32 b <> 0 ->
  wrap XLEN (if s32 b =? -1 then 0 else Z.rem (s32 a) (s32 b)) =
  wrap XLEN (s32 (Z.rem (s32 a) (s32 b))).
Proof.
  intros Hz. destruct (Z.eqb_spec (s32 b) (-1)) as [->|].
  - change (-1) with (Z.opp 1). by rewrite Z.rem_opp_r, Z.rem_1_r by done.
  - rewrite (signed_id 32 (Z.rem _ _)); [done|lia|].
    apply (rem_range (2 ^ 31)); [lia|by apply (signed_range 32)|done].
Qed.

Lemma setValue_if (b : bool) rd x y (h : hart S) :
  0 <= rd < 32 ->
  (if b then setValue XLEN rd x else setValue XLEN rd y) h =
  Some (tt, write_reg rd (wrap XLEN (if b then x else y)) h).
Proof. intros. destruct b; by apply setValue_eq. Qed.

Lemma exec_m_mul w op (h : hart S) :
  hart_wf XLEN h -> In op [OP_M_MUL; OP_M_MULH; OP_M_MULHSU; OP_M_MULHU; OP_M_MULW] ->
  m_exec_instruction XLEN w op h =
    Some (true, write_reg (get_rd w)
                  (m_spec XLEN op (reg h (get_rs1 w)) (reg h (get_rs2 w))) h).
Proof.
  intros Hwf Hop.
  pose proof (reg_fits XLEN h (get_rs1 w) Hwf (get_rs1_range w)) as F1.
  pose proof (reg_fits XLEN h (get_rs2 w) Hwf (get_rs2_range w)) as F2.
  set (a := reg h (get_rs1 w)) in *. set (b := reg h (get_rs2 w)) in *.
  assert (R1 := signed_range XLEN a ltac:(lia)). assert (R2 := signed_range XLEN b ltac:(lia)).
  repeat destruct Hop as [<-|Hop]; [..|done]; cbn [m_spec]; unfold m_exec_instruction;
    unfold Exec_M_MUL, Exec_M_MULH, Exec_M_MULHSU, Exec_M_MULHU, Exec_M_MULW; hexec;
    fold a b.
  - rewrite wrap_signed, wrap_signed_le, wrap_signed, (signed_signed_le XLEN 64 a) by lia.
    by rewrite wrap_mul_signed by lia.
  - destruct XLEN_ok as [-> | ->]; cbn [Z.eqb Pos.eqb]; cbv iota; hexec.
    + rewrite high_word_64, signed_id by nia. done.
    + rewrite wrap_signed, high_word_128, wrap_idemp by lia. done.
  - destruct XLEN_ok as [-> | ->]; cbn [Z.eqb Pos.eqb]; cbv iota; hexec.
    + unfold fits in *. rewrite wrap_mul_l, wrap_mul_r, signed_wrap, land_u32.
      rewrite signed_wrap, wrap_signed, Z.shiftr_div_pow2, signed_id by nia. done.
    + rewrite wrap_signed, high_word_128, wrap_idemp by lia. done.
  - destruct XLEN_ok as [-> | ->]; cbn [Z.eqb Pos.eqb]; cbv iota; hexec.
    + rewrite high_word_64, !wrap_signed, !(wrap_small 32 a), !(wrap_small 32 b) by (lia || done).
      unfold fits in *. rewrite (wrap_small 64) by (unfold fits; nia).
      rewrite wrap_small by (apply high_fits; (done || lia)). done.
    + rewrite high_word_128, !wrap_idemp, wrap_small by (apply high_fits; (done || lia)). done.
  - rewrite !land_u32, !wrap_idemp, signed_wrap, signed_mul_wrap_l.
    rewrite Z.mul_comm, signed_mul_wrap_l, Z.mul_comm. done.
Qed.

Lemma exec_m_div w op (h : hart S) :
  hart_wf XLEN h ->
  In op [OP_M_DIV; OP_M_DIVU; OP_M_REM; OP_M_REMU; OP_M_DIVW; OP_M_DIVUW; OP_M_REMW; OP_M_REMUW] ->
  ~ m_departs XLEN op (reg h (get_rs1 w)) (reg h (get_rs2 w)) ->
  m_exec_instruction XLEN w op h =
    Some (true, write_reg (get_rd w)
                  (m_spec XLEN op (reg h (get_rs1 w)) (reg h (get_rs2 w))) h).
Proof.
  intros Hwf Hop Hd.
  pose proof (reg_fits XLEN h (get_rs1 w) Hwf (get_rs1_range w)) as F1.
  pose proof (reg_fits XLEN h (get_rs2 w) Hwf (get_rs2_range w)) as F2.
  set (a := reg h (get_rs1 w)) in *. set (b := reg h (get_rs2 w)) in *.
  pose proof (get_rd_range w) as Rd.
  repeat destruct Hop as [<-|Hop]; [..|done]; cbn [m_spec m_departs] in *; unfold m_exec_instruction;
    unfold Exec_M_DIV, Exec_M_DIVU, Exec_M_REM, Exec_M_REMU, Exec_M_DIVW, Exec_M_DIVUW,
      Exec_M_REMW, Exec_M_REMUW; hexec; fold a b.
  - destruct (Z.eqb_spec (signed XLEN b) 0) as [E0|E0]; [by rewrite wrap_minus_1 by lia|].
    destruct (div_result a b F1 F2 Hd E0) as [D1 D2]. change (s32 0x80000000) with (- 2 ^ 31).
    destruct (_ && (_ =? - 2 ^ 31)); [by rewrite (proj1 (D1 eq_refl))|by rewrite D2].
  - destruct (Z.eqb_spec b 0).
    + rewrite wrap_le_idemp, wrap_minus_1 by lia. done.
    + by rewrite wrap_div.
  - destruct (Z.eqb_spec (signed XLEN b) 0) as [E0|E0].
    { by rewrite wrap_signed, wrap_small by (done || lia). }
    destruct (div_result a b F1 F2 Hd E0) as [D1 D2]. change (s32 0x80000000) with (- 2 ^ 31).
    destruct (_ && (_ =? - 2 ^ 31)); [by rewrite (proj2 (D1 eq_refl))|by rewrite D2].
  - destruct (Z.eqb_spec b 0) as [->|].
    + by rewrite wrap_small.
    + by rewrite wrap_mod.
  - rewrite !land_u32, !signed_wrap. destruct (Z.eqb_spec (s32 b) 0) as [E0|E0].
    { by rewrite wrap_minus_1 by lia. }
    rewrite <-divw_result by done. by destruct (_ && _).
  - rewrite !land_u32, !wrap_idemp. by destruct (u32 b =? 0); rewrite ?wrap_minus_1 by lia.
  - rewrite !land_u32, !signed_wrap. destruct (Z.eqb_spec (s32 b) 0) as [E0|E0]; [done|].
    rewrite <-remw_result by done. by destruct (s32 b =? -1).
  - rewrite !land_u32, !wrap_idemp, signed_wrap. by destruct (u32 b =? 0).
Qed.
End correct.

(** ** The assembler, and the property *)

Definition m_code (op : op_M_Codes) : Z * Z :=
  match op with
  | OP_M_MUL => (0x33, 0) | OP_M_MULH => (0x33, 1) | OP_M_MULHSU => (0x33, 2)
  | OP_M_MULHU => (0x33, 3) | OP_M_DIV => (0x33, 4) | OP_M_DIVU => (0x33, 5)
  | OP_M_REM => (0x33, 6) | OP_M_REMU => (0x33, 7)
  | OP_M_MULW => (0x3B, 0) | OP_M_DIVW => (0x3B, 4) | OP_M_DIVUW => (0x3B, 5)
  | OP_M_REMW => (0x3B, 6) | OP_M_REMUW => (0x3B, 7)
  | OP_M_ERROR => (0, 0)
  end.

Definition m_encode (op : op_M_Codes) (rd rs1 rs2 : Z) : Z :=
  word 1 rs2 rs1 (m_code op).2 rd (m_code op).1.

Lemma m_encode_word op rd rs1 rs2 :
  0 <= rd < 32 -> 0 <= rs1 < 32 -> 0 <= rs2 < 32 ->
  is_word (m_encode op rd rs1 rs2) 1 rs2 rs1 (m_code op).2 rd (m_code op).1.
Proof. intros. unfold is_word. split; [done|]. destruct op; simpl; lia. Qed.

Lemma m_decode_encode op rd rs1 rs2 :
  op <> OP_M_ERROR -> 0 <= rd < 32 -> 0 <= rs1 < 32 -> 0 <= rs2 < 32 ->
  decode (m_encode op rd rs1 rs2) = OP_ERROR /\ m_decode (m_encode op rd rs1 rs2) = op.
Proof.
  intros Hop H1 H2 H3. pose proof (m_encode_word op rd rs1 rs2 H1 H2 H3) as Hw.
  destruct (is_word_decode _ _ _ _ _ _ _ Hw) as (_ & -> & _).
  destruct Hw as (E & R1 & R2 & R3 & R4 & R5 & R6).
  split; [by destruct op|]. unfold m_decode.
  assert (bits 14 12 (m_encode op rd rs1 rs2) = (m_code op).2) as ->
    by (rewrite E; by apply word_funct3).
  assert (bits 6 0 (m_encode op rd rs1 rs2) = (m_code op).1) as ->
    by (rewrite E; by apply word_opcode).
  by destruct op.
Qed.

Lemma exec_asm_m {S} `{Target S} XLEN op rd rs1 rs2 (h : hart S) :
  XLEN = 32 \/ XLEN = 64 -> hart_wf XLEN h ->
  0 <= rd < 32 -> 0 <= rs1 < 32 -> 0 <= rs2 < 32 ->
  ~ m_departs XLEN op (reg h rs1) (reg h rs2) ->
  let w := m_encode op rd rs1 rs2 in
  decode w = OP_ERROR /\ m_decode w = op /\
  m_exec_instruction XLEN w (m_decode w) h =
    Some (true, write_reg rd (m_spec XLEN op (reg h rs1) (reg h rs2)) h).
Proof.
  intros HX Hwf H1 H2 H3 Hd w. assert (op <> OP_M_ERROR) as Hop by (intros ->; by apply Hd).
  destruct (m_decode_encode op rd rs1 rs2 Hop H1 H2 H3) as [D1 D2].
  destruct (is_word_decode _ _ _ _ _ _ _ (m_encode_word op rd rs1 rs2 H1 H2 H3))
    as (_ & _ & Er & E1 & E2 & _).
  split_and!; [done..|]. change (m_decode w) with (m_decode (m_encode op rd rs1 rs2)). rewrite D2.
  assert (~ m_departs XLEN op (reg h (get_rs1 w)) (reg h (get_rs2 w))) as Hd'
    by (unfold w; by rewrite E1, E2).
  assert (m_exec_instruction XLEN w op h = Some (true, write_reg (get_rd w)
    (m_spec XLEN op (reg h (get_rs1 w)) (reg h (get_rs2 w))) h)) as ->.
  { destruct op; try done; first [apply exec_m_mul; [done..|simpl; by auto 12]
      | apply exec_m_div; [done..|simpl; by auto 12|done]]. }
  unfold w. by rewrite Er, E1, E2.
Qed.

(** What the overflows of RV64 do: DIV and REM divide -2^63 by -1 in C++, which is undefined, and
    DIVW writes 2^31 without its sign. *)
Lemma exec_m_overflow {S} `{Target S} XLEN op rd rs1 rs2 (h : hart S) :
  op <> OP_M_ERROR -> 0 <= rd < 32 -> 0 <= rs1 < 32 -> 0 <= rs2 < 32 ->
  m_departs XLEN op (reg h rs1) (reg h rs2) ->
  m_exec_instruction XLEN (m_encode op rd rs1 rs2) op h =
    match op with OP_M_DIVW => Some (true, write_reg rd (2 ^ 31) h) | _ => None end.
Proof.
  intros Hop H1 H2 H3 Hd.
  destruct (is_word_decode _ _ _ _ _ _ _ (m_encode_word op rd rs1 rs2 H1 H2 H3))
    as (_ & _ & Er & R1 & R2 & _).
  destruct op; try done; destruct Hd as [-> [Ea Eb]];
    unfold m_exec_instruction, Exec_M_DIV, Exec_M_REM, Exec_M_DIVW; hexec;
    rewrite R1, R2, ?land_u32, ?signed_wrap, Ea, Eb; [done..|by rewrite Er].
Qed.

(** C10: every multiplication and division of RV32M and RV64M decodes to its opcode and writes the
    value of the specification to [rd], division by zero and the overflows of RV32 included.
    The overflows of RV64, -2^(n-1) divided by -1, are where the code departs from it
    ([m_departs]): DIV and REM of -2^63 by -1 are undefined in C++, and DIVW of -2^31 by -1 writes
    2^31 where the specification sign-extends it. *)
Theorem m_instruction_correct {S} `{Target S} XLEN op rd rs1 rs2 (h : hart S) :
  XLEN = 32 \/ XLEN = 64 -> hart_wf XLEN h -> op <> OP_M_ERROR ->
  0 <= rd < 32 -> 0 <= rs1 < 32 -> 0 <= rs2 < 32 ->
  let w := m_encode op rd rs1 rs2 in
  let result := m_exec_instruction XLEN w (m_decode w) h in
  decode w = OP_ERROR /\ m_decode w = op /\
  (~ m_departs XLEN op (reg h rs1) (reg h rs2) ->
     result = Some (true, write_reg rd (m_spec XLEN op (reg h rs1) (reg h rs2)) h)) /\
  (m_departs XLEN op (reg h rs1) (reg h rs2) ->
     result = match op with OP_M_DIVW => Some (true, write_reg rd (2 ^ 31) h) | _ => None end).
Proof.
  intros HX Hwf Hop H1 H2 H3 w result.
  destruct (m_decode_encode op rd rs1 rs2 Hop H1 H2 H3) as [D1 D2]. split_and!; [done..| |]; intros Hd.
  - by apply exec_asm_m.
  - unfold result, w. rewrite D2. by apply exec_m_overflow.
Qed.

Lemma m_instruction_correct_witness :
  let h := write_reg 6 (2 ^ 64 - 7) (write_reg 5 3 hart0) in
  m_exec_instruction 64 (m_encode OP_M_DIV 7 6 5) (m_decode (m_encode OP_M_DIV 7 6 5)) h =
  Some (true, write_reg 7 (2 ^ 64 - 2) h).
Proof.
  destruct (m_instruction_correct 64 OP_M_DIV 7 6 5
    (write_reg 6 (2 ^ 64 - 7) (write_reg 5 3 hart0))) as (_ & _ & E & _);
    [by right| |done|lia|lia|lia|apply E].
  - apply write_reg_wf; [|lia|unfold fits; lia].
    apply write_reg_wf; [apply hart0_wf|lia|unfold fits; lia].
  - intros [_ [E' _]]. vm_compute in E'. discriminate.
Defined.

(** ** Departures *)

(** RV64 DIV and REM of -2^63 by -1: undefined behaviour in the simulator. *)
Lemma div_overflow_undefined {S} `{Target S} (h : hart S) rd rs1 rs2 :
  reg h rs1 = 2 ^ 63 -> reg h rs2 = 2 ^ 64 - 1 ->
  0 <= rd < 32 -> 0 <= rs1 < 32 -> 0 <= rs2 < 32 ->
  m_exec_instruction 64 (m_encode OP_M_DIV rd rs1 rs2) OP_M_DIV h = None.
Proof.
  intros E1 E2 H1 H2 H3.
  destruct (is_word_decode _ _ _ _ _ _ _ (m_encode_word OP_M_DIV rd rs1 rs2 H1 H2 H3))
    as (_ & _ & Er & R1 & R2 & _).
  unfold m_exec_instruction, Exec_M_DIV. hexec. by rewrite R1, R2, E1, E2.
Qed.

(** RV64 DIVW of -2^31 by -1 is not sign-extended. *)
Lemma divw_overflow_not_extended :
  let h := write_reg 6 0xFFFFFFFF80000000 (write_reg 5 (2 ^ 64 - 1) hart0) in
  m_exec_instruction 64 (m_encode OP_M_DIVW 7 6 5) OP_M_DIVW h =
    Some (true, write_reg 7 0x80000000 h) /\
  m_spec 64 OP_M_DIVW (reg h 6) (reg h 5) = 0xFFFFFFFF80000000.
Proof. split; vm_compute; reflexivity. Qed.

(** [decode] looks at funct3 only: a single-precision FADD with dynamic rounding
    ([fadd.s f0, f1, f2]) decodes as REMUW. *)
Lemma fadd_decodes_as_remuw :
  decode (word 0 2 1 7 0 0x53) = OP_ERROR /\ m_decode (word 0 2 1 7 0 0x53) = OP_M_REMUW.
Proof. by vm_compute. Qed.
