(* ===== verification/AExt.v ===== *)
(** [inc/A_extension.h]: load-reserved, store-conditional and the AMOs, on words and
    double words.  The reservation sets of the C++ object are fields of the hart. *)
From S2P Require Import Prelude Bytes Memory PhysMem Regs BaseISA BaseISAProofs MExt.

(** ** Opcodes *)

Inductive op_A_Codes :=
| OP_A_LR | OP_A_SC | OP_A_AMOSWAP | OP_A_AMOADD | OP_A_AMOXOR | OP_A_AMOAND | OP_A_AMOOR
| OP_A_AMOMIN | OP_A_AMOMAX | OP_A_AMOMINU | OP_A_AMOMAXU
| OP_A_LR_D | OP_A_SC_D | OP_A_AMOSWAP_D | OP_A_AMOADD_D | OP_A_AMOXOR_D | OP_A_AMOAND_D
| OP_A_AMOOR_D | OP_A_AMOMIN_D | OP_A_AMOMAX_D | OP_A_AMOMINU_D | OP_A_AMOMAXU_D
| OP_A_ERROR.

#[export] Instance op_A_Codes_eq_dec : EqDecision op_A_Codes.
Proof. solve_decision. Defined.

(** Neither the major opcode nor funct3 = 2 is checked. *)
Definition a_decode (m_instr : Z) : op_A_Codes :=
  let funct5 := (m_instr .>> 27) .& 0x1F in
  let funct3 := (m_instr .>> 12) .& 0x7 in
  let is64 := funct3 =? 0x3 in
  if funct5 =? 0x02 then if is64 then OP_A_LR_D else OP_A_LR
  else if funct5 =? 0x03 then if is64 then OP_A_SC_D else OP_A_SC
  else if funct5 =? 0x01 then if is64 then OP_A_AMOSWAP_D else OP_A_AMOSWAP
  else if funct5 =? 0x00 then if is64 then OP_A_AMOADD_D else OP_A_AMOADD
  else if funct5 =? 0x04 then if is64 then OP_A_AMOXOR_D else OP_A_AMOXOR
  else if funct5 =? 0x0C then if is64 then OP_A_AMOAND_D else OP_A_AMOAND
  else if funct5 =? 0x08 then if is64 then OP_A_AMOOR_D else OP_A_AMOOR
  else if funct5 =? 0x10 then if is64 then OP_A_AMOMIN_D else OP_A_AMOMIN
  else if funct5 =? 0x14 then if is64 then OP_A_AMOMAX_D else OP_A_AMOMAX
  else if funct5 =? 0x18 then if is64 then OP_A_AMOMINU_D else OP_A_AMOMINU
  else if funct5 =? 0x1C then if is64 then OP_A_AMOMAXU_D else OP_A_AMOMAXU
  else OP_A_ERROR.

Section a_extension.
Context {S : Type} `{Target S}.
Variable XLEN : Z.

Abbreviation setValue := (setValue XLEN).
Abbreviation getValue := (getValue XLEN).
Abbreviation RaiseException := (RaiseException XLEN).
Implicit Types m_instr : Z.

(** ** Reservations *)

Definition TLB_reserve (address : Z) : M S unit := fun h =>
  Some (tt, { h with TLB_A_Entries := {[address]} ∪ TLB_A_Entries h }).
Definition TLB_reserved (address : Z) : M S bool := fun h =>
  if decide (address ∈ TLB_A_Entries h)
  then Some (true, { h with TLB_A_Entries := TLB_A_Entries h ∖ {[address]} })
  else Some (false, h).
Definition TLB_reserve_64 (address : Z) : M S unit := fun h =>
  Some (tt, { h with TLB_A_Entries_64 := {[address]} ∪ TLB_A_Entries_64 h }).
Definition TLB_reserved_64 (address : Z) : M S bool := fun h =>
  if decide (address ∈ TLB_A_Entries_64 h)
  then Some (true, { h with TLB_A_Entries_64 := TLB_A_Entries_64 h ∖ {[address]} })
  else Some (false, h).

(** ** Execution *)

Definition Exec_A_LR m_instr : M S bool :=
  let rd := get_rd m_instr in
  let rs2 := get_rs2 m_instr in
  if negb (rs2 =? 0) then RaiseException ILLEGAL_INSTRUCTION m_instr;; mret false else
  v ← getValue (get_rs1 m_instr);
  let mem_addr := u32 v in
  data ← read_mem mem_addr 4;
  setValue rd (s32 data);;
  TLB_reserve mem_addr;; mret true.

Definition Exec_A_SC m_instr : M S bool :=
  let rd := get_rd m_instr in
  v ← getValue (get_rs1 m_instr);
  let mem_addr := u32 v in
  v2 ← getValue (get_rs2 m_instr);
  let data := u32 v2 in
  reserved ← TLB_reserved mem_addr;
  (if reserved : bool then write_mem mem_addr data 4;; setValue rd 0 else setValue rd 1);;
  mret true.

Definition Exec_A_AMOSWAP m_instr : M S bool :=
  let rd := get_rd m_instr in
  v ← getValue (get_rs1 m_instr);
  let mem_addr := u32 v in
  old ← read_mem mem_addr 4;
  let old_val := u32 old in
  v2 ← getValue (get_rs2 m_instr);
  let operand := u32 v2 in
  let new_val := operand in
  setValue rd (s32 old_val);;
  write_mem mem_addr new_val 4;; mret true.

Definition Exec_A_AMOADD m_instr : M S bool :=
  let rd := get_rd m_instr in
  v ← getValue (get_rs1 m_instr);
  let mem_addr := u32 v in
  old ← read_mem mem_addr 4;
  let old_val := u32 old in
  v2 ← getValue (get_rs2 m_instr);
  let operand := u32 v2 in
  let new_val := u32 (old_val + operand) in
  setValue rd (s32 old_val);;
  write_mem mem_addr new_val 4;; mret true.

Definition Exec_A_AMOXOR m_instr : M S bool :=
  let rd := get_rd m_instr in
  v ← getValue (get_rs1 m_instr);
  let mem_addr := u32 v in
  old ← read_mem mem_addr 4;
  let old_val := u32 old in
  v2 ← getValue (get_rs2 m_instr);
  let operand := u32 v2 in
  let new_val := old_val .^ operand in
  setValue rd (s32 old_val);;
  write_mem mem_addr new_val 4;; mret true.

Definition Exec_A_AMOAND m_instr : M S bool :=
  let rd := get_rd m_instr in
  v ← getValue (get_rs1 m_instr);
  let mem_addr := u32 v in
  old ← read_mem mem_addr 4;
  let old_val := u32 old in
  v2 ← getValue (get_rs2 m_instr);
  let operand := u32 v2 in
  let new_val := old_val .& operand in
  setValue rd (s32 old_val);;
  write_mem mem_addr new_val 4;; mret true.

Definition Exec_A_AMOOR m_instr : M S bool :=
  let rd := get_rd m_instr in
  v ← getValue (get_rs1 m_instr);
  let mem_addr := u32 v in
  old ← read_mem mem_addr 4;
  let old_val := u32 old in
  v2 ← getValue (get_rs2 m_instr);
  let operand := u32 v2 in
  let new_val := old_val .| operand in
  setValue rd (s32 old_val);;
  write_mem mem_addr new_val 4;; mret true.

Definition Exec_A_AMOMIN m_instr : M S bool :=
  let rd := get_rd m_instr in
  v ← getValue (get_rs1 m_instr);
  let mem_addr := u32 v in
  old ← read_mem mem_addr 4;
  let old_val := u32 old in
  v2 ← getValue (get_rs2 m_instr);
  let operand := u32 v2 in
  let new_val := if s32 old_val <? s32 operand then old_val else operand in
  setValue rd (s32 old_val);;
  write_mem mem_addr new_val 4;; mret true.

Definition Exec_A_AMOMAX m_instr : M S bool :=
  let rd := get_rd m_instr in
  v ← getValue (get_rs1 m_instr);
  let mem_addr := u32 v in
  old ← read_mem mem_addr 4;
  let old_val := u32 old in
  v2 ← getValue (get_rs2 m_instr);
  let operand := u32 v2 in
  let new_val := if s32 operand <? s32 old_val then old_val else operand in
  setValue rd (s32 old_val);;
  write_mem mem_addr new_val 4;; mret true.

Definition Exec_A_AMOMINU m_instr : M S bool :=
  let rd := get_rd m_instr in
  v ← getValue (get_rs1 m_instr);
  let mem_addr := u32 v in
  old ← read_mem mem_addr 4;
  let old_val := u32 old in
  v2 ← getValue (get_rs2 m_instr);
  let operand := u32 v2 in
  let new_val := if old_val <? operand then old_val else operand in
  setValue rd (s32 old_val);;
  write_mem mem_addr new_val 4;; mret true.

Definition Exec_A_AMOMAXU m_instr : M S bool :=
  let rd := get_rd m_instr in
  v ← getValue (get_rs1 m_instr);
  let mem_addr := u32 v in
  old ← read_mem mem_addr 4;
  let old_val := u32 old in
  v2 ← getValue (get_rs2 m_instr);
  let operand := u32 v2 in
  let new_val := if operand <? old_val then old_val else operand in
  setValue rd (s32 old_val);;
  write_mem mem_addr new_val 4;; mret true.

Definition Exec_LR_D m_instr : M S bool :=
  let rd := get_rd m_instr in
  v ← getValue (get_rs1 m_instr);
  let mem_addr := u64 v in
  data ← read_mem64 mem_addr 8;
  setValue rd (s64 data);;
  TLB_reserve_64 mem_addr;; mret true.

Definition Exec_SC_D m_instr : M S bool :=
  let rd := get_rd m_instr in
  v ← getValue (get_rs1 m_instr);
  let mem_addr := u64 v in
  reserved ← TLB_reserved_64 mem_addr;
  (if reserved : bool then
     v2 ← getValue (get_rs2 m_instr);
     let data := u64 v2 in
     write_mem64 mem_addr data 8;; setValue rd 0
   else setValue rd 1);;
  mret true.

Definition Exec_AMO_D m_instr (op : op_A_Codes) : M S bool :=
  let rd := get_rd m_instr in
  v ← getValue (get_rs1 m_instr);
  let mem_addr := u64 v in
  old_val ← read_mem64 mem_addr 8;
  v2 ← getValue (get_rs2 m_instr);
  let operand := u64 v2 in
  let new_val :=
    match op with
    | OP_A_AMOSWAP_D => operand
    | OP_A_AMOADD_D => u64 (old_val + operand)
    | OP_A_AMOXOR_D => old_val .^ operand
    | OP_A_AMOAND_D => old_val .& operand
    | OP_A_AMOOR_D => old_val .| operand
    | OP_A_AMOMIN_D => if s64 old_val <? s64 operand then old_val else operand
    | OP_A_AMOMAX_D => if s64 operand <? s64 old_val then old_val else operand
    | OP_A_AMOMINU_D => if old_val <? operand then old_val else operand
    | OP_A_AMOMAXU_D => if operand <? old_val then old_val else operand
    | _ => old_val
    end in
  write_mem64 mem_addr new_val 8;;
  setValue rd (s64 old_val);; mret true.

(** The handlers' results are ignored: [PC_not_affected] stays [true]. *)
Definition a_exec_instruction m_instr (code : op_A_Codes) : M S bool :=
  match code with
  | OP_A_LR => Exec_A_LR m_instr
  | OP_A_SC => Exec_A_SC m_instr
  | OP_A_AMOSWAP => Exec_A_AMOSWAP m_instr
  | OP_A_AMOADD => Exec_A_AMOADD m_instr
  | OP_A_AMOXOR => Exec_A_AMOXOR m_instr
  | OP_A_AMOAND => Exec_A_AMOAND m_instr
  | OP_A_AMOOR => Exec_A_AMOOR m_instr
  | OP_A_AMOMIN => Exec_A_AMOMIN m_instr
  | OP_A_AMOMAX => Exec_A_AMOMAX m_instr
  | OP_A_AMOMINU => Exec_A_AMOMINU m_instr
  | OP_A_AMOMAXU => Exec_A_AMOMAXU m_instr
  | OP_A_LR_D => Exec_LR_D m_instr
  | OP_A_SC_D => Exec_SC_D m_instr
  | OP_A_ERROR => NOP
  | _ => Exec_AMO_D m_instr code
  end;; mret true.
End a_extension.

(** ** The specification *)

(** The value an AMO writes, from the old value and the operand of its width. *)
Definition amo_spec (op : op_A_Codes) (old operand : Z) : option Z :=
  match op with
  | OP_A_AMOSWAP | OP_A_AMOSWAP_D => Some operand
  | OP_A_AMOADD => Some (u32 (old + operand)) | OP_A_AMOADD_D => Some (u64 (old + operand))
  | OP_A_AMOXOR | OP_A_AMOXOR_D => Some (old .^ operand)
  | OP_A_AMOAND | OP_A_AMOAND_D => Some (old .& operand)
  | OP_A_AMOOR | OP_A_AMOOR_D => Some (old .| operand)
  | OP_A_AMOMIN => Some (u32 (Z.min (s32 old) (s32 operand)))
  | OP_A_AMOMIN_D => Some (u64 (Z.min (s64 old) (s64 operand)))
  | OP_A_AMOMAX => Some (u32 (Z.max (s32 old) (s32 operand)))
  | OP_A_AMOMAX_D => Some (u64 (Z.max (s64 old) (s64 operand)))
  | OP_A_AMOMINU | OP_A_AMOMINU_D => Some (Z.min old operand)
  | OP_A_AMOMAXU | OP_A_AMOMAXU_D => Some (Z.max old operand)
  | _ => None
  end.

Definition a_funct5 (op : op_A_Codes) : Z :=
  match op with
  | OP_A_LR | OP_A_LR_D => 0x02 | OP_A_SC | OP_A_SC_D => 0x03
  | OP_A_AMOSWAP | OP_A_AMOSWAP_D => 0x01 | OP_A_AMOADD | OP_A_AMOADD_D => 0x00
  | OP_A_AMOXOR | OP_A_AMOXOR_D => 0x04 | OP_A_AMOAND | OP_A_AMOAND_D => 0x0C
  | OP_A_AMOOR | OP_A_AMOOR_D => 0x08 | OP_A_AMOMIN | OP_A_AMOMIN_D => 0x10
  | OP_A_AMOMAX | OP_A_AMOMAX_D => 0x14 | OP_A_AMOMINU | OP_A_AMOMINU_D => 0x18
  | OP_A_AMOMAXU | OP_A_AMOMAXU_D => 0x1C | OP_A_ERROR => 0
  end.
Definition a_width (op : op_A_Codes) : Z :=
  match op with
  | OP_A_LR_D | OP_A_SC_D | OP_A_AMOSWAP_D | OP_A_AMOADD_D | OP_A_AMOXOR_D | OP_A_AMOAND_D
  | OP_A_AMOOR_D | OP_A_AMOMIN_D | OP_A_AMOMAX_D | OP_A_AMOMINU_D | OP_A_AMOMAXU_D => 64
  | _ => 32
  end.

(** The assembler; [aqrl] are the two ordering bits. *)
Definition a_encode (op : op_A_Codes) (aqrl rd rs1 rs2 : Z) : Z :=
  word (a_funct5 op * 4 + aqrl) rs2 rs1 (if a_width op =? 64 then 3 else 2) rd 0x2F.

(** The reservation set of a width. *)
Definition reservations {S} (n : Z) (h : hart S) : gset Z :=
  if n =? 64 then TLB_A_Entries_64 h else TLB_A_Entries h.
Definition set_reservations {S} (n : Z) (r : gset Z) (h : hart S) : hart S :=
  if n =? 64 then { h with TLB_A_Entries_64 := r } else { h with TLB_A_Entries := r }.

(** ** Decoding *)

Lemma a_funct5_range op : 0 <= a_funct5 op < 32.
Proof. destruct op; simpl; lia. Qed.

Lemma a_encode_word op aqrl rd rs1 rs2 :
  0 <= aqrl < 4 -> 0 <= rd < 32 -> 0 <= rs1 < 32 -> 0 <= rs2 < 32 ->
  is_word (a_encode op aqrl rd rs1 rs2) (a_funct5 op * 4 + aqrl) rs2 rs1
    (if a_width op =? 64 then 3 else 2) rd 0x2F.
Proof.
  intros. pose proof (a_funct5_range op). unfold is_word. split; [done|].
  destruct (a_width op =? 64); lia.
Qed.

(** What an assembled atomic decodes to, in the decoders the cores try in turn. *)
Lemma a_decode_encode_lemma op aqrl rd rs1 rs2 :
  op <> OP_A_ERROR -> 0 <= aqrl < 4 -> 0 <= rd < 32 -> 0 <= rs1 < 32 -> 0 <= rs2 < 32 ->
  let w := a_encode op aqrl rd rs1 rs2 in
  decode w = OP_ERROR /\ m_decode w = OP_M_ERROR /\ a_decode w = op /\
  get_rd w = rd /\ get_rs1 w = rs1 /\ get_rs2 w = rs2.
Proof.
  intros Hop H0 H1 H2 H3 w. pose proof (a_encode_word op aqrl rd rs1 rs2 H0 H1 H2 H3) as Hw.
  fold w in Hw. destruct (is_word_decode _ _ _ _ _ _ _ Hw) as (_ & -> & R1 & R2 & R3 & _).
  destruct Hw as (E & W1 & W2 & W3 & W4 & W5 & W6).
  split_and!; [reflexivity| | |done..].
  - unfold m_decode. assert (bits 6 0 w = 0x2F) as -> by (rewrite E; by apply word_opcode).
    assert (bits 14 12 w = if a_width op =? 64 then 3 else 2) as ->
      by (rewrite E; by apply word_funct3).
    by destruct (a_width op =? 64).
  - unfold a_decode.
    assert ((w .>> 12) .& 0x7 = if a_width op =? 64 then 3 else 2) as ->
      by (rewrite E; by apply word_funct3).
    assert ((w .>> 27) .& 0x1F = a_funct5 op) as ->.
    { change ((w .>> 27) .& 0x1F) with (bits 31 27 w). rewrite E, bits_div by lia. unfold word.
      pose proof (a_funct5_range op). euclid. }
    by destruct op.
Qed.

(** ** Execution *)

Lemma min_code n x y :
  0 < n -> fits n x -> fits n y ->
  (if signed n x <? signed n y then x else y) = wrap n (Z.min (signed n x) (signed n y)).
Proof.
  intros Hn Hx Hy. destruct (Z.ltb_spec (signed n x) (signed n y)).
  - by rewrite Z.min_l, wrap_signed, wrap_small by (done || lia).
  - by rewrite Z.min_r, wrap_signed, wrap_small by (done || lia).
Qed.

Lemma max_code n x y :
  0 < n -> fits n x -> fits n y ->
  (if signed n y <? signed n x then x else y) = wrap n (Z.max (signed n x) (signed n y)).
Proof.
  intros Hn Hx Hy. destruct (Z.ltb_spec (signed n y) (signed n x)).
  - by rewrite Z.max_l, wrap_signed, wrap_small by (done || lia).
  - by rewrite Z.max_r, wrap_signed, wrap_small by (done || lia).
Qed.

Lemma minu_code x y : (if x <? y then x else y) = Z.min x y.
Proof. destruct (Z.ltb_spec x y); lia. Qed.
Lemma maxu_code x y : (if y <? x then x else y) = Z.max x y.
Proof. destruct (Z.ltb_spec y x); lia. Qed.

Lemma fits_land w x y : 0 <= w -> fits w x -> fits w y -> fits w (x .& y).
Proof. intros Hw Hx [Hy _]. by apply fits_land_l. Qed.
Lemma fits_min w x y : fits w x -> fits w y -> fits w (Z.min x y).
Proof. unfold fits. lia. Qed.
Lemma fits_max w x y : fits w x -> fits w y -> fits w (Z.max x y).
Proof. unfold fits. lia. Qed.
#[export] Hint Resolve fits_land fits_min fits_max : fits.

Lemma a_width_cases op : a_width op = 32 \/ a_width op = 64.
Proof. destruct op; auto. Qed.

Section correct.
Context {S : Type} `{PhysMem S}.
Variable XLEN : Z.
Hypothesis XLEN_ok : XLEN = 32 \/ XLEN = 64.

Lemma write_reg_mem rd v (h : hart S) s :
  write_reg rd v { h with mem_intf := s } = { write_reg rd v h with mem_intf := s }.
Proof. unfold write_reg. by destruct (rd =? 0). Qed.

Lemma mem_write_reg rd v (h : hart S) : mem_intf (write_reg rd v h) = mem_intf h.
Proof. unfold write_reg. by destruct (rd =? 0). Qed.

(** The 64-bit accessors at an address in the domain. *)
Lemma read_mem64_eq a size (h : hart S) :
  pm_wf (mem_intf h) -> fits 64 a -> pm_dom a size ->
  read_mem64 a size h = Some (load (pm_bytes (mem_intf h)) a size, h).
Proof.
  intros Hm Ha Hd. unfold read_mem64, lift_mem. rewrite wrap_small, pm_read by done.
  by destruct h.
Qed.
Lemma write_mem64_eq a v size (h : hart S) :
  pm_wf (mem_intf h) -> fits 64 a -> pm_dom a size -> fits 64 v ->
  exists s', write_mem64 a v size h = Some (tt, { h with mem_intf := s' }) /\ pm_wf s' /\
    forall x, pm_bytes s' x = store (pm_bytes (mem_intf h)) a size v x.
Proof.
  intros Hm Ha Hd Hv. destruct (pm_write a v size (mem_intf h) Hm Hd Hv) as (s' & E & Hs').
  exists s'. split; [|done]. unfold write_mem64, lift_mem. by rewrite wrap_small, E.
Qed.

Lemma u32_u64_fits v : fits 64 (u32 v).
Proof. apply (fits_mono 32); [lia..|]. apply wrap_fits. lia. Qed.
#[local] Hint Resolve u32_u64_fits : core.

(** The state after an AMO: the new memory, and the old value in [rd]. *)
Definition amo_post (n size a rd : Z) (h : hart S) (s' : S) : hart S :=
  { write_reg rd (wrap XLEN (signed n (load (pm_bytes (mem_intf h)) a size))) h with mem_intf := s' }.

(** The schema of the word AMOs, for any combination [f]. *)
Lemma amo_word rd rs1 rs2 (f : Z -> Z -> Z) (h : hart S) :
  hart_wf XLEN h -> pm_wf (mem_intf h) ->
  0 <= rd < 32 -> 0 <= rs1 < 32 -> 0 <= rs2 < 32 ->
  let a := u32 (reg h rs1) in
  pm_dom a 4 ->
  exists s',
    (v ← getValue XLEN rs1;
     old ← read_mem (u32 v) 4;
     v2 ← getValue XLEN rs2;
     setValue XLEN rd (s32 (u32 old));;
     write_mem (u32 v) (f (u32 old) (u32 v2)) 4;; mret true) h =
      Some (true, amo_post 32 4 a rd h s') /\
    pm_wf s' /\
    forall x, pm_bytes s' x =
      store (pm_bytes (mem_intf h)) a 4
        (u32 (f (load (pm_bytes (mem_intf h)) a 4) (u32 (reg h rs2)))) x.
Proof.
  intros Hwf Hm H1 H2 H3 a Hd. pose proof (u32_u64_fits (reg h rs1)) as Fa. fold a in Fa.
  pose proof (load_size_fits (mem_intf h) a 4 32 Hm ltac:(lia) ltac:(lia)) as Fl.
  hexec. fold a. rewrite (read_mem_eq 64) by (by auto || lia). hexec.
  rewrite (wrap_small 32 (load _ _ _)) by done.
  set (h' := write_reg rd _ h). assert (mem_intf h' = mem_intf h) as Em by apply mem_write_reg.
  destruct (write_mem_eq 64 ltac:(by right) a
    (f (load (pm_bytes (mem_intf h)) a 4) (u32 (reg h rs2))) 4 h' Fa) as (s' & E & Hs');
    [by rewrite Em|done|].
  exists s'. rewrite E, Em in *. done.
Qed.

(** What the AMO [op] does to the hart and the memory. *)
Definition amo_result (op : op_A_Codes) (rd rs1 rs2 : Z) (h : hart S) (r : option (bool * hart S)) :=
  let n := a_width op in
  let a := wrap n (reg h rs1) in
  let old := load (pm_bytes (mem_intf h)) a (n / 8) in
  exists v s', amo_spec op old (wrap n (reg h rs2)) = Some v /\
    r = Some (true, amo_post n (n / 8) a rd h s') /\ pm_wf s' /\
    forall x, pm_bytes s' x = store (pm_bytes (mem_intf h)) a (n / 8) v x.

Lemma amo_word_result op f w (h : hart S) :
  hart_wf XLEN h -> pm_wf (mem_intf h) -> a_width op = 32 ->
  pm_dom (u32 (reg h (get_rs1 w))) 4 ->
  (forall old p, fits 32 old -> fits 32 p -> amo_spec op old p = Some (u32 (f old p))) ->
  amo_result op (get_rd w) (get_rs1 w) (get_rs2 w) h
    ((v ← getValue XLEN (get_rs1 w);
      old ← read_mem (u32 v) 4;
      v2 ← getValue XLEN (get_rs2 w);
      setValue XLEN (get_rd w) (s32 (u32 old));;
      write_mem (u32 v) (f (u32 old) (u32 v2)) 4;; mret true) h).
Proof.
  intros Hwf Hm Hn Hd Hf. unfold amo_result. rewrite Hn. change (32 / 8) with 4.
  destruct (amo_word (get_rd w) (get_rs1 w) (get_rs2 w) f h Hwf Hm
    (get_rd_range w) (get_rs1_range w) (get_rs2_range w) Hd) as (s' & E & Hs').
  eexists _, s'. split; [|split; [exact E|exact Hs']]. apply Hf; [|apply wrap_fits; lia].
  by apply load_size_fits.
Qed.

Lemma exec_amo_d w op (h : hart S) :
  hart_wf XLEN h -> pm_wf (mem_intf h) -> a_width op = 64 ->
  (forall old p, is_Some (amo_spec op old p)) ->
  pm_dom (u64 (reg h (get_rs1 w))) 8 ->
  amo_result op (get_rd w) (get_rs1 w) (get_rs2 w) h (Exec_AMO_D XLEN w op h).
Proof.
  intros Hwf Hm Hn Ha Hd. unfold amo_result. rewrite Hn. change (64 / 8) with 8.
  set (a := u64 (reg h (get_rs1 w))) in *. set (p := u64 (reg h (get_rs2 w))).
  assert (fits 64 a /\ fits 64 p) as [Fa Fp] by (split; apply wrap_fits; lia).
  pose proof (load_size_fits (mem_intf h) a 8 64 Hm ltac:(lia) ltac:(lia)) as Fl.
  set (old := load (pm_bytes (mem_intf h)) a 8) in *.
  destruct (Ha old p) as [v Hv]. unfold Exec_AMO_D. hexec. fold a.
  rewrite read_mem64_eq by done. fold old. hexec. fold p.
  assert (exists s', (write_mem64 a v 8;; setValue XLEN (get_rd w) (s64 old);; mret true) h =
      Some (true, amo_post 64 8 a (get_rd w) h s') /\ pm_wf s' /\
      forall x, pm_bytes s' x = store (pm_bytes (mem_intf h)) a 8 v x) as (s' & E & Hs').
  { assert (fits 64 v) as Fv.
    { destruct op; try discriminate Hn; try discriminate Hv; injection Hv as <-;
        auto with fits. }
    destruct (write_mem64_eq a v 8 h Hm Fa Hd Fv) as (s' & E & Hs'). exists s'. split; [|done].
    rewrite bind_eq, E. hexec. by rewrite write_reg_mem. }
  exists v, s'. split; [done|]. split; [|done]. rewrite <-E. revert Hv.
  destruct op; try discriminate Hn; intros [= <-]; rewrite ?bind_eq;
    by rewrite ?min_code, ?max_code, ?minu_code, ?maxu_code by (done || lia).
Qed.

Lemma exec_amo w op (h : hart S) :
  hart_wf XLEN h -> pm_wf (mem_intf h) -> (forall old p, is_Some (amo_spec op old p)) ->
  pm_dom (wrap (a_width op) (reg h (get_rs1 w))) (a_width op / 8) ->
  amo_result op (get_rd w) (get_rs1 w) (get_rs2 w) h (a_exec_instruction XLEN w op h).
Proof.
  intros Hwf Hm Ha Hd.
  assert (forall r : M S bool, amo_result op (get_rd w) (get_rs1 w) (get_rs2 w) h (r h) ->
    amo_result op (get_rd w) (get_rs1 w) (get_rs2 w) h ((r;; mret true : M S bool) h)) as Hr.
  { intros r (v & s' & ? & E & ?). exists v, s'. by rewrite bind_eq, E. }
  assert (forall old p, fits 32 old -> fits 32 p -> u32 (old .^ p) = old .^ p /\
    u32 (old .& p) = old .& p /\ u32 (old .| p) = old .| p /\
    u32 (Z.min old p) = Z.min old p /\ u32 (Z.max old p) = Z.max old p) as Hbits.
  { intros old p ? ?. split_and!; apply wrap_small; auto with fits. }
  destruct (a_width_cases op) as [E|E].
  - rewrite E in Hd. destruct op; try discriminate E; try (by destruct (Ha 0 0)); apply Hr.
    1: apply (amo_word_result _ (fun old p => p)); try done.
    2: apply (amo_word_result _ (fun old p => u32 (old + p))); try done.
    3: apply (amo_word_result _ Z.lxor); try done.
    4: apply (amo_word_result _ Z.land); try done.
    5: apply (amo_word_result _ Z.lor); try done.
    6: apply (amo_word_result _ (fun old p => if s32 old <? s32 p then old else p)); try done.
    7: apply (amo_word_result _ (fun old p => if s32 p <? s32 old then old else p)); try done.
    8: apply (amo_word_result _ (fun old p => if old <? p then old else p)); try done.
    9: apply (amo_word_result _ (fun old p => if p <? old then old else p)); try done.
    all: intros old p H1 H2; destruct (Hbits old p H1 H2) as (? & ? & ? & ? & ?);
      cbn [amo_spec]; f_equal;
      rewrite ?min_code, ?max_code, ?minu_code, ?maxu_code, ?wrap_idemp by (done || lia);
      rewrite ?wrap_small by done; congruence.
  - rewrite E in Hd. assert (a_exec_instruction XLEN w op = (Exec_AMO_D XLEN w op;; mret true)) as ->
      by (destruct op; try discriminate E; try (by destruct (Ha 0 0)); done).
    apply Hr. by apply exec_amo_d.
Qed.

(** *** Load-reserved and store-conditional *)

Definition op_lr (n : Z) : op_A_Codes := if n =? 64 then OP_A_LR_D else OP_A_LR.
Definition op_sc (n : Z) : op_A_Codes := if n =? 64 then OP_A_SC_D else OP_A_SC.

Lemma wrap_0 : wrap XLEN 0 = 0.
Proof. by rewrite wrap_small by (unfold fits; destruct XLEN_ok as [-> | ->]; lia). Qed.
Lemma wrap_1 : wrap XLEN 1 = 1.
Proof. by rewrite wrap_small by (unfold fits; destruct XLEN_ok as [-> | ->]; lia). Qed.

Lemma exec_lr n w (h : hart S) :
  n = 32 \/ n = 64 -> pm_wf (mem_intf h) -> get_rs2 w = 0 ->
  let a := wrap n (reg h (get_rs1 w)) in
  pm_dom a (n / 8) ->
  a_exec_instruction XLEN w (op_lr n) h =
    Some (true, set_reservations n ({[a]} ∪ reservations n h)
      (write_reg (get_rd w) (wrap XLEN (signed n (load (pm_bytes (mem_intf h)) a (n / 8)))) h)).
Proof.
  intros Hn Hm H0' a Hd.
  assert (fits 64 a) as Fa by (apply (fits_mono n); [lia..|]; apply wrap_fits; lia).
  destruct Hn as [-> | ->]; unfold op_lr; cbn [Z.eqb Pos.eqb]; cbv iota;
    unfold a_exec_instruction, Exec_A_LR, Exec_LR_D.
  - rewrite H0'. change (negb (0 =? 0)) with false. cbv iota. hexec. fold a. rewrite (read_mem_eq 64) by (by auto || lia). hexec.
    unfold TLB_reserve, set_reservations, reservations, write_reg. by destruct (get_rd w =? 0).
  - hexec. fold a. rewrite read_mem64_eq by done. hexec.
    unfold TLB_reserve_64, set_reservations, reservations, write_reg. by destruct (get_rd w =? 0).
Qed.

Lemma exec_sc_fail n w (h : hart S) :
  n = 32 \/ n = 64 -> wrap n (reg h (get_rs1 w)) ∉ reservations n h ->
  a_exec_instruction XLEN w (op_sc n) h = Some (true, write_reg (get_rd w) 1 h).
Proof.
  intros [-> | ->] Hr; unfold reservations in Hr; simpl in Hr;
    unfold op_sc; cbn [Z.eqb Pos.eqb]; cbv iota;
    unfold a_exec_instruction, Exec_A_SC, Exec_SC_D; hexec.
  - unfold TLB_reserved. rewrite decide_False by done. hexec. by rewrite wrap_1.
  - unfold TLB_reserved_64. rewrite decide_False by done. hexec. by rewrite wrap_1.
Qed.

Lemma exec_sc_success n w (h : hart S) :
  n = 32 \/ n = 64 -> pm_wf (mem_intf h) ->
  let a := wrap n (reg h (get_rs1 w)) in
  a ∈ reservations n h -> pm_dom a (n / 8) ->
  exists s', a_exec_instruction XLEN w (op_sc n) h =
      Some (true, write_reg (get_rd w) 0
        { set_reservations n (reservations n h ∖ {[a]}) h with mem_intf := s' }) /\
    pm_wf s' /\
    forall x, pm_bytes s' x =
      store (pm_bytes (mem_intf h)) a (n / 8) (reg h (get_rs2 w)) x.
Proof.
  intros Hn Hm a Hr Hd.
  assert (fits 64 a) as Fa by (apply (fits_mono n); [lia..|]; apply wrap_fits; lia).
  destruct Hn as [-> | ->]; unfold reservations in *; simpl in Hr;
    unfold op_sc; cbn [Z.eqb Pos.eqb]; cbv iota;
    unfold a_exec_instruction, Exec_A_SC, Exec_SC_D; hexec; fold a.
  - unfold TLB_reserved. rewrite decide_True by done. hexec.
    match goal with |- context [write_mem a ?v 4 ?h1] =>
      destruct (write_mem_eq 64 ltac:(by right) a v 4 h1 Fa) as (s' & E & Hw & Hs'); [done..|]
    end.
    exists s'. rewrite E. hexec. rewrite wrap_0. split_and!; [done..|].
    intros x. rewrite Hs', wrap_idemp. by rewrite store_wrap by lia.
  - unfold TLB_reserved_64. rewrite decide_True by done. hexec.
    match goal with |- context [write_mem64 a ?v 8 ?h1] =>
      destruct (write_mem64_eq a v 8 h1 Hm Fa Hd) as (s' & E & Hw & Hs'); [apply wrap_fits; lia|]
    end.
    exists s'. rewrite E. hexec. rewrite wrap_0. split_and!; [done..|].
    intros x. rewrite Hs'. by rewrite store_wrap by lia.
Qed.

Lemma reg_set_reservations n r k (h : hart S) : reg (set_reservations n r h) k = reg h k.
Proof. unfold set_reservations. by destruct (n =? 64). Qed.
Lemma mem_set_reservations n r (h : hart S) : mem_intf (set_reservations n r h) = mem_intf h.
Proof. unfold set_reservations. by destruct (n =? 64). Qed.
Lemma reservations_set n r (h : hart S) : reservations n (set_reservations n r h) = r.
Proof. unfold set_reservations, reservations. by destruct (n =? 64). Qed.
Lemma reservations_write_reg n rd v (h : hart S) :
  reservations n (write_reg rd v h) = reservations n h.
Proof. unfold reservations, write_reg. by destruct (rd =? 0). Qed.
Lemma set_reservations_wf n r (h : hart S) :
  hart_wf XLEN h -> hart_wf XLEN (set_reservations n r h).
Proof. intros []. unfold set_reservations. by destruct (n =? 64). Qed.
Lemma set_mem_wf s' (h : hart S) : hart_wf XLEN h -> hart_wf XLEN { h with mem_intf := s' }.
Proof. by intros []. Qed.
(** The sequence, on words given by their fields. *)
Lemma exec_lr_reserves n w (h : hart S) :
  n = 32 \/ n = 64 -> hart_wf XLEN h -> pm_wf (mem_intf h) -> get_rs2 w = 0 ->
  get_rd w <> 0 -> get_rs1 w <> get_rd w ->
  let a := wrap n (reg h (get_rs1 w)) in
  pm_dom a (n / 8) ->
  exists h1, a_exec_instruction XLEN w (op_lr n) h = Some (true, h1) /\
    hart_wf XLEN h1 /\ mem_intf h1 = mem_intf h /\ a ∈ reservations n h1 /\
    reg h1 (get_rs1 w) = reg h (get_rs1 w) /\
    reg h1 (get_rd w) = wrap XLEN (signed n (load (pm_bytes (mem_intf h)) a (n / 8))).
Proof.
  intros Hn Hwf Hm H0' Hrd Hne a Hd. pose proof (get_rd_range w). pose proof (get_rs1_range w).
  rewrite exec_lr by done. fold a. eexists. split; [done|].
  rewrite !reg_set_reservations, mem_set_reservations, mem_write_reg, reservations_set.
  rewrite !(reg_write_reg XLEN), Z.eqb_refl by (done || lia).
  rewrite (proj2 (Z.eqb_neq _ _) Hrd), (proj2 (Z.eqb_neq _ _) Hne).
  split_and!; [|done|set_solver|done|done].
  apply set_reservations_wf, write_reg_wf; [done|lia|apply wrap_fits; lia].
Qed.

Lemma exec_sc_reserved n w (h : hart S) :
  n = 32 \/ n = 64 -> hart_wf XLEN h -> pm_wf (mem_intf h) ->
  get_rd w <> 0 -> get_rs1 w <> get_rd w ->
  let a := wrap n (reg h (get_rs1 w)) in
  a ∈ reservations n h -> pm_dom a (n / 8) ->
  exists h2, a_exec_instruction XLEN w (op_sc n) h = Some (true, h2) /\
    reg h2 (get_rd w) = 0 /\ (a ∉ reservations n h2) /\ reg h2 (get_rs1 w) = reg h (get_rs1 w) /\
    (forall x, pm_bytes (mem_intf h2) x =
       store (pm_bytes (mem_intf h)) a (n / 8) (reg h (get_rs2 w)) x).
Proof.
  intros Hn Hwf Hm Hrd Hne a Hr Hd. pose proof (get_rd_range w). pose proof (get_rs1_range w).
  destruct (exec_sc_success n w h Hn Hm Hr Hd) as (s' & E & Hw' & Hs'). fold a in E, Hs'.
  eexists. split; [exact E|].
  rewrite mem_write_reg, reservations_write_reg.
  rewrite !(reg_write_reg XLEN), Z.eqb_refl
    by (try apply set_mem_wf, set_reservations_wf; (done || lia)).
  rewrite (proj2 (Z.eqb_neq _ _) Hrd), (proj2 (Z.eqb_neq _ _) Hne).
  split_and!; [done| | |exact Hs'].
  - change (a ∉ reservations n (set_reservations n (reservations n h ∖ {[a]}) h)).
    rewrite reservations_set. set_solver.
  - apply (reg_set_reservations n).
Qed.
End correct.

Lemma exec_asm_amo {S} `{PhysMem S} XLEN op aqrl rd rs1 rs2 (h : hart S) :
  XLEN = 32 \/ XLEN = 64 -> hart_wf XLEN h -> pm_wf (mem_intf h) ->
  0 <= aqrl < 4 -> 0 <= rd < 32 -> 0 <= rs1 < 32 -> 0 <= rs2 < 32 ->
  is_Some (amo_spec op 0 0) ->
  let n := a_width op in
  let a := wrap n (reg h rs1) in
  let old := load (pm_bytes (mem_intf h)) a (n / 8) in
  pm_dom a (n / 8) ->
  let w := a_encode op aqrl rd rs1 rs2 in
  decode w = OP_ERROR /\ m_decode w = OP_M_ERROR /\ a_decode w = op /\
  exists v s', amo_spec op old (wrap n (reg h rs2)) = Some v /\
    a_exec_instruction XLEN w (a_decode w) h =
      Some (true, { write_reg rd (wrap XLEN (signed n old)) h with mem_intf := s' }) /\
    pm_wf s' /\ forall x, pm_bytes s' x = store (pm_bytes (mem_intf h)) a (n / 8) v x.
Proof.
  intros HX Hwf Hm H1 H2 H3 H4 Hop n a old Hd w.
  assert (op <> OP_A_ERROR) as Hne by (intros ->; by destruct Hop).
  destruct (a_decode_encode_lemma op aqrl rd rs1 rs2 Hne H1 H2 H3 H4)
    as (D1 & D2 & D3 & E1 & E2 & E3). fold w in D1, D2, D3, E1, E2, E3.
  split_and!; [done..|]. rewrite D3.
  assert (forall o p, is_Some (amo_spec op o p)) as Ha by (destruct op; (done || by destruct Hop)).
  pose proof (exec_amo XLEN w op h Hwf Hm Ha) as R. rewrite E1, E2, E3 in R. by apply R.
Qed.

(** C11: every AMO, assembled with any ordering bits, decodes to itself (after the base
    and M decoders refuse it) and, on any memory with the contract of [PhysMem], reads
    the old value into [rd] sign-extended and stores the specified combination of it
    with [rs2], also when [rd] is [rs1] or [rs2]. *)
Theorem amo_correct {S} `{PhysMem S} XLEN op aqrl rd rs1 rs2 (h : hart S) :
  XLEN = 32 \/ XLEN = 64 -> hart_wf XLEN h -> pm_wf (mem_intf h) ->
  0 <= aqrl < 4 -> 0 <= rd < 32 -> 0 <= rs1 < 32 -> 0 <= rs2 < 32 ->
  is_Some (amo_spec op 0 0) ->
  let n := a_width op in
  let a := wrap n (reg h rs1) in
  let old := load (pm_bytes (mem_intf h)) a (n / 8) in
  pm_dom a (n / 8) ->
  let w := a_encode op aqrl rd rs1 rs2 in
  decode w = OP_ERROR /\ m_decode w = OP_M_ERROR /\ a_decode w = op /\
  exists v s', amo_spec op old (wrap n (reg h rs2)) = Some v /\
    a_exec_instruction XLEN w (a_decode w) h =
      Some (true, { write_reg rd (wrap XLEN (signed n old)) h with mem_intf := s' }) /\
    pm_wf s' /\ forall x, pm_bytes s' x = store (pm_bytes (mem_intf h)) a (n / 8) v x.
Proof. apply exec_asm_amo. Qed.


(** C12: a store-conditional after the load-reserved of its address stores and returns 0;
    the next one, its reservation used up, returns 1 and changes nothing but [rd]. *)
Theorem lr_sc_correct {S} `{PhysMem S} XLEN n q1 q2 q3 rd1 rd2 rd3 rs1 rs2 (h : hart S) :
  XLEN = 32 \/ XLEN = 64 -> n = 32 \/ n = 64 -> hart_wf XLEN h -> pm_wf (mem_intf h) ->
  0 <= q1 < 4 -> 0 <= q2 < 4 -> 0 <= q3 < 4 ->
  0 < rd1 < 32 -> 0 < rd2 < 32 -> 0 < rd3 < 32 -> 0 <= rs1 < 32 -> 0 <= rs2 < 32 ->
  rs1 <> rd1 -> rs1 <> rd2 ->
  let a := wrap n (reg h rs1) in
  pm_dom a (n / 8) ->
  let lr := a_encode (op_lr n) q1 rd1 rs1 0 in
  let sc1 := a_encode (op_sc n) q2 rd2 rs1 rs2 in
  let sc2 := a_encode (op_sc n) q3 rd3 rs1 rs2 in
  exists h1 h2,
    a_exec_instruction XLEN lr (a_decode lr) h = Some (true, h1) /\
    reg h1 rd1 = wrap XLEN (signed n (load (pm_bytes (mem_intf h)) a (n / 8))) /\
    mem_intf h1 = mem_intf h /\
    a_exec_instruction XLEN sc1 (a_decode sc1) h1 = Some (true, h2) /\
    reg h2 rd2 = 0 /\
    (forall x, pm_bytes (mem_intf h2) x =
       store (pm_bytes (mem_intf h)) a (n / 8) (reg h1 rs2) x) /\
    a_exec_instruction XLEN sc2 (a_decode sc2) h2 = Some (true, write_reg rd3 1 h2).
Proof.
  intros HX Hn Hwf Hm Q1 Q2 Q3 R1 R2 R3 R4 R5 N1 N2 a Hd lr sc1 sc2.
  assert (op_lr n <> OP_A_ERROR /\ op_sc n <> OP_A_ERROR) as [O1 O2] by (by destruct Hn as [-> | ->]).
  destruct (a_decode_encode_lemma (op_lr n) q1 rd1 rs1 0) as (_ & _ & DA & A1 & A2 & A3);
    [done|lia..|].
  destruct (a_decode_encode_lemma (op_sc n) q2 rd2 rs1 rs2) as (_ & _ & DB & B1 & B2 & B3);
    [done|lia..|].
  destruct (a_decode_encode_lemma (op_sc n) q3 rd3 rs1 rs2) as (_ & _ & DC & C1 & C2 & C3);
    [done|lia..|].
  fold lr in DA, A1, A2, A3. fold sc1 in DB, B1, B2, B3. fold sc2 in DC, C1, C2, C3.
  rewrite DA, DB, DC.
  pose proof (exec_lr_reserves XLEN HX n lr h Hn Hwf Hm A3) as L. rewrite A1, A2 in L.
  destruct (L ltac:(lia) N1 Hd) as (h1 & E1 & Hwf1 & Em & Hr & Ea & Ev). clear L.
  pose proof (exec_sc_reserved XLEN HX n sc1 h1 Hn Hwf1) as L. rewrite B1, B2, B3, Em, Ea in L.
  destruct (L Hm ltac:(lia) N2 Hr Hd) as (h2 & E2 & Ez & Hr2 & Ea2 & Hs2). clear L.
  exists h1, h2. split_and!; [done..|].
  rewrite <-C1. apply exec_sc_fail; [done..|]. by rewrite C2, Ea2.
Qed.

(** ** Witnesses *)

Lemma memory0_wf : pm_wf (mem_intf hart0).
Proof. intros x. by vm_compute. Qed.

Lemma amo_correct_witness :
  exists s', a_exec_instruction 64 (a_encode OP_A_AMOADD_D 0 5 0 2)
      (a_decode (a_encode OP_A_AMOADD_D 0 5 0 2)) hart0 =
    Some (true, { write_reg 5 0 hart0 with mem_intf := s' }) /\ pm_bytes s' 0 = 0xFC.
Proof.
  destruct (amo_correct 64 OP_A_AMOADD_D 0 5 0 2 hart0)
    as (_ & _ & _ & v & s' & Hv & E & _ & Hs').
  - by right.
  - apply hart0_wf.
  - apply memory0_wf.
  - lia.
  - lia.
  - lia.
  - lia.
  - by eexists.
  - vm_compute. intuition congruence.
  - exists s'. split; [exact E|]. rewrite Hs'. vm_compute in Hv. injection Hv as <-. by vm_compute.
Defined.

Lemma lr_sc_correct_witness :
  exists h1 h2,
    a_exec_instruction 64 (a_encode OP_A_LR 0 5 0 0) (a_decode (a_encode OP_A_LR 0 5 0 0)) hart0 =
      Some (true, h1) /\
    a_exec_instruction 64 (a_encode OP_A_SC 0 6 0 2) (a_decode (a_encode OP_A_SC 0 6 0 2)) h1 =
      Some (true, h2) /\ reg h2 6 = 0.
Proof.
  destruct (lr_sc_correct 64 32 0 0 0 5 6 7 0 2 hart0) as (h1 & h2 & E1 & _ & _ & E2 & Hz & _).
  - by right.
  - by left.
  - apply hart0_wf.
  - apply memory0_wf.
  - lia.
  - lia.
  - lia.
  - lia.
  - lia.
  - lia.
  - lia.
  - lia.
  - lia.
  - lia.
  - vm_compute. intuition congruence.
  - by exists h1, h2.
Defined.

(** ** Departures *)

(** On RV64 the word atomics drop the upper half of the address: LR.W at 2^32 + 16
    reserves and reads the word at 16. *)
Lemma lr_w_truncates_address :
  let h := write_reg 6 (2 ^ 32 + 16) hart0 in
  let w := a_encode OP_A_LR 0 5 6 0 in
  exists h', a_exec_instruction 64 w (a_decode w) h = Some (true, h') /\
    16 ∈ TLB_A_Entries h' /\ 2 ^ 32 + 16 ∉ TLB_A_Entries h'.
Proof.
  assert (exists h', a_exec_instruction 64 (a_encode OP_A_LR 0 5 6 0)
      (a_decode (a_encode OP_A_LR 0 5 6 0)) (write_reg 6 (2 ^ 32 + 16) hart0) = Some (true, h') /\
    TLB_A_Entries h' = {[16]} ∪ ∅) as (h' & E & Er).
  { eexists. split; [vm_compute; reflexivity|reflexivity]. }
  exists h'. rewrite Er. split_and!; [done|set_solver|].
  rewrite elem_of_union, elem_of_singleton. intros [?|[]%elem_of_empty]. lia.
Qed.

(** LR.W with rs2 <> 0 raises the illegal-instruction exception and reports success, so
    the core increments the pc it was given: the handler starts at mtvec + 4. *)
Lemma lr_w_illegal_reports_success :
  exists h', a_exec_instruction 64 (a_encode OP_A_LR 0 5 6 1)
      (a_decode (a_encode OP_A_LR 0 5 6 1)) hart0 = Some (true, h') /\
    CSR h' !! RegsH.CSR_MCAUSE = Some 2.
Proof. eexists. split; [vm_compute; reflexivity|by vm_compute]. Qed.
