(* ===== verification/CExt.v ===== *)
(** [inc/C_extension.h]: the compressed instructions.  [m_instr] is the fetched word;
    only its low half is decoded, the upper half being the next instruction's. *)
From S2P Require Import Prelude Bytes Memory Regs BaseISA BaseISAProofs.

(** ** Opcodes *)

Inductive op_C_Codes :=
| OP_C_ADDI4SPN | OP_C_FLD | OP_C_LW | OP_C_FLW | OP_C_LD | OP_C_FSD | OP_C_SW | OP_C_FSW | OP_C_SD
| OP_C_NOP | OP_C_ADDI | OP_C_JAL | OP_C_ADDIW | OP_C_LI | OP_C_ADDI16SP | OP_C_LUI
| OP_C_SRLI | OP_C_SRAI | OP_C_ANDI | OP_C_SUB | OP_C_SUBW | OP_C_XOR | OP_C_ADDW
| OP_C_OR | OP_C_AND | OP_C_J | OP_C_BEQZ | OP_C_BNEZ
| OP_C_SLLI | OP_C_FLDSP | OP_C_LWSP | OP_C_FLWSP | OP_C_LDSP | OP_C_JR | OP_C_MV | OP_C_EBREAK
| OP_C_JALR | OP_C_ADD | OP_C_FSDSP | OP_C_SWSP | OP_C_FSWSP | OP_C_SDSP
| OP_C_ERROR.

#[export] Instance op_C_Codes_eq_dec : EqDecision op_C_Codes.
Proof. solve_decision. Defined.

(** ** Fields and immediates *)

Definition c_opcode (m_instr : Z) : Z := bits 1 0 m_instr.
Definition get_rdp (m_instr : Z) : Z := bits 4 2 m_instr + 8.
Definition c_get_rs1 (m_instr : Z) : Z := bits 11 7 m_instr.
Definition get_rs1p (m_instr : Z) : Z := bits 9 7 m_instr + 8.
Definition c_get_rs2 (m_instr : Z) : Z := bits 6 2 m_instr.
Definition get_rs2p (m_instr : Z) : Z := bits 4 2 m_instr + 8.
Definition c_get_funct3 (m_instr : Z) : Z := bits 15 13 m_instr.

Definition c_get_imm_J (m_instr : Z) : Z :=
  let aux := bit 12 m_instr .<< 11 in
  let aux := aux .| (bit 11 m_instr .<< 4) in
  let aux := aux .| (bit 10 m_instr .<< 9) in
  let aux := aux .| (bit 9 m_instr .<< 8) in
  let aux := aux .| (bit 8 m_instr .<< 10) in
  let aux := aux .| (bit 7 m_instr .<< 6) in
  let aux := aux .| (bit 6 m_instr .<< 7) in
  let aux := aux .| (bits 5 3 m_instr .<< 1) in
  let aux := aux .| (bit 2 m_instr .<< 5) in
  if bit 12 m_instr =? 1 then aux .| (-1 .<< 12) else aux.

Definition get_imm_L (m_instr : Z) : Z :=
  let aux := bits 12 10 m_instr .<< 3 in
  let aux := aux .| (bit 6 m_instr .<< 2) in
  aux .| (bit 5 m_instr .<< 6).

Definition get_imm_LWSP (m_instr : Z) : Z :=
  let aux := bit 12 m_instr .<< 5 in
  let aux := aux .| (bits 6 4 m_instr .<< 2) in
  aux .| (bits 3 2 m_instr .<< 6).

Definition get_imm_LDSP (m_instr : Z) : Z :=
  let aux := bit 12 m_instr .<< 5 in
  let aux := aux .| (bits 6 5 m_instr .<< 3) in
  aux .| (bits 4 2 m_instr .<< 6).

(** [aux] is a [uint32_t]: the mask is converted before the [or]. *)
Definition get_imm_ADDI (m_instr : Z) : Z :=
  let aux := bit 12 m_instr .<< 5 in
  let aux := aux .| bits 6 2 m_instr in
  let aux := if bit 12 m_instr =? 1 then aux .| u32 (-1 .<< 6) else aux in
  s32 aux.

Definition get_imm_ADDI4SPN (m_instr : Z) : Z :=
  let aux := bits 12 11 m_instr .<< 4 in
  let aux := aux .| (bits 10 7 m_instr .<< 6) in
  let aux := aux .| (bit 6 m_instr .<< 2) in
  aux .| (bit 5 m_instr .<< 3).

Definition get_imm_ADDI16SP (m_instr : Z) : Z :=
  let aux := bit 12 m_instr .<< 9 in
  let aux := aux .| (bit 6 m_instr .<< 4) in
  let aux := aux .| (bit 5 m_instr .<< 6) in
  let aux := aux .| (bit 4 m_instr .<< 8) in
  let aux := aux .| (bit 3 m_instr .<< 7) in
  let aux := aux .| (bit 2 m_instr .<< 5) in
  let aux := if bit 12 m_instr =? 1 then aux .| u32 (-1 .<< 10) else aux in
  s32 aux.

Definition get_imm_CSS (m_instr : Z) : Z :=
  let aux := bits 12 9 m_instr .<< 2 in
  aux .| (bits 8 7 m_instr .<< 6).

Definition get_imm_CSDSP (m_instr : Z) : Z :=
  let aux := bits 12 10 m_instr .<< 3 in
  aux .| (bits 9 7 m_instr .<< 6).

Definition get_imm_CB (m_instr : Z) : Z :=
  let aux := bit 12 m_instr .<< 8 in
  let aux := aux .| (bit 11 m_instr .<< 4) in
  let aux := aux .| (bit 10 m_instr .<< 3) in
  let aux := aux .| (bit 6 m_instr .<< 7) in
  let aux := aux .| (bit 5 m_instr .<< 6) in
  let aux := aux .| (bit 4 m_instr .<< 2) in
  let aux := aux .| (bit 3 m_instr .<< 1) in
  let aux := aux .| (bit 2 m_instr .<< 5) in
  if bit 12 m_instr =? 1 then aux .| u32 (-1 .<< 9) else aux.

Definition get_imm_CL (m_instr : Z) : Z :=
  let aux := bits 12 10 m_instr .<< 3 in
  aux .| (bits 6 5 m_instr .<< 6).

Definition get_imm_LUI (m_instr : Z) : Z :=
  let aux := bit 12 m_instr .<< 17 in
  let aux := aux .| (bits 6 2 m_instr .<< 12) in
  if bit 12 m_instr =? 1 then aux .| (-1 .<< 17) else aux.

Section c_extension.
Context {S : Type} `{Target S}.
Variable XLEN : Z.

Abbreviation unsigned_T := (wrap XLEN).
Abbreviation signed_T := (signed XLEN).
Abbreviation setValue := (setValue XLEN).
Abbreviation getValue := (getValue XLEN).
Abbreviation setPC := (setPC XLEN).
Abbreviation incPCby2 := (incPCby2 XLEN).
Abbreviation RaiseException := (RaiseException XLEN).

Implicit Types m_instr : Z.

(** ** Decode *)

Definition c_decode_0 m_instr : op_C_Codes :=
  let f3 := c_get_funct3 m_instr in
  if f3 =? 0 then OP_C_ADDI4SPN
  else if f3 =? 1 then OP_C_FLD
  else if f3 =? 2 then OP_C_LW
  else if f3 =? 3 then if XLEN =? 32 then OP_C_FLW else OP_C_LD
  else if f3 =? 5 then OP_C_FSD
  else if f3 =? 6 then OP_C_SW
  else if f3 =? 7 then if XLEN =? 32 then OP_C_FSW else OP_C_SD
  else OP_C_ERROR.

Definition c_decode_1_4 m_instr : op_C_Codes :=
  let f2 := bits 11 10 m_instr in
  let f6 := bits 6 5 m_instr in
  if f2 =? 0 then OP_C_SRLI
  else if f2 =? 1 then OP_C_SRAI
  else if f2 =? 2 then OP_C_ANDI
  else if f6 =? 0 then if bit 12 m_instr =? 0 then OP_C_SUB else OP_C_SUBW
  else if f6 =? 1 then if bit 12 m_instr =? 0 then OP_C_XOR else OP_C_ADDW
  else if f6 =? 2 then OP_C_OR
  else OP_C_AND.

Definition c_decode_1 m_instr : op_C_Codes :=
  let f3 := c_get_funct3 m_instr in
  if f3 =? 0 then OP_C_ADDI
  else if f3 =? 1 then if XLEN =? 32 then OP_C_JAL else OP_C_ADDIW
  else if f3 =? 2 then OP_C_LI
  else if f3 =? 3 then OP_C_ADDI16SP
  else if f3 =? 4 then c_decode_1_4 m_instr
  else if f3 =? 5 then OP_C_J
  else if f3 =? 6 then OP_C_BEQZ
  else OP_C_BNEZ.

Definition c_decode_2 m_instr : op_C_Codes :=
  let f3 := c_get_funct3 m_instr in
  if f3 =? 0 then OP_C_SLLI
  else if f3 =? 1 then OP_C_FLDSP
  else if f3 =? 2 then OP_C_LWSP
  else if f3 =? 3 then if XLEN =? 32 then OP_C_FLWSP else OP_C_LDSP
  else if f3 =? 4 then
    if bit 12 m_instr =? 0 then
      if bits 6 2 m_instr =? 0 then OP_C_JR else OP_C_MV
    else if bits 11 2 m_instr =? 0 then OP_C_EBREAK
    else if bits 6 2 m_instr =? 0 then OP_C_JALR
    else OP_C_ADD
  else if f3 =? 5 then OP_C_FSDSP
  else if f3 =? 6 then OP_C_SWSP
  else if XLEN =? 32 then OP_C_FSWSP else OP_C_SDSP.

Definition c_decode m_instr : op_C_Codes :=
  let op := c_opcode m_instr in
  if op =? 0 then c_decode_0 m_instr
  else if op =? 1 then c_decode_1 m_instr
  else if op =? 2 then c_decode_2 m_instr
  else OP_C_ERROR.

(** ** Execution *)

(** [0xFFFFFFFE] is an [unsigned int]: the 64-bit instance loses the upper half. *)
Definition Exec_C_JR m_instr : M S bool :=
  let rs1 := c_get_rs1 m_instr in
  let mem_addr := 0 in
  v ← getValue rs1;
  let new_pc := unsigned_T (v + mem_addr) .& 0xFFFFFFFE in
  setPC new_pc;; mret true.

Definition Exec_C_MV m_instr : M S bool :=
  let rd := get_rd m_instr in
  let rs2 := c_get_rs2 m_instr in
  calc ← getValue rs2;
  setValue rd calc;; mret true.

Definition Exec_C_ADD m_instr : M S bool :=
  let rd := c_get_rs1 m_instr in
  let rs1 := c_get_rs1 m_instr in
  let rs2 := c_get_rs2 m_instr in
  v1 ← getValue rs1;
  v2 ← getValue rs2;
  let calc := unsigned_T (v1 + v2) in
  setValue rd calc;; mret true.

Definition Exec_C_LWSP m_instr : M S bool :=
  let rd := get_rd m_instr in
  let rs1 := 2 in
  let imm := get_imm_LWSP m_instr in
  v ← getValue rs1;
  let mem_addr := unsigned_T (imm + v) in
  x ← read_mem mem_addr 4;
  let data := unsigned_T (s32 x) in
  setValue rd (s32 data);; mret true.

Definition Exec_C_ADDI4SPN m_instr : M S bool :=
  let rd := get_rdp m_instr in
  let rs1 := 2 in
  let imm := signed_T (get_imm_ADDI4SPN m_instr) in
  if imm =? 0 then
    RaiseException ILLEGAL_INSTRUCTION m_instr;; mret false
  else
    v ← getValue rs1;
    let calc := signed_T (signed_T v + imm) in
    setValue rd calc;; mret true.

(** C.ADDI16SP and C.LUI share the opcode. *)
Definition Exec_C_ADDI16SP m_instr : M S bool :=
  if get_rd m_instr =? 2 then
    let rd := 2 in
    let rs1 := 2 in
    let imm := get_imm_ADDI16SP m_instr in
    v ← getValue rs1;
    let calc := unsigned_T (v + imm) in
    setValue rd calc;; mret true
  else
    let rd := get_rd m_instr in
    let imm := get_imm_LUI m_instr in
    setValue rd imm;; mret true.

(** The address is a [uint32_t]. *)
Definition Exec_C_SWSP m_instr : M S bool :=
  let rs1 := 2 in
  let rs2 := c_get_rs2 m_instr in
  let imm := s32 (get_imm_CSS m_instr) in
  v ← getValue rs1;
  let mem_addr := u32 (imm + v) in
  v2 ← getValue rs2;
  let data := u32 v2 in
  write_mem mem_addr data 4;; mret true.

Definition Exec_C_BEQZ m_instr : M S bool :=
  let rs1 := get_rs1p m_instr in
  val1 ← getValue rs1;
  (if val1 =? 0 then
     pc ← getPC;
     setPC (unsigned_T (pc + s32 (get_imm_CB m_instr)))
   else incPCby2);;
  mret true.

Definition Exec_C_BNEZ m_instr : M S bool :=
  let rs1 := get_rs1p m_instr in
  val1 ← getValue rs1;
  (if negb (val1 =? 0) then
     pc ← getPC;
     setPC (unsigned_T (pc + s32 (get_imm_CB m_instr)))
   else incPCby2);;
  mret true.

Definition Exec_C_LI m_instr : M S bool :=
  let rd := get_rd m_instr in
  let rs1 := 0 in
  let imm := get_imm_ADDI m_instr in
  v ← getValue rs1;
  let calc := unsigned_T (v + imm) in
  setValue rd calc;; mret true.

(** The shift amount is the sign-extended immediate: with bit 12 set it is at least
    [2^32 - 32], and shifting by it is undefined. *)
Definition Exec_C_SRLI m_instr : M S bool :=
  let rd := get_rs1p m_instr in
  let rs1 := get_rs1p m_instr in
  let shift := u32 (get_imm_ADDI m_instr) in
  v ← getValue rs1;
  if shift <? XLEN then
    let calc := v .>> shift in
    setValue rd calc;; mret true
  else fail.

Definition Exec_C_SRAI m_instr : M S bool :=
  let rd := get_rs1p m_instr in
  let rs1 := get_rs1p m_instr in
  let shift := u32 (get_imm_ADDI m_instr) in
  v ← getValue rs1;
  if shift <? XLEN then
    let calc := unsigned_T (signed_T v .>> shift) in
    setValue rd calc;; mret true
  else fail.

Definition Exec_C_SLLI m_instr : M S bool :=
  let rd := c_get_rs1 m_instr in
  let rs1 := c_get_rs1 m_instr in
  let shift := unsigned_T (get_imm_ADDI m_instr) in
  v ← getValue rs1;
  if shift <? XLEN then
    let calc := unsigned_T (v .<< shift) in
    setValue rd calc;; mret true
  else fail.

Definition Exec_C_ANDI m_instr : M S bool :=
  let rd := get_rs1p m_instr in
  let rs1 := get_rs1p m_instr in
  let imm := get_imm_ADDI m_instr in
  v ← getValue rs1;
  let calc := v .& unsigned_T imm in
  setValue rd calc;; mret true.

Definition Exec_C_SUB m_instr : M S bool :=
  let rd := get_rs1p m_instr in
  v1 ← getValue (get_rs1p m_instr);
  v2 ← getValue (get_rs2p m_instr);
  let calc := unsigned_T (v1 - v2) in
  setValue rd calc;; mret true.

Definition Exec_C_SUBW m_instr : M S bool :=
  let rd := get_rs1p m_instr in
  v1 ← getValue (get_rs1p m_instr);
  v2 ← getValue (get_rs2p m_instr);
  let calc := u32 (s32 (unsigned_T (v1 - v2) .& 0xFFFFFFFF)) in
  setValue rd (s32 calc);; mret true.

Definition Exec_C_ADDW m_instr : M S bool :=
  let rd := get_rs1p m_instr in
  v1 ← getValue (get_rs1p m_instr);
  v2 ← getValue (get_rs2p m_instr);
  let calc := unsigned_T (s32 (unsigned_T (v1 + v2) .& 0xFFFFFFFF)) in
  setValue rd calc;; mret true.

Definition Exec_C_SDSP m_instr : M S bool :=
  let rs1 := 2 in
  let rs2 := c_get_rs2 m_instr in
  let imm := get_imm_CSDSP m_instr in
  v ← getValue rs1;
  let mem_addr := unsigned_T (imm + v) in
  data ← getValue rs2;
  write_mem mem_addr (data .& 0xFFFFFFFF) 4;;
  write_mem (unsigned_T (mem_addr + 4)) (data .>> 32) 4;; mret true.

Definition Exec_C_XOR m_instr : M S bool :=
  let rd := get_rs1p m_instr in
  v1 ← getValue (get_rs1p m_instr);
  v2 ← getValue (get_rs2p m_instr);
  let calc := v1 .^ v2 in
  setValue rd calc;; mret true.

Definition Exec_C_OR m_instr : M S bool :=
  let rd := get_rs1p m_instr in
  v1 ← getValue (get_rs1p m_instr);
  v2 ← getValue (get_rs2p m_instr);
  let calc := v1 .| v2 in
  setValue rd calc;; mret true.

Definition Exec_C_AND m_instr : M S bool :=
  let rd := get_rs1p m_instr in
  v1 ← getValue (get_rs1p m_instr);
  v2 ← getValue (get_rs2p m_instr);
  let calc := v1 .& v2 in
  setValue rd calc;; mret true.

Definition Exec_C_ADDI m_instr : M S bool :=
  let rd := get_rd m_instr in
  let rs1 := rd in
  let imm := get_imm_ADDI m_instr in
  v ← getValue rs1;
  let calc := unsigned_T (v + imm) in
  setValue rd calc;; mret true.

Definition Exec_C_ADDIW m_instr : M S bool :=
  let rd := get_rd m_instr in
  let rs1 := rd in
  let imm := get_imm_ADDI m_instr in
  v ← getValue rs1;
  let aux := s32 (v .& 0xFFFFFFFF) in
  let aux := s32 (aux + imm) in
  let calc := s32 aux in
  setValue rd calc;; mret true.

(** The pcs are [uint32_t]. *)
Definition Exec_C_JALR m_instr : M S bool :=
  let mem_addr := 0 in
  let rd := 1 in
  let rs1 := c_get_rs1 m_instr in
  pc ← getPC;
  let old_pc := u32 (s32 pc) in
  v ← getValue rs1;
  let new_pc := u32 (s32 (unsigned_T (v + mem_addr) .& 0xFFFFFFFE)) in
  setValue rd (u32 (old_pc + 2));;
  setPC new_pc;; mret true.

Definition Exec_C_LW m_instr : M S bool :=
  let rd := get_rdp m_instr in
  let rs1 := get_rs1p m_instr in
  let imm := get_imm_L m_instr in
  v ← getValue rs1;
  let mem_addr := unsigned_T (imm + v) in
  x ← read_mem mem_addr 4;
  let data := s32 x in
  setValue rd data;; mret true.

Definition Exec_C_LD m_instr : M S bool :=
  let rd := get_rdp m_instr in
  let rs1 := get_rs1p m_instr in
  let imm := get_imm_CL m_instr in
  v ← getValue rs1;
  let mem_addr := unsigned_T (imm + v) in
  lo ← read_mem mem_addr 4;
  let data := u32 lo in
  hi ← read_mem (unsigned_T (mem_addr + 4)) 4;
  let aux := u32 hi in
  let data := data .| u64 (aux .<< 32) in
  setValue rd data;; mret true.

Definition Exec_C_SD m_instr : M S bool :=
  let rs1 := get_rs1p m_instr in
  let rs2 := get_rs2p m_instr in
  let imm := get_imm_CL m_instr in
  v ← getValue rs1;
  let mem_addr := unsigned_T (imm + v) in
  data ← getValue rs2;
  write_mem mem_addr (data .& 0xFFFFFFFF) 4;;
  write_mem (unsigned_T (mem_addr + 4)) (data .>> 32) 4;; mret true.

Definition Exec_C_SW m_instr : M S bool :=
  let rs1 := get_rs1p m_instr in
  let rs2 := get_rs2p m_instr in
  let imm := s32 (get_imm_L m_instr) in
  v ← getValue rs1;
  let mem_addr := u32 (imm + v) in
  v2 ← getValue rs2;
  let data := u32 v2 in
  write_mem mem_addr data 4;; mret true.

(** Reached on RV32 only, where it stores the integer register pair-wise. *)
Definition Exec_C_FSW_SD m_instr : M S bool :=
  let rs1 := get_rs1p m_instr in
  let rs2 := get_rs2p m_instr in
  let imm := s32 (get_imm_L m_instr) in
  v ← getValue rs1;
  let mem_addr := u32 (imm + v) in
  data ← getValue rs2;
  let aux := u32 (data .>> 32) in
  write_mem mem_addr aux 4;;
  let aux := u32 (data .& 0xFFFFFFFF) in
  write_mem (u32 (mem_addr + 4)) aux 4;; mret true.

Definition Exec_C_LDSP m_instr : M S bool :=
  let rd := get_rd m_instr in
  let rs1 := 2 in
  let imm := get_imm_LDSP m_instr in
  v ← getValue rs1;
  let mem_addr := unsigned_T (imm + v) in
  lo ← read_mem mem_addr 4;
  let data := u32 lo in
  hi ← read_mem (unsigned_T (mem_addr + 4)) 4;
  let aux := u32 hi in
  let data := data .| u64 (aux .<< 32) in
  setValue rd data;; mret true.

Definition Exec_C_JAL (m_rd : Z) m_instr : M S bool :=
  let rd := m_rd in
  let mem_addr := c_get_imm_J m_instr in
  pc ← getPC;
  let old_pc := u32 (s32 pc) in
  let new_pc := u32 (old_pc + mem_addr) in
  setPC new_pc;;
  let old_pc := u32 (old_pc + 2) in
  setValue rd old_pc;; mret true.

Definition Exec_C_EBREAK m_instr : M S bool :=
  RaiseException BREAK m_instr;; mret false.

(** The result is [(PC_not_affected, breakpoint)]. *)
Definition c_exec_instruction m_instr (code : op_C_Codes) : M S (bool * bool) :=
  let keep (e : Z -> M S bool) := e m_instr;; mret (true, false) in
  let jump (e : Z -> M S bool) := e m_instr;; mret (false, false) in
  match code with
  | OP_C_ADDI4SPN => b ← Exec_C_ADDI4SPN m_instr; mret (b, false)
  | OP_C_LW => keep Exec_C_LW
  | OP_C_SW => keep Exec_C_SW
  | OP_C_ADDI => keep Exec_C_ADDI
  | OP_C_JAL => jump (Exec_C_JAL 1)
  | OP_C_J => jump (Exec_C_JAL 0)
  | OP_C_LI => keep Exec_C_LI
  | OP_C_SLLI => keep Exec_C_SLLI
  | OP_C_LWSP => keep Exec_C_LWSP
  | OP_C_JR => jump Exec_C_JR
  | OP_C_MV => keep Exec_C_MV
  | OP_C_JALR => jump Exec_C_JALR
  | OP_C_ADD => keep Exec_C_ADD
  | OP_C_SWSP => keep Exec_C_SWSP
  | OP_C_ADDI16SP => keep Exec_C_ADDI16SP
  | OP_C_BEQZ => jump Exec_C_BEQZ
  | OP_C_BNEZ => jump Exec_C_BNEZ
  | OP_C_SRLI => keep Exec_C_SRLI
  | OP_C_SRAI => keep Exec_C_SRAI
  | OP_C_ANDI => keep Exec_C_ANDI
  | OP_C_SUB => keep Exec_C_SUB
  | OP_C_XOR => keep Exec_C_XOR
  | OP_C_OR => keep Exec_C_OR
  | OP_C_AND => keep Exec_C_AND
  | OP_C_FSW => keep Exec_C_FSW_SD
  | OP_C_EBREAK => Exec_C_EBREAK m_instr;; mret (false, true)
  | OP_C_LD => keep Exec_C_LD
  | OP_C_SD => keep Exec_C_SD
  | OP_C_ADDIW => keep Exec_C_ADDIW
  | OP_C_ADDW => keep Exec_C_ADDW
  | OP_C_SUBW => keep Exec_C_SUBW
  | OP_C_SDSP => keep Exec_C_SDSP
  | OP_C_LDSP => keep Exec_C_LDSP
  | _ => RaiseException ILLEGAL_INSTRUCTION m_instr;; mret (true, false)
  end.
End c_extension.
