(* ===== verification/CExtProofs.v ===== *)
(** The compressed instructions against their 32-bit expansions: an assembler for the C
    extension written from the unprivileged specification, the decoder's round trip on
    it, and the execution of the integer compressed instructions as their expansions. *)
From S2P Require Import Prelude Bytes Memory PhysMem Regs BaseISA BaseISAProofs CExt.

(** ** The assembler *)

(** [c_r1] is the register of bits 11:7 (or 9:7), [c_r2] the one of bits 6:2 (or 4:2);
    [c_imm] is the byte offset, the shift amount or the immediate, for C.LUI the
    value of bits 17:12. *)
Record c_asm := mkC { c_op : op_C_Codes; c_r1 : Z; c_r2 : Z; c_imm : Z }.

(** First value and number of values. *)
Definition full_reg : Z * nat := (0, 32%nat).
Definition popular_reg : Z * nat := (8, 8%nat).
Definition no_reg : Z * nat := (0, 1%nat).

(** The registers and the immediates (first value, number of values, step) of an
    instruction, and the combinations the specification reserves. *)
Definition c_ranges (op : op_C_Codes) : (Z * nat) * (Z * nat) * (Z * nat * Z) :=
  match op with
  | OP_C_ADDI4SPN => (no_reg, popular_reg, (0, 256%nat, 4))
  | OP_C_LW | OP_C_SW => (popular_reg, popular_reg, (0, 32%nat, 4))
  | OP_C_LD | OP_C_SD => (popular_reg, popular_reg, (0, 32%nat, 8))
  | OP_C_ADDI | OP_C_ADDIW | OP_C_LI | OP_C_LUI => (full_reg, no_reg, (-32, 64%nat, 1))
  | OP_C_JAL | OP_C_J => (no_reg, no_reg, (-2048, 2048%nat, 2))
  | OP_C_ADDI16SP => (no_reg, no_reg, (-512, 64%nat, 16))
  | OP_C_SRLI | OP_C_SRAI => (popular_reg, no_reg, (0, 64%nat, 1))
  | OP_C_ANDI => (popular_reg, no_reg, (-32, 64%nat, 1))
  | OP_C_SUB | OP_C_XOR | OP_C_OR | OP_C_AND | OP_C_SUBW | OP_C_ADDW =>
      (popular_reg, popular_reg, (0, 1%nat, 1))
  | OP_C_BEQZ | OP_C_BNEZ => (popular_reg, no_reg, (-256, 256%nat, 2))
  | OP_C_SLLI => (full_reg, no_reg, (0, 64%nat, 1))
  | OP_C_LWSP => (full_reg, no_reg, (0, 64%nat, 4))
  | OP_C_LDSP => (full_reg, no_reg, (0, 64%nat, 8))
  | OP_C_JR | OP_C_JALR => (full_reg, no_reg, (0, 1%nat, 1))
  | OP_C_MV | OP_C_ADD => (full_reg, full_reg, (0, 1%nat, 1))
  | OP_C_SWSP => (no_reg, full_reg, (0, 64%nat, 4))
  | OP_C_SDSP => (no_reg, full_reg, (0, 64%nat, 8))
  | OP_C_EBREAK => (no_reg, no_reg, (0, 1%nat, 1))
  | _ => (no_reg, no_reg, (0, 0%nat, 1))
  end.

Definition c_legal (XLEN : Z) (c : c_asm) : bool :=
  match c_op c with
  | OP_C_ADDI4SPN | OP_C_ADDI16SP => negb (c_imm c =? 0)
  | OP_C_LUI => negb (c_imm c =? 0) && negb (c_r1 c =? 2)
  | OP_C_JAL => XLEN =? 32
  | OP_C_LD | OP_C_SD | OP_C_SDSP | OP_C_SUBW | OP_C_ADDW => XLEN =? 64
  | OP_C_LDSP | OP_C_ADDIW => (XLEN =? 64) && negb (c_r1 c =? 0)
  | OP_C_LWSP | OP_C_JR | OP_C_JALR => negb (c_r1 c =? 0)
  | OP_C_MV | OP_C_ADD => negb (c_r2 c =? 0)
  | OP_C_SLLI | OP_C_SRLI | OP_C_SRAI => c_imm c <? XLEN
  | _ => true
  end.

Definition in_range (r : Z * nat) (x : Z) : Prop := r.1 <= x < r.1 + Z.of_nat r.2.

Record c_ok (XLEN : Z) (c : c_asm) : Prop := {
  c_ok_r1 : in_range (c_ranges (c_op c)).1.1 (c_r1 c);
  c_ok_r2 : in_range (c_ranges (c_op c)).1.2 (c_r2 c);
  c_ok_imm : exists k, (k < (c_ranges (c_op c)).2.1.2)%nat /\
    c_imm c = (c_ranges (c_op c)).2.1.1 + Z.of_nat k * (c_ranges (c_op c)).2.2;
  c_ok_legal : c_legal XLEN c = true
}.

(** The 16-bit encodings; [u hi lo k] are the immediate bits [hi:lo] at bit [k]. *)
Definition c_encode (c : c_asm) : Z :=
  let u hi lo k := bits hi lo (c_imm c) * 2 ^ k in
  let q f3 op := f3 * 2 ^ 13 + op in
  let r1 := c_r1 c * 2 ^ 7 in
  let r2 := c_r2 c * 2 ^ 2 in
  let r1' := (c_r1 c - 8) * 2 ^ 7 in
  let r2' := (c_r2 c - 8) * 2 ^ 2 in
  let imm6 := u 5 5 12 + u 4 0 2 in
  let jump := u 11 11 12 + u 4 4 11 + u 9 8 9 + u 10 10 8 + u 6 6 7 + u 7 7 6 + u 3 1 3 + u 5 5 2 in
  let branch := u 8 8 12 + u 4 3 10 + u 7 6 5 + u 2 1 3 + u 5 5 2 in
  let arith b12 f2 := 4 * 2 ^ 13 + b12 * 2 ^ 12 + 3 * 2 ^ 10 + r1' + f2 * 2 ^ 5 + r2' + 1 in
  match c_op c with
  | OP_C_ADDI4SPN => q 0 0 + u 5 4 11 + u 9 6 7 + u 2 2 6 + u 3 3 5 + r2'
  | OP_C_LW => q 2 0 + u 5 3 10 + r1' + u 2 2 6 + u 6 6 5 + r2'
  | OP_C_LD => q 3 0 + u 5 3 10 + r1' + u 7 6 5 + r2'
  | OP_C_SW => q 6 0 + u 5 3 10 + r1' + u 2 2 6 + u 6 6 5 + r2'
  | OP_C_SD => q 7 0 + u 5 3 10 + r1' + u 7 6 5 + r2'
  | OP_C_ADDI => q 0 1 + r1 + imm6
  | OP_C_JAL => q 1 1 + jump
  | OP_C_ADDIW => q 1 1 + r1 + imm6
  | OP_C_LI => q 2 1 + r1 + imm6
  | OP_C_ADDI16SP => q 3 1 + 2 * 2 ^ 7 + u 9 9 12 + u 4 4 6 + u 6 6 5 + u 8 7 3 + u 5 5 2
  | OP_C_LUI => q 3 1 + r1 + imm6
  | OP_C_SRLI => q 4 1 + r1' + imm6
  | OP_C_SRAI => q 4 1 + 1 * 2 ^ 10 + r1' + imm6
  | OP_C_ANDI => q 4 1 + 2 * 2 ^ 10 + r1' + imm6
  | OP_C_SUB => arith 0 0
  | OP_C_XOR => arith 0 1
  | OP_C_OR => arith 0 2
  | OP_C_AND => arith 0 3
  | OP_C_SUBW => arith 1 0
  | OP_C_ADDW => arith 1 1
  | OP_C_J => q 5 1 + jump
  | OP_C_BEQZ => q 6 1 + r1' + branch
  | OP_C_BNEZ => q 7 1 + r1' + branch
  | OP_C_SLLI => q 0 2 + r1 + imm6
  | OP_C_LWSP => q 2 2 + r1 + u 5 5 12 + u 4 2 4 + u 7 6 2
  | OP_C_LDSP => q 3 2 + r1 + u 5 5 12 + u 4 3 5 + u 8 6 2
  | OP_C_JR => q 4 2 + r1
  | OP_C_MV => q 4 2 + r1 + r2
  | OP_C_EBREAK => q 4 2 + 2 ^ 12
  | OP_C_JALR => q 4 2 + 2 ^ 12 + r1
  | OP_C_ADD => q 4 2 + 2 ^ 12 + r1 + r2
  | OP_C_SWSP => q 6 2 + u 5 2 9 + u 7 6 7 + r2
  | OP_C_SDSP => q 7 2 + u 5 3 10 + u 8 6 7 + r2
  | _ => 0
  end.

(** The 32-bit instruction a compressed one abbreviates. *)
Definition c_expand (c : c_asm) : asm :=
  let r1 := c_r1 c in let r2 := c_r2 c in let u := c_imm c in
  match c_op c with
  | OP_C_ADDI4SPN => mkAsm OP_ADDI r2 2 0 u
  | OP_C_LW => mkAsm OP_LW r2 r1 0 u
  | OP_C_LD => mkAsm OP_LD r2 r1 0 u
  | OP_C_SW => mkAsm OP_SW 0 r1 r2 u
  | OP_C_SD => mkAsm OP_SD 0 r1 r2 u
  | OP_C_ADDI => mkAsm OP_ADDI r1 r1 0 u
  | OP_C_JAL => mkAsm OP_JAL 1 0 0 u
  | OP_C_ADDIW => mkAsm OP_ADDIW r1 r1 0 u
  | OP_C_LI => mkAsm OP_ADDI r1 0 0 u
  | OP_C_ADDI16SP => mkAsm OP_ADDI 2 2 0 u
  | OP_C_LUI => mkAsm OP_LUI r1 0 0 (u mod 2 ^ 20)
  | OP_C_SRLI => mkAsm OP_SRLI r1 r1 0 u
  | OP_C_SRAI => mkAsm OP_SRAI r1 r1 0 u
  | OP_C_ANDI => mkAsm OP_ANDI r1 r1 0 u
  | OP_C_SUB => mkAsm OP_SUB r1 r1 r2 0
  | OP_C_XOR => mkAsm OP_XOR r1 r1 r2 0
  | OP_C_OR => mkAsm OP_OR r1 r1 r2 0
  | OP_C_AND => mkAsm OP_AND r1 r1 r2 0
  | OP_C_SUBW => mkAsm OP_SUBW r1 r1 r2 0
  | OP_C_ADDW => mkAsm OP_ADDW r1 r1 r2 0
  | OP_C_J => mkAsm OP_JAL 0 0 0 u
  | OP_C_BEQZ => mkAsm OP_BEQ 0 r1 0 u
  | OP_C_BNEZ => mkAsm OP_BNE 0 r1 0 u
  | OP_C_SLLI => mkAsm OP_SLLI r1 r1 0 u
  | OP_C_LWSP => mkAsm OP_LW r1 2 0 u
  | OP_C_LDSP => mkAsm OP_LD r1 2 0 u
  | OP_C_JR => mkAsm OP_JALR 0 r1 0 0
  | OP_C_MV => mkAsm OP_ADD r1 0 r2 0
  | OP_C_EBREAK => mkAsm OP_EBREAK 0 0 0 0
  | OP_C_JALR => mkAsm OP_JALR 1 r1 0 0
  | OP_C_ADD => mkAsm OP_ADD r1 r1 r2 0
  | OP_C_SWSP => mkAsm OP_SW 0 2 r2 u
  | OP_C_SDSP => mkAsm OP_SD 0 2 r2 u
  | _ => mkAsm OP_ERROR 0 0 0 0
  end.

(** What the accessors must answer on the encoding. *)
Definition c_operands (c : c_asm) (w : Z) : Prop :=
  let r1 := c_r1 c in let r2 := c_r2 c in let u := c_imm c in
  match c_op c with
  | OP_C_ADDI4SPN => get_rdp w = r2 /\ get_imm_ADDI4SPN w = u
  | OP_C_LW => get_rdp w = r2 /\ get_rs1p w = r1 /\ get_imm_L w = u
  | OP_C_LD => get_rdp w = r2 /\ get_rs1p w = r1 /\ get_imm_CL w = u
  | OP_C_SW => get_rs2p w = r2 /\ get_rs1p w = r1 /\ get_imm_L w = u
  | OP_C_SD => get_rs2p w = r2 /\ get_rs1p w = r1 /\ get_imm_CL w = u
  | OP_C_ADDI | OP_C_ADDIW | OP_C_LI => get_rd w = r1 /\ get_imm_ADDI w = u
  | OP_C_JAL | OP_C_J => c_get_imm_J w = u
  | OP_C_ADDI16SP => get_rd w = 2 /\ get_imm_ADDI16SP w = u
  | OP_C_LUI => get_rd w = r1 /\ get_imm_LUI w = u * 2 ^ 12
  | OP_C_SRLI | OP_C_SRAI => get_rs1p w = r1 /\ get_imm_ADDI w = signed 6 u
  | OP_C_SLLI => c_get_rs1 w = r1 /\ get_imm_ADDI w = signed 6 u
  | OP_C_ANDI => get_rs1p w = r1 /\ get_imm_ADDI w = u
  | OP_C_SUB | OP_C_XOR | OP_C_OR | OP_C_AND | OP_C_SUBW | OP_C_ADDW =>
      get_rs1p w = r1 /\ get_rs2p w = r2
  | OP_C_BEQZ | OP_C_BNEZ => get_rs1p w = r1 /\ s32 (get_imm_CB w) = u
  | OP_C_LWSP => get_rd w = r1 /\ get_imm_LWSP w = u
  | OP_C_LDSP => get_rd w = r1 /\ get_imm_LDSP w = u
  | OP_C_JR | OP_C_JALR => c_get_rs1 w = r1
  | OP_C_MV | OP_C_ADD => get_rd w = r1 /\ c_get_rs1 w = r1 /\ c_get_rs2 w = r2
  | OP_C_SWSP => c_get_rs2 w = r2 /\ get_imm_CSS w = u
  | OP_C_SDSP => c_get_rs2 w = r2 /\ get_imm_CSDSP w = u
  | _ => True
  end.

(** C.LUI decodes to the opcode it shares with C.ADDI16SP. *)
Definition c_code (op : op_C_Codes) : op_C_Codes :=
  match op with OP_C_LUI => OP_C_ADDI16SP | _ => op end.

(** ** The round trip, by computation over all the operands *)

#[local] Instance c_operands_dec c w : Decision (c_operands c w).
Proof. unfold c_operands. destruct (c_op c); apply _. Defined.

Definition check_one (c : c_asm) : bool :=
  let w := c_encode c in
  let check_decode XLEN := implb (c_legal XLEN c) (bool_decide (c_decode XLEN w = c_code (c_op c))) in
  implb (c_legal 32 c || c_legal 64 c)
    ((0 <=? w) && (w <? 2 ^ 16) && check_decode 32 && check_decode 64 &&
     bool_decide (c_operands c w)).

Definition range_list (r : Z * nat) : list Z := (fun k => r.1 + Z.of_nat k) <$> seq 0 r.2.

Definition check_op (op : op_C_Codes) : bool :=
  let '(r1s, r2s, (lo, n, step)) := c_ranges op in
  forallb (fun r1 => forallb (fun r2 => forallb (fun k =>
    check_one (mkC op r1 r2 (lo + Z.of_nat k * step)))
    (seq 0 n)) (range_list r2s)) (range_list r1s).

Lemma elem_range_list r x : in_range r x -> In x (range_list r).
Proof.
  intros Hx. unfold range_list. apply in_map_iff. exists (Z.to_nat (x - r.1)).
  unfold in_range in Hx. split; [lia|]. apply in_seq. lia.
Qed.

Lemma check_op_spec XLEN c : check_op (c_op c) = true -> c_ok XLEN c -> check_one c = true.
Proof.
  intros Hc [H1 H2 (k & Hk & Hu) _]. destruct c as [op r1 r2 u]. simpl in *. unfold check_op in Hc.
  destruct (c_ranges op) as [[r1s r2s] [[lo n] step]]. simpl in *. subst u.
  rewrite forallb_forall in Hc. specialize (Hc r1 (elem_range_list _ _ H1)).
  rewrite forallb_forall in Hc. specialize (Hc r2 (elem_range_list _ _ H2)).
  rewrite forallb_forall in Hc. apply Hc, in_seq. lia.
Qed.

Definition all_ops : list op_C_Codes :=
  [OP_C_ADDI4SPN; OP_C_FLD; OP_C_LW; OP_C_FLW; OP_C_LD; OP_C_FSD; OP_C_SW; OP_C_FSW; OP_C_SD;
   OP_C_NOP; OP_C_ADDI; OP_C_JAL; OP_C_ADDIW; OP_C_LI; OP_C_ADDI16SP; OP_C_LUI; OP_C_SRLI;
   OP_C_SRAI; OP_C_ANDI; OP_C_SUB; OP_C_SUBW; OP_C_XOR; OP_C_ADDW; OP_C_OR; OP_C_AND; OP_C_J;
   OP_C_BEQZ; OP_C_BNEZ; OP_C_SLLI; OP_C_FLDSP; OP_C_LWSP; OP_C_FLWSP; OP_C_LDSP; OP_C_JR;
   OP_C_MV; OP_C_EBREAK; OP_C_JALR; OP_C_ADD; OP_C_FSDSP; OP_C_SWSP; OP_C_FSWSP; OP_C_SDSP;
   OP_C_ERROR].

Lemma check_all : forallb check_op all_ops = true.
Proof. vm_cast_no_check (eq_refl true). Qed.

Lemma check_ok XLEN c : c_ok XLEN c -> check_one c = true.
Proof.
  apply check_op_spec. pose proof check_all as H. rewrite forallb_forall in H. apply H.
  destruct (c_op c); simpl; tauto.
Qed.

(** The accessors read the low half only. *)
Lemma bits_u16 hi lo w : 0 <= lo <= hi -> hi < 16 -> bits hi lo (u16 w) = bits hi lo w.
Proof.
  intros. apply Z.bits_inj'. intros i Hi. rewrite !testbit_bits, testbit_wrap by lia.
  destruct (Z.ltb_spec i (hi - lo + 1)); simpl; [|done].
  by rewrite (proj2 (Z.ltb_lt (i + lo) 16)) by lia.
Qed.
Lemma bit_u16 i w : 0 <= i < 16 -> bit i (u16 w) = bit i w.
Proof.
  intros. unfold bit. rewrite testbit_wrap by lia. by rewrite (proj2 (Z.ltb_lt i 16)) by lia.
Qed.

Ltac low_half := rewrite ?bits_u16, ?bit_u16 by lia.

Lemma c_decode_u16 XLEN w : c_decode XLEN (u16 w) = c_decode XLEN w.
Proof.
  unfold c_decode, c_decode_0, c_decode_1, c_decode_1_4, c_decode_2, c_opcode, c_get_funct3.
  by low_half.
Qed.
Lemma c_operands_u16 c w : c_operands c (u16 w) <-> c_operands c w.
Proof.
  unfold c_operands, get_rdp, get_rs1p, get_rs2p, c_get_rs1, c_get_rs2, get_rd, get_imm_ADDI4SPN,
    get_imm_L, get_imm_CL, get_imm_ADDI, c_get_imm_J, get_imm_ADDI16SP, get_imm_LUI, get_imm_CB,
    get_imm_LWSP, get_imm_LDSP, get_imm_CSS, get_imm_CSDSP.
  cbv zeta. low_half. done.
Qed.

Lemma c_decode_encode_lemma XLEN c w :
  XLEN = 32 \/ XLEN = 64 -> c_ok XLEN c -> u16 w = c_encode c ->
  c_decode XLEN w = c_code (c_op c) /\ c_operands c w.
Proof.
  intros HX Hc Hw. pose proof (check_ok XLEN c Hc) as H. unfold check_one in H. cbv zeta in H.
  assert (c_legal 32 c || c_legal 64 c = true) as E
    by (pose proof (c_ok_legal XLEN c Hc); destruct HX as [-> | ->]; by apply orb_true_iff; auto).
  rewrite E, <-Hw in H. cbn [implb] in H.
  apply andb_prop in H as [H H5%bool_decide_eq_true].
  apply andb_prop in H as [H H4]. apply andb_prop in H as [H H3].
  split; [|by apply c_operands_u16]. rewrite <-c_decode_u16.
  destruct HX as [-> | ->].
  - rewrite (c_ok_legal 32 c Hc) in H3. by apply bool_decide_eq_true in H3.
  - rewrite (c_ok_legal 64 c Hc) in H4. by apply bool_decide_eq_true in H4.
Qed.

(** ** Expansion *)

Lemma c_expand_ok XLEN c : c_ok XLEN c -> asm_ok (c_expand c).
Proof.
  intros [H1 H2 (k & Hk & Hu) Hl]. destruct c as [op r1 r2 u]. unfold in_range in *. simpl in *.
  destruct op; simpl in *; try lia; (split; unfold imm_range; simpl; [done|euclid..]).
Qed.

(** Where the code keeps to the specification: shift amounts below 32, and 32-bit
    jump targets, link addresses and word-store addresses. *)
Definition c_faithful (XLEN : Z) (c : c_asm) (pc : Z) (r : Z -> Z) : Prop :=
  match c_op c with
  | OP_C_SRLI | OP_C_SRAI | OP_C_SLLI => c_imm c < 32
  | OP_C_SW => fits 32 (wrap XLEN (r (c_r1 c) + c_imm c))
  | OP_C_SWSP => fits 32 (wrap XLEN (r 2 + c_imm c))
  | OP_C_J | OP_C_JAL =>
      fits 32 (wrap XLEN (pc + c_imm c)) /\ fits 32 (wrap XLEN (pc + 2))
  | OP_C_JR => fits 32 (r (c_r1 c))
  | OP_C_JALR => fits 32 (r (c_r1 c)) /\ fits 32 (wrap XLEN (pc + 2))
  | _ => True
  end.

Definition c_shift (op : op_C_Codes) : bool :=
  match op with OP_C_SRLI | OP_C_SRAI | OP_C_SLLI => true | _ => false end.

Definition c_control (op : op_C_Codes) : bool :=
  match op with
  | OP_C_J | OP_C_JAL | OP_C_JR | OP_C_JALR | OP_C_BEQZ | OP_C_BNEZ | OP_C_EBREAK => true
  | _ => false
  end.

Lemma u32_wrap_fits XLEN x : 32 <= XLEN -> fits 32 (wrap XLEN x) -> u32 x = wrap XLEN x.
Proof. intros HX Hf. by rewrite <-(wrap_le_idemp 32 XLEN), wrap_small by (done || lia). Qed.

Lemma clear_bit0_32 x : fits 32 x -> x .& 0xFFFFFFFE = 2 * (x / 2).
Proof.
  intros Hx. apply Z.bits_inj'. intros i Hi. rewrite Z.land_spec.
  change 0xFFFFFFFE with (u32 (Z.lnot 1)). rewrite testbit_wrap, Z.lnot_spec by lia.
  destruct (Z.eqb_spec i 0) as [->|Hn].
  - rewrite Z.testbit_even_0. by rewrite !andb_false_r.
  - replace i with (Z.succ (i - 1)) at 4 by lia. rewrite Z.testbit_even_succ by lia.
    rewrite <-Z.div2_div, Z.div2_spec, Z.shiftr_spec by lia. replace (i - 1 + 1) with i by lia.
    change 1 with (Z.b2z true). rewrite testbit_bit0, (proj2 (Z.eqb_neq i 0)) by done. simpl.
    rewrite andb_true_r. destruct (Z.ltb_spec i 32); simpl; [by rewrite andb_true_r|].
    by rewrite (fits_testbit 32 x), andb_false_r by (done || lia).
Qed.

Ltac unfold_c :=
  unfold c_exec_instruction, Exec_C_ADDI4SPN, Exec_C_LW, Exec_C_SW, Exec_C_ADDI, Exec_C_JAL,
    Exec_C_LI, Exec_C_SLLI, Exec_C_LWSP, Exec_C_JR, Exec_C_MV, Exec_C_JALR, Exec_C_ADD,
    Exec_C_SWSP, Exec_C_ADDI16SP, Exec_C_BEQZ, Exec_C_BNEZ, Exec_C_SRLI, Exec_C_SRAI,
    Exec_C_ANDI, Exec_C_SUB, Exec_C_XOR, Exec_C_OR, Exec_C_AND, Exec_C_EBREAK,
    Exec_C_LD, Exec_C_SD, Exec_C_ADDIW, Exec_C_ADDW, Exec_C_SUBW, Exec_C_SDSP, Exec_C_LDSP.

Section expansion.
Context {S : Type} `{Target S}.
Variable XLEN : Z.
Hypothesis XLEN_ok : XLEN = 32 \/ XLEN = 64.

Ltac fields :=
  repeat match goal with
  | H : _ /\ _ |- _ => destruct H
  | H : ?f ?w = _ |- context [?f ?w] => rewrite H
  | H : ?f XLEN ?w = _ |- context [?f XLEN ?w] => rewrite H
  end.


(** The registers a legal instruction names. *)
Lemma c_regs_range c :
  c_ok XLEN c -> 0 <= c_r1 c < 32 /\ 0 <= c_r2 c < 32.
Proof.
  intros [H1 H2 _ _]. unfold in_range in *. destruct (c_op c); simpl in *; lia.
Qed.

Ltac expansion_start c w h Hwf Hc Hw Ho Hb :=
  pose proof (c_decode_encode_lemma XLEN c w XLEN_ok Hc Hw) as [-> Ho];
  pose proof (decode_encode_lemma XLEN (c_expand c) XLEN_ok (c_expand_ok XLEN c Hc)) as (_ & -> & Hb);
  pose proof (c_regs_range c Hc) as [? ?];
  unfold c_operands, operands in Ho, Hb; unfold c_expand, c_faithful, c_control, c_code in *.

Lemma signed_add_l x u : signed XLEN (signed XLEN x + u) = signed XLEN (x + u).
Proof.
  apply signed_mod. by rewrite <-wrap_add_l, wrap_signed, wrap_add_l by lia.
Qed.

Lemma lui_imm u : -32 <= u < 32 ->
  wrap XLEN (u * 2 ^ 12) = wrap XLEN (s32 (wrap XLEN ((u mod 2 ^ 20) .<< 12))).
Proof.
  intros Hu. rewrite signed_wrap_le, Z.shiftl_mul_pow2 by lia. f_equal.
  rewrite <-(signed_id 32 (u * 2 ^ 12)) by lia. apply signed_mod. unfold wrap. euclid.
Qed.

Lemma expansion_regs c w (h : hart S) :
  hart_wf XLEN h -> c_ok XLEN c -> u16 w = c_encode c ->
  In (c_op c) [OP_C_ADDI4SPN; OP_C_ADDI; OP_C_ADDIW; OP_C_LI; OP_C_ADDI16SP; OP_C_LUI; OP_C_ANDI;
               OP_C_SUB; OP_C_XOR; OP_C_OR; OP_C_AND; OP_C_SUBW; OP_C_ADDW; OP_C_MV; OP_C_ADD] ->
  c_exec_instruction XLEN w (c_decode XLEN w) h =
  exec_instruction XLEN (encode (c_expand c)) (decode (encode (c_expand c))) h.
Proof.
  intros Hwf Hc Hw Hop. expansion_start c w h Hwf Hc Hw Ho Hb.
  destruct c as [op r1 r2 u]; cbn [c_op c_r1 c_r2 c_imm] in *.
  repeat destruct Hop as [<-|Hop]; [..|done]; cbn [a_op fmt a_rd a_rs1 a_rs2 a_imm] in *;
    cbn [exec_instruction]; unfold_c; unfold_exec; cbv zeta; fields; try reflexivity;
    destruct Hc as [_ _ (k & Hk & Hu) Hl]; cbn in Hk, Hu, Hl.
  - assert (4 <= u < 1024) by lia.
    rewrite (signed_id XLEN u) by (destruct XLEN_ok as [-> | ->]; lia).
    rewrite (proj2 (Z.eqb_neq u 0)) by lia. hexec.
    by rewrite signed_add_l, wrap_signed, wrap_idemp by lia.
  - by rewrite (signed_id 32 u) by lia.
  - rewrite (proj2 (Z.eqb_neq r1 2)) by lia. hexec. by rewrite wrap_idemp, <-lui_imm by lia.
  - hexec. by rewrite signed_sub, wrap_signed, wrap_idemp by lia.
  - hexec. by rewrite signed_wrap, signed_signed, wrap_idemp by lia.
  - hexec. rewrite signed_add, wrap_signed by lia. by rewrite (hwf_x0 XLEN h Hwf), Z.add_0_l.
  - hexec. by rewrite signed_add, wrap_signed, wrap_idemp by lia.
Qed.

(** The shift amount below 32 is the accessor's value. *)
Lemma shift_amount v u : 0 <= u < 32 -> 6 <= v -> wrap v (signed 6 u) = u.
Proof.
  intros Hu Hv. rewrite signed_id by lia. apply wrap_small.
  apply (fits_mono 6); [lia..|]. unfold fits. lia.
Qed.

Lemma expansion_shift c w (h : hart S) :
  hart_wf XLEN h -> c_ok XLEN c -> u16 w = c_encode c -> c_imm c < 32 ->
  In (c_op c) [OP_C_SLLI; OP_C_SRLI; OP_C_SRAI] ->
  c_exec_instruction XLEN w (c_decode XLEN w) h =
  exec_instruction XLEN (encode (c_expand c)) (decode (encode (c_expand c))) h.
Proof.
  intros Hwf Hc Hw Hf Hop.
  assert (0 <= c_imm c) as H0
    by (destruct Hc as [_ _ (k & Hk & ->) _]; repeat destruct Hop as [<-|Hop]; simpl in *; lia).
  assert (c_imm c < XLEN) as Hx by lia.
  assert (alu_class_of (a_op (c_expand c)) = Some ALU_shift /\ a_imm (c_expand c) = c_imm c)
    as [Ec Ei] by (unfold c_expand; by repeat destruct Hop as [<-|Hop]).
  rewrite (exec_asm_alu XLEN (c_expand c) ALU_shift h XLEN_ok Hwf (c_expand_ok XLEN c Hc) Ec);
    [|by rewrite Ei].
  clear Ec Ei.
  pose proof (c_decode_encode_lemma XLEN c w XLEN_ok Hc Hw) as [-> Ho].
  pose proof (c_regs_range c Hc) as [? ?]. pose proof (shift_amount 32 (c_imm c)) as E1.
  pose proof (shift_amount XLEN (c_imm c)) as E2.
  unfold c_operands in Ho. unfold c_expand, asm_src1, asm_src2, alu_spec.
  destruct c as [op r1 r2 u]; cbn [c_op c_r1 c_r2 c_imm] in *.
  repeat destruct Hop as [<-|Hop]; [..|done]; unfold_c; cbn [c_code a_op a_rs1 a_rd a_imm];
    cbv zeta; fields; rewrite ?E1, ?E2 by lia; hexec;
    rewrite (proj2 (Z.ltb_lt _ _) Hx); hexec;
    rewrite Z.mod_small, ?Z.shiftl_mul_pow2, ?Z.shiftr_div_pow2, ?wrap_idemp by lia; [done| |done].
  by rewrite (wrap_div_pow2 XLEN) by (try apply reg_fits; done).
Qed.

Lemma wrap_add_signed x y : wrap XLEN (x + signed XLEN y) = wrap XLEN (x + y).
Proof. by rewrite <-wrap_add_r, wrap_signed, wrap_add_r by lia. Qed.

Lemma expansion_memory c w (h : hart S) :
  hart_wf XLEN h -> c_ok XLEN c -> u16 w = c_encode c -> c_faithful XLEN c (register_PC h) (reg h) ->
  In (c_op c) [OP_C_LW; OP_C_LWSP; OP_C_LD; OP_C_LDSP; OP_C_SW; OP_C_SWSP; OP_C_SD; OP_C_SDSP] ->
  c_exec_instruction XLEN w (c_decode XLEN w) h =
  exec_instruction XLEN (encode (c_expand c)) (decode (encode (c_expand c))) h.
Proof.
  intros Hwf Hc Hw Hf Hop. expansion_start c w h Hwf Hc Hw Ho Hb.
  destruct c as [op r1 r2 u]; cbn [c_op c_r1 c_r2 c_imm] in *.
  repeat destruct Hop as [<-|Hop]; [..|done]; cbn [a_op fmt a_rd a_rs1 a_rs2 a_imm] in *;
    cbn [exec_instruction]; unfold_c; unfold_exec; cbv zeta; fields;
    destruct Hc as [_ _ (k & Hk & Hu) Hl]; cbn in Hk, Hu, Hl; try reflexivity; hexec;
    rewrite ?wrap_add_signed by lia; try reflexivity.
  - destruct (read_mem _ _ h) as [[x h']|]; [|done]. hexec.
    by rewrite signed_wrap_le, signed_signed by lia.
  - by rewrite (signed_id 32 u), (u32_wrap_fits XLEN) by (lia || by rewrite Z.add_comm).
  - by rewrite (signed_id 32 u), (u32_wrap_fits XLEN) by (lia || by rewrite Z.add_comm).
Qed.

(** The instructions that do not transfer control execute as their expansion. *)
Lemma expansion_lemma c w (h : hart S) :
  hart_wf XLEN h -> c_ok XLEN c -> u16 w = c_encode c -> c_faithful XLEN c (register_PC h) (reg h) ->
  c_control (c_op c) = false ->
  c_exec_instruction XLEN w (c_decode XLEN w) h =
  exec_instruction XLEN (encode (c_expand c)) (decode (encode (c_expand c))) h.
Proof.
  intros Hwf Hc Hw Hf Hcc. destruct (c_op c) eqn:E; try discriminate Hcc;
    first [ apply expansion_regs; [done..|]; rewrite E; simpl; tauto
          | apply expansion_memory; [done..|]; rewrite E; simpl; tauto
          | apply expansion_shift; [done..| |]; unfold c_faithful in Hf; rewrite E in *; simpl; tauto
          | destruct Hc as [_ _ (k & Hk & _) _]; rewrite E in Hk; simpl in Hk; lia ].
Qed.

Lemma pc_32 p u :
  fits 32 (wrap XLEN (p + u)) -> wrap XLEN (u32 (u32 (s32 p) + u)) = wrap XLEN (p + u).
Proof. intros. by rewrite wrap_signed, wrap_add_l, (u32_wrap_fits XLEN), wrap_idemp by (done || lia). Qed.

Lemma jr_target v : fits 32 v -> wrap XLEN (v + 0) .& 0xFFFFFFFE = 2 * (wrap XLEN (v + 0) / 2).
Proof.
  intros Hv. rewrite Z.add_0_r, (wrap_small XLEN) by (apply (fits_mono 32); (done || lia)).
  by apply clear_bit0_32.
Qed.

Lemma jr_target_fits v : fits 32 v -> fits 32 (2 * (wrap XLEN (v + 0) / 2)).
Proof.
  intros Hv. rewrite Z.add_0_r, (wrap_small XLEN) by (apply (fits_mono 32); (done || lia)).
  unfold fits in *. euclid.
Qed.

(** The control transfers, with the length of a compressed instruction. *)
Lemma control_lemma c w pc' (h : hart S) :
  hart_wf XLEN h -> c_ok XLEN c -> u16 w = c_encode c -> c_faithful XLEN c (register_PC h) (reg h) ->
  asm_next_pc XLEN 2 (c_expand c) (register_PC h) (reg h) = Some pc' -> c_control (c_op c) = true ->
  c_exec_instruction XLEN w (c_decode XLEN w) h =
    Some ((false, false),
      (let h' := { h with register_PC := pc' } in
       if links (a_op (c_expand c))
       then write_reg (a_rd (c_expand c)) (wrap XLEN (register_PC h + 2)) h' else h')).
Proof.
  intros Hwf Hc Hw Hf Hpc Hctl.
  pose proof (c_decode_encode_lemma XLEN c w XLEN_ok Hc Hw) as [-> Ho].
  pose proof (c_regs_range c Hc) as [? ?].
  pose proof (reg_fits XLEN h (c_r1 c) Hwf ltac:(done)) as Fr.
  pose proof (hwf_x0 XLEN h Hwf) as Hx0.
  destruct c as [op r1 r2 u]; unfold asm_next_pc, c_faithful, c_operands, c_expand in *;
    cbn [c_op c_r1 c_r2 c_imm] in *.
  destruct op; try discriminate Hctl; cbn in Hpc; try discriminate Hpc; injection Hpc as <-;
    unfold_c; cbn [c_code a_op a_rd links]; cbv zeta; fields; hexec.
  - by rewrite !pc_32.
  - by rewrite !pc_32.
  - destruct (reg h r1 =? 0); [|done]. by rewrite wrap_idemp.
  - destruct (negb (reg h r1 =? 0)); [|done]. by rewrite wrap_idemp.
  - rewrite jr_target, wrap_small; [done|apply (fits_mono 32); [lia..|]|done].
    by apply jr_target_fits.
  - rewrite jr_target, pc_32 by done. pose proof (jr_target_fits (reg h r1) ltac:(done)).
    rewrite wrap_signed, (wrap_small 32), (wrap_small XLEN (2 * _))
      by (done || lia || by apply (fits_mono 32); [lia..|]).
    done.
Qed.

Lemma ebreak_lemma c w (h : hart S) :
  c_ok XLEN c -> u16 w = c_encode c -> c_op c = OP_C_EBREAK ->
  exists h',
    exec_instruction XLEN (encode (c_expand c)) (decode (encode (c_expand c))) h =
      Some ((false, false), h') /\
    c_exec_instruction XLEN w (c_decode XLEN w) h = Some ((false, true), h').
Proof.
  intros Hc Hw E. pose proof (c_decode_encode_lemma XLEN c w XLEN_ok Hc Hw) as [-> _].
  pose proof (decode_encode_lemma XLEN (c_expand c) XLEN_ok (c_expand_ok XLEN c Hc)) as (_ & -> & _).
  unfold c_expand. rewrite E. eexists. split; reflexivity.
Qed.

(** A shift amount of 32 or more reads back as a negative one. *)
Lemma wide_shift_lemma c w (h : hart S) :
  c_ok XLEN c -> u16 w = c_encode c -> c_shift (c_op c) -> 32 <= c_imm c ->
  c_exec_instruction XLEN w (c_decode XLEN w) h = None.
Proof.
  intros Hc Hw Hs Hi. pose proof (c_decode_encode_lemma XLEN c w XLEN_ok Hc Hw) as [-> Ho].
  assert (signed 6 (c_imm c) = c_imm c - 64 /\ c_imm c < 64) as [Es H64].
  { destruct Hc as [_ _ (k & Hk & E) _]. rewrite E in *.
    destruct (c_op c); try done; cbn [c_ranges fst snd] in *; (split; [|lia]);
      unfold signed; (rewrite wrap_small by (unfold fits; lia)); cbv zeta;
      change (2 ^ (6 - 1)) with 32; change (2 ^ 6) with 64;
      by rewrite (proj2 (Z.ltb_ge (0 + Z.of_nat k * 1) 32)) by lia. }
  assert (forall n, n = 32 \/ n = XLEN -> (wrap n (c_imm c - 64) <? XLEN) = false) as Hn.
  { intros n Hn. assert (32 <= n) by lia. apply Z.ltb_ge. unfold wrap.
    assert (4294967296 <= 2 ^ n) by (change 4294967296 with (2 ^ 32); apply Z.pow_le_mono_r; lia).
    rewrite <-(Z.mod_add _ 1), Z.mod_small by lia. lia. }
  unfold c_operands in Ho. destruct c as [op r1 r2 u]; cbn [c_op c_r1 c_r2 c_imm] in *.
  destruct op; try done; destruct Ho as [Hr Ho]; unfold_c; cbn [c_code]; cbv zeta;
    rewrite Hr, Ho, Es; hexec; rewrite Hn by (by auto); by destruct (getValue _ _ _) as [[]|].
Qed.

End expansion.

(** ** The properties *)

(** C15: an integer compressed instruction of RV32C or RV64C (every [c_ok] one: no
    floating-point load or store), encoded in the low half of a word whose upper half is
    arbitrary, decodes to its opcode and the accessors answer its registers and its
    immediate. C.LUI decodes to the opcode the code shares between it and C.ADDI16SP (it
    tells them apart by rd), and a shift amount is recovered as the sign-extended six-bit
    field, which is the amount itself below 32. Checked for every value of the operands. *)
Theorem c_decode_encode XLEN c w :
  XLEN = 32 \/ XLEN = 64 -> c_ok XLEN c -> u16 w = c_encode c ->
  c_decode XLEN w = c_code (c_op c) /\ c_operands c w.
Proof. apply c_decode_encode_lemma. Qed.

(** C6: the integer compressed instructions ([c_ok]) against the 32-bit instructions they
    abbreviate, on every hart and memory. Where [c_faithful] holds, that is on RV64 with
    shift amounts below 32 and with C.SW/C.SWSP addresses, jump targets and link values
    below 2^32 (always so on RV32): an instruction that does not transfer control has the
    effect of its expansion, and a jump or branch goes where its expansion goes, 2 further
    when not taken, and links pc + 2. C.EBREAK differs from EBREAK in the breakpoint flag
    only. A shift by 32 or more, which RV64 has, is a shift of the C++ by an amount that
    exceeds the register width: undefined, so the model has no result. *)
Theorem c_instruction_expands {S} `{Target S} XLEN c w (h : hart S) :
  XLEN = 32 \/ XLEN = 64 -> hart_wf XLEN h -> c_ok XLEN c -> u16 w = c_encode c ->
  let pc := register_PC h in
  let expanded := exec_instruction XLEN (encode (c_expand c)) (decode (encode (c_expand c))) h in
  let run := c_exec_instruction XLEN w (c_decode XLEN w) h in
  (c_faithful XLEN c pc (reg h) ->
   (c_control (c_op c) = false -> run = expanded) /\
   (forall pc', c_control (c_op c) = true ->
      asm_next_pc XLEN 2 (c_expand c) pc (reg h) = Some pc' ->
      let h' := { h with register_PC := pc' } in
      run = Some ((false, false),
        if links (a_op (c_expand c))
        then write_reg (a_rd (c_expand c)) (wrap XLEN (pc + 2)) h' else h'))) /\
  (c_op c = OP_C_EBREAK -> exists h', expanded = Some ((false, false), h') /\
     run = Some ((false, true), h')) /\
  (c_shift (c_op c) -> 32 <= c_imm c -> run = None).
Proof.
  intros HX Hwf Hc Hw pc expanded run. split_and!; [intros Hf; split| |]; intros.
  - by apply expansion_lemma.
  - by apply control_lemma.
  - by apply ebreak_lemma.
  - by eapply wide_shift_lemma.
Qed.

(** ** Witnesses *)

Ltac c_okay k :=
  split; [vm_compute; intuition congruence..|exists k; split; [vm_compute; lia|reflexivity]|reflexivity].

Lemma c_decode_encode_witness :
  c_decode 64 (0xBEEF0000 + c_encode (mkC OP_C_BEQZ 9 0 (-6))) = OP_C_BEQZ /\
  s32 (get_imm_CB (0xBEEF0000 + c_encode (mkC OP_C_BEQZ 9 0 (-6)))) = -6.
Proof.
  destruct (c_decode_encode 64 (mkC OP_C_BEQZ 9 0 (-6))
    (0xBEEF0000 + c_encode (mkC OP_C_BEQZ 9 0 (-6)))) as (H1 & _ & H2);
    [by right|c_okay 125%nat|by vm_compute|].
  by split.
Defined.

Lemma c_instruction_expands_witness :
  (let w := c_encode (mkC OP_C_LI 10 0 (-3)) in
   c_exec_instruction 64 w (c_decode 64 w) hart0 =
   exec_instruction 64 (encode (mkAsm OP_ADDI 10 0 0 (-3)))
     (decode (encode (mkAsm OP_ADDI 10 0 0 (-3)))) hart0) /\
  (let w := c_encode (mkC OP_C_J 0 0 (-4)) in
   c_exec_instruction 64 w (c_decode 64 w) hart0 =
   Some ((false, false), { hart0 with register_PC := 0x7FFFFFFC })) /\
  (let w := c_encode (mkC OP_C_SRLI 8 0 40) in
   c_exec_instruction 64 w (c_decode 64 w) hart0 = None).
Proof.
  split_and!; intros w.
  - apply (c_instruction_expands 64 (mkC OP_C_LI 10 0 (-3)));
      [by right|apply hart0_wf|c_okay 29%nat|by vm_compute|exact I|done].
  - apply (c_instruction_expands 64 (mkC OP_C_J 0 0 (-4)));
      [by right|apply hart0_wf|c_okay 1022%nat|by vm_compute| |done|by vm_compute].
    split; split; vm_compute; congruence.
  - apply (c_instruction_expands 64 (mkC OP_C_SRLI 8 0 40));
      [by right|apply hart0_wf|c_okay 40%nat|by vm_compute|done|done].
Defined.

(** ** Departures *)

(** RV64 C.SRLI with an amount of 32 or more shifts by the sign-extended field. *)
Lemma c_srli_wide_undefined :
  c_exec_instruction 64 (c_encode (mkC OP_C_SRLI 8 0 40))
    (c_decode 64 (c_encode (mkC OP_C_SRLI 8 0 40))) hart0 = None.
Proof. by vm_compute. Qed.

(** RV64 C.JR drops the upper half of its target. *)
Lemma c_jr_truncates_target :
  (fun r => register_PC r.2) <$>
    c_exec_instruction 64 (c_encode (mkC OP_C_JR 5 0 0)) OP_C_JR (write_reg 5 (2 ^ 32 + 16) hart0) =
  Some 16.
Proof. by vm_compute. Qed.

(** RV64 C.SW stores at the address modulo 2^32. *)
Lemma c_sw_truncates_address :
  (fun r => mem (mem_intf r.2) 16) <$>
    c_exec_instruction 64 (c_encode (mkC OP_C_SW 8 9 0)) OP_C_SW
      (write_reg 8 (2 ^ 32 + 16) (write_reg 9 0x55 hart0)) = Some 0x55.
Proof. by vm_compute. Qed.
