(* ===== verification/FloatArith.v ===== *)
(** The IEEE 754 arithmetic of the host, as [inc/F_extension.h] and [inc/D_extension.h] use
    it: the operators of [float] and [double], [std::fma], [std::sqrt], [std::fmin],
    [std::fmax], [std::copysign], the casts, [std::fesetround] and [std::fetestexcept].

    Every finite number of a format is an integral multiple of its least subnormal number,
    so a magnitude is an integer of such units and an exact result is a quotient of two
    integers, or a square root of one.  Rounding takes the exact result as a cut: its integral
    part and its comparison with the quarters of a unit.  [round_correct] states what it
    delivers with no reference to how it is computed.

    What neither C++ nor IEEE 754 fixes is an argument: the class [host]. *)
From S2P Require Import Prelude.

(** ** Formats and numbers *)

Inductive fmt := Single | Double.
#[export] Instance fmt_eq_dec : EqDecision fmt.
Proof. solve_decision. Defined.

Definition width (f : fmt) : Z := match f with Single => 32 | Double => 64 end.
(** The bits of the stored significand and of the exponent. *)
Definition mw (f : fmt) : Z := match f with Single => 23 | Double => 52 end.
Definition ew (f : fmt) : Z := match f with Single => 8 | Double => 11 end.
Definition prec (f : fmt) : Z := mw f + 1.
(** One is [2 ^ scale] units. *)
Definition scale (f : fmt) : Z := match f with Single => 149 | Double => 1074 end.
(** The least magnitude, in units, whose exponent is too large. *)
Definition top (f : fmt) : Z := 2 ^ (mw f + 2 ^ ew f - 2).

Inductive num := NaN (b : Z) | Inf (s : bool) | Fin (s : bool) (u : Z).

Definition of_bits (f : fmt) (b : Z) : num :=
  let s := Z.testbit b (width f - 1) in
  let e := (b .>> mw f) .& Z.ones (ew f) in
  let m := b .& Z.ones (mw f) in
  if e =? Z.ones (ew f) then (if m =? 0 then Inf s else NaN b)
  else if e =? 0 then Fin s m
  else Fin s ((2 ^ mw f + m) * 2 ^ (e - 1)).

(** The exponent of the last place of a magnitude. *)
Definition uexp (f : fmt) (u : Z) : Z := Z.max 0 (Z.log2 u + 1 - prec f).

Definition to_bits (f : fmt) (v : num) : Z :=
  let sign (s : bool) := if s then 2 ^ (width f - 1) else 0 in
  match v with
  | NaN b => b
  | Inf s => sign s + Z.ones (ew f) * 2 ^ mw f
  | Fin s u => sign s + (if u <? 2 ^ mw f then u
                         else (uexp f u + 1) * 2 ^ mw f + (u / 2 ^ uexp f u - 2 ^ mw f))
  end.

Definition is_nan (v : num) : bool := match v with NaN _ => true | _ => false end.
Definition quiet_bit (f : fmt) (b : Z) : bool := Z.testbit b (mw f - 1).
Definition is_snan (f : fmt) (v : num) : bool :=
  match v with NaN b => negb (quiet_bit f b) | _ => false end.

(** [std::signbit], unary minus, [std::fabs] and [std::copysign] act on the sign bit. *)
Definition sign_of (f : fmt) (v : num) : bool :=
  match v with NaN b => Z.testbit b (width f - 1) | Inf s => s | Fin s _ => s end.
Definition with_sign (f : fmt) (s : bool) (v : num) : num :=
  match v with
  | NaN b => NaN ((b .& Z.ones (width f - 1)) .| (Z.b2z s .<< (width f - 1)))
  | Inf _ => Inf s
  | Fin _ u => Fin s u
  end.
Definition fneg (f : fmt) (v : num) : num := with_sign f (negb (sign_of f v)) v.
Definition fabs (f : fmt) (v : num) : num := with_sign f false v.
Definition copysign (f : fmt) (x y : num) : num := with_sign f (sign_of f y) x.

(** ** Rounding *)

Inductive rmode := RNE | RTZ | RDN | RUP.

(** [FE_INVALID], [FE_DIVBYZERO], [FE_OVERFLOW], [FE_UNDERFLOW], [FE_INEXACT]. *)
Record flags := mkFlags { fe_nv : bool; fe_dz : bool; fe_of : bool; fe_uf : bool; fe_nx : bool }.
Definition no_flags : flags := mkFlags false false false false false.
Definition invalid (b : bool) : flags := mkFlags b false false false false.
Definition inexact (b : bool) : flags := mkFlags false false false false b.

(** The direction of the rounding of a magnitude. *)
Inductive direction := Down | Up | Nearest.
Definition dir_of (md : rmode) (s : bool) : direction :=
  match md with
  | RNE => Nearest
  | RTZ => Down
  | RDN => if s then Up else Down
  | RUP => if s then Down else Up
  end.

(** A real number, by its integral part and by the comparison of [k / 4] with it. *)
Record cut := mkCut { cut_floor : Z; cut_cmp : Z -> comparison }.
Definition quotient (X D : Z) : cut := mkCut (X / D) (fun k => k * D ?= 4 * X).
Definition root (n : Z) : cut := mkCut (Z.sqrt n) (fun k => k * k ?= 16 * n).

Definition round_up (dir : direction) (half : comparison) (exact odd : bool) : bool :=
  match dir with
  | Down => false
  | Up => negb exact
  | Nearest => match half with Lt => true | Eq => odd | Gt => false end
  end.

(** The magnitude rounded to the precision of the format, the exponent not bounded. *)
Definition round_units (f : fmt) (dir : direction) (x : cut) : Z :=
  let t := uexp f (cut_floor x) in
  let q := cut_floor x / 2 ^ t in
  let exact := match cut_cmp x (4 * (q * 2 ^ t)) with Eq => true | _ => false end in
  let half := cut_cmp x (2 * ((2 * q + 1) * 2 ^ t)) in
  (q + Z.b2z (round_up dir half exact (Z.odd q))) * 2 ^ t.

(** Tiny after rounding: with an unbounded exponent the result is below the normal numbers.
    Just below them the last place is half a unit. *)
Definition tiny (f : fmt) (dir : direction) (x : cut) : bool :=
  (cut_floor x <? 2 ^ mw f) &&
  match dir with
  | Down => true
  | Up => match cut_cmp x (4 * 2 ^ mw f - 2) with Lt => false | _ => true end
  | Nearest => match cut_cmp x (4 * 2 ^ mw f - 1) with Gt => true | _ => false end
  end.

(** The result of a finite operation and its flags; a result that is too large is infinite
    or the largest finite number. *)
Definition round (f : fmt) (md : rmode) (s : bool) (x : cut) : num * flags :=
  let dir := dir_of md s in
  let y := round_units f dir x in
  if top f <=? y then
    (match dir with Down => Fin s (top f - 2 ^ (2 ^ ew f - 3)) | _ => Inf s end,
     mkFlags false false true false true)
  else
    let nx := match cut_cmp x (4 * y) with Eq => false | _ => true end in
    (Fin s y, mkFlags false false false (nx && tiny f dir x) nx).

(** ** What the host chooses *)

Class host := {
  nan_result : fmt -> list num -> Z;          (* the NaN that an operation delivers *)
  fma_nan_invalid : bool;                     (* 0 * infinity + a quiet NaN is invalid *)
  min_max_zero : bool;                        (* the sign of the minimum or maximum of zeros *)
  min_max_nan : fmt -> num -> num -> num * flags;   (* two NaNs or a signalling one *)
  cast_invalid : fmt -> bool -> Z -> num -> Z * flags
    (* the cast to an integer type of a width, signed or not, of a number out of its range *)
}.

Section ops.
Context `{host}.
Variable f : fmt.
Variable md : rmode.

Definition nan_of (l : list num) (nv : bool) : num * flags :=
  (NaN (nan_result f l), invalid (nv || existsb (is_snan f) l)).

(** A sum that is exactly zero. *)
Definition zero_sum (s1 s2 : bool) : num * flags :=
  (Fin (if eqb s1 s2 then s1 else match md with RDN => true | _ => false end) 0, no_flags).

Definition signed_units (s : bool) (u : Z) : Z := if s then - u else u.

Definition fadd_finite (s1 : bool) (u1 : Z) (s2 : bool) (u2 : Z) (D : Z) : num * flags :=
  let X := signed_units s1 u1 + signed_units s2 u2 in
  if X =? 0 then zero_sum s1 s2 else round f md (X <? 0) (quotient (Z.abs X) D).

Definition fadd_num (a b : num) : num * flags :=
  match a, b with
  | Inf s1, Inf s2 => if eqb s1 s2 then (a, no_flags) else nan_of [a; b] true
  | Inf _, _ => (a, no_flags)
  | _, Inf _ => (b, no_flags)
  | Fin s1 u1, Fin s2 u2 => fadd_finite s1 u1 s2 u2 1
  | _, _ => nan_of [a; b] false
  end.
Definition fadd (a b : num) : num * flags :=
  if is_nan a || is_nan b then nan_of [a; b] false else fadd_num a b.
Definition fsub (a b : num) : num * flags :=
  if is_nan a || is_nan b then nan_of [a; b] false else fadd_num a (fneg f b).

Definition fmul (a b : num) : num * flags :=
  match a, b with
  | NaN _, _ | _, NaN _ => nan_of [a; b] false
  | Inf s1, Inf s2 => (Inf (xorb s1 s2), no_flags)
  | Inf s1, Fin s2 u | Fin s1 u, Inf s2 =>
      if u =? 0 then nan_of [a; b] true else (Inf (xorb s1 s2), no_flags)
  | Fin s1 u1, Fin s2 u2 => round f md (xorb s1 s2) (quotient (u1 * u2) (2 ^ scale f))
  end.

Definition fdiv (a b : num) : num * flags :=
  match a, b with
  | NaN _, _ | _, NaN _ => nan_of [a; b] false
  | Inf _, Inf _ => nan_of [a; b] true
  | Inf s1, Fin s2 _ => (Inf (xorb s1 s2), no_flags)
  | Fin s1 _, Inf s2 => (Fin (xorb s1 s2) 0, no_flags)
  | Fin s1 u1, Fin s2 u2 =>
      if u2 =? 0 then
        if u1 =? 0 then nan_of [a; b] true
        else (Inf (xorb s1 s2), mkFlags false true false false false)
      else round f md (xorb s1 s2) (quotient (u1 * 2 ^ scale f) u2)
  end.

Definition fsqrt (a : num) : num * flags :=
  match a with
  | NaN _ => nan_of [a] false
  | Inf true => nan_of [a] true
  | Inf false => (a, no_flags)
  | Fin s u =>
      if u =? 0 then (a, no_flags)
      else if s then nan_of [a] true
      else round f md false (root (u * 2 ^ scale f))
  end.

Definition zero_times_inf (a b : num) : bool :=
  match a, b with Inf _, Fin _ u | Fin _ u, Inf _ => u =? 0 | _, _ => false end.

Definition fma (a b c : num) : num * flags :=
  if is_nan a || is_nan b then nan_of [a; b; c] false
  else if is_nan c then nan_of [a; b; c] (zero_times_inf a b && fma_nan_invalid)
  else if zero_times_inf a b then nan_of [a; b; c] true
  else
    let s := xorb (sign_of f a) (sign_of f b) in
    match a, b, c with
    | Fin _ u1, Fin _ u2, Fin s3 u3 => fadd_finite s (u1 * u2) s3 (u3 * 2 ^ scale f) (2 ^ scale f)
    | Fin _ _, Fin _ _, _ => (c, no_flags)
    | _, _, Inf s3 => if eqb s s3 then (c, no_flags) else nan_of [a; b; c] true
    | _, _, _ => (Inf s, no_flags)
    end.

(** The order: an infinity beyond every magnitude. *)
Definition key (v : num) : Z :=
  match v with NaN _ => 0 | Inf s => signed_units s (top f) | Fin s u => signed_units s u end.
Definition feq (a b : num) : bool * flags :=
  if is_nan a || is_nan b then (false, invalid (is_snan f a || is_snan f b))
  else (key a =? key b, no_flags).
Definition flt (a b : num) : bool * flags :=
  if is_nan a || is_nan b then (false, invalid true) else (key a <? key b, no_flags).
Definition fle (a b : num) : bool * flags :=
  if is_nan a || is_nan b then (false, invalid true) else (key a <=? key b, no_flags).

(** [std::fmin] and [std::fmax]: a quiet NaN is a missing operand. *)
Definition fmin_max (smaller : bool) (a b : num) : num * flags :=
  if (is_nan a && is_nan b) || is_snan f a || is_snan f b then min_max_nan f a b
  else if is_nan a then (b, no_flags)
  else if is_nan b then (a, no_flags)
  else if (key a =? 0) && (key b =? 0) && negb (eqb (sign_of f a) (sign_of f b))
  then (Fin min_max_zero 0, no_flags)
  else (if eqb smaller (key a <=? key b) then a else b, no_flags).
Definition fmin := fmin_max true.
Definition fmax := fmin_max false.

(** The cast of a number to an integer type discards the fraction. *)
Definition in_type (sg : bool) (w n : Z) : bool :=
  if sg then (- 2 ^ (w - 1) <=? n) && (n <? 2 ^ (w - 1)) else (0 <=? n) && (n <? 2 ^ w).
Definition to_int (sg : bool) (w : Z) (a : num) : Z * flags :=
  match a with
  | Fin s u =>
      let n := signed_units s (u / 2 ^ scale f) in
      if in_type sg w n then (n, inexact (negb (u mod 2 ^ scale f =? 0)))
      else cast_invalid f sg w a
  | _ => cast_invalid f sg w a
  end.

Definition of_int (n : Z) : num * flags :=
  if n =? 0 then (Fin false 0, no_flags)
  else round f md (n <? 0) (quotient (Z.abs n * 2 ^ scale f) 1).
End ops.

(** The casts between the formats. *)
Definition to_single `{host} (md : rmode) (a : num) : num * flags :=
  match a with
  | NaN b => (NaN (nan_result Single [a]), invalid (is_snan Double a))
  | Inf s => (a, no_flags)
  | Fin s u => if u =? 0 then (a, no_flags)
               else round Single md s (quotient u (2 ^ (scale Double - scale Single)))
  end.
Definition to_double `{host} (a : num) : num * flags :=
  match a with
  | NaN b => (NaN (nan_result Double [a]), invalid (is_snan Single a))
  | Inf s => (a, no_flags)
  | Fin s u => (Fin s (u * 2 ^ (scale Double - scale Single)), no_flags)
  end.

(** ** Cuts *)

Record cut_ok (x : cut) : Prop := {
  ck_nonneg : 0 <= cut_floor x;
  ck_lo : cut_cmp x (4 * cut_floor x) <> Gt;
  ck_hi : cut_cmp x (4 * (cut_floor x + 1)) = Gt;
  ck_mono j k : 0 <= j < k -> cut_cmp x j <> Lt -> cut_cmp x k = Gt
}.

Lemma quotient_ok X D : 0 <= X -> 0 < D -> cut_ok (quotient X D).
Proof.
  intros HX HD. pose proof (Z.div_mod X D ltac:(lia)). pose proof (Z.mod_pos_bound X D HD).
  split; simpl.
  - by apply Z.div_pos.
  - apply Z.compare_le_iff. lia.
  - apply Z.compare_gt_iff. lia.
  - intros j k Hjk Hj. apply Z.compare_gt_iff. assert (4 * X <= j * D); [|nia].
    destruct (Z.compare_spec (j * D) (4 * X)); [lia|done|lia].
Qed.

Lemma root_ok n : 0 <= n -> cut_ok (root n).
Proof.
  intros Hn. pose proof (Z.sqrt_spec n Hn) as [? ?]. pose proof (Z.sqrt_nonneg n). split; simpl.
  - done.
  - apply Z.compare_le_iff. lia.
  - apply Z.compare_gt_iff. lia.
  - intros j k Hjk Hj. apply Z.compare_gt_iff. assert (16 * n <= j * j); [|nia].
    destruct (Z.compare_spec (j * j) (16 * n)); [lia|done|lia].
Qed.

Section cuts.
Context (x : cut) (Hx : cut_ok x).

Lemma cut_Lt j k : 0 <= j < k -> cut_cmp x k <> Gt -> cut_cmp x j = Lt.
Proof.
  intros Hjk Hk. destruct (cut_cmp x j) eqn:E; [|done|]; destruct Hk; apply (ck_mono x Hx j k); [lia|congruence|lia|congruence].
Qed.
Lemma cut_at_most u : 0 <= u <= cut_floor x -> cut_cmp x (4 * u) <> Gt.
Proof.
  intros Hu. destruct (Z.eq_dec u (cut_floor x)) as [->|]; [by apply ck_lo|].
  rewrite (cut_Lt (4 * u) (4 * cut_floor x)); [done|lia|by apply ck_lo].
Qed.
Lemma cut_above u : cut_floor x < u -> cut_cmp x (4 * u) = Gt.
Proof.
  intros Hu. pose proof (ck_nonneg x Hx). destruct (Z.eq_dec u (cut_floor x + 1)) as [->|]; [by apply ck_hi|].
  apply (ck_mono x Hx (4 * (cut_floor x + 1))); [lia|]. by rewrite (ck_hi x Hx).
Qed.
End cuts.

(** ** Precision *)

Section precision.
Variable f : fmt.

Lemma mw_pos : 1 < mw f.
Proof. by destruct f. Qed.

(** The magnitudes of the format, its largest exponent apart. *)
Definition precise (u : Z) : Prop := exists m t, 0 <= m < 2 ^ prec f /\ 0 <= t /\ u = m * 2 ^ t.
(** The last bit of the significand is zero. *)
Definition even_significand (u : Z) : bool := Z.even (u / 2 ^ uexp f u).

(** [y] is the real number [x] rounded: the nearest magnitude of the format on its side or,
    of all the others, the nearest, a tie going to the even one.  The midpoint of [y] and
    [z] is [2 * (y + z)] quarters. *)
Definition rounded (dir : direction) (x : cut) (y : Z) : Prop :=
  precise y /\
  match dir with
  | Down => cut_cmp x (4 * y) <> Gt /\ forall z, precise z -> cut_cmp x (4 * z) <> Gt -> z <= y
  | Up => cut_cmp x (4 * y) <> Lt /\ forall z, precise z -> cut_cmp x (4 * z) <> Lt -> y <= z
  | Nearest => forall z, precise z -> z <> y ->
      match cut_cmp x (2 * (y + z)) with
      | Lt => z < y | Gt => y < z | Eq => even_significand y = true
      end
  end.

Lemma uexp_nonneg u : 0 <= uexp f u.
Proof. unfold uexp. lia. Qed.

Lemma precise_nonneg u : precise u -> 0 <= u.
Proof. intros (m & t & ? & ? & ->). pose proof (pow2_pos t). nia. Qed.

Lemma uexp_spec u :
  0 <= u -> let t := uexp f u in
  u / 2 ^ t < 2 ^ prec f /\ (t = 0 \/ 2 ^ mw f <= u / 2 ^ t) /\ 0 <= u / 2 ^ t.
Proof.
  intros Hu t. pose proof mw_pos. pose proof (uexp_nonneg u) as Ht. fold t in Ht.
  pose proof (pow2_pos t Ht). assert (0 <= u / 2 ^ t) by (by apply Z.div_pos).
  assert (prec f = mw f + 1) by done. destruct (Z.eq_dec u 0) as [->|].
  { rewrite Z.div_0_l by lia. subst t. unfold uexp. simpl. pose proof (pow2_pos (prec f)). lia. }
  pose proof (Z.log2_spec u ltac:(lia)) as [Hl1 Hl2]. pose proof (Z.log2_nonneg u).
  split; [|split; [|done]].
  - apply Z.div_lt_upper_bound; [lia|]. rewrite <-Z.pow_add_r by lia.
    eapply Z.lt_le_trans; [exact Hl2|]. apply Z.pow_le_mono_r; [lia|]. subst t. unfold uexp. lia.
  - destruct (Z.eq_dec t 0) as [|Ht0]; [by left|right]. apply Z.div_le_lower_bound; [lia|].
    rewrite <-Z.pow_add_r by lia. etransitivity; [|exact Hl1]. apply Z.pow_le_mono_r; [lia|].
    subst t. unfold uexp in *. lia.
Qed.

Lemma uexp_mul q t :
  0 <= q < 2 ^ prec f -> 0 <= t -> (t = 0 \/ 2 ^ mw f <= q) -> uexp f (q * 2 ^ t) = t.
Proof.
  intros Hq Ht Hn. pose proof mw_pos. assert (prec f = mw f + 1) by done.
  destruct (Z.eq_dec q 0) as [->|].
  { destruct Hn; [|pose proof (pow2_pos (mw f)); lia]. subst t. unfold uexp. simpl. lia. }
  unfold uexp. rewrite Z.log2_mul_pow2 by lia.
  assert (Z.log2 q < prec f) by (apply Z.log2_lt_pow2; lia).
  destruct Hn as [->|Hn]; [lia|]. apply Z.log2_le_pow2 in Hn; lia.
Qed.

Lemma precise_mul q t : 0 <= q <= 2 ^ prec f -> 0 <= t -> precise (q * 2 ^ t).
Proof.
  intros Hq Ht. pose proof mw_pos. destruct (Z.eq_dec q (2 ^ prec f)) as [->|].
  - exists (2 ^ mw f), (t + 1). split; [|split; [lia|]].
    + split; [apply Z.pow_nonneg; lia|]. apply Z.pow_lt_mono_r; unfold prec; lia.
    + rewrite <-!Z.pow_add_r by (unfold prec; lia). f_equal. unfold prec. lia.
  - exists q, t. repeat split; lia.
Qed.

Lemma even_significand_mul q t :
  0 <= q <= 2 ^ prec f -> 0 <= t -> (t = 0 \/ 2 ^ mw f <= q) ->
  even_significand (q * 2 ^ t) = Z.even q.
Proof.
  intros Hq Ht Hn. pose proof mw_pos. unfold even_significand. pose proof (pow2_pos t).
  assert (prec f = mw f + 1) by done.
  destruct (Z.eq_dec q (2 ^ prec f)) as [->|].
  - replace (2 ^ prec f * 2 ^ t) with (2 ^ mw f * 2 ^ (t + 1))
      by (rewrite <-!Z.pow_add_r by lia; f_equal; lia).
    rewrite uexp_mul; [|split; [apply Z.pow_nonneg; lia|apply Z.pow_lt_mono_r; lia]|lia|right; lia].
    rewrite Z.div_mul by (pose proof (pow2_pos (t + 1)); lia). by rewrite !Z.even_pow by lia.
  - rewrite uexp_mul, Z.div_mul by (done || lia). done.
Qed.

(** No magnitude of the format lies strictly between [q] and [q + 1] last places. *)
Lemma precise_gap q t z :
  0 <= t -> 0 <= q -> (t = 0 \/ 2 ^ mw f <= q) -> precise z -> z <= q * 2 ^ t \/ (q + 1) * 2 ^ t <= z.
Proof.
  intros Ht Hq Hn (m & t' & Hm & Ht' & ->). pose proof mw_pos. pose proof (pow2_pos t Ht).
  assert (prec f = mw f + 1) by done.
  destruct (Z.le_gt_cases t t') as [Hle|Hlt].
  - replace (m * 2 ^ t') with (m * 2 ^ (t' - t) * 2 ^ t)
      by (rewrite <-Z.mul_assoc, <-Z.pow_add_r by lia; do 2 f_equal; lia).
    destruct (Z.le_gt_cases (m * 2 ^ (t' - t)) q); [left|right]; nia.
  - left. destruct Hn as [|Hn]; [lia|].
    assert (m * 2 ^ t' < 2 ^ prec f * 2 ^ t') by (pose proof (pow2_pos t' Ht'); nia).
    assert (2 ^ prec f * 2 ^ t' <= 2 ^ mw f * 2 ^ t)
      by (rewrite <-!Z.pow_add_r by lia; apply Z.pow_le_mono_r; lia). nia.
Qed.
End precision.

(** ** Correct rounding *)

Section rounding.
Context (f : fmt) (x : cut) (Hx : cut_ok x).
Let t := uexp f (cut_floor x).
Let q := cut_floor x / 2 ^ t.

Lemma round_bracket :
  0 < 2 ^ t /\ 0 <= q < 2 ^ prec f /\ (t = 0 \/ 2 ^ mw f <= q) /\
  q * 2 ^ t <= cut_floor x < (q + 1) * 2 ^ t.
Proof.
  pose proof (uexp_spec f (cut_floor x) (ck_nonneg x Hx)) as (H1 & H2 & H3).
  pose proof (uexp_nonneg f (cut_floor x)) as Ht. fold t in Ht. fold t q in H1, H2, H3.
  pose proof (pow2_pos t Ht). pose proof (Z.div_mod (cut_floor x) (2 ^ t) ltac:(lia)) as E.
  pose proof (Z.mod_pos_bound (cut_floor x) (2 ^ t) ltac:(lia)). fold q in E. repeat split; (done || nia).
Qed.

Theorem round_units_correct dir : rounded f dir x (round_units f dir x).
Proof.
  pose proof round_bracket as (Hp & Hq & Hn & Hlo & Hhi).
  pose proof (uexp_nonneg f (cut_floor x)) as Ht. fold t in Ht.
  pose proof (fun z => precise_gap f q t z Ht (proj1 Hq) Hn) as Hgap.
  assert (cut_cmp x (4 * (q * 2 ^ t)) <> Gt) as HL by (apply cut_at_most; [done|nia]).
  assert (cut_cmp x (4 * ((q + 1) * 2 ^ t)) = Gt) as HH by (apply cut_above; [done|lia]).
  assert (forall b, precise f ((q + Z.b2z b) * 2 ^ t)) as HP
    by (intros b; apply precise_mul; [destruct b; simpl; lia|done]).
  assert (forall b, even_significand f ((q + Z.b2z b) * 2 ^ t) = Z.even (q + Z.b2z b)) as HE
    by (intros b; apply even_significand_mul; [destruct b; simpl; lia|done|destruct b; simpl; lia]).
  unfold round_units. fold t q. split; [apply HP|]. destruct dir; unfold round_up.
  - rewrite Z.add_0_r. split; [done|]. intros z Hz Hc. destruct (Hgap z Hz); [done|].
    destruct Hc. apply cut_above; [done|lia].
  - destruct (cut_cmp x (4 * (q * 2 ^ t))) eqn:E; [|simpl|done].
    + simpl. rewrite Z.add_0_r. split; [by rewrite E|]. intros z Hz Hc.
      destruct (Z.le_gt_cases (q * 2 ^ t) z); [done|]. destruct Hc.
      pose proof (precise_nonneg f z Hz). apply (cut_Lt x Hx _ (4 * (q * 2 ^ t))); [lia|congruence].
    + split; [by rewrite HH|]. intros z Hz Hc. destruct (Hgap z Hz); [|done]. destruct Hc.
      pose proof (precise_nonneg f z Hz). destruct (Z.eq_dec z (q * 2 ^ t)) as [->|]; [done|].
      apply (cut_Lt x Hx _ (4 * (q * 2 ^ t))); [lia|congruence].
  - set (half := cut_cmp x (2 * ((2 * q + 1) * 2 ^ t))).
    destruct (match half with Lt => true | Eq => Z.odd q | Gt => false end) eqn:Eb;
      simpl; intros z Hz Hne; pose proof (precise_nonneg f z Hz).
    + assert (half <> Gt) as Hh by (by destruct half).
      destruct (Hgap z Hz) as [Hzl|Hzl].
      * destruct (Z.eq_dec z (q * 2 ^ t)) as [->|].
        -- replace (2 * ((q + 1) * 2 ^ t + q * 2 ^ t)) with (2 * ((2 * q + 1) * 2 ^ t)) by lia.
           fold half. destruct half; [|nia|done]. pose proof (HE true) as HE1.
           simpl in HE1. by rewrite HE1, Z.even_add, <-Z.negb_odd, Eb.
        -- rewrite (cut_Lt x Hx _ (2 * ((2 * q + 1) * 2 ^ t))); [nia|nia|done].
      * rewrite (ck_mono x Hx (4 * ((q + 1) * 2 ^ t))); [nia|nia|by rewrite HH].
    + rewrite Z.add_0_r in Hne |- *. assert (half <> Lt) as Hh by (by destruct half).
      destruct (Hgap z Hz) as [Hzl|Hzl].
      * rewrite (cut_Lt x Hx _ (4 * (q * 2 ^ t))); [nia|nia|done].
      * destruct (Z.eq_dec z ((q + 1) * 2 ^ t)) as [->|].
        -- replace (2 * (q * 2 ^ t + (q + 1) * 2 ^ t)) with (2 * ((2 * q + 1) * 2 ^ t)) by lia.
           fold half. destruct half; [|done|nia]. pose proof (HE false) as HE0.
           simpl in HE0. rewrite Z.add_0_r in HE0. rewrite HE0, <-Z.negb_odd, Eb. done.
        -- rewrite (ck_mono x Hx (2 * ((2 * q + 1) * 2 ^ t))); [nia|nia|done].
Qed.
End rounding.

Lemma round_bounds f dir x : cut_ok x -> cut_cmp x (4 * round_units f dir x) = Eq ->
  round_units f dir x = cut_floor x.
Proof.
  intros Hx He. destruct (Z.lt_trichotomy (round_units f dir x) (cut_floor x)) as [Hlt|[?|Hlt]]; [|done|].
  - pose proof (proj1 (round_units_correct f x Hx dir)) as Hp. pose proof (precise_nonneg f _ Hp).
    rewrite (cut_Lt x Hx _ (4 * cut_floor x)) in He; [done|lia|]. by apply ck_lo.
  - by rewrite (cut_above x Hx _ Hlt) in He.
Qed.

(** What [round] delivers: the correctly rounded number, inexact when it differs; a magnitude
    beyond the format overflows to infinity or, in a direction towards zero, to the largest
    number. *)
Lemma round_correct f md s x :
  cut_ok x ->
  exists y, rounded f (dir_of md s) x y /\
    (if top f <=? y
     then round f md s x =
          (match dir_of md s with Down => Fin s (top f - 2 ^ (2 ^ ew f - 3)) | _ => Inf s end,
           mkFlags false false true false true)
     else (round f md s x).1 = Fin s y /\
          (fe_nx (round f md s x).2 = false <-> cut_cmp x (4 * y) = Eq) /\
          fe_uf (round f md s x).2 = fe_nx (round f md s x).2 && tiny f (dir_of md s) x /\
          fe_nv (round f md s x).2 = false /\ fe_dz (round f md s x).2 = false /\
          fe_of (round f md s x).2 = false).
Proof.
  intros Hx. exists (round_units f (dir_of md s) x). split; [by apply round_units_correct|].
  unfold round. destruct (Z.leb_spec (top f) (round_units f (dir_of md s) x)); [done|].
  simpl. split_and!; [done| |done..]. by destruct (cut_cmp _ _).
Qed.

(** A tiny number is one that stays below the normal numbers when it is rounded with one more
    bit below. *)
Lemma tiny_correct f dir X D :
  0 <= X -> 0 < D -> cut_floor (quotient X D) < 2 ^ mw f ->
  tiny f dir (quotient X D) = (round_units f dir (quotient (2 * X) D) <? 2 * 2 ^ mw f).
Proof.
  intros HX HD Hf. simpl in Hf. pose proof (mw_pos f) as Hmw. set (N := 2 ^ mw f) in *.
  assert (0 < N) as HN by (apply pow2_pos; lia). assert (2 ^ prec f = 2 * N) as EP
    by (unfold prec; rewrite Z.pow_add_r by lia; change (2 ^ 1) with 2; unfold N; lia).
  pose proof (Z.div_mod X D ltac:(lia)) as E1. pose proof (Z.mod_pos_bound X D HD).
  pose proof (Z.div_mod (2 * X) D ltac:(lia)) as E2. pose proof (Z.mod_pos_bound (2 * X) D HD).
  unfold tiny, round_units. simpl. set (F := 2 * X / D) in *.
  assert (X < D * N) by nia. assert (0 <= F < 2 * N) as HF by nia.
  assert (uexp f F = 0) as ->.
  { unfold uexp. destruct (Z.eq_dec F 0) as [->|]; [simpl; unfold prec; lia|].
    assert (Z.log2 F < prec f) by (apply Z.log2_lt_pow2; lia). lia. }
  rewrite Z.pow_0_r, Z.div_1_r, !Z.mul_1_r. fold N.
  rewrite (proj2 (Z.ltb_lt _ _) Hf). simpl. destruct dir; simpl.
  - symmetry. apply Z.ltb_lt. lia.
  - destruct (Z.compare_spec ((4 * N - 2) * D) (4 * X)), (Z.compare_spec (4 * F * D) (4 * (2 * X)));
      simpl; symmetry; (apply Z.ltb_lt || apply Z.ltb_ge); nia.
  - destruct (Z.compare_spec ((4 * N - 1) * D) (4 * X)), (Z.compare_spec (2 * (2 * F + 1) * D) (4 * (2 * X)));
      simpl; symmetry; try (pose proof (Z.div_mod F 2 ltac:(lia)); pose proof (Zmod_odd F);
        destruct (Z.odd F); simpl); (apply Z.ltb_lt || apply Z.ltb_ge); nia.
Qed.

(** ** The interchange formats *)

(** A number of the format: what a register holds. *)
Definition num_ok (f : fmt) (v : num) : Prop :=
  match v with
  | NaN b => fits (width f) b /\ of_bits f b = NaN b
  | Inf _ => True
  | Fin _ u => precise f u /\ u < top f
  end.

Section formats.
Variable f : fmt.

Lemma width_eq : width f = 1 + ew f + mw f.
Proof. by destruct f. Qed.
Lemma ew_pos : 1 < ew f.
Proof. by destruct f. Qed.

Definition assemble (s : bool) (e m : Z) : Z := (if s then 2 ^ (width f - 1) else 0) + (e * 2 ^ mw f + m).

Lemma assemble_fields s e m :
  0 <= e < 2 ^ ew f -> 0 <= m < 2 ^ mw f ->
  fits (width f) (assemble s e m) /\
  Z.testbit (assemble s e m) (width f - 1) = s /\
  (assemble s e m .>> mw f) .& Z.ones (ew f) = e /\
  assemble s e m .& Z.ones (mw f) = m.
Proof.
  intros He Hm. pose proof mw_pos f. pose proof ew_pos. pose proof width_eq as EW. unfold assemble.
  replace (width f - 1) with (ew f + mw f) by lia. rewrite EW.
  assert (0 <= e * 2 ^ mw f + m < 2 ^ (ew f + mw f)) as HR.
  { rewrite Z.pow_add_r by lia. pose proof (pow2_pos (mw f)). nia. }
  assert (2 ^ (1 + ew f + mw f) = 2 * 2 ^ (ew f + mw f)) as E2
    by (rewrite <-Z.pow_succ_r by lia; f_equal; lia).
  assert ((if s then 2 ^ (ew f + mw f) else 0) = Z.b2z s * 2 ^ ew f * 2 ^ mw f) as ->
    by (rewrite <-Z.mul_assoc, <-Z.pow_add_r by lia; destruct s; cbv [Z.b2z]; lia).
  assert (Z.b2z s * 2 ^ ew f * 2 ^ mw f = Z.b2z s * 2 ^ (ew f + mw f)) as ES
    by (rewrite <-Z.mul_assoc, <-Z.pow_add_r by lia; done).
  split_and!.
  - unfold fits. rewrite E2, ES. destruct s; simpl; lia.
  - apply Z.b2z_inj. rewrite Z.testbit_spec' by lia. rewrite ES, Z.div_add_l by lia.
    rewrite (Z.div_small (_ + _)) by lia. by destruct s.
  - rewrite Z.shiftr_div_pow2, Z.land_ones by lia. pose proof (pow2_pos (mw f)).
    replace (Z.b2z s * 2 ^ ew f * 2 ^ mw f + (e * 2 ^ mw f + m))
      with ((Z.b2z s * 2 ^ ew f + e) * 2 ^ mw f + m) by lia.
    rewrite Z.div_add_l, (Z.div_small m), Z.add_0_r by lia.
    rewrite Z.add_comm, Z_mod_plus_full. by apply Z.mod_small.
  - rewrite Z.land_ones by lia.
    replace (Z.b2z s * 2 ^ ew f * 2 ^ mw f + (e * 2 ^ mw f + m))
      with (m + (Z.b2z s * 2 ^ ew f + e) * 2 ^ mw f) by lia.
    rewrite Z_mod_plus_full. by apply Z.mod_small.
Qed.

Lemma assemble_of b :
  fits (width f) b ->
  b = assemble (Z.testbit b (width f - 1)) ((b .>> mw f) .& Z.ones (ew f)) (b .& Z.ones (mw f)) /\
  0 <= (b .>> mw f) .& Z.ones (ew f) < 2 ^ ew f /\ 0 <= b .& Z.ones (mw f) < 2 ^ mw f.
Proof.
  intros Hb. pose proof mw_pos f. pose proof ew_pos. pose proof width_eq as EW. unfold assemble.
  replace (width f - 1) with (ew f + mw f) by lia. unfold fits in Hb. rewrite EW in Hb.
  rewrite Z.shiftr_div_pow2, !Z.land_ones by lia.
  pose proof (pow2_pos (mw f)). pose proof (pow2_pos (ew f)).
  split; [|split; apply Z.mod_pos_bound; lia].
  assert (2 ^ (1 + ew f + mw f) = 2 * 2 ^ (ew f + mw f)) as E2
    by (rewrite <-Z.pow_succ_r by lia; f_equal; lia). rewrite E2 in Hb.
  pose proof (Z.div_mod b (2 ^ mw f) ltac:(lia)) as E1.
  pose proof (Z.div_mod (b / 2 ^ mw f) (2 ^ ew f) ltac:(lia)) as E3.
  pose proof (Z.testbit_spec' b (ew f + mw f) ltac:(lia)) as ET.
  rewrite Z.div_div in E3 by lia. rewrite <-Z.pow_add_r in E3 by lia. rewrite Z.add_comm in E3.
  rewrite Z.add_comm in ET. rewrite (Z.add_comm (ew f)), Z.pow_add_r in * by lia.
  assert (b / (2 ^ mw f * 2 ^ ew f) = Z.b2z (Z.testbit b (mw f + ew f))) as E4.
  { rewrite ET. symmetry. apply Z.mod_small. split; [apply Z.div_pos; lia|apply Z.div_lt_upper_bound; lia]. }
  rewrite E4 in E3. destruct (Z.testbit b (mw f + ew f)); simpl in *; nia.
Qed.

Lemma ones_pow n : 0 <= n -> Z.ones n = 2 ^ n - 1.
Proof. intros. rewrite Z.ones_equiv. lia. Qed.

Lemma of_assemble s e m :
  0 <= e < 2 ^ ew f -> 0 <= m < 2 ^ mw f ->
  of_bits f (assemble s e m) =
  if e =? Z.ones (ew f) then (if m =? 0 then Inf s else NaN (assemble s e m))
  else if e =? 0 then Fin s m else Fin s ((2 ^ mw f + m) * 2 ^ (e - 1)).
Proof. intros He Hm. unfold of_bits. by destruct (assemble_fields s e m He Hm) as (_ & -> & -> & ->). Qed.

Lemma to_bits_fin s u :
  to_bits f (Fin s u) = if u <? 2 ^ mw f then assemble s 0 u
                        else assemble s (uexp f u + 1) (u / 2 ^ uexp f u - 2 ^ mw f).
Proof. unfold to_bits, assemble. by destruct (u <? 2 ^ mw f). Qed.

(** The fields of a normal number. *)
Lemma normal_fields u :
  num_ok f (Fin false u) -> 2 ^ mw f <= u ->
  let t := uexp f u in
  u = (u / 2 ^ t) * 2 ^ t /\ 0 <= u / 2 ^ t - 2 ^ mw f < 2 ^ mw f /\ 0 <= t /\ t + 2 < 2 ^ ew f.
Proof.
  intros [(m & e & Hm & He & ->) Hu] Hn t. pose proof mw_pos f. pose proof ew_pos.
  assert (prec f = mw f + 1) as EP by done. pose proof (pow2_pos (mw f)).
  assert (2 ^ prec f = 2 * 2 ^ mw f) as E2 by (rewrite EP, Z.pow_add_r by lia; lia).
  pose proof (uexp_spec f (m * 2 ^ e) ltac:(lia)) as (U1 & U2 & U3). fold t in U1, U2, U3.
  pose proof (uexp_nonneg f (m * 2 ^ e)) as Ht. fold t in Ht. pose proof (pow2_pos t Ht).
  assert (m * 2 ^ e = m * 2 ^ e / 2 ^ t * 2 ^ t) as E.
  { assert (t <= e) as Hte.
    { subst t. unfold uexp. rewrite Z.log2_mul_pow2 by nia.
      assert (m <> 0) by nia. assert (Z.log2 m < prec f) by (apply Z.log2_lt_pow2; lia). lia. }
    replace (m * 2 ^ e) with (m * 2 ^ (e - t) * 2 ^ t) at 2
      by (rewrite <-Z.mul_assoc, <-Z.pow_add_r by lia; do 2 f_equal; lia).
    rewrite Z.div_mul by lia. rewrite <-Z.mul_assoc, <-Z.pow_add_r by lia. do 2 f_equal; lia. }
  split; [done|]. split; [|split; [done|]].
  - destruct U2 as [U2|U2]; [rewrite U2, Z.pow_0_r, Z.div_1_r in *; lia|lia].
  - assert (2 ^ mw f * 2 ^ t < top f) as Hlt by (destruct U2 as [U2|]; [rewrite U2 in *; lia|nia]).
    unfold top in Hlt. rewrite <-Z.pow_add_r in Hlt by lia. apply Z.pow_lt_mono_r_iff in Hlt; [lia|lia|].
    assert (2 ^ 2 <= 2 ^ ew f) by (apply Z.pow_le_mono_r; lia). lia.
Qed.

(** Writing a number and reading it back. *)
Lemma of_to_bits v : num_ok f v -> of_bits f (to_bits f v) = v.
Proof.
  pose proof mw_pos f. pose proof ew_pos. pose proof (pow2_pos (mw f)).
  assert (2 ^ 2 <= 2 ^ ew f) by (apply Z.pow_le_mono_r; lia).
  destruct v as [b|s|s u]; [by intros [??]|..]; intros Hv.
  - replace (to_bits f (Inf s)) with (assemble s (Z.ones (ew f)) 0)
      by (unfold to_bits, assemble; by rewrite Z.add_0_r).
    rewrite of_assemble by (rewrite ?ones_pow; lia). by rewrite Z.eqb_refl.
  - rewrite to_bits_fin. destruct (Z.ltb_spec u (2 ^ mw f)).
    + pose proof (precise_nonneg f u (proj1 Hv)). rewrite of_assemble by lia.
      rewrite ones_pow by lia. case (Z.eqb_spec 0 (2 ^ ew f - 1)); [lia|done].
    + destruct (normal_fields u Hv) as (E & ? & ? & ?); [done|]. rewrite of_assemble by lia.
      rewrite ones_pow by lia. case (Z.eqb_spec (uexp f u + 1) (2 ^ ew f - 1)); [lia|intros _].
      case (Z.eqb_spec (uexp f u + 1) 0); [lia|intros _]. f_equal. rewrite Z.add_simpl_r. lia.
Qed.

(** Reading a register and writing it back. *)
Lemma to_of_bits b : fits (width f) b -> to_bits f (of_bits f b) = b.
Proof.
  intros Hb. pose proof mw_pos f. pose proof ew_pos. pose proof (pow2_pos (mw f)).
  destruct (assemble_of b Hb) as (E & He & Hm).
  set (s := Z.testbit b (width f - 1)) in *. set (e := (b .>> mw f) .& Z.ones (ew f)) in *.
  set (m := b .& Z.ones (mw f)) in *. rewrite E, of_assemble by done.
  destruct (Z.eqb_spec e (Z.ones (ew f))) as [->|].
  { destruct (Z.eqb_spec m 0) as [->|]; [|done]. unfold to_bits, assemble. by rewrite Z.add_0_r. }
  destruct (Z.eqb_spec e 0) as [->|].
  { rewrite to_bits_fin. by rewrite (proj2 (Z.ltb_lt _ _)) by lia. }
  rewrite to_bits_fin. pose proof (pow2_pos (e - 1) ltac:(lia)).
  rewrite (proj2 (Z.ltb_ge _ _)) by nia.
  rewrite uexp_mul, Z.div_mul; [f_equal; lia|lia| |lia|right; lia].
  unfold prec. rewrite Z.pow_add_r by lia. change (2 ^ 1) with 2. lia.
Qed.

Lemma of_bits_ok b : fits (width f) b -> num_ok f (of_bits f b).
Proof.
  intros Hb. pose proof mw_pos f. pose proof ew_pos. pose proof (pow2_pos (mw f)).
  destruct (assemble_of b Hb) as (E & He & Hm). unfold of_bits.
  set (s := Z.testbit b (width f - 1)) in *. set (e := (b .>> mw f) .& Z.ones (ew f)) in *.
  set (m := b .& Z.ones (mw f)) in *.
  assert (2 ^ prec f = 2 * 2 ^ mw f) as E2 by (unfold prec; rewrite Z.pow_add_r by lia; lia).
  assert (2 ^ 2 <= 2 ^ ew f) by (apply Z.pow_le_mono_r; lia).
  destruct (Z.eqb_spec e (Z.ones (ew f))) as [He1|He1].
  { destruct (Z.eqb_spec m 0); [done|]. split; [done|]. rewrite E, of_assemble by done.
    rewrite (proj2 (Z.eqb_eq _ _) He1). by rewrite (proj2 (Z.eqb_neq m 0)). }
  rewrite ones_pow in He1 by lia.
  assert (2 ^ mw f * 2 ^ (2 ^ ew f - 2) = top f) as ET.
  { rewrite <-Z.pow_add_r by lia. unfold top. f_equal. lia. }
  destruct (Z.eqb_spec e 0).
  - split; [exists m, 0; lia|]. rewrite <-ET. pose proof (pow2_pos (2 ^ ew f - 2) ltac:(lia)). nia.
  - split; [exists (2 ^ mw f + m), (e - 1); lia|]. rewrite <-ET.
    assert (2 ^ (2 ^ ew f - 2) = 2 * 2 ^ (2 ^ ew f - 3))
      by (rewrite <-Z.pow_succ_r by lia; f_equal; lia).
    assert (2 ^ (e - 1) <= 2 ^ (2 ^ ew f - 3)) by (apply Z.pow_le_mono_r; lia).
    pose proof (pow2_pos (e - 1) ltac:(lia)). nia.
Qed.

Lemma to_bits_fits v : num_ok f v -> fits (width f) (to_bits f v).
Proof.
  pose proof mw_pos f. pose proof ew_pos. pose proof (pow2_pos (mw f)).
  assert (2 ^ 2 <= 2 ^ ew f) by (apply Z.pow_le_mono_r; lia).
  destruct v as [b|s|s u]; [by intros [??]|..]; intros Hv.
  - replace (to_bits f (Inf s)) with (assemble s (Z.ones (ew f)) 0)
      by (unfold to_bits, assemble; by rewrite Z.add_0_r).
    apply assemble_fields; rewrite ?ones_pow; lia.
  - rewrite to_bits_fin. destruct (Z.ltb_spec u (2 ^ mw f)).
    + pose proof (precise_nonneg f u (proj1 Hv)). apply assemble_fields; lia.
    + destruct (normal_fields u Hv) as (E & ? & ? & ?); [done|]. apply assemble_fields; lia.
Qed.
End formats.

(** ** Results are numbers of the format *)

Class host_laws `{host} : Prop := {
  nan_result_quiet f l : fits (width f) (nan_result f l) /\
    of_bits f (nan_result f l) = NaN (nan_result f l) /\ quiet_bit f (nan_result f l) = true;
  min_max_nan_ok f a b : num_ok f (min_max_nan f a b).1;
  cast_invalid_ok f sg w a : 0 < w -> in_type sg w (cast_invalid f sg w a).1 = true
}.

Lemma largest_ok f s : num_ok f (Fin s (top f - 2 ^ (2 ^ ew f - 3))).
Proof.
  pose proof (mw_pos f). pose proof (ew_pos f). pose proof (pow2_pos (mw f)).
  assert (2 ^ 2 <= 2 ^ ew f) by (apply Z.pow_le_mono_r; lia).
  pose proof (pow2_pos (2 ^ ew f - 3) ltac:(lia)). split; [|lia].
  exists (2 ^ prec f - 1), (2 ^ ew f - 3). pose proof (pow2_pos (prec f) ltac:(unfold prec; lia)).
  split; [lia|split; [lia|]].
  rewrite Z.mul_sub_distr_r, <-Z.pow_add_r by (unfold prec; lia). unfold top. do 2 f_equal; [|lia].
  f_equal. unfold prec. lia.
Qed.

Lemma round_ok f md s x : cut_ok x -> num_ok f (round f md s x).1.
Proof.
  intros Hx. destruct (round_correct f md s x Hx) as (y & Hy & Hr).
  destruct (Z.leb_spec (top f) y) as [Ht|Ht].
  - rewrite Hr. simpl. destruct (dir_of md s); [apply largest_ok|done..].
  - destruct Hr as [-> _]. split; [|done]. by destruct Hy.
Qed.

Lemma zero_ok f s : num_ok f (Fin s 0).
Proof. split; [exists 0, 0; by destruct f|by destruct f]. Qed.

Lemma precise_pow2 f u k : 0 <= k -> precise f u -> precise f (u * 2 ^ k).
Proof.
  intros Hk (m & t & ? & ? & ->). exists m, (t + k). rewrite Z.pow_add_r, Z.mul_assoc by lia.
  repeat split; lia.
Qed.

(** Another sign bit for the same fields. *)
Lemma assemble_sign f s s' e m :
  0 <= e < 2 ^ ew f -> 0 <= m < 2 ^ mw f ->
  (assemble f s' e m .& Z.ones (width f - 1)) .| (Z.b2z s .<< (width f - 1)) = assemble f s e m.
Proof.
  intros He Hm. pose proof (mw_pos f). pose proof (ew_pos f). pose proof (width_eq f) as EW.
  rewrite <-wrap_land by lia. rewrite Z.lor_comm.
  assert (0 <= width f - 1) as Hw by lia.
  rewrite (lor_shiftl_add _ _ _ Hw (wrap_fits _ _ Hw)). unfold assemble, wrap.
  replace (width f - 1) with (ew f + mw f) by lia.
  assert (0 <= e * 2 ^ mw f + m < 2 ^ (ew f + mw f))
    by (rewrite Z.pow_add_r by lia; pose proof (pow2_pos (mw f)); nia).
  replace (if s' then 2 ^ (ew f + mw f) else 0) with (Z.b2z s' * 2 ^ (ew f + mw f))
    by (destruct s'; cbv [Z.b2z]; lia).
  rewrite (Z.add_comm (Z.b2z s' * _)), Z_mod_plus_full, Z.mod_small by lia.
  destruct s; cbv [Z.b2z]; lia.
Qed.

Lemma with_sign_ok f s v : num_ok f v -> num_ok f (with_sign f s v).
Proof.
  destruct v as [b|s'|s' u]; [|done|done]. intros [Hb Hn].
  destruct (assemble_of f b Hb) as (E & He & Hm).
  set (e := (b .>> mw f) .& Z.ones (ew f)) in *. set (m := b .& Z.ones (mw f)) in *.
  unfold with_sign, num_ok. rewrite E at 1 2 3. rewrite assemble_sign by done.
  split; [by apply assemble_fields|].
  rewrite E, of_assemble in Hn by done. rewrite of_assemble by done.
  destruct (e =? _); [by destruct (m =? 0)|by destruct (e =? 0)].
Qed.

Section results.
Context `{HL : host_laws}.
Variable f : fmt.
Variable md : rmode.
#[local] Arguments num_ok : simpl never.

Lemma nan_of_ok l nv : num_ok f (nan_of f l nv).1.
Proof. destruct (nan_result_quiet f l) as (? & ? & ?). done. Qed.

Lemma fadd_finite_ok s1 u1 s2 u2 D : 0 < D -> num_ok f (fadd_finite f md s1 u1 s2 u2 D).1.
Proof.
  intros. unfold fadd_finite. destruct (_ =? 0); [apply zero_ok|].
  apply round_ok, quotient_ok; lia.
Qed.

Lemma fadd_num_ok a b : num_ok f a -> num_ok f b -> num_ok f (fadd_num f md a b).1.
Proof.
  destruct a as [|s1|s1 u1], b as [|s2|s2 u2]; intros; simpl; try done; try apply (nan_of_ok _ false).
  - destruct (eqb _ _); [done|apply (nan_of_ok _ false)].
  - by apply fadd_finite_ok.
Qed.
Lemma fadd_ok a b : num_ok f a -> num_ok f b -> num_ok f (fadd f md a b).1.
Proof. intros. unfold fadd. destruct (_ || _); [apply (nan_of_ok _ false)|by apply fadd_num_ok]. Qed.
Lemma fsub_ok a b : num_ok f a -> num_ok f b -> num_ok f (fsub f md a b).1.
Proof.
  intros. unfold fsub. destruct (_ || _); [apply (nan_of_ok _ false)|]. by apply fadd_num_ok, with_sign_ok.
Qed.

Lemma scale_pos : 0 < 2 ^ scale f.
Proof. by destruct f. Qed.

Lemma num_ok_nonneg s u : num_ok f (Fin s u) -> 0 <= u.
Proof. intros [Hp _]. exact (precise_nonneg f u Hp). Qed.

Lemma fmul_ok a b : num_ok f a -> num_ok f b -> num_ok f (fmul f md a b).1.
Proof.
  destruct a as [|s1|s1 u1], b as [|s2|s2 u2]; intros Ha Hb; simpl; try done; try apply (nan_of_ok _ false).
  - destruct (u2 =? 0); [apply (nan_of_ok _ false)|done].
  - destruct (u1 =? 0); [apply (nan_of_ok _ false)|done].
  - apply num_ok_nonneg in Ha, Hb. apply round_ok, quotient_ok; [nia|apply scale_pos].
Qed.
Lemma fdiv_ok a b : num_ok f a -> num_ok f b -> num_ok f (fdiv f md a b).1.
Proof.
  destruct a as [|s1|s1 u1], b as [|s2|s2 u2]; intros Ha Hb; simpl; try done; try apply (nan_of_ok _ false);
    try apply zero_ok.
  apply num_ok_nonneg in Ha, Hb. pose proof scale_pos. case (Z.eqb_spec u2 0); intros.
  - by destruct (u1 =? 0); [apply (nan_of_ok _ false)|].
  - apply round_ok, quotient_ok; nia.
Qed.
Lemma fsqrt_ok a : num_ok f a -> num_ok f (fsqrt f md a).1.
Proof.
  destruct a as [|[]|s u]; intros Ha; simpl; try done; try apply (nan_of_ok _ false).
  pose proof (num_ok_nonneg _ _ Ha). pose proof scale_pos.
  destruct (u =? 0); [done|]. destruct s; [apply (nan_of_ok _ false)|]. apply round_ok, root_ok. nia.
Qed.
Lemma fma_ok a b c : num_ok f a -> num_ok f b -> num_ok f c -> num_ok f (fma f md a b c).1.
Proof.
  intros Ha Hb Hc. unfold fma. destruct (_ || _); [apply (nan_of_ok _ false)|].
  destruct (is_nan c); [apply (nan_of_ok _ false)|]. destruct (zero_times_inf a b); [apply (nan_of_ok _ false)|].
  destruct a, b, c; simpl; try done; try (destruct (eqb _ _); [done|apply (nan_of_ok _ false)]).
  apply fadd_finite_ok, scale_pos.
Qed.
Lemma fmin_max_ok sm a b : num_ok f a -> num_ok f b -> num_ok f (fmin_max f sm a b).1.
Proof.
  intros. unfold fmin_max. destruct (_ || _); [apply min_max_nan_ok|].
  destruct (is_nan a); [done|]. destruct (is_nan b); [done|].
  destruct (_ && _); [apply zero_ok|]. by destruct (eqb _ _).
Qed.
Lemma of_int_ok n : num_ok f (of_int f md n).1.
Proof.
  unfold of_int. destruct (n =? 0); [apply zero_ok|]. pose proof scale_pos.
  apply round_ok, quotient_ok; lia.
Qed.
Lemma to_int_range sg w a : 0 < w -> in_type sg w (to_int f sg w a).1 = true.
Proof.
  intros Hw. unfold to_int. destruct a; try by apply cast_invalid_ok.
  destruct (in_type sg w (signed_units _ _)) eqn:E; [done|by apply cast_invalid_ok].
Qed.
Lemma to_single_ok a : num_ok Double a -> num_ok Single (to_single md a).1.
Proof.
  destruct a as [b|s|s u]; intros Ha; simpl; [|done|].
  - destruct (nan_result_quiet Single [NaN b]) as (? & ? & ?). done.
  - case (Z.eqb_spec u 0) as [->|]; [apply zero_ok|].
    apply round_ok, quotient_ok; [|done]. exact (precise_nonneg _ _ (proj1 Ha)).
Qed.
Lemma to_double_ok a : num_ok Single a -> num_ok Double (to_double a).1.
Proof.
  destruct a as [b|s|s u]; intros Ha; simpl; [|done|].
  - destruct (nan_result_quiet Double [NaN b]) as (? & ? & ?). done.
  - destruct Ha as [(m & t & Hm & Ht & ->) Hu]. split.
    + apply precise_pow2; [done|]. exists m, t. split; [|done].
      destruct Hm as [? Hm]. split; [done|]. by eapply Z.lt_trans.
    + assert (top Single * 2 ^ (scale Double - scale Single) < top Double) by (by vm_compute).
      eapply Z.lt_trans; [|done]. by apply Z.mul_lt_mono_pos_r.
Qed.
End results.

(** A host with one NaN per format, which delivers the NaN where C++ leaves the choice, and the
    extreme number of the type for a cast out of its range. *)
Definition canonical_nan (f : fmt) : Z := match f with Single => 0x7FC00000 | Double => 0x7FF8000000000000 end.
Definition canonical_host : host := {|
  nan_result f _ := canonical_nan f;
  fma_nan_invalid := true;
  min_max_zero := false;
  min_max_nan f _ _ := (NaN (canonical_nan f), no_flags);
  cast_invalid _ sg w _ := (if sg then - 2 ^ (w - 1) else 2 ^ w - 1, invalid true)
|}.

Lemma canonical_host_laws : @host_laws canonical_host.
Proof.
  split; simpl.
  - intros [] _; (split; [fits_const|by vm_compute]).
  - intros [] _ _; (split; [fits_const|by vm_compute]).
  - intros _ [] w _ Hw; simpl; pose proof (pow2_pos (w - 1)); pose proof (pow2_pos w);
      apply andb_true_intro; split; (apply Z.leb_le || apply Z.ltb_lt); lia.
Qed.
