(* ===== verification/FExt.v ===== *)
(** [inc/F_extension.h] and the floating-point registers of [inc/Registers.h]: the decoder
    and the execution of the single-precision instructions.

    A single is kept in a 64-bit register with the upper half set.  [f_execute] gives the
    latency, the value for [fcsr_flags], the hart and the registers; [None] is an error report
    of the memory interface.  The operands are read from the registers that the word names, the
    result goes to the register [rd]; the rounding mode is the one of CSR 3 in the register
    bank's map. *)
From S2P Require Import Prelude Bytes Memory Regs FloatArith.

(** ** The registers *)

Definition getFPValue (reg : Z) (fp : list Z) : Z := fp !!! Z.to_nat (reg .& 0x1F).
Definition setFPValue (reg val : Z) (fp : list Z) : list Z := <[Z.to_nat (reg .& 0x1F) := val]> fp.
Definition box (b : Z) : Z := 0xFFFFFFFF00000000 .| b.
Definition getF32 (reg : Z) (fp : list Z) : num := of_bits Single (getFPValue reg fp .& 0xFFFFFFFF).
Definition setF32 (reg : Z) (v : num) (fp : list Z) : list Z :=
  setFPValue reg (box (to_bits Single v)) fp.
Definition getF64 (reg : Z) (fp : list Z) : num := of_bits Double (getFPValue reg fp).
Definition setF64 (reg : Z) (v : num) (fp : list Z) : list Z := setFPValue reg (to_bits Double v) fp.

Definition get_rs3 (m_instr : Z) : Z := (m_instr .>> 27) .& 0x1F.

(** [std::fesetround] for the field [frm]; [fcsr_flags] from [std::fetestexcept]. *)
Definition rounding_of (frm : Z) : rmode :=
  if frm =? 0 then RNE else if frm =? 1 then RTZ else if frm =? 2 then RDN
  else if frm =? 3 then RUP else RNE.
Definition fcsr_flags (fe : flags) : Z :=
  (if fe_nx fe then 0x01 else 0) .| (if fe_uf fe then 0x02 else 0) .| (if fe_of fe then 0x04 else 0) .|
  (if fe_dz fe then 0x08 else 0) .| (if fe_nv fe then 0x10 else 0).

(** ** The decoder *)

Inductive op_F_Codes :=
| OP_F_FLW | OP_F_FSW
| OP_F_FMADD_S | OP_F_FMSUB_S | OP_F_FNMSUB_S | OP_F_FNMADD_S
| OP_F_FADD_S | OP_F_FSUB_S | OP_F_FMUL_S | OP_F_FDIV_S | OP_F_FSQRT_S
| OP_F_FSGNJ_S | OP_F_FSGNJN_S | OP_F_FSGNJX_S
| OP_F_FMIN_S | OP_F_FMAX_S
| OP_F_FCVT_W_S | OP_F_FCVT_WU_S | OP_F_FCVT_L_S | OP_F_FCVT_LU_S
| OP_F_FCVT_S_W | OP_F_FCVT_S_WU | OP_F_FCVT_S_L | OP_F_FCVT_S_LU
| OP_F_FMV_X_W | OP_F_FMV_W_X | OP_F_FCLASS_S
| OP_F_FEQ_S | OP_F_FLT_S | OP_F_FLE_S
| OP_F_ERROR.
#[export] Instance op_F_Codes_eq_dec : EqDecision op_F_Codes.
Proof. solve_decision. Defined.

Definition f_decode (m_instr : Z) : op_F_Codes :=
  let opcode := m_instr .& 0x7F in
  let funct3 := (m_instr .>> 12) .& 0x7 in
  let funct7 := (m_instr .>> 25) .& 0x7F in
  let rs2 := (m_instr .>> 20) .& 0x1F in
  let fmt0 := ((m_instr .>> 25) .& 0x3) =? 0x0 in
  if (opcode =? 0x07) && (funct3 =? 0x2) then OP_F_FLW
  else if (opcode =? 0x27) && (funct3 =? 0x2) then OP_F_FSW
  else if (opcode =? 0x43) && fmt0 then OP_F_FMADD_S
  else if (opcode =? 0x47) && fmt0 then OP_F_FMSUB_S
  else if (opcode =? 0x4B) && fmt0 then OP_F_FNMSUB_S
  else if (opcode =? 0x4F) && fmt0 then OP_F_FNMADD_S
  else if opcode =? 0x53 then
    if funct7 =? 0x00 then OP_F_FADD_S
    else if funct7 =? 0x04 then OP_F_FSUB_S
    else if funct7 =? 0x08 then OP_F_FMUL_S
    else if funct7 =? 0x0C then OP_F_FDIV_S
    else if funct7 =? 0x2C then OP_F_FSQRT_S
    else if funct7 =? 0x10 then
      if funct3 =? 0 then OP_F_FSGNJ_S else if funct3 =? 1 then OP_F_FSGNJN_S
      else if funct3 =? 2 then OP_F_FSGNJX_S else OP_F_ERROR
    else if funct7 =? 0x14 then (if funct3 =? 0 then OP_F_FMIN_S else OP_F_FMAX_S)
    else if funct7 =? 0x60 then
      if rs2 =? 0 then OP_F_FCVT_W_S else if rs2 =? 1 then OP_F_FCVT_WU_S
      else if rs2 =? 2 then OP_F_FCVT_L_S else if rs2 =? 3 then OP_F_FCVT_LU_S else OP_F_ERROR
    else if funct7 =? 0x68 then
      if rs2 =? 0 then OP_F_FCVT_S_W else if rs2 =? 1 then OP_F_FCVT_S_WU
      else if rs2 =? 2 then OP_F_FCVT_S_L else if rs2 =? 3 then OP_F_FCVT_S_LU else OP_F_ERROR
    else if funct7 =? 0x70 then (if funct3 =? 0 then OP_F_FMV_X_W else OP_F_FCLASS_S)
    else if funct7 =? 0x78 then OP_F_FMV_W_X
    else if funct7 =? 0x50 then
      if funct3 =? 2 then OP_F_FEQ_S else if funct3 =? 1 then OP_F_FLT_S
      else if funct3 =? 0 then OP_F_FLE_S else OP_F_ERROR
    else OP_F_ERROR
  else OP_F_ERROR.

(** ** Execution *)

(** The class of the number with the given bits. *)
Definition fclass_s (b : Z) : Z :=
  let sign := Z.testbit b 31 in
  let exp := (b .>> 23) .& 0xFF in
  let mant := b .& 0x7FFFFF in
  if (exp =? 0xFF) && negb (mant =? 0) then (if sign then 1 .<< 8 else 1 .<< 9)
  else if (exp =? 0xFF) && (mant =? 0) then (if sign then 1 .<< 0 else 1 .<< 7)
  else if (exp =? 0) && (mant =? 0) then (if sign then 1 .<< 3 else 1 .<< 4)
  else if exp =? 0 then (if sign then 1 .<< 2 else 1 .<< 5)
  else if sign then 1 .<< 1 else 1 .<< 6.

(** The latency, [fcsr_flags], the hart and the registers. *)
Definition fp_result (S : Type) : Type := option (Z * Z * hart S * list Z).

Section execute.
Context {S : Type} `{Target S} `{host}.
Variable XLEN : Z.

Definition frm_mode (h : hart S) : rmode :=
  match getCSR 0x003 h with Some (fcsr, _) => rounding_of ((fcsr .>> 5) .& 0x7) | None => RNE end.

(** Outcomes that write the integer register, or nothing but memory. *)
Definition to_x (latency rd v : Z) (fe : flags) (h : hart S) (fp : list Z) : fp_result S :=
  match setValue XLEN rd v h with Some (_, h) => Some (latency, fcsr_flags fe, h, fp) | None => None end.
Definition of_mem {A} (latency : Z) (m : M S A) (k : A -> list Z) (h : hart S) : fp_result S :=
  match m h with Some (a, h) => Some (latency, 0, h, k a) | None => None end.
Definition b2x (r : bool * flags) : Z * flags := (Z.b2z r.1, r.2).

Definition f_execute (m_instr : Z) (op : op_F_Codes) (rs1_val rs2_val rd mem_addr : Z)
    (h : hart S) (fp : list Z) : fp_result S :=
  let md := frm_mode h in
  let a := getF32 (get_rs1 m_instr) fp in
  let b := getF32 (get_rs2 m_instr) fp in
  let c := getF32 (get_rs3 m_instr) fp in
  let wf latency (r : num * flags) := Some (latency, fcsr_flags r.2, h, setF32 rd r.1 fp) in
  let wx latency (r : Z * flags) := to_x latency rd r.1 r.2 h fp in
  match op with
  | OP_F_FLW => of_mem 2 (read_mem mem_addr 4) (fun raw => setFPValue rd (box (u32 raw)) fp) h
  | OP_F_FSW => of_mem 1 (write_mem mem_addr (rs2_val .& 0xFFFFFFFF) 4) (fun _ => fp) h
  | OP_F_FADD_S => wf 4 (fadd Single md a b)
  | OP_F_FSUB_S => wf 4 (fsub Single md a b)
  | OP_F_FMUL_S => wf 4 (fmul Single md a b)
  | OP_F_FDIV_S => wf 12 (fdiv Single md a b)
  | OP_F_FSQRT_S => wf 14 (fsqrt Single md a)
  | OP_F_FMADD_S => wf 5 (fma Single md a b c)
  | OP_F_FMSUB_S => wf 5 (fma Single md a b (fneg Single c))
  | OP_F_FNMSUB_S => let r := fma Single md a b (fneg Single c) in wf 5 (fneg Single r.1, r.2)
  | OP_F_FNMADD_S => let r := fma Single md a b c in wf 5 (fneg Single r.1, r.2)
  | OP_F_FSGNJ_S => wf 2 (copysign Single (fabs Single a) b, no_flags)
  | OP_F_FSGNJN_S => wf 2 (copysign Single (fabs Single a) (fneg Single b), no_flags)
  | OP_F_FSGNJX_S => let r := fmul Single md a b in wf 2 (copysign Single a r.1, r.2)
  | OP_F_FMIN_S => wf 2 (fmin Single a b)
  | OP_F_FMAX_S => wf 2 (fmax Single a b)
  | OP_F_FEQ_S => wx 2 (b2x (feq Single a b))
  | OP_F_FLT_S => wx 2 (b2x (flt Single a b))
  | OP_F_FLE_S => wx 2 (b2x (fle Single a b))
  | OP_F_FCVT_W_S => wx 2 (to_int Single true 32 a)
  | OP_F_FCVT_WU_S => wx 2 (to_int Single false 32 a)
  | OP_F_FCVT_L_S => wx 2 (to_int Single true 64 a)
  | OP_F_FCVT_LU_S => wx 2 (to_int Single false 64 a)
  | OP_F_FCVT_S_W => wf 2 (of_int Single md (s32 rs1_val))
  | OP_F_FCVT_S_WU => wf 2 (of_int Single md (u32 rs1_val))
  | OP_F_FCVT_S_L => wf 2 (of_int Single md (s64 rs1_val))
  | OP_F_FCVT_S_LU => wf 2 (of_int Single md (u64 rs1_val))
  | OP_F_FMV_X_W => wx 1 (s32 (getFPValue (get_rs1 m_instr) fp .& 0xFFFFFFFF), no_flags)
  | OP_F_FMV_W_X => Some (1, 0, h, setFPValue rd (box (rs1_val .& 0xFFFFFFFF)) fp)
  | OP_F_FCLASS_S => wx 1 (fclass_s (to_bits Single a), no_flags)
  | OP_F_ERROR => Some (0, 0, h, fp)
  end.
End execute.
