(* ===== verification/DExt.v ===== *)
(** [inc/D_extension.h]: the decoder and the execution of the double-precision instructions,
    and the floating-point unit of the six-stage RV64 core, which tries the decoders of both
    extensions. *)
From S2P Require Import Prelude Bytes Memory Regs FloatArith FExt.

(** ** The decoder *)

Inductive op_D_Codes :=
| OP_D_FLD | OP_D_FSD
| OP_D_FMADD_D | OP_D_FMSUB_D | OP_D_FNMSUB_D | OP_D_FNMADD_D
| OP_D_FADD_D | OP_D_FSUB_D | OP_D_FMUL_D | OP_D_FDIV_D | OP_D_FSQRT_D
| OP_D_FSGNJ_D | OP_D_FSGNJN_D | OP_D_FSGNJX_D
| OP_D_FMIN_D | OP_D_FMAX_D
| OP_D_FCVT_W_D | OP_D_FCVT_WU_D | OP_D_FCVT_L_D | OP_D_FCVT_LU_D
| OP_D_FCVT_D_W | OP_D_FCVT_D_WU | OP_D_FCVT_D_L | OP_D_FCVT_D_LU
| OP_D_FCVT_S_D | OP_D_FCVT_D_S
| OP_D_FMV_X_D | OP_D_FMV_D_X | OP_D_FCLASS_D
| OP_D_FEQ_D | OP_D_FLT_D | OP_D_FLE_D
| OP_D_ERROR.
#[export] Instance op_D_Codes_eq_dec : EqDecision op_D_Codes.
Proof. solve_decision. Defined.

Definition d_decode (m_instr : Z) : op_D_Codes :=
  let opcode := m_instr .& 0x7F in
  let funct3 := (m_instr .>> 12) .& 0x7 in
  let funct7 := (m_instr .>> 25) .& 0x7F in
  let rs2 := (m_instr .>> 20) .& 0x1F in
  let fmt1 := ((m_instr .>> 25) .& 0x3) =? 0x1 in
  if (opcode =? 0x07) && (funct3 =? 0x3) then OP_D_FLD
  else if (opcode =? 0x27) && (funct3 =? 0x3) then OP_D_FSD
  else if (opcode =? 0x43) && fmt1 then OP_D_FMADD_D
  else if (opcode =? 0x47) && fmt1 then OP_D_FMSUB_D
  else if (opcode =? 0x4B) && fmt1 then OP_D_FNMSUB_D
  else if (opcode =? 0x4F) && fmt1 then OP_D_FNMADD_D
  else if opcode =? 0x53 then
    if funct7 =? 0x01 then OP_D_FADD_D
    else if funct7 =? 0x05 then OP_D_FSUB_D
    else if funct7 =? 0x09 then OP_D_FMUL_D
    else if funct7 =? 0x0D then OP_D_FDIV_D
    else if funct7 =? 0x2D then OP_D_FSQRT_D
    else if funct7 =? 0x11 then
      if funct3 =? 0 then OP_D_FSGNJ_D else if funct3 =? 1 then OP_D_FSGNJN_D
      else if funct3 =? 2 then OP_D_FSGNJX_D else OP_D_ERROR
    else if funct7 =? 0x15 then (if funct3 =? 0 then OP_D_FMIN_D else OP_D_FMAX_D)
    else if funct7 =? 0x20 then (if rs2 =? 1 then OP_D_FCVT_S_D else OP_D_ERROR)
    else if funct7 =? 0x21 then (if rs2 =? 0 then OP_D_FCVT_D_S else OP_D_ERROR)
    else if funct7 =? 0x61 then
      if rs2 =? 0 then OP_D_FCVT_W_D else if rs2 =? 1 then OP_D_FCVT_WU_D
      else if rs2 =? 2 then OP_D_FCVT_L_D else if rs2 =? 3 then OP_D_FCVT_LU_D else OP_D_ERROR
    else if funct7 =? 0x69 then
      if rs2 =? 0 then OP_D_FCVT_D_W else if rs2 =? 1 then OP_D_FCVT_D_WU
      else if rs2 =? 2 then OP_D_FCVT_D_L else if rs2 =? 3 then OP_D_FCVT_D_LU else OP_D_ERROR
    else if funct7 =? 0x71 then (if funct3 =? 0 then OP_D_FMV_X_D else OP_D_FCLASS_D)
    else if funct7 =? 0x79 then OP_D_FMV_D_X
    else if funct7 =? 0x51 then
      if funct3 =? 2 then OP_D_FEQ_D else if funct3 =? 1 then OP_D_FLT_D
      else if funct3 =? 0 then OP_D_FLE_D else OP_D_ERROR
    else OP_D_ERROR
  else OP_D_ERROR.

(** ** Execution *)

Definition fclass_d (b : Z) : Z :=
  let sign := Z.testbit b 63 in
  let exp := (b .>> 52) .& 0x7FF in
  let mant := b .& 0xFFFFFFFFFFFFF in
  if (exp =? 0x7FF) && negb (mant =? 0) then (if sign then 1 .<< 8 else 1 .<< 9)
  else if (exp =? 0x7FF) && (mant =? 0) then (if sign then 1 .<< 0 else 1 .<< 7)
  else if (exp =? 0) && (mant =? 0) then (if sign then 1 .<< 3 else 1 .<< 4)
  else if exp =? 0 then (if sign then 1 .<< 2 else 1 .<< 5)
  else if sign then 1 .<< 1 else 1 .<< 6.

Section execute.
Context {S : Type} `{Target S} `{host}.
Variable XLEN : Z.

Definition d_execute (m_instr : Z) (op : op_D_Codes) (rs1_val rs2_val rd mem_addr : Z)
    (h : hart S) (fp : list Z) : fp_result S :=
  let md := frm_mode h in
  let a := getF64 (get_rs1 m_instr) fp in
  let b := getF64 (get_rs2 m_instr) fp in
  let c := getF64 (get_rs3 m_instr) fp in
  let wf latency (r : num * flags) := Some (latency, fcsr_flags r.2, h, setF64 rd r.1 fp) in
  let wx latency (r : Z * flags) := to_x XLEN latency rd r.1 r.2 h fp in
  match op with
  | OP_D_FLD => of_mem 2 (read_mem64 mem_addr 8) (fun raw => setFPValue rd raw fp) h
  | OP_D_FSD => of_mem 1 (write_mem64 mem_addr rs2_val 8) (fun _ => fp) h
  | OP_D_FADD_D => wf 4 (fadd Double md a b)
  | OP_D_FSUB_D => wf 4 (fsub Double md a b)
  | OP_D_FMUL_D => wf 4 (fmul Double md a b)
  | OP_D_FDIV_D => wf 20 (fdiv Double md a b)
  | OP_D_FSQRT_D => wf 22 (fsqrt Double md a)
  | OP_D_FMADD_D => wf 5 (fma Double md a b c)
  | OP_D_FMSUB_D => wf 5 (fma Double md a b (fneg Double c))
  | OP_D_FNMSUB_D => let r := fma Double md a b (fneg Double c) in wf 5 (fneg Double r.1, r.2)
  | OP_D_FNMADD_D => let r := fma Double md a b c in wf 5 (fneg Double r.1, r.2)
  | OP_D_FSGNJ_D => wf 2 (copysign Double (fabs Double a) b, no_flags)
  | OP_D_FSGNJN_D => wf 2 (copysign Double (fabs Double a) (fneg Double b), no_flags)
  | OP_D_FSGNJX_D => let r := fmul Double md a b in wf 2 (copysign Double a r.1, r.2)
  | OP_D_FMIN_D => wf 2 (fmin Double a b)
  | OP_D_FMAX_D => wf 2 (fmax Double a b)
  | OP_D_FEQ_D => wx 2 (b2x (feq Double a b))
  | OP_D_FLT_D => wx 2 (b2x (flt Double a b))
  | OP_D_FLE_D => wx 2 (b2x (fle Double a b))
  | OP_D_FCVT_W_D => wx 2 (to_int Double true 32 a)
  | OP_D_FCVT_WU_D => wx 2 (to_int Double false 32 a)
  | OP_D_FCVT_L_D => wx 2 (to_int Double true 64 a)
  | OP_D_FCVT_LU_D => wx 2 (to_int Double false 64 a)
  | OP_D_FCVT_D_W => wf 2 (of_int Double md (s32 rs1_val))
  | OP_D_FCVT_D_WU => wf 2 (of_int Double md (u32 rs1_val))
  | OP_D_FCVT_D_L => wf 2 (of_int Double md (s64 rs1_val))
  | OP_D_FCVT_D_LU => wf 2 (of_int Double md (u64 rs1_val))
  | OP_D_FCVT_S_D =>
      let r := to_single md a in Some (2, fcsr_flags r.2, h, setF32 rd r.1 fp)
  | OP_D_FCVT_D_S => wf 2 (to_double (getF32 (get_rs1 m_instr) fp))
  | OP_D_FMV_X_D => wx 1 (s64 (getFPValue (get_rs1 m_instr) fp), no_flags)
  | OP_D_FMV_D_X => Some (1, 0, h, setFPValue rd rs1_val fp)
  | OP_D_FCLASS_D => wx 1 (fclass_d (to_bits Double a), no_flags)
  | OP_D_ERROR => Some (0, 0, h, fp)
  end.

(** The dispatch of [EX_stage]: [None] when neither decoder knows the word. *)
Definition fpu_execute (m_instr rs1_val rs2_val rd pa : Z) (h : hart S) (fp : list Z) :
    option (fp_result S) :=
  if negb (bool_decide (f_decode m_instr = OP_F_ERROR)) then
    Some (f_execute XLEN m_instr (f_decode m_instr) rs1_val rs2_val rd pa h fp)
  else if negb (bool_decide (d_decode m_instr = OP_D_ERROR)) then
    Some (d_execute m_instr (d_decode m_instr) rs1_val rs2_val rd pa h fp)
  else None.
End execute.
