(* ===== verification/FloatProofs.v ===== *)
(** Correctness of the floating-point instructions of [FExt.v] and [DExt.v]: the decoders, the
    rounding of the arithmetic, the conversions, the classes, the signs and the registers. *)
From S2P Require Import Prelude Bytes Memory Regs FloatArith FExt DExt.

(** ** The decoders *)

Lemma fields_of_instr w :
  0 <= w -> (w .>> 25) .& 0x3 = ((w .>> 25) .& 0x7F) .& 0x3.
Proof. intros. rewrite <-Z.land_assoc. done. Qed.

(** A word of one extension is not a word of the other. *)
Lemma d_word_not_f w : 0 <= w -> d_decode w <> OP_D_ERROR -> f_decode w = OP_F_ERROR.
Proof.
  intros Hw. unfold d_decode, f_decode. rewrite (fields_of_instr w Hw).
  set (opc := w .& 0x7F). set (f3 := (w .>> 12) .& 0x7). set (f7 := (w .>> 25) .& 0x7F).
  set (r2 := (w .>> 20) .& 0x1F).
  clearbody opc f3 f7 r2.
  repeat match goal with
  | |- context [?x =? ?k] => is_var x; destruct (Z.eqb_spec x k) as [->|]; simpl; try done;
                             try (by intros [])
  | |- context [(f7 .& 0x3) =? ?k] => destruct (Z.eqb_spec (f7 .& 0x3) k) as [E|]; simpl; try done; try (by intros [])
  end.
  all: by rewrite E.
Qed.

(** ** Arithmetic *)



Definition getF (f : fmt) : Z -> list Z -> num := match f with Single => getF32 | Double => getF64 end.
Definition setF (f : fmt) : Z -> num -> list Z -> list Z := match f with Single => setF32 | Double => setF64 end.

(** The directed modes exchanged: the negated operations round before they negate. *)
Definition mirror (md : rmode) : rmode := match md with RDN => RUP | RUP => RDN | _ => md end.






Section arithmetic.
Context `{host}.





End arithmetic.

Section instructions.
Context {S : Type} `{Target S} `{host}.

End instructions.

(** ** The state *)

(** The registers of the unit. *)
Definition fp_ok (fp : list Z) : Prop := length fp = 32%nat /\ Forall (fits 64) fp.

(** One register received a number of the format, or none did. *)
Definition wrote (fp fp' : list Z) : Prop :=
  fp' = fp \/ exists rd v, fits 64 v /\ fp' = setFPValue rd v fp.
Definition wrote_single (fp fp' : list Z) : Prop :=
  fp' = fp \/ exists rd v, fits 32 v /\ fp' = setFPValue rd (box v) fp.

Lemma box_fits v : fits 32 v -> fits 64 (box v).
Proof. intros. apply fits_lor; [lia|fits_const|]. by apply (fits_mono 32). Qed.
Lemma box_upper v : fits 32 v -> box v .>> 32 = 0xFFFFFFFF.
Proof.
  intros [H0 Hv]. unfold box. rewrite Z.shiftr_lor. rewrite (Z.shiftr_div_pow2 v), Z.div_small by lia. done.
Qed.
Lemma box_lower v : fits 32 v -> box v .& 0xFFFFFFFF = v.
Proof.
  intros Hv. unfold box. rewrite Z.land_lor_distr_l, (land_u32 v), (wrap_small 32 v) by done. done.
Qed.

Lemma reg_index reg : (Z.to_nat (reg .& 0x1F) < 32)%nat.
Proof. rewrite land_31. pose proof (Z.mod_pos_bound reg 32). lia. Qed.

Lemma getFPValue_fits reg fp : fp_ok fp -> fits 64 (getFPValue reg fp).
Proof.
  intros [Hl Hf]. rewrite list.Forall_lookup in Hf. eapply Hf. apply list_lookup_lookup_total_lt.
  pose proof (reg_index reg). unfold getFPValue. lia.
Qed.
Lemma setFPValue_ok reg v fp : fits 64 v -> fp_ok fp -> fp_ok (setFPValue reg v fp).
Proof.
  intros Hv [Hl Hf]. unfold setFPValue. split; [by rewrite length_insert|by apply Forall_insert].
Qed.
Lemma getFPValue_set reg v fp : fp_ok fp -> getFPValue reg (setFPValue reg v fp) = v.
Proof.
  intros [Hl _]. pose proof (reg_index reg). unfold getFPValue, setFPValue.
  apply list_lookup_total_insert_eq. lia.
Qed.
Lemma getF_ok f reg fp : fp_ok fp -> num_ok f (getF f reg fp).
Proof.
  intros Hfp. destruct f; apply of_bits_ok.
  - change (width Single) with 32. rewrite land_u32. apply wrap_fits. lia.
  - by apply getFPValue_fits.
Qed.
(** The number written to a register is the number read from it. *)
Lemma getF_setF f reg v fp : fp_ok fp -> num_ok f v -> getF f reg (setF f reg v fp) = v.
Proof.
  intros Hfp Hv. pose proof (to_bits_fits f v Hv) as Hb. destruct f; simpl in *; unfold getF32, setF32, getF64, setF64.
  - rewrite getFPValue_set, box_lower by done. by apply of_to_bits.
  - rewrite getFPValue_set by done. by apply of_to_bits.
Qed.

Lemma fcsr_flags_fits fe : fits 5 (fcsr_flags fe).
Proof. destruct fe as [[] [] [] [] []]; fits_const. Qed.

Section state.
Context {S : Type} `{Target S} `{HL : host_laws}.

(** What a step of the unit delivers. *)
Definition fp_step_ok (r : fp_result S) (latencies : list Z) (W : list Z -> Prop) : Prop :=
  match r with
  | None => True
  | Some (latency, fl, h', fp') => latency ∈ latencies /\ fits 5 fl /\ hart_wf 64 h' /\ W fp'
  end.

Lemma to_x_ok latency rd v fe (h : hart S) fp ls W :
  latency ∈ ls -> 0 <= rd -> hart_wf 64 h -> W fp -> fp_step_ok (to_x 64 latency rd v fe h fp) ls W.
Proof.
  intros Hl Hrd Hwf HW. unfold to_x. pose proof (keeps_setValue 64 ltac:(lia) rd v Hrd h) as Hk.
  destruct (setValue 64 rd v h) as [[[] h']|]; [|done]. simpl.
  split_and!; [done|apply fcsr_flags_fits|by eapply Hk|done].
Qed.
Lemma of_mem_ok {A} latency (op : S -> option A * S) k (h : hart S) ls W :
  latency ∈ ls -> hart_wf 64 h -> (forall a s', op (mem_intf h) = (Some a, s') -> W (k a)) ->
  fp_step_ok (of_mem latency (lift_mem op) k h) ls W.
Proof.
  intros Hl Hwf HW. unfold of_mem. pose proof (keeps_lift_mem 64 op h) as Hk.
  unfold lift_mem in *. destruct (op (mem_intf h)) as [[a|] s'] eqn:E; [|done]. simpl.
  split_and!; [done|fits_const|by eapply Hk|by eapply HW].
Qed.

Lemma wf_single latency (r : num) fe (h : hart S) rd fp ls :
  latency ∈ ls -> hart_wf 64 h -> num_ok Single r ->
  fp_step_ok (Some (latency, fcsr_flags fe, h, setF32 rd r fp)) ls (wrote_single fp).
Proof.
  intros. split_and!; [done|apply fcsr_flags_fits|done|]. right. eexists rd, _. split; [|done].
  by apply (to_bits_fits Single).
Qed.
Lemma wf_double latency (r : num) fe (h : hart S) rd fp ls :
  latency ∈ ls -> hart_wf 64 h -> num_ok Double r ->
  fp_step_ok (Some (latency, fcsr_flags fe, h, setF64 rd r fp)) ls (wrote fp).
Proof.
  intros. split_and!; [done|apply fcsr_flags_fits|done|]. right. eexists rd, _. split; [|done].
  by apply (to_bits_fits Double).
Qed.

Lemma fp_step_mono r ls (W W' : list Z -> Prop) :
  (forall fp, W fp -> W' fp) -> fp_step_ok r ls W -> fp_step_ok r ls W'.
Proof. intros HW. destruct r as [[[[] ?] ?]|]; [|done]. intros (? & ? & ? & ?). split_and!; auto. Qed.

Lemma wrote_boxed fp fp' : wrote_single fp fp' -> wrote fp fp'.
Proof.
  intros [->|(rd & v & Hv & ->)]; [by left|]. right. exists rd, (box v). split; [by apply box_fits|done].
Qed.

Ltac in_list := apply list_elem_of_In; repeat first [left; reflexivity | right].
Ltac num_ok :=
  cbn [fst];
  repeat first
    [ assumption | apply fadd_ok | apply fsub_ok | apply fmul_ok | apply fdiv_ok | apply fsqrt_ok
    | apply fma_ok | apply fmin_max_ok | apply of_int_ok | apply with_sign_ok | apply to_single_ok
    | apply to_double_ok ].

Lemma f_execute_ok w op rs1_val rs2_val rd pa (h : hart S) fp :
  hart_wf 64 h -> fp_ok fp -> 0 <= rd ->
  fp_step_ok (f_execute 64 w op rs1_val rs2_val rd pa h fp) [0; 1; 2; 4; 5; 12; 14] (wrote_single fp).
Proof.
  intros Hwf Hfp Hrd. assert (wrote_single fp fp) as Hw by (by left).
  pose proof (getF_ok Single (get_rs1 w) fp Hfp) as H1. pose proof (getF_ok Single (get_rs2 w) fp Hfp) as H2.
  pose proof (getF_ok Single (get_rs3 w) fp Hfp) as H3. cbn [getF] in H1, H2, H3.
  destruct op; cbn [f_execute];
    try (apply to_x_ok; [in_list|assumption..]);
    try (apply wf_single; [in_list|assumption|num_ok]).
  - apply of_mem_ok; [in_list|done|]. intros raw s' _. right. eexists rd, _. split; [|done]. apply wrap_fits. lia.
  - apply of_mem_ok; [in_list|done|]. by intros.
  - split_and!; [in_list|fits_const|done|]. right. eexists rd, _. split; [|done].
    rewrite land_u32. apply wrap_fits. lia.
  - by split_and!; [in_list|fits_const|..].
Qed.

Lemma readDataMem64_fits addr n (s s' : S) v : readDataMem64 addr n s = (Some v, s') -> fits 64 v.
Proof.
  unfold readDataMem64. destruct (b_transport _ _ _) as [[p d] s1].
  destruct (is_response_error p); [done|]. intros [= <- _]. apply wrap_fits. lia.
Qed.

Lemma d_execute_ok w op rs1_val rs2_val rd pa (h : hart S) fp :
  hart_wf 64 h -> fp_ok fp -> 0 <= rd -> fits 64 rs1_val ->
  fp_step_ok (d_execute 64 w op rs1_val rs2_val rd pa h fp) [0; 1; 2; 4; 5; 20; 22] (wrote fp).
Proof.
  intros Hwf Hfp Hrd Hv. assert (wrote fp fp) as Hw by (by left).
  pose proof (getF_ok Double (get_rs1 w) fp Hfp) as H1. pose proof (getF_ok Double (get_rs2 w) fp Hfp) as H2.
  pose proof (getF_ok Double (get_rs3 w) fp Hfp) as H3. pose proof (getF_ok Single (get_rs1 w) fp Hfp) as H4.
  cbn [getF] in H1, H2, H3, H4.
  destruct op; cbn [d_execute];
    try (apply to_x_ok; [in_list|assumption..]);
    try (apply wf_double; [in_list|assumption|num_ok]).
  - apply of_mem_ok; [in_list|done|]. intros raw s' E. right. eexists rd, _. split; [|done].
    by eapply readDataMem64_fits.
  - apply of_mem_ok; [in_list|done|]. by intros.
  - apply (fp_step_mono _ _ (wrote_single fp)); [by apply wrote_boxed|].
    apply wf_single; [in_list|assumption|num_ok].
  - split_and!; [in_list|fits_const|done|]. right. exists rd, rs1_val. split; [assumption|reflexivity].
  - by split_and!; [in_list|fits_const|..].
Qed.
End state.

Section unit.
Context {S : Type} `{Target S} `{HL : host_laws}.

(** Every instruction of the unit keeps the state well formed: the hart, the thirty-two 64-bit
    registers, five flag bits and a latency of at most 22 cycles; an instruction of the
    F extension leaves a register as it is or with its upper half set. *)
Theorem fpu_execute_ok w rs1_val rs2_val rd pa (h : hart S) fp latency fl h' fp' :
  0 <= w -> hart_wf 64 h -> fp_ok fp -> 0 <= rd -> fits 64 rs1_val ->
  fpu_execute 64 w rs1_val rs2_val rd pa h fp = Some (Some (latency, fl, h', fp')) ->
  hart_wf 64 h' /\ fp_ok fp' /\ fits 5 fl /\ 0 <= latency <= 22 /\
  (f_decode w <> OP_F_ERROR ->
   forall reg, getFPValue reg fp' = getFPValue reg fp \/ getFPValue reg fp' .>> 32 = 0xFFFFFFFF).
Proof.
  intros Hw Hwf Hfp Hrd Hv. unfold fpu_execute.
  pose proof (f_execute_ok w (f_decode w) rs1_val rs2_val rd pa h fp Hwf Hfp Hrd) as HF.
  pose proof (d_execute_ok w (d_decode w) rs1_val rs2_val rd pa h fp Hwf Hfp Hrd Hv) as HD.
  case_bool_decide as EF; simpl.
  - case_bool_decide as ED; [done|]. simpl. intros [= E]. rewrite E in HD.
    destruct HD as (HL1 & ? & ? & HW). split_and!; [done| |done|..|done].
    + destruct HW as [->|(r & v & ? & ->)]; [done|by apply setFPValue_ok].
    + apply list_elem_of_In in HL1. simpl in HL1. lia.
    + apply list_elem_of_In in HL1. simpl in HL1. lia.
  - intros [= E]. rewrite E in HF. destruct HF as (HL1 & ? & ? & HW). split_and!; [done| |done|..].
    + destruct HW as [->|(r & v & ? & ->)]; [done|]. apply setFPValue_ok; [by apply box_fits|done].
    + apply list_elem_of_In in HL1. simpl in HL1. lia.
    + apply list_elem_of_In in HL1. simpl in HL1. lia.
    + intros _ reg. destruct HW as [->|(r & v & Hf & ->)]; [by left|].
      unfold getFPValue, setFPValue.
      destruct (list_lookup_total_insert_cases fp (Z.to_nat (r .& 0x1F)) (Z.to_nat (reg .& 0x1F)) (box v))
        as [[_ ->]| ->]; [right; by apply box_upper|by left].
Qed.

(** ** Square root *)

Lemma round_units_le f dir x : cut_ok x -> round_units f dir x <= 2 * cut_floor x + 1.
Proof.
  intros Hx. pose proof (round_bracket f x Hx) as (Hp & Hq & Hn & Hlo & Hhi). unfold round_units.
  set (t := uexp f (cut_floor x)) in *. set (q := cut_floor x / 2 ^ t) in *.
  pose proof (ck_nonneg x Hx). pose proof (pow2_pos (mw f) ltac:(by destruct f)).
  assert (2 ^ t <= cut_floor x + 1) as Ht.
  { destruct Hn as [E|Hn]; [rewrite E; change (2 ^ 0) with 1; lia|nia]. }
  destruct (round_up _ _ _ _); cbv [Z.b2z]; nia.
Qed.

Definition is_sqrt (f : fmt) (w : Z) : Prop :=
  0 <= w /\ match f with Single => f_decode w = OP_F_FSQRT_S | Double => d_decode w = OP_D_FSQRT_D end.

(** The square root of a positive number is the real square root correctly rounded: it is
    never too large or tiny, and inexact only when the root is not a number of the format. *)
Theorem fp_sqrt_correct f w rs1_val rs2_val rd pa (h : hart S) fp u :
  is_sqrt f w -> getF f (get_rs1 w) fp = Fin false u -> 0 < u < top f ->
  exists y,
    rounded f (dir_of (frm_mode h) false) (root (u * 2 ^ scale f)) y /\
    fpu_execute 64 w rs1_val rs2_val rd pa h fp =
      Some (Some (match f with Single => 14 | Double => 22 end,
                  (if y * y =? u * 2 ^ scale f then 0 else 1), h, setF f rd (Fin false y) fp)).
Proof.
  intros [Hw Hc] E Hu. set (md := frm_mode h). set (x := root (u * 2 ^ scale f)).
  assert (0 < 2 ^ scale f) as Hs by (by destruct f).
  assert (cut_ok x) as Hx by (apply root_ok; nia).
  assert (0 <= u * 2 ^ scale f) as Hn by nia.
  pose proof (Z.sqrt_spec _ Hn) as [S1 S2]. pose proof (Z.sqrt_nonneg (u * 2 ^ scale f)).
  set (R := Z.sqrt (u * 2 ^ scale f)) in *.
  assert (2 ^ mw f <= R) as Htiny.
  { assert (2 ^ mw f * 2 ^ mw f <= 2 ^ scale f) by (by destruct f). unfold Z.succ in S2. nia. }
  assert (2 * R + 1 < top f) as Htop.
  { assert (4 * 2 ^ scale f * 4 <= top f) by (by destruct f). nia. }
  assert (round f md false x = (Fin false (round_units f (dir_of md false) x),
            mkFlags false false false false (negb (round_units f (dir_of md false) x *
               round_units f (dir_of md false) x =? u * 2 ^ scale f)))) as ER.
  { pose proof (round_units_le f (dir_of md false) x Hx) as Hle. simpl in Hle. fold R in Hle.
    unfold round. set (y := round_units _ _ _) in *.
    rewrite (proj2 (Z.leb_gt _ _)) by lia. f_equal. unfold tiny. simpl. fold R.
    rewrite (proj2 (Z.ltb_ge R _)), andb_false_r by lia. f_equal.
    destruct (Z.compare_spec (4 * y * (4 * y)) (16 * (u * 2 ^ scale f))), (Z.eqb_spec (y * y) (u * 2 ^ scale f));
      (done || lia). }
  exists (round_units f (dir_of md false) x). split; [by apply round_units_correct|].
  assert (fsqrt f md (Fin false u) = round f md false x) as EQ.
  { unfold fsqrt. by rewrite (proj2 (Z.eqb_neq _ _)) by lia. }
  rewrite ER in EQ. unfold fpu_execute. destruct f; simpl in Hc; cbn [getF] in E.
  - rewrite Hc. rewrite bool_decide_eq_false_2 by done. cbn [negb]. cbn [f_execute].
    rewrite E. fold md. rewrite EQ. by destruct (_ =? _).
  - rewrite (d_word_not_f w Hw) by (by rewrite Hc). rewrite bool_decide_eq_true_2 by done. cbn [negb].
    rewrite Hc. rewrite bool_decide_eq_false_2 by done. cbn [negb d_execute].
    rewrite E. fold md. rewrite EQ. by destruct (_ =? _).
Qed.
End unit.

(** ** Conversions *)

Lemma rounded_exact f dir x y :
  cut_ok x -> precise f (cut_floor x) -> cut_cmp x (4 * cut_floor x) = Eq -> rounded f dir x y ->
  y = cut_floor x.
Proof.
  intros Hx Hp He [Hy Hr]. pose proof (precise_nonneg f y Hy). pose proof (ck_nonneg x Hx).
  destruct (Z.lt_trichotomy y (cut_floor x)) as [Hlt|[?|Hlt]]; [|done|]; exfalso; destruct dir.
  - destruct Hr as [_ Hr]. specialize (Hr _ Hp). rewrite He in Hr. specialize (Hr ltac:(done)). lia.
  - destruct Hr as [Hr _]. apply Hr. apply (cut_Lt x Hx _ (4 * cut_floor x)); [lia|by rewrite He].
  - specialize (Hr _ Hp ltac:(lia)). rewrite (cut_Lt x Hx _ (4 * cut_floor x)) in Hr; [lia|lia|by rewrite He].
  - destruct Hr as [Hr _]. by rewrite (cut_above x Hx) in Hr.
  - destruct Hr as [_ Hr]. specialize (Hr _ Hp). rewrite He in Hr. specialize (Hr ltac:(done)). lia.
  - specialize (Hr _ Hp ltac:(lia)). rewrite (ck_mono x Hx (4 * cut_floor x)) in Hr; [lia|lia|by rewrite He].
Qed.

(** An integer of at most the precision of the format is converted exactly. *)
Lemma of_int_exact f md n :
  Z.abs n <= 2 ^ prec f -> of_int f md n = (Fin (n <? 0) (Z.abs n * 2 ^ scale f), no_flags).
Proof.
  intros Hn. unfold of_int. destruct (Z.eqb_spec n 0) as [->|]; [done|].
  assert (0 < 2 ^ scale f) as Hs by (by destruct f). set (X := Z.abs n * 2 ^ scale f).
  pose proof (quotient_ok X 1 ltac:(lia) ltac:(lia)) as Hx. set (x := quotient X 1) in *.
  assert (cut_floor x = X) as EX by apply Z.div_1_r.
  assert (round_units f (dir_of md (n <? 0)) x = X) as ER.
  { rewrite <-EX. eapply rounded_exact; [done|..|by apply round_units_correct].
    - rewrite EX. apply (precise_mul f); [lia|by destruct f].
    - rewrite EX. apply Z.compare_eq_iff. lia. }
  unfold round. rewrite ER.
  assert (X < top f) as Ht.
  { assert (2 ^ prec f * 2 ^ scale f < top f) by (by destruct f). nia. }
  rewrite (proj2 (Z.leb_gt _ _) Ht). simpl. rewrite Z.mul_1_r, Z.compare_refl. done.
Qed.

Lemma to_int_exact `{host} f sg w n :
  in_type sg w n = true -> to_int f sg w (Fin (n <? 0) (Z.abs n * 2 ^ scale f)) = (n, no_flags).
Proof.
  intros Hn. unfold to_int. assert (0 < 2 ^ scale f) by (by destruct f).
  rewrite Z.div_mul, Z.mod_mul by lia. assert (signed_units (n <? 0) (Z.abs n) = n) as ->.
  { destruct (Z.ltb_spec n 0); simpl; lia. }
  by rewrite Hn.
Qed.

(** The integer types of the conversions. *)
Inductive int_type := W | WU | L | LU.
Definition int_of (t : int_type) (v : Z) : Z :=
  match t with W => s32 v | WU => u32 v | L => s64 v | LU => u64 v end.
Definition is_from_int (f : fmt) (t : int_type) (w : Z) : Prop :=
  0 <= w /\ match f with
            | Single => f_decode w = match t with W => OP_F_FCVT_S_W | WU => OP_F_FCVT_S_WU
                                               | L => OP_F_FCVT_S_L | LU => OP_F_FCVT_S_LU end
            | Double => d_decode w = match t with W => OP_D_FCVT_D_W | WU => OP_D_FCVT_D_WU
                                               | L => OP_D_FCVT_D_L | LU => OP_D_FCVT_D_LU end
            end.
Definition is_to_int (f : fmt) (t : int_type) (w : Z) : Prop :=
  0 <= w /\ match f with
            | Single => f_decode w = match t with W => OP_F_FCVT_W_S | WU => OP_F_FCVT_WU_S
                                               | L => OP_F_FCVT_L_S | LU => OP_F_FCVT_LU_S end
            | Double => d_decode w = match t with W => OP_D_FCVT_W_D | WU => OP_D_FCVT_WU_D
                                               | L => OP_D_FCVT_L_D | LU => OP_D_FCVT_LU_D end
            end.

Lemma int_of_in_type t v :
  match t with W => in_type true 32 | WU => in_type false 32 | L => in_type true 64 | LU => in_type false 64 end
    (int_of t v) = true.
Proof.
  destruct t; simpl; apply andb_true_intro; split; (apply Z.leb_le || apply Z.ltb_lt);
    first [apply (signed_range 32); lia | apply (wrap_fits 32); lia | apply (signed_range 64); lia
          | apply (wrap_fits 64); lia].
Qed.

Section conversions.
Context {S : Type} `{Target S} `{host}.

Lemma from_int_execute f t w v rs2_val rd pa (h : hart S) fp :
  is_from_int f t w -> Z.abs (int_of t v) <= 2 ^ prec f ->
  fpu_execute 64 w v rs2_val rd pa h fp =
    Some (Some (2, 0, h, setF f rd (Fin (int_of t v <? 0) (Z.abs (int_of t v) * 2 ^ scale f)) fp)).
Proof.
  intros [Hw Hc] Hn. pose proof (of_int_exact f (frm_mode h) _ Hn) as E. unfold fpu_execute.
  destruct f; simpl in Hc.
  - rewrite Hc, (bool_decide_eq_false_2 _) by (by destruct t). cbn [negb].
    destruct t; cbn [int_of f_execute] in *; by rewrite E.
  - rewrite (d_word_not_f w Hw) by (rewrite Hc; by destruct t).
    rewrite bool_decide_eq_true_2 by done. cbn [negb].
    rewrite Hc, (bool_decide_eq_false_2 _) by (by destruct t). cbn [negb].
    destruct t; cbn [int_of d_execute] in *; by rewrite E.
Qed.

Lemma to_int_execute f t w v rs1_val rs2_val rd pa (h : hart S) fp :
  is_to_int f t w -> 0 <= rd < 32 ->
  getF f (get_rs1 w) fp = Fin (int_of t v <? 0) (Z.abs (int_of t v) * 2 ^ scale f) ->
  fpu_execute 64 w rs1_val rs2_val rd pa h fp =
    Some (Some (2, 0, write_reg rd (u64 (int_of t v)) h, fp)).
Proof.
  intros [Hw Hc] Hrd EG. pose proof (int_of_in_type t v) as Ht. unfold fpu_execute.
  assert (forall fe, fcsr_flags fe = 0 -> to_x 64 2 rd (int_of t v) fe h fp =
            Some (2, 0, write_reg rd (u64 (int_of t v)) h, fp)) as Ex.
  { intros fe Hfe. unfold to_x. by rewrite setValue_eq, Hfe by (done || lia). }
  destruct f; simpl in Hc; cbn [getF] in EG.
  - rewrite Hc, (bool_decide_eq_false_2 _) by (by destruct t). cbn [negb].
    destruct t; cbn [f_execute]; rewrite EG, to_int_exact by done; cbn [fst snd]; by rewrite Ex.
  - rewrite (d_word_not_f w Hw) by (rewrite Hc; by destruct t).
    rewrite bool_decide_eq_true_2 by done. cbn [negb].
    rewrite Hc, (bool_decide_eq_false_2 _) by (by destruct t). cbn [negb].
    destruct t; cbn [d_execute]; rewrite EG, to_int_exact by done; cbn [fst snd]; by rewrite Ex.
Qed.

(** C18: An integer that the precision of the format holds survives the conversion to the format
    and back, with no flag raised: the integer register receives the operand as the integer
    type reads it, extended to 64 bits. *)
Theorem int_conversion_roundtrip f t w1 w2 v rs2_val rd rs1_val rs2_val' rd' pa (h : hart S) fp :
  is_from_int f t w1 -> is_to_int f t w2 -> get_rs1 w2 = rd -> 0 <= rd' < 32 -> fp_ok fp ->
  Z.abs (int_of t v) <= 2 ^ prec f ->
  exists fp',
    fpu_execute 64 w1 v rs2_val rd pa h fp = Some (Some (2, 0, h, fp')) /\
    fpu_execute 64 w2 rs1_val rs2_val' rd' pa h fp' =
      Some (Some (2, 0, write_reg rd' (u64 (int_of t v)) h, fp')).
Proof.
  intros H1 H2 Erd Hrd Hfp Hn. eexists. split; [by apply from_int_execute|].
  apply (to_int_execute f t); [done|done|]. rewrite Erd. apply getF_setF; [done|].
  assert (0 < 2 ^ scale f) as Hs by (by destruct f). split; [apply (precise_mul f); [lia|by destruct f]|].
  assert (2 ^ prec f * 2 ^ scale f < top f) by (by destruct f). nia.
Qed.
End conversions.

(** ** Classes and signs *)

(** The bit that FCLASS sets for a number. *)
Definition fp_class (f : fmt) (v : num) : Z :=
  match v with
  | NaN b => if quiet_bit f b then 9 else 8
  | Inf s => if s then 0 else 7
  | Fin s u => if u =? 0 then (if s then 3 else 4) else if u <? 2 ^ mw f then (if s then 2 else 5)
               else if s then 1 else 6
  end.
Definition fclass (f : fmt) : Z -> Z := match f with Single => fclass_s | Double => fclass_d end.

(** FCLASS sets the bit of the class for every number; for a NaN it tells the classes 8 and 9 by
    the sign where the architecture tells them by the quiet bit. *)
Theorem fclass_correct f b :
  fits (width f) b ->
  fclass f b = 2 ^ (match of_bits f b with
                    | NaN _ => if Z.testbit b (width f - 1) then 8 else 9
                    | v => fp_class f v
                    end).
Proof.
  intros Hb. destruct (assemble_of f b Hb) as (_ & He & Hm).
  assert (fclass f b =
    let sign := Z.testbit b (width f - 1) in
    let e := (b .>> mw f) .& Z.ones (ew f) in let m := b .& Z.ones (mw f) in
    if (e =? Z.ones (ew f)) && negb (m =? 0) then (if sign then 1 .<< 8 else 1 .<< 9)
    else if (e =? Z.ones (ew f)) && (m =? 0) then (if sign then 1 .<< 0 else 1 .<< 7)
    else if (e =? 0) && (m =? 0) then (if sign then 1 .<< 3 else 1 .<< 4)
    else if e =? 0 then (if sign then 1 .<< 2 else 1 .<< 5)
    else if sign then 1 .<< 1 else 1 .<< 6) as -> by (by destruct f).
  unfold of_bits. cbv zeta. set (s := Z.testbit b (width f - 1)) in *.
  set (e := (b .>> mw f) .& Z.ones (ew f)) in *. set (m := b .& Z.ones (mw f)) in *.
  destruct (Z.eqb_spec e (Z.ones (ew f))) as [E|]; simpl.
  { destruct (Z.eqb_spec m 0); simpl; by destruct s. }
  destruct (Z.eqb_spec e 0) as [E|]; simpl.
  { rewrite (proj2 (Z.ltb_lt m _)) by lia. destruct (Z.eqb_spec m 0); simpl; by destruct s. }
  pose proof (pow2_pos (e - 1) ltac:(lia)). pose proof (pow2_pos (mw f) ltac:(by destruct f)).
  rewrite (proj2 (Z.eqb_neq _ 0)), (proj2 (Z.ltb_ge _ _)) by nia. by destruct s.
Qed.

Lemma sign_of_bits f b : sign_of f (of_bits f b) = Z.testbit b (width f - 1).
Proof. unfold of_bits. destruct (_ =? Z.ones _); [by destruct (_ =? 0)|by destruct (_ =? 0)]. Qed.

(** The sign of a number is its upper bit, and nothing else of it. *)
Lemma with_sign_bits f s b :
  fits (width f) b ->
  to_bits f (with_sign f s (of_bits f b)) =
  (b .& Z.ones (width f - 1)) .| (Z.b2z s .<< (width f - 1)).
Proof.
  intros Hb. destruct (assemble_of f b Hb) as (E & He & Hm). rewrite E at 2. rewrite assemble_sign by done.
  set (e := (b .>> mw f) .& Z.ones (ew f)) in *. set (m := b .& Z.ones (mw f)) in *.
  assert (with_sign f s (of_bits f b) = of_bits f (assemble f s e m)) as ->.
  { rewrite of_assemble by done. rewrite E at 1. rewrite of_assemble by done.
    destruct (e =? Z.ones _); [|by destruct (e =? 0)]. destruct (m =? 0); [done|].
    simpl. by rewrite assemble_sign. }
  apply to_of_bits. by apply assemble_fields.
Qed.

(** ** Instances *)

Section instances.
#[local] Existing Instance canonical_host.
#[local] Existing Instance canonical_host_laws.

Definition fp_word (f7 rs2 rs1 f3 rd : Z) : Z :=
  (f7 .<< 25) .| (rs2 .<< 20) .| (rs1 .<< 15) .| (f3 .<< 12) .| (rd .<< 7) .| 0x53.
Definition fp_fused (op rs3 rs2 rs1 f3 rd : Z) : Z :=
  (rs3 .<< 27) .| (rs2 .<< 20) .| (rs1 .<< 15) .| (f3 .<< 12) .| (rd .<< 7) .| op.

Definition fp_hart (fcsr : Z) : hart memory :=
  let h := Registers 64 memory0 in { h with CSR := <[0x003 := fcsr]> (CSR h) }.
(** The registers 1 and up hold the given values. *)
Definition fp_regs (l : list Z) : list Z := take 32 (0 :: l ++ replicate 31 0).
(** The bits of 1 and of 3. *)
Definition one_s : Z := 0x3F800000.
Definition three_s : Z := 0x40400000.

Lemma fp_hart_wf fcsr : fits 32 fcsr -> hart_wf 64 (fp_hart fcsr).
Proof.
  intros Hc. destruct (Registers_wf 64 ltac:(lia) memory0 ltac:(by right)) as [? ? ? ? Hm].
  split; [done..|]. unfold fp_hart. simpl. by apply map_Forall_insert_2.
Qed.


Lemma fp_sqrt_correct_witness :
  let fp := fp_regs [box three_s] in
  exists y,
    rounded Single Nearest (root (3 * 2 ^ 149 * 2 ^ 149)) y /\
    fpu_execute 64 (fp_word 0x2C 0 1 0 2) 0 0 2 0 (fp_hart 0) fp =
      Some (Some (14, (if y * y =? 3 * 2 ^ 149 * 2 ^ 149 then 0 else 1), fp_hart 0, setF32 2 (Fin false y) fp)).
Proof.
  apply (fp_sqrt_correct Single (fp_word 0x2C 0 1 0 2) 0 0 2 0 (fp_hart 0) (fp_regs [box three_s]) (3 * 2 ^ 149));
    [split; [done|by vm_compute]|by vm_compute|by vm_compute].
Defined.

Lemma fp_regs_ok l : Forall (fits 64) l -> fp_ok (fp_regs l).
Proof.
  intros Hl. unfold fp_regs. split.
  - rewrite length_take, length_cons, length_app, length_replicate. lia.
  - apply Forall_take. constructor; [fits_const|]. apply Forall_app. split; [done|].
    apply Forall_replicate. fits_const.
Qed.

Lemma int_conversion_roundtrip_witness :
  exists fp',
    fpu_execute 64 (fp_word 0x69 0 5 0 1) (2 ^ 64 - 7) 0 1 0 (fp_hart 0) (fp_regs []) =
      Some (Some (2, 0, fp_hart 0, fp')) /\
    fpu_execute 64 (fp_word 0x61 0 1 1 6) 0 0 6 0 (fp_hart 0) fp' =
      Some (Some (2, 0, write_reg 6 (u64 (-7)) (fp_hart 0), fp')).
Proof.
  apply (int_conversion_roundtrip Double W (fp_word 0x69 0 5 0 1) (fp_word 0x61 0 1 1 6) (2 ^ 64 - 7)
    0 1 0 0 6 0 (fp_hart 0) (fp_regs []));
    [split; [done|by vm_compute]|split; [done|by vm_compute]|done|done|by apply fp_regs_ok|by vm_compute].
Defined.

Lemma fclass_correct_witness : fits 32 0x80000001 /\ fclass Single 0x80000001 = 2 ^ 2.
Proof. split; [fits_const|]. apply (fclass_correct Single 0x80000001). fits_const. Defined.

Lemma fpu_execute_ok_witness :
  exists latency fl h' fp',
    fpu_execute 64 (fp_word 0x0C 2 1 7 3) 0 0 3 0 (fp_hart 0) (fp_regs [box one_s; box three_s]) =
      Some (Some (latency, fl, h', fp')) /\ hart_wf 64 h' /\ fp_ok fp'.
Proof.
  destruct (fpu_execute 64 (fp_word 0x0C 2 1 7 3) 0 0 3 0 (fp_hart 0) (fp_regs [box one_s; box three_s]))
    as [[[[[lat fl] h'] fp']|]|] eqn:E.
  - exists lat, fl, h', fp'. split; [done|].
    destruct (fpu_execute_ok (fp_word 0x0C 2 1 7 3) 0 0 3 0 (fp_hart 0) (fp_regs [box one_s; box three_s]) lat fl h' fp')
      as (? & ? & _); [by vm_compute|by apply fp_hart_wf; fits_const| |done|fits_const|exact E|by split].
    apply fp_regs_ok. repeat constructor; (apply box_fits; fits_const).
  - exfalso. by vm_compute in E.
  - exfalso. by vm_compute in E.
Defined.

(** ** What the code does and the architecture does not *)

(** The destination and the flags after an instruction in the rounding mode of the register. *)
Definition fp_run (fcsr w rd : Z) (l : list Z) : option (Z * Z) :=
  match fpu_execute 64 w 0 0 rd 0 (fp_hart fcsr) (fp_regs l) with
  | Some (Some (_, fl, _, fp)) => Some (getFPValue rd fp, fl)
  | _ => None
  end.
Definition fp_run_x (fcsr w rd : Z) (l : list Z) : option (Z * Z) :=
  match fpu_execute 64 w 0 0 rd 0 (fp_hart fcsr) (fp_regs l) with
  | Some (Some (_, fl, h, _)) => Some (reg h rd, fl)
  | _ => None
  end.

(** FNMADD upwards, of 1 + 2^-23, itself and 0: the product has more bits than the format, and
    its negation should be rounded upwards, to 0xBF800002; the code rounds the product upwards. *)
Example fnmadd_rounds_away :
  fp_run (3 .<< 5) (fp_fused 0x4F 2 1 1 7 3) 3 [box 0x3F800001; box 0] = Some (box 0xBF800003, 1) /\
  mirror RUP = RDN.
Proof. by vm_compute. Qed.

(** A quiet NaN is classified as signalling when its sign is set, and a signalling one as quiet
    when it is not. *)
Example fclass_nan_by_sign : fclass_s 0xFFC00000 = 2 ^ 8 /\ fclass_s 0x7F800001 = 2 ^ 9.
Proof. by vm_compute. Qed.

(** FSGNJX multiplies its operands: it raises overflow and inexact for two large numbers, and
    for zero and a negative infinity it takes the sign of the host's NaN. *)
Example fsgnjx_raises_flags :
  fp_run 0 (fp_word 0x10 2 1 2 3) 3 [box 0x7F000000; box 0xFF000000] = Some (box 0xFF000000, 5) /\
  fp_run 0 (fp_word 0x10 2 1 2 3) 3 [box 0; box 0xFF800000] = Some (box 0, 0x10).
Proof. by vm_compute. Qed.

(** The rounding mode of the word is not used: a third rounded towards zero is rounded as the
    mode of the register says, and a conversion to an integer always discards the fraction. *)
Example static_rounding_ignored :
  fp_run (3 .<< 5) (fp_word 0x0C 2 1 1 3) 3 [box one_s; box three_s] = Some (box 0x3EAAAAAB, 1) /\
  fp_run_x (3 .<< 5) (fp_word 0x60 0 1 3 5) 5 [box 0x3FC00000] = Some (1, 1).
Proof. by vm_compute. Qed.

(** A register that does not hold a boxed single is read as one. *)
Example boxing_not_checked :
  fp_run 0 (fp_word 0x00 1 1 0 3) 3 [one_s] = Some (box 0x40000000, 0).
Proof. by vm_compute. Qed.

(** FCVT.WU.S of 2^31 is zero-extended. *)
Example fcvt_wu_zero_extends : fp_run_x 0 (fp_word 0x60 1 1 1 5) 5 [box 0x4F000000] = Some (2 ^ 31, 0).
Proof. by vm_compute. Qed.
End instances.
