(* ===== verification/CpuSimple.v ===== *)
(** [src/CPU_Simple.cpp], [src/CPU.cpp]: the functional, non-pipelined cores
    [CPURV32Simple] and [CPURV64Simple].  [XLEN] selects the class.  The fetch goes over
    the bus into the instruction register [INSTR], or, once the memory has granted
    direct access, through the pointer it gave. *)
From S2P Require Import Prelude Bytes Memory PhysMem Regs BaseISA.
From S2P Require Import BaseISAProofs MExt AExt CExt CExtProofs.
Import RegsH.

Record cpu (S : Type) := mkCpu {
  core : hart S;            (* the register bank and what it points to *)
  INSTR : Z;
  dmi_ptr_valid : bool;
  int_cause : Z;
  interrupt : bool;
  irq_already_down : bool
}.
Arguments mkCpu {S} _ _ _ _ _ _.
Arguments core {S} _.
Arguments INSTR {S} _.
Arguments dmi_ptr_valid {S} _.
Arguments int_cause {S} _.
Arguments interrupt {S} _.
Arguments irq_already_down {S} _.

Section cpu_simple.
Context {S : Type} `{Target S, DirectMem S}.
Variable XLEN : Z.

(** The constructor, over the memory [m]: [sp] is set to [SIZE / (XLEN / 8) - 1]. *)
Definition CPU_Simple (PC : Z) (m : S) : cpu S :=
  let h := Registers XLEN m in
  let h := { h with register_PC := wrap XLEN PC } in
  let h := write_reg 2 (wrap XLEN (SIZE / (XLEN / 8) - 1)) h in
  mkCpu h 0 false 0 false false.

(** The fetch of [CPU_step]: four bytes into [INSTR]. *)
Definition fetch (c : cpu S) : option (cpu S) :=
  if dmi_ptr_valid c then
    match direct_read (register_PC (core c)) 4 (mem_intf (core c)) with
    | None => None
    | Some l => Some { c with INSTR := le_combine l }
    end
  else
  let '(p, _, s) :=
    b_transport (mkPayload TLM_READ (register_PC (core c)) (le_split 4 (INSTR c)) false
                   TLM_INCOMPLETE false) 0 (mem_intf (core c)) in
  if is_response_error p then None
  else Some { c with INSTR := le_combine (p_data p); core := { core c with mem_intf := s };
                     dmi_ptr_valid := if p_dmi_allowed p then get_direct_mem_ptr s else false }.

(** Each extension's decoder is tried in turn on the same word. *)
Definition decode_execute (instr : Z) : M S bool :=
  let deco := decode instr in
  if negb (bool_decide (deco = OP_ERROR)) then
    r ← exec_instruction XLEN instr deco;
    let '(pc_not_affected, breakpoint) := r : bool * bool in
    (if pc_not_affected then incPC XLEN else mret tt);; mret breakpoint
  else
    let c_deco := c_decode XLEN instr in
    if negb (bool_decide (c_deco = OP_C_ERROR)) then
      r ← c_exec_instruction XLEN instr c_deco;
      let '(pc_not_affected, breakpoint) := r : bool * bool in
      (if pc_not_affected then incPCby2 XLEN else mret tt);; mret breakpoint
    else
      let m_deco := m_decode instr in
      if negb (bool_decide (m_deco = OP_M_ERROR)) then
        pc_not_affected ← m_exec_instruction XLEN instr m_deco;
        (if pc_not_affected : bool then incPC XLEN else mret tt);; mret false
      else
        let a_deco := a_decode instr in
        if negb (bool_decide (a_deco = OP_A_ERROR)) then
          pc_not_affected ← a_exec_instruction XLEN instr a_deco;
          (if pc_not_affected : bool then incPC XLEN else mret tt);; mret false
        else
          NOP;; incPC XLEN;; mret false.

(** [sc_core::wait] of 10 ns, in the picoseconds of the simulator. *)
Definition wait_cycle : M S unit := fun h => Some (tt, { h with sim_time := sim_time h + 10000 }).

Definition CPU_step (c : cpu S) : option (bool * cpu S) :=
  match fetch c with
  | None => None
  | Some c =>
      match (b ← decode_execute (INSTR c); wait_cycle;; mret b) (core c) with
      | None => None
      | Some (breakpoint, h) => Some (breakpoint, { c with core := h })
      end
  end.

(** The CSR accesses of [cpu_process_IRQ] cannot fail. *)
Definition cpu_process_IRQ (c : cpu S) : option (bool * cpu S) :=
  if interrupt c then
    match getCSR CSR_MSTATUS (core c) with
    | None => None
    | Some (csr_temp, _) =>
      if (csr_temp .& MSTATUS_MIE) =? 0 then Some (false, c)
      else
        match getCSR CSR_MIP (core c) with
        | None => None
        | Some (csr_temp, _) =>
          if (csr_temp .& MIP_MEIP) =? 0 then
            match (setCSR CSR_MIP (csr_temp .| MIP_MEIP);;
                   old_pc ← getPC;
                   setCSR CSR_MEPC old_pc;;
                   setCSR CSR_MCAUSE 0x80000000;;
                   new_pc ← getCSR CSR_MTVEC;
                   setPC XLEN new_pc) (core c) with
            | None => None
            | Some (_, h) =>
                Some (true, { c with core := h; interrupt := false; irq_already_down := false })
            end
          else Some (false, c)
        end
    end
  else if negb (irq_already_down c) then
    match (csr_temp ← getCSR CSR_MIP; setCSR CSR_MIP (csr_temp .&~ MIP_MEIP)) (core c) with
    | None => None
    | Some (_, h) => Some (false, { c with core := h; irq_already_down := true })
    end
  else Some (false, c).

(** The interrupt socket's callback; the delay it zeroes is its return value. *)
Definition call_interrupt (m_trans : payload) (c : cpu S) : cpu S * Z :=
  ({ c with interrupt := true;
     int_cause := le_combine (take (Z.to_nat (XLEN / 8)) (p_data m_trans)) }, 0).

Definition getStartDumpAddress (c : cpu S) : Z := reg (core c) 5.
Definition getEndDumpAddress (c : cpu S) : Z := reg (core c) 6.

(** One turn of the loop of [CPU_thread]. *)
Definition CPU_thread_body (c : cpu S) : option (cpu S) :=
  match CPU_step c with
  | None => None
  | Some (_, c) => match cpu_process_IRQ c with None => None | Some (_, c) => Some c end
  end.

(** What the simulation kernel does to a core: run a turn of its thread, or deliver an
    interrupt while the thread waits. *)
Inductive cpu_event : cpu S -> cpu S -> Prop :=
| ev_turn c c' : CPU_thread_body c = Some c' -> cpu_event c c'
| ev_irq c p : cpu_event c (call_interrupt p c).1.

Inductive reachable (PC : Z) (m : S) : cpu S -> Prop :=
| reach_init : reachable PC m (CPU_Simple PC m)
| reach_event c c' : reachable PC m c -> cpu_event c c' -> reachable PC m c'.
End cpu_simple.

(** ** The register-bank invariant *)

Section invariant.
Context {S : Type} `{Target S, DirectMem S}.
Variable XLEN : Z.
Hypothesis XLEN_ok : XLEN = 32 \/ XLEN = 64.

#[local] Hint Unfold read_mem read_mem64 write_mem write_mem64 : keeps.
#[local] Lemma XLEN_pos : 0 < XLEN.
Proof. lia. Qed.
#[local] Hint Resolve XLEN_pos : keeps.

Lemma keeps_exec w op : keeps (hart_wf XLEN) (exec_instruction XLEN w op : M S (bool * bool)).
Proof. destruct op; cbn [exec_instruction]; unfold_exec; unfold NOP; keeps. Qed.

Lemma popular_range hi lo w : lo <= hi -> 0 <= bits hi lo w + 8.
Proof. intros. pose proof (bits_range hi lo w ltac:(lia)). lia. Qed.
Lemma c_rs1_range w : 0 <= c_get_rs1 w.
Proof. by apply (bits_range 11 7). Qed.
#[local] Hint Extern 1 (0 <= get_rs1p _) => (by apply popular_range) : keeps.
#[local] Hint Extern 1 (0 <= get_rdp _) => (by apply popular_range) : keeps.
#[local] Hint Resolve c_rs1_range : keeps.

Lemma keeps_c_exec w op : keeps (hart_wf XLEN) (c_exec_instruction XLEN w op : M S (bool * bool)).
Proof. destruct op; unfold_c; unfold Exec_C_FSW_SD; keeps. Qed.

Lemma keeps_m_exec w op : keeps (hart_wf XLEN) (m_exec_instruction XLEN w op : M S bool).
Proof.
  destruct op; unfold m_exec_instruction, Exec_M_DIV, Exec_M_DIVU, Exec_M_REM, Exec_M_REMU,
    Exec_M_DIVW, Exec_M_DIVUW, Exec_M_REMW, Exec_M_REMUW, Exec_M_MUL, Exec_M_MULH,
    Exec_M_MULHSU, Exec_M_MULHU, Exec_M_MULW, NOP; keeps.
Qed.

Lemma keeps_reserve a : keeps (hart_wf XLEN) (TLB_reserve a : M S unit).
Proof. by intros h x h' [] [= _ <-]. Qed.
Lemma keeps_reserve_64 a : keeps (hart_wf XLEN) (TLB_reserve_64 a : M S unit).
Proof. by intros h x h' [] [= _ <-]. Qed.
Lemma keeps_reserved a : keeps (hart_wf XLEN) (TLB_reserved a : M S bool).
Proof. intros h x h' []. unfold TLB_reserved. case_decide; by intros [= _ <-]. Qed.
Lemma keeps_reserved_64 a : keeps (hart_wf XLEN) (TLB_reserved_64 a : M S bool).
Proof. intros h x h' []. unfold TLB_reserved_64. case_decide; by intros [= _ <-]. Qed.
#[local] Hint Resolve keeps_reserve keeps_reserve_64 keeps_reserved keeps_reserved_64 : keeps.

Lemma keeps_a_exec w op : keeps (hart_wf XLEN) (a_exec_instruction XLEN w op : M S bool).
Proof.
  destruct op; unfold a_exec_instruction, Exec_A_LR, Exec_A_SC, Exec_A_AMOSWAP, Exec_A_AMOADD,
    Exec_A_AMOXOR, Exec_A_AMOAND, Exec_A_AMOOR, Exec_A_AMOMIN, Exec_A_AMOMAX, Exec_A_AMOMINU,
    Exec_A_AMOMAXU, Exec_AMO_D, Exec_LR_D, Exec_SC_D, NOP; keeps.
Qed.

Lemma keeps_wait : keeps (hart_wf XLEN) (wait_cycle : M S unit).
Proof. by intros h x h' [] [= _ <-]. Qed.
#[local] Hint Resolve keeps_exec keeps_c_exec keeps_m_exec keeps_a_exec keeps_wait : keeps.

Lemma keeps_decode_execute w : keeps (hart_wf XLEN) (decode_execute XLEN w : M S bool).
Proof. unfold decode_execute, NOP. keeps. Qed.

Lemma fetch_wf (c c' : cpu S) : hart_wf XLEN (core c) -> fetch c = Some c' -> hart_wf XLEN (core c').
Proof.
  intros []. unfold fetch. destruct (dmi_ptr_valid c).
  { destruct (direct_read _ _ _); [|done]. by intros [= <-]. }
  destruct (b_transport _ _ _) as [[p d] s]. case_match; [done|].
  by intros [= <-].
Qed.

Lemma CPU_step_wf (c c' : cpu S) b :
  hart_wf XLEN (core c) -> CPU_step XLEN c = Some (b, c') -> hart_wf XLEN (core c').
Proof.
  intros Hwf. unfold CPU_step. destruct (fetch c) as [c1|] eqn:E; [|done].
  apply fetch_wf in E; [|done]. match goal with |- context [match ?m (core c1) with _ => _ end] =>
    assert (keeps (hart_wf XLEN) m) as K; [|destruct (m (core c1)) as [[b1 hh]|] eqn:Eh; [|done]] end.
  { apply keeps_bind; [apply keeps_decode_execute|]. intros ?. keeps. }
  intros [= <- <-]. simpl. revert E Eh. apply K.
Qed.

Lemma cpu_process_IRQ_wf (c c' : cpu S) b :
  hart_wf XLEN (core c) -> cpu_process_IRQ XLEN c = Some (b, c') -> hart_wf XLEN (core c').
Proof.
  intros Hwf. unfold cpu_process_IRQ. destruct (interrupt c).
  - destruct (getCSR CSR_MSTATUS (core c)) as [[ms ?]|]; [|done].
    destruct (_ =? 0); [by intros [= <- <-]|].
    destruct (getCSR CSR_MIP (core c)) as [[ip ?]|]; [|done].
    destruct (_ =? 0); [|by intros [= <- <-]].
    match goal with |- context [match ?m (core c) with _ => _ end] =>
      assert (keeps (hart_wf XLEN) m) as K by keeps;
      destruct (m (core c)) as [[b1 hh]|] eqn:Eh; [|done] end.
    intros [= <- <-]. simpl. revert Hwf Eh. apply K.
  - destruct (irq_already_down c); cbn [negb]; [by intros [= <- <-]|].
    match goal with |- context [match ?m (core c) with _ => _ end] =>
      assert (keeps (hart_wf XLEN) m) as K by keeps;
      destruct (m (core c)) as [[b1 hh]|] eqn:Eh; [|done] end.
    intros [= <- <-]. simpl. revert Hwf Eh. apply K.
Qed.

Lemma CPU_Simple_wf PC (m : S) : hart_wf XLEN (core (CPU_Simple XLEN PC m)).
Proof.
  unfold CPU_Simple. apply write_reg_wf; [|lia|apply wrap_fits; lia].
  destruct (Registers_wf XLEN XLEN_pos m XLEN_ok). split; try done. apply wrap_fits. lia.
Qed.

(** C13: on every state a core can reach, whatever the bus answers and whenever
    interrupts arrive, the bank has 32 registers of XLEN bits with x0 = 0, the pc fits
    XLEN bits and every CSR 32 bits. *)
Theorem reachable_hart_wf PC (m : S) (c : cpu S) :
  reachable XLEN PC m c -> hart_wf XLEN (core c).
Proof.
  induction 1 as [|c c' _ IH Hev]; [apply CPU_Simple_wf|].
  destruct Hev as [c c' E|c p]; [|exact IH].
  unfold CPU_thread_body in E. destruct (CPU_step XLEN c) as [[b c2]|] eqn:E2; [|done].
  apply CPU_step_wf in E2; [|done].
  destruct (cpu_process_IRQ XLEN c2) as [[b' c3]|] eqn:E3; [|done]. injection E as <-.
  by apply (cpu_process_IRQ_wf c2 c3 b').
Qed.
End invariant.

(** ** Interrupts *)

Section irq.
Context {S : Type} `{Target S}.
Variable XLEN : Z.

(** The value of a CSR that is not a counter. *)
Definition csr (h : hart S) (n : Z) : Z := default 0 (CSR h !! n).

Definition irq_ready (c : cpu S) : bool :=
  interrupt c && Z.testbit (csr (core c) CSR_MSTATUS) 3 && negb (Z.testbit (csr (core c) CSR_MIP) 11).

(** C14: [cpu_process_IRQ] enters the handler exactly when an interrupt is pending,
    mstatus.MIE is set and the previous one was acknowledged: the pc goes to mtvec, the
    interrupted pc to mepc, and no register changes; with no interrupt the first call
    withdraws mip.MEIP and every other call changes nothing. *)
Theorem cpu_process_IRQ_correct (c : cpu S) :
  let h := core c in
  cpu_process_IRQ XLEN c =
    Some (irq_ready c,
      if irq_ready c then
        { c with core := { h with
            CSR := <[CSR_MCAUSE := 0x80000000]> (<[CSR_MEPC := u32 (register_PC h)]>
                     (<[CSR_MIP := u32 (csr h CSR_MIP .| (1 .<< 11))]> (CSR h)));
            register_PC := wrap XLEN (csr h CSR_MTVEC) };
          interrupt := false; irq_already_down := false }
      else if negb (interrupt c) && negb (irq_already_down c) then
        { c with core := { h with
            CSR := <[CSR_MIP := u32 (csr h CSR_MIP .&~ (1 .<< 11))]> (CSR h) };
          irq_already_down := true }
      else c).
Proof.
  intros h. unfold cpu_process_IRQ, irq_ready.
  assert (forall n, In n [CSR_MSTATUS; CSR_MIP; CSR_MTVEC] ->
    forall h' : hart S, getCSR n h' = Some (csr h' n, h')) as G
    by (intros n [<-|[<-|[<-|[]]]] h'; reflexivity).
  destruct (interrupt c) eqn:Ei; cbn [andb negb].
  - rewrite G by (simpl; tauto). change MSTATUS_MIE with (1 .<< 3). rewrite land_bit by lia.
    destruct (Z.testbit (csr (core c) CSR_MSTATUS) 3); cbn [andb negb]; [|done].
    rewrite G by (simpl; tauto). change MIP_MEIP with (1 .<< 11). rewrite land_bit by lia.
    destruct (Z.testbit (csr (core c) CSR_MIP) 11); cbn [andb negb]; [done|].
    do 4 f_equal. unfold csr. simpl. by rewrite !lookup_insert_ne by done.
  - destruct (irq_already_down c) eqn:Ed; cbn [andb negb]; [done|]. reflexivity.
Qed.
End irq.

(** ** Witnesses *)

Lemma reachable_hart_wf_witness :
  exists c, CPU_thread_body 64 (CPU_Simple 64 0x100 memory0) = Some c /\
    hart_wf 64 (core (call_interrupt 64 (mkPayload TLM_WRITE 0 [] false TLM_INCOMPLETE false) c).1).
Proof.
  destruct (CPU_thread_body 64 (CPU_Simple 64 0x100 memory0)) as [c|] eqn:E.
  - exists c. split; [reflexivity|]. apply (reachable_hart_wf 64 ltac:(by right) 0x100 memory0).
    eapply reach_event; [|apply ev_irq]. eapply reach_event; [apply reach_init|by apply ev_turn].
  - exfalso. vm_compute in E. discriminate.
Defined.
