(* ===== verification/ISASpec.v ===== *)
(** The instruction-set architecture as a step relation, and the proof that the
    functional cores of [CPU_Simple.cpp] implement it.

    The state [arch] is what a program sees: the pc, the registers and the bytes of
    memory.  [isa_step] is one step of the integer, M, A (AMO) and C instructions of the
    unprivileged specification; the system instructions, the fences and LR/SC are not
    steps of it.  It is written from the specification and mentions the code only in
    the two side conditions that exclude its departures ([m_departs], [c_faithful]). *)
From S2P Require Import Prelude Bytes Memory PhysMem Regs BaseISA BaseISAProofs.
From S2P Require Import MExt AExt CExt CExtProofs CpuSimple.

Record arch := mkArch { a_pc : Z; a_reg : Z -> Z; a_mem : bytemem }.

(** States with the same pc, registers and bytes. *)
#[export] Instance arch_equiv : Equiv arch := fun s t =>
  a_pc s = a_pc t /\ (forall n, 0 <= n < 32 -> a_reg s n = a_reg t n) /\
  (forall x, a_mem s x = a_mem t x).

#[export] Instance arch_equivalence : Equivalence (≡@{arch}).
Proof.
  split.
  - by intros s.
  - intros s t (H1 & H2 & H3). split_and!; [done| |done]. intros n Hn. by rewrite H2.
  - intros s t u (H1 & H2 & H3) (G1 & G2 & G3). split_and!; [congruence| |]; intros.
    + by rewrite H2, G2.
    + by rewrite H3, G3.
Qed.

Definition set_rd (rd v : Z) (s : arch) : arch :=
  if rd =? 0 then s else { s with a_reg := fun n => if n =? rd then v else a_reg s n }.

(** ** The specification *)

(** The instructions of RV64 only. *)
Definition op_legal (XLEN : Z) (op : opCodes) : bool :=
  match op with
  | OP_LWU | OP_LD | OP_SD | OP_ADDIW | OP_SLLIW | OP_SRLIW | OP_SRAIW
  | OP_ADDW | OP_SUBW | OP_SLLW | OP_SRLW | OP_SRAW => XLEN =? 64
  | _ => true
  end.
Definition op_m_legal (XLEN : Z) (op : op_M_Codes) : bool :=
  match op with
  | OP_M_MULW | OP_M_DIVW | OP_M_DIVUW | OP_M_REMW | OP_M_REMUW => XLEN =? 64
  | _ => true
  end.

Section isa.
Variable XLEN : Z.
Variable dom : Z -> Z -> Prop.     (* the accesses, address and size, memory answers *)

Definition next (len : Z) (s : arch) : arch := { s with a_pc := wrap XLEN (a_pc s + len) }.

(** The effect of a base instruction that does not transfer control, but for the pc. *)
Inductive isa_effect (i : asm) (s : arch) : arch -> Prop :=
| eff_alu c :
    alu_class_of (a_op i) = Some c -> (c = ALU_shift -> a_imm i < XLEN) ->
    isa_effect i s
      (set_rd (a_rd i)
         (alu_spec XLEN (a_op i) (asm_src1 i (a_pc s) (a_reg s)) (asm_src2 XLEN c i (a_reg s))) s)
| eff_load size ext :
    let a := wrap XLEN (a_reg s (a_rs1 i) + a_imm i) in
    load_spec XLEN (a_op i) = Some (size, ext) -> dom a size ->
    isa_effect i s (set_rd (a_rd i) (wrap XLEN (ext (load (a_mem s) a size))) s)
| eff_store size :
    let a := wrap XLEN (a_reg s (a_rs1 i) + a_imm i) in
    store_spec (a_op i) = Some size -> dom a size ->
    isa_effect i s { s with a_mem := store (a_mem s) a size (a_reg s (a_rs2 i)) }.

(** The transfer of control to [pc'] by an instruction of [len] bytes. *)
Definition transfer (len : Z) (i : asm) (pc' : Z) (s : arch) : arch :=
  let s' := { s with a_pc := pc' } in
  if links (a_op i) then set_rd (a_rd i) (wrap XLEN (a_pc s + len)) s' else s'.

(** The effect of the word [w], an instruction of [len] bytes that falls through, by
    the format it assembles to; a compressed instruction is the lower half of [w]. *)
Inductive straight (w : Z) (s : arch) : Z -> arch -> Prop :=
| straight_base i t :
    w = encode i -> asm_ok i -> op_legal XLEN (a_op i) = true ->
    isa_effect i s t -> straight w s 4 t
| straight_c c t :
    u16 w = c_encode c -> c_ok XLEN c -> c_faithful XLEN c (a_pc s) (a_reg s) ->
    isa_effect (c_expand c) s t -> straight w s 2 t
| straight_m op rd rs1 rs2 :
    w = m_encode op rd rs1 rs2 ->
    0 <= rd < 32 -> 0 <= rs1 < 32 -> 0 <= rs2 < 32 -> op_m_legal XLEN op = true ->
    ~ m_departs XLEN op (a_reg s rs1) (a_reg s rs2) ->
    straight w s 4 (set_rd rd (m_spec XLEN op (a_reg s rs1) (a_reg s rs2)) s)
| straight_amo op aqrl rd rs1 rs2 v :
    w = a_encode op aqrl rd rs1 rs2 ->
    0 <= aqrl < 4 -> 0 <= rd < 32 -> 0 <= rs1 < 32 -> 0 <= rs2 < 32 ->
    let n := a_width op in
    n <= XLEN ->
    let a := wrap n (a_reg s rs1) in
    fits n (a_reg s rs1) -> dom a (n / 8) ->
    let old := load (a_mem s) a (n / 8) in
    amo_spec op old (wrap n (a_reg s rs2)) = Some v ->
    straight w s 4
      (set_rd rd (wrap XLEN (signed n old)) { s with a_mem := store (a_mem s) a (n / 8) v }).

(** Jumps and branches, taken or not. *)
Inductive jump (w : Z) (s : arch) : arch -> Prop :=
| jump_base i pc' :
    w = encode i -> asm_ok i ->
    asm_next_pc XLEN 4 i (a_pc s) (a_reg s) = Some pc' -> jump w s (transfer 4 i pc' s)
| jump_c c pc' :
    u16 w = c_encode c -> c_ok XLEN c -> c_faithful XLEN c (a_pc s) (a_reg s) ->
    asm_next_pc XLEN 2 (c_expand c) (a_pc s) (a_reg s) = Some pc' ->
    jump w s (transfer 2 (c_expand c) pc' s).

(** The word at the pc. *)
Definition word_at (s : arch) : Z := load (a_mem s) (a_pc s) 4.

(** One step: the instruction at the pc. *)
Inductive isa_step (s : arch) : arch -> Prop :=
| step_straight len t : straight (word_at s) s len t -> isa_step s (next len t)
| step_jump s' : jump (word_at s) s s' -> isa_step s s'.

(** Executions of [n] steps. *)
Inductive isa_run : nat -> arch -> arch -> Prop :=
| run_0 s s' : s ≡ s' -> isa_run 0 s s'
| run_S n s t u : dom (a_pc s) 4 -> isa_step s t -> isa_run n t u -> isa_run (S n) s u.
End isa.

(** ** Congruence: a step sees the values of the state only *)

Section congruence.
Variable XLEN : Z.
Variable dom : Z -> Z -> Prop.

#[export] Instance set_rd_proper : Proper ((=) ==> (=) ==> (≡) ==> (≡)) set_rd.
Proof.
  intros rd _ <- v _ <- s t (H1 & H2 & H3). unfold set_rd. destruct (rd =? 0); [done|].
  split_and!; [done| |done]. intros n Hn. simpl. destruct (n =? rd); [done|]. by apply H2.
Qed.
#[export] Instance next_proper : Proper ((=) ==> (≡) ==> (≡)) (next XLEN).
Proof. intros len _ <- s t (H1 & H2 & H3). split_and!; simpl; [by rewrite H1|done|done]. Qed.

Lemma set_mem_proper s t m m' :
  s ≡ t -> (forall x, m x = m' x) -> { s with a_mem := m } ≡ { t with a_mem := m' }.
Proof. by intros (H1 & H2 & H3) Hm. Qed.
Lemma set_pc_proper s t pc : s ≡ t -> { s with a_pc := pc } ≡ { t with a_pc := pc }.
Proof. by intros (H1 & H2 & H3). Qed.

Lemma load_equiv s t a size : s ≡ t -> load (a_mem s) a size = load (a_mem t) a size.
Proof. intros (_ & _ & H). apply load_ext. intros. apply H. Qed.

Lemma store_equiv s t a size v x :
  s ≡ t -> store (a_mem s) a size v x = store (a_mem t) a size v x.
Proof. intros (_ & _ & H). unfold store, store_bytes. by rewrite H. Qed.

Lemma asm_src_equiv c i s t :
  asm_ok i -> s ≡ t ->
  asm_src1 i (a_pc s) (a_reg s) = asm_src1 i (a_pc t) (a_reg t) /\
  asm_src2 XLEN c i (a_reg s) = asm_src2 XLEN c i (a_reg t).
Proof.
  intros [_ _ R1 R2 _] (E & H & _). unfold asm_src1, asm_src2.
  rewrite E, (H (a_rs1 i)), (H (a_rs2 i)) by done. done.
Qed.

Lemma asm_next_pc_equiv len i s t :
  asm_ok i -> s ≡ t ->
  asm_next_pc XLEN len i (a_pc s) (a_reg s) = asm_next_pc XLEN len i (a_pc t) (a_reg t).
Proof.
  intros [_ _ R1 R2 _] (E & H & _). unfold asm_next_pc.
  by rewrite E, (H (a_rs1 i)), (H (a_rs2 i)) by done.
Qed.

Lemma isa_effect_equiv i s t s' :
  asm_ok i -> s ≡ t -> isa_effect XLEN dom i s s' ->
  exists t', isa_effect XLEN dom i t t' /\ s' ≡ t'.
Proof.
  intros Hi E Hs. pose proof (ao_rs1 i Hi) as R1. pose proof (ao_rs2 i Hi) as R2.
  pose proof E as (Ep & Er & Em). destruct Hs as [c Hc Hx|size ext a Hl Hd|size a Hl Hd].
  - destruct (asm_src_equiv c i s t Hi E) as [E1 E2].
    eexists. split; [by apply (eff_alu _ _ _ _ c)|]. by rewrite E1, E2, E.
  - subst a. rewrite (Er _ R1) in *. eexists. split; [by apply (eff_load _ _ _ _ size ext)|].
    by rewrite (load_equiv s t), E.
  - subst a. rewrite (Er _ R1) in *. eexists. split; [by apply (eff_store _ _ _ _ size)|].
    rewrite (Er _ R2). apply set_mem_proper; [done|]. intros x. by apply store_equiv.
Qed.

Lemma transfer_equiv len i pc' s t : s ≡ t -> transfer XLEN len i pc' s ≡ transfer XLEN len i pc' t.
Proof.
  intros E. unfold transfer. cbv zeta. rewrite (proj1 E).
  pose proof (set_pc_proper s t pc' E) as Es. destruct (links (a_op i)); by rewrite Es.
Qed.

Lemma c_faithful_equiv c s t :
  c_ok XLEN c -> s ≡ t ->
  c_faithful XLEN c (a_pc s) (a_reg s) -> c_faithful XLEN c (a_pc t) (a_reg t).
Proof.
  intros Hc (E & H & _). pose proof (c_regs_range XLEN c Hc) as [R1 R2]. unfold c_faithful.
  by rewrite E, (H (c_r1 c)), (H 2) by (done || lia).
Qed.

Lemma straight_equiv w s t len s' :
  s ≡ t -> straight XLEN dom w s len s' -> exists t', straight XLEN dom w t len t' /\ s' ≡ t'.
Proof.
  intros E Hs. pose proof E as (Ep & Er & _).
  destruct Hs as [i s' Hl Hi Ho H|c s' Hl Hc Hf H|op rd rs1 rs2 Hl R0 R1 R2 Ho Hd
    |op q rd rs1 rs2 v Hl Q R0 R1 R2 n Hn a Hf Hd old Hv].
  - destruct (isa_effect_equiv _ _ _ _ Hi E H) as (t' & H' & Et).
    exists t'. split; [by eapply straight_base|done].
  - destruct (isa_effect_equiv _ _ _ _ (c_expand_ok XLEN c Hc) E H) as (t' & H' & Et).
    exists t'. split; [|done]. eapply straight_c; [done..|by apply (c_faithful_equiv c s)|done].
  - rewrite (Er rs1), (Er rs2) in * by done. eexists. split; [by eapply straight_m|]. by rewrite E.
  - subst n a old. rewrite (Er rs1), (Er rs2), (load_equiv s t) in * by done.
    eexists. split; [by eapply straight_amo|]. apply set_rd_proper; [done..|].
    apply set_mem_proper; [done|]. intros x. by apply store_equiv.
Qed.

Lemma jump_equiv w s t s' :
  s ≡ t -> jump XLEN w s s' -> exists t', jump XLEN w t t' /\ s' ≡ t'.
Proof.
  intros E [i pc' Hw Hi Hpc|c pc' Hw Hc Hf Hpc]; eexists.
  - split; [|by apply transfer_equiv]. apply jump_base; [done..|].
    by rewrite <-(asm_next_pc_equiv 4 i s t).
  - split; [|by apply transfer_equiv]. apply jump_c; [done..|by apply (c_faithful_equiv c s)|].
    rewrite <-(asm_next_pc_equiv 2 _ s t); [done|by apply (c_expand_ok XLEN)|done].
Qed.

Lemma word_at_equiv s t : s ≡ t -> word_at s = word_at t.
Proof. intros E. unfold word_at. by rewrite (load_equiv s t), (proj1 E). Qed.

Lemma isa_step_equiv s t s' :
  s ≡ t -> isa_step XLEN dom s s' -> exists t', isa_step XLEN dom t t' /\ s' ≡ t'.
Proof.
  intros E [len s1 Hs|s1 Hs]; rewrite (word_at_equiv s t E) in Hs.
  - destruct (straight_equiv _ _ _ _ _ E Hs) as (t1 & Ht & E1).
    eexists. split; [by apply step_straight|]. by rewrite E1.
  - destruct (jump_equiv _ _ _ _ E Hs) as (t1 & Ht & E1).
    exists t1. split; [by apply step_jump|done].
Qed.
End congruence.

(** ** Refinement *)

(** Decides the tests of a dispatch from the hypotheses. *)
Ltac decide_op :=
  repeat match goal with
  | H : ?x = ?v |- context [bool_decide (?x = ?v)] => rewrite (bool_decide_eq_true_2 (x = v)) by done
  | H : ?x <> ?v |- context [bool_decide (?x = ?v)] => rewrite (bool_decide_eq_false_2 (x = v)) by done
  end; cbn [negb].

Section refinement.
Context {S : Type} `{InstrMem S}.
Variable XLEN : Z.
Hypothesis XLEN_ok : XLEN = 32 \/ XLEN = 64.

(** The accesses memory answers, whole and (for LD and SD) by halves. *)
Definition dom (a size : Z) : Prop := pm_dom (S := S) a size /\ dom_access (S := S) XLEN a size.

(** What the program sees of a hart. *)
Definition abs (h : hart S) : arch := mkArch (register_PC h) (reg h) (pm_bytes (mem_intf h)).

Definition hart_ok (h : hart S) : Prop := hart_wf XLEN h /\ pm_wf (mem_intf h).

Lemma abs_write_reg rd v (h : hart S) :
  hart_wf XLEN h -> 0 <= rd < 32 -> abs (write_reg rd v h) ≡ set_rd rd v (abs h).
Proof.
  intros Hwf Hrd. unfold set_rd. destruct (Z.eqb_spec rd 0) as [->|Hn]; [done|].
  split_and!; simpl.
  - unfold write_reg. by rewrite (proj2 (Z.eqb_neq rd 0)).
  - intros n Hr. rewrite (reg_write_reg XLEN), (proj2 (Z.eqb_neq rd 0)), andb_true_r by done. done.
  - intros x. by rewrite mem_write_reg.
Qed.

Lemma abs_set_pc pc (h : hart S) : abs { h with register_PC := pc } = { abs h with a_pc := pc }.
Proof. done. Qed.

(** The pc update after an instruction of [len] bytes. *)
Definition finish (len : Z) (pc_not_affected : bool) (h : hart S) : hart S :=
  if pc_not_affected then { h with register_PC := wrap XLEN (register_PC h + len) } else h.

Lemma abs_finish len (h : hart S) : abs (finish len true h) ≡ next XLEN len (abs h).
Proof. done. Qed.

Lemma pc_write_reg rd v (h : hart S) : register_PC (write_reg rd v h) = register_PC h.
Proof. unfold write_reg. by destruct (rd =? 0). Qed.

Lemma exec_effect i t (h : hart S) :
  hart_ok h -> asm_ok i -> isa_effect XLEN dom i (abs h) t ->
  exists h', exec_instruction XLEN (encode i) (decode (encode i)) h = Some ((true, false), h') /\
    abs h' ≡ t /\ pm_wf (mem_intf h').
Proof.
  intros Hh Hi Hs. pose proof Hh as [Hwf Hm]. pose proof (ao_rd i Hi) as Rd.
  destruct Hs as [c Hc Hx|size ext a Hl Hd|size a Hl Hd].
  - rewrite (exec_asm_alu XLEN i c) by done. eexists. split; [done|].
    rewrite abs_write_reg, mem_write_reg by done. done.
  - destruct (exec_asm_memory XLEN i h XLEN_ok Hwf Hi Hm) as [E _].
    rewrite (E size ext) by (done || apply Hd). eexists. split; [done|].
    rewrite abs_write_reg, mem_write_reg by done. done.
  - destruct (exec_asm_memory XLEN i h XLEN_ok Hwf Hi Hm) as [_ E].
    destruct (E size Hl (proj2 Hd)) as (m' & -> & Hm' & Hb). eexists. by split_and!.
Qed.

Lemma abs_transfer len i pc' (h : hart S) :
  hart_ok h -> asm_ok i ->
  let h' := { h with register_PC := pc' } in
  let h' := if links (a_op i) then write_reg (a_rd i) (wrap XLEN (register_PC h + len)) h' else h' in
  abs h' ≡ transfer XLEN len i pc' (abs h) /\ pm_wf (mem_intf h').
Proof.
  intros [Hwf Hm] Hi h1 h2. unfold h2, transfer. pose proof (ao_rd i Hi) as Rd. cbv zeta.
  destruct (links (a_op i)); [|done]. rewrite mem_write_reg. split; [|done]. split_and!; simpl.
  - rewrite pc_write_reg. unfold set_rd. by destruct (a_rd i =? 0).
  - intros n Hn. destruct (abs_write_reg (a_rd i) (wrap XLEN (register_PC h + len)) h Hwf Rd) as (_ & E & _).
    specialize (E n Hn). unfold set_rd, write_reg, reg in *. by destruct (a_rd i =? 0).
  - intros x. rewrite mem_write_reg. unfold set_rd. by destruct (a_rd i =? 0).
Qed.

(** ** Dispatch: the decoders agree on the length of the instruction *)

Lemma low_bits w : bits 1 0 w = opcode w mod 4.
Proof. unfold opcode. rewrite !bits_div by lia. euclid. Qed.

Lemma decode_low w : decode w <> OP_ERROR -> bits 1 0 w = 3.
Proof.
  rewrite low_bits. unfold decode. intros Hd.
  repeat match type of Hd with
  | context [if opcode w =? ?k then _ else _] =>
      destruct (Z.eqb_spec (opcode w) k) as [->|]; [reflexivity|]
  end. done.
Qed.

Lemma c_decode_32 w : bits 1 0 w = 3 -> c_decode XLEN w = OP_C_ERROR.
Proof. intros E. unfold c_decode, c_opcode. by rewrite E. Qed.

Lemma is_word_32 w f7 rs2 rs1 f3 rd opc :
  is_word w f7 rs2 rs1 f3 rd opc -> opc mod 4 = 3 -> c_decode XLEN w = OP_C_ERROR.
Proof.
  intros Hw Ho. apply c_decode_32. rewrite low_bits. destruct Hw as (-> & ? & ? & ? & ? & ? & ?).
  by rewrite word_opcode.
Qed.

(** The extension that executes the word [w], the length of its instructions, what it
    answers (the pc is not affected) and leaves. *)
Inductive dispatched (w : Z) (h : hart S) : Z -> bool -> hart S -> Prop :=
| disp_base r h' :
    decode w <> OP_ERROR -> exec_instruction XLEN w (decode w) h = Some ((r, false), h') ->
    dispatched w h 4 r h'
| disp_c r h' :
    decode w = OP_ERROR -> c_decode XLEN w <> OP_C_ERROR ->
    c_exec_instruction XLEN w (c_decode XLEN w) h = Some ((r, false), h') -> dispatched w h 2 r h'
| disp_m r h' :
    decode w = OP_ERROR -> c_decode XLEN w = OP_C_ERROR -> m_decode w <> OP_M_ERROR ->
    m_exec_instruction XLEN w (m_decode w) h = Some (r, h') -> dispatched w h 4 r h'
| disp_a r h' :
    decode w = OP_ERROR -> c_decode XLEN w = OP_C_ERROR -> m_decode w = OP_M_ERROR ->
    a_decode w <> OP_A_ERROR ->
    a_exec_instruction XLEN w (a_decode w) h = Some (r, h') -> dispatched w h 4 r h'.

Lemma c_word_dispatch w c :
  c_ok XLEN c -> u16 w = c_encode c -> decode w = OP_ERROR /\ c_decode XLEN w <> OP_C_ERROR.
Proof.
  intros Hc Hw. assert (c_decode XLEN w <> OP_C_ERROR) as Hd.
  { destruct (c_decode_encode_lemma XLEN c w XLEN_ok Hc Hw) as [-> _].
    destruct Hc as [_ _ (k & Hk & _) _]. by destruct (c_op c); try (simpl in Hk; lia). }
  split; [|done]. destruct (decide (decode w = OP_ERROR)) as [|n]; [done|].
  by apply decode_low, c_decode_32 in n.
Qed.

Lemma straight_dispatched w len t (h : hart S) :
  hart_ok h -> straight XLEN dom w (abs h) len t ->
  exists h', dispatched w h len true h' /\ abs h' ≡ t /\ pm_wf (mem_intf h').
Proof.
  intros Hh Hs. pose proof Hh as [Hwf Hm].
  destruct Hs as [i t -> Hi Ho Hs|c t Hl Hc Hf Hs|op rd rs1 rs2 -> R0 R1 R2 Ho Hd
    |op q rd rs1 rs2 v -> Q R0 R1 R2 n Hn a Hf Hd old Hv].
  - destruct (exec_effect i t h Hh Hi Hs) as (h' & E & Ha & Hm'). exists h'. split; [|done].
    apply disp_base; [|done].
    destruct (decode_encode_lemma XLEN i XLEN_ok Hi) as (_ & -> & _). apply Hi.
  - pose proof (c_expand_ok XLEN c Hc) as Hi.
    assert (c_control (c_op c) = false) as Ec.
    { destruct Hs as [k Hk _|size ext a Hl' _|size a Hl' _]; [unfold c_expand in Hk|unfold c_expand in Hl'..];
        by destruct (c_op c). }
    destruct (exec_effect (c_expand c) t h Hh Hi Hs) as (h' & E & Ha & Hm').
    exists h'. split; [|done]. destruct (c_word_dispatch w c Hc Hl) as [Hd Hcd].
    apply disp_c; [done..|]. by rewrite (expansion_lemma XLEN XLEN_ok c w h Hwf Hc Hl Hf Ec).
  - destruct (exec_asm_m XLEN op rd rs1 rs2 h) as (D1 & D2 & E); [done..|].
    assert (op <> OP_M_ERROR) as Hne by (intros ->; by apply Hd).
    assert (c_decode XLEN (m_encode op rd rs1 rs2) = OP_C_ERROR) as Hc
      by (eapply is_word_32; [by apply m_encode_word|]; by destruct op).
    eexists. split; [apply disp_m; [done|done|by rewrite D2|exact E]|].
    rewrite mem_write_reg. split; [by apply abs_write_reg|done].
  - destruct (exec_asm_amo XLEN op q rd rs1 rs2 h) as (D1 & D2 & D3 & v' & m' & Hv' & E & Hm' & Hb);
      [done..| |apply Hd|].
    { destruct op; try discriminate Hv; by eexists. }
    assert (c_decode XLEN (a_encode op q rd rs1 rs2) = OP_C_ERROR) as Hc
      by (eapply is_word_32; [by apply a_encode_word|done]).
    assert (op <> OP_A_ERROR) as Hne by (intros ->; done).
    eexists. split; [apply disp_a; [done..|by rewrite D3|exact E]|]. split; [|done].
    assert (v' = v) as -> by (unfold old, a, n in Hv; simpl in Hv; congruence).
    destruct (abs_write_reg rd (wrap XLEN (signed n old)) h Hwf R0) as (E1 & E2 & E3).
    unfold set_rd in *. destruct (rd =? 0); by split_and!.
Qed.

Lemma jump_dispatched w s' (h : hart S) :
  hart_ok h -> jump XLEN w (abs h) s' ->
  exists len h', dispatched w h len false h' /\ abs h' ≡ s' /\ pm_wf (mem_intf h').
Proof.
  intros Hh Hs. pose proof Hh as [Hwf Hm]. destruct Hs as [i pc' -> Hi Hpc|c pc' Hl Hc Hf Hpc].
  - pose proof (exec_asm_control XLEN i pc' h XLEN_ok Hwf Hi Hpc) as E.
    eexists 4, _. split; [|exact (abs_transfer 4 i pc' h Hh Hi)]. apply disp_base; [|exact E].
    destruct (decode_encode_lemma XLEN i XLEN_ok Hi) as (_ & -> & _). apply Hi.
  - assert (c_control (c_op c) = true) as Hctl
      by (revert Hpc; unfold c_expand, asm_next_pc; by destruct (c_op c)).
    pose proof (control_lemma XLEN XLEN_ok c w pc' h Hwf Hc Hl Hf Hpc Hctl) as E.
    eexists 2, _. split; [|exact (abs_transfer 2 _ pc' h Hh (c_expand_ok XLEN c Hc))].
    destruct (c_word_dispatch w c Hc Hl) as [Hd Hcd]. by apply disp_c.
Qed.

Lemma decode_execute_dispatched w len r (h h' : hart S) :
  dispatched w h len r h' -> decode_execute XLEN w h = Some (false, finish len r h').
Proof.
  intros [r0 h0 D1 E|r0 h0 D1 D2 E|r0 h0 D1 D2 D3 E|r0 h0 D1 D2 D3 D4 E];
    unfold decode_execute; decide_op; rewrite bind_eq, E; by destruct r0.
Qed.

(** ** One step of the core *)

(** A well-formed core: a direct pointer it uses was granted. *)
Definition cpu_ok (c : cpu S) : Prop :=
  hart_ok (core c) /\ (dmi_ptr_valid c = true -> instr_dmi (S := S)).

Lemma fetch_load (c : cpu S) :
  cpu_ok c -> pm_dom (S := S) (register_PC (core c)) 4 ->
  exists c', fetch c = Some c' /\ core c' = core c /\ INSTR c' = word_at (abs (core c)) /\
    (dmi_ptr_valid c' = true -> instr_dmi (S := S)).
Proof.
  intros [[Hwf Hm] Hdmi] Hd. unfold fetch. destruct (dmi_ptr_valid c) eqn:Ev.
  - rewrite instr_direct by auto. eexists. split_and!; [reflexivity|done|done|by intros _; apply Hdmi].
  - destruct (instr_read (register_PC (core c)) (le_split 4 (INSTR c)) (mem_intf (core c)) Hm Hd)
      as (d & dmi & ->). eexists. split; [reflexivity|]. split_and!.
    + by destruct c as [[] ? ? ? ? ?].
    + done.
    + cbn. destruct dmi; [|done]. by apply instr_grant.
Qed.

Lemma decode_execute_refines (h : hart S) s' :
  hart_ok h -> isa_step XLEN dom (abs h) s' ->
  exists h', decode_execute XLEN (word_at (abs h)) h = Some (false, h') /\
    abs h' ≡ s' /\ pm_wf (mem_intf h').
Proof.
  intros Hh [len t Hs|t Hs].
  - destruct (straight_dispatched _ _ _ _ Hh Hs) as (h' & D & Ea & Hm).
    eexists. split; [by apply (decode_execute_dispatched _ len)|]. rewrite abs_finish. by rewrite Ea.
  - destruct (jump_dispatched _ _ _ Hh Hs) as (len & h' & D & Ea & Hm).
    eexists. split; [by apply (decode_execute_dispatched _ len)|]. done.
Qed.

Lemma CPU_step_refines_lemma (c : cpu S) s s' :
  cpu_ok c -> abs (core c) ≡ s -> dom (a_pc s) 4 -> isa_step XLEN dom s s' ->
  exists c', CPU_step XLEN c = Some (false, c') /\ cpu_ok c' /\ abs (core c') ≡ s'.
Proof.
  intros Hc E [Hd _] Hs. pose proof Hc as [Hh _].
  destruct (isa_step_equiv XLEN dom s (abs (core c)) s') as (t' & Ht & Et); [done|done|].
  assert (register_PC (core c) = a_pc s) as Ep by apply E.
  destruct (fetch_load c Hc) as (c1 & F & Ec & Ei & Hdmi); [by rewrite Ep|].
  destruct (decode_execute_refines (core c) t' Hh Ht) as (h' & D & Ea & Hm).
  eexists. unfold CPU_step. rewrite F, Ei, Ec, bind_eq, D. split; [reflexivity|].
  split; [|by rewrite Et, <-Ea]. split; [|exact Hdmi]. split; [|exact Hm].
  assert (keeps (hart_wf XLEN) (decode_execute XLEN (word_at (abs (core c)))))
    as K by by apply keeps_decode_execute.
  by destruct (K _ _ _ (proj1 Hh) D).
Qed.

(** [n] turns of the core. *)
Fixpoint CPU_steps (n : nat) (c : cpu S) : option (cpu S) :=
  match n with
  | O => Some c
  | Datatypes.S n => match CPU_step XLEN c with Some (_, c) => CPU_steps n c | None => None end
  end.
End refinement.

(** C4: the core implements the architecture where [isa_step] specifies it: for every base
    instruction but the fences and the system instructions, every M instruction, every AMO
    (not LR and SC) and every integer compressed instruction, whenever the specification can
    step from the state the core represents, [CPU_step] executes that step, without
    breakpoint, into the represented successor.  The specification leaves out the points at
    which the code departs from the architecture, all on RV64: the overflows of DIV, REM and
    DIVW ([m_departs]), compressed shifts by 32 or more and the compressed word stores, jumps
    and links that leave the low 4 GiB ([c_faithful]), word AMOs at addresses from 2^32
    ([fits n]).  The word at the pc, and the accesses of the instruction, must be ones that
    memory answers ([dom]). *)
Theorem CPU_step_refines_isa {S} `{InstrMem S} XLEN (c : cpu S) s s' :
  XLEN = 32 \/ XLEN = 64 -> cpu_ok XLEN c -> abs (core c) ≡ s ->
  dom (S := S) XLEN (a_pc s) 4 -> isa_step XLEN (dom (S := S) XLEN) s s' ->
  exists c', CPU_step XLEN c = Some (false, c') /\ cpu_ok XLEN c' /\ abs (core c') ≡ s'.
Proof. intros. by apply (CPU_step_refines_lemma XLEN ltac:(done) c s). Qed.

(** C1: every execution of [n] steps of [isa_step], that is of a program of the base
    instructions but the fences and the system instructions, the M instructions, the AMOs
    (not LR and SC) and the integer compressed instructions, is reproduced by [n] calls of
    [CPU_step], none of which fails.  Like the single step, it is about executions that stay
    clear of the code's departures on RV64 ([m_departs], [c_faithful], word AMOs from 2^32), in
    a memory that answers the fetches and the accesses, without interrupts. *)
Theorem CPU_runs_isa_program {S} `{InstrMem S} XLEN n (c : cpu S) s s' :
  XLEN = 32 \/ XLEN = 64 -> cpu_ok XLEN c -> abs (core c) ≡ s ->
  isa_run XLEN (dom (S := S) XLEN) n s s' ->
  exists c', CPU_steps XLEN n c = Some c' /\ cpu_ok XLEN c' /\ abs (core c') ≡ s'.
Proof.
  intros HX Hh E Hr. revert c Hh E.
  induction Hr as [s s' Es|n s t u Hd Hs _ IH]; intros c Hh E.
  - exists c. by rewrite <-Es.
  - destruct (CPU_step_refines_lemma XLEN HX c s t Hh E Hd Hs) as (c1 & E1 & Hh1 & Ea1).
    destruct (IH c1 Hh1 Ea1) as (c' & E' & Hh' & Ea'). exists c'. simpl. by rewrite E1.
Qed.

(** ** Witnesses: a two-instruction program, one of them compressed *)

Definition program : memory :=
  { memory0 with mem := store (store (mem memory0) 0x100 4 (encode (mkAsm OP_ADDI 5 0 0 7)))
                          0x104 2 (c_encode (mkC OP_C_ADDI 5 0 (-3))) }.
Definition cpu0 : cpu memory := CPU_Simple 64 0x100 program.

Lemma cpu0_ok : cpu_ok 64 cpu0.
Proof.
  split; [|done]. split; [apply CPU_Simple_wf; by right|]. simpl. intros x. unfold program. simpl.
  apply store_ok, store_ok. intros y. simpl. unfold fits. lia.
Qed.

Lemma program_dom a : 0 <= a < 0x1000 -> dom (S := memory) 64 a 4.
Proof.
  intros Ha. assert (0 <= a /\ 0 < 4 <= 8 /\ a + 4 <= SIZE) as H by (unfold SIZE; lia).
  by split.
Qed.

(** An ALU effect whose result is the constant [v]. *)
Ltac alu_step i c v :=
  match goal with |- isa_effect ?X ?d _ ?s _ =>
    let P := fresh in
    pose proof (eff_alu X d i s c eq_refl ltac:(discriminate)) as P;
    match type of P with context [alu_spec ?x ?o ?a ?b] =>
      replace (alu_spec x o a b) with v in P by (vm_compute; reflexivity) end;
    exact P
  end.

Lemma program_step_1 : isa_step 64 (dom (S := memory) 64) (abs (core cpu0))
  (next 64 4 (set_rd 5 7 (abs (core cpu0)))).
Proof.
  apply step_straight, (straight_base _ _ _ _ (mkAsm OP_ADDI 5 0 0 7)); [by vm_compute|asm_okay|done|].
  alu_step (mkAsm OP_ADDI 5 0 0 7) ALU_I 7.
Qed.

Lemma CPU_step_refines_isa_witness :
  exists c', CPU_step 64 cpu0 = Some (false, c') /\ reg (core c') 5 = 7.
Proof.
  destruct (CPU_step_refines_isa 64 cpu0 (abs (core cpu0)) (next 64 4 (set_rd 5 7 (abs (core cpu0)))))
    as (c' & E & _ & (_ & Hr & _)).
  - by right.
  - apply cpu0_ok.
  - done.
  - apply program_dom. vm_compute. split; congruence.
  - apply program_step_1.
  - exists c'. split; [exact E|]. exact (Hr 5 ltac:(lia)).
Defined.

Lemma CPU_runs_isa_program_witness :
  exists c', CPU_steps 64 2 cpu0 = Some c' /\ reg (core c') 5 = 4 /\ register_PC (core c') = 0x106.
Proof.
  destruct (CPU_runs_isa_program 64 2 cpu0 (abs (core cpu0))
    (next 64 2 (set_rd 5 4 (next 64 4 (set_rd 5 7 (abs (core cpu0)))))))
    as (c' & E & _ & (Hp & Hr & _)).
  - by right.
  - apply cpu0_ok.
  - done.
  - eapply run_S; [apply program_dom; vm_compute; split; congruence|apply program_step_1|].
    eapply run_S; [apply program_dom; vm_compute; split; congruence| |by apply run_0].
    apply step_straight, (straight_c _ _ _ _ (mkC OP_C_ADDI 5 0 (-3))); [by vm_compute|c_okay 29%nat|exact I|].
    alu_step (mkAsm OP_ADDI 5 5 0 (-3)) ALU_I 4.
  - exists c'. split; [exact E|]. split; [exact (Hr 5 ltac:(lia))|exact Hp].
Defined.
