(* ===== verification/CpuP2.v ===== *)
(** [src/CPU_P64_2.cpp], [src/CPU_P32_2.cpp]: the two-stage pipelined cores
    [CPURV64P2] and [CPURV32P2], which differ in [XLEN] only.  [perf] and the log are not
    modelled.

    [CPU_step] runs EX on the latch of the previous cycle and then IF.  The theorems
    relate it to the architecture of [ISASpec.v]: the instructions that fall through and
    do not read the pc execute as specified, one per cycle, and so do the jumps to a register
    that do not link, in two; the others see the pc that IF has already advanced.  [p2_step] is
    what the pipeline makes of all of them, the relation that its timing models share. *)
From S2P Require Import Prelude Bytes Memory PhysMem Regs BaseISA BaseISAProofs.
From S2P Require Import MExt AExt CExt CExtProofs CpuSimple ISASpec.
Import RegsH.

Record IF_EX_Latch := mkLatch { l_instruction : Z; l_pc : Z; l_valid : bool }.

Record PipelineStats := mkStats {
  cycles : Z; stalls : Z; flushes : Z; control_hazards : Z
}.

Record cpuP2 (S : Type) := mkCpuP2 {
  p2_core : hart S;
  p2_int_cause : Z;
  p2_stats : PipelineStats;
  if_ex_latch : IF_EX_Latch;
  pipeline_flush : bool;
  p2_dmi_ptr_valid : bool;
  p2_interrupt : bool;
  p2_irq_already_down : bool
}.
Arguments mkCpuP2 {S} _ _ _ _ _ _ _ _.
Arguments p2_core {S} _.
Arguments p2_int_cause {S} _.
Arguments p2_stats {S} _.
Arguments if_ex_latch {S} _.
Arguments pipeline_flush {S} _.
Arguments p2_dmi_ptr_valid {S} _.
Arguments p2_interrupt {S} _.
Arguments p2_irq_already_down {S} _.

Section cpu_p2.
Context {S : Type} `{Target S, DirectMem S}.
Variable XLEN : Z.

Definition CPU_P2 (PC : Z) (m : S) : cpuP2 S :=
  let h := Registers XLEN m in
  let h := { h with register_PC := wrap XLEN PC } in
  let h := write_reg 2 (wrap XLEN (SIZE / (XLEN / 8) - 1)) h in
  mkCpuP2 h 0 (mkStats 0 0 0 0) (mkLatch 0 0 false) false false false false.

Definition inc_cycles (n : Z) (c : cpuP2 S) : cpuP2 S :=
  { c with p2_stats := { p2_stats c with cycles := u64 (cycles (p2_stats c) + n) } }.
Definition inc_stalls (c : cpuP2 S) : cpuP2 S :=
  { c with p2_stats := { p2_stats c with stalls := u64 (stalls (p2_stats c) + 1) } }.
Definition inc_flushes (c : cpuP2 S) : cpuP2 S :=
  { c with p2_stats := { p2_stats c with flushes := u64 (flushes (p2_stats c) + 1) } }.
Definition inc_control_hazards (c : cpuP2 S) : cpuP2 S :=
  { c with p2_stats := { p2_stats c with control_hazards := u64 (control_hazards (p2_stats c) + 1) } }.

(** The word at [pc], read over the bus or directly, into the latch's instruction. *)
Definition p2_fetch (pc : Z) (c : cpuP2 S) : option (Z * cpuP2 S) :=
  if p2_dmi_ptr_valid c then
    match direct_read pc 4 (mem_intf (p2_core c)) with
    | None => None
    | Some l => Some (le_combine l, c)
    end
  else
    let '(p, _, s) :=
      b_transport (mkPayload TLM_READ pc (le_split 4 (l_instruction (if_ex_latch c)))
                     false TLM_INCOMPLETE false) 0 (mem_intf (p2_core c)) in
    if is_response_error p then None
    else Some (le_combine (p_data p),
               { c with p2_core := { p2_core c with mem_intf := s };
                 p2_dmi_ptr_valid := if p_dmi_allowed p then get_direct_mem_ptr s else false }).

Definition IF_stage (c : cpuP2 S) : option (cpuP2 S) :=
  if pipeline_flush c then
    Some { c with if_ex_latch := mkLatch 0 0 false; pipeline_flush := false }
  else
    let current_pc := register_PC (p2_core c) in
    match p2_fetch current_pc c with
    | None => None
    | Some (instr, c) =>
      match (if negb ((instr .& 0x3) =? 0x3) then incPCby2 XLEN else incPC XLEN) (p2_core c) with
      | None => None
      | Some (_, h) => Some { c with p2_core := h; if_ex_latch := mkLatch instr current_pc true }
      end
    end.

(** The extension handlers on the word [instr]: is it a branch, was the pc changed, the
    breakpoint. *)
Definition EX_dispatch (instr : Z) : M S (bool * bool * bool) :=
  let deco := decode instr in
  if negb (bool_decide (deco = OP_ERROR)) then
    let op := instr .& 0x7F in
    let is_branch := (op =? 0x63) || (op =? 0x6F) || (op =? 0x67) in
    r ← exec_instruction XLEN instr deco;
    let '(pc_not_affected, breakpoint) := r : bool * bool in
    mret (is_branch, negb pc_not_affected, breakpoint)
  else
    let c_deco := c_decode XLEN instr in
    if negb (bool_decide (c_deco = OP_C_ERROR)) then
      let is_branch := bool_decide (c_deco = OP_C_J) || bool_decide (c_deco = OP_C_JAL) ||
        bool_decide (c_deco = OP_C_JR) || bool_decide (c_deco = OP_C_JALR) ||
        bool_decide (c_deco = OP_C_BEQZ) || bool_decide (c_deco = OP_C_BNEZ) in
      r ← c_exec_instruction XLEN instr c_deco;
      let '(pc_not_affected, breakpoint) := r : bool * bool in
      mret (is_branch, negb pc_not_affected, breakpoint)
    else
      let m_deco := m_decode instr in
      if negb (bool_decide (m_deco = OP_M_ERROR)) then
        pc_not_affected ← m_exec_instruction XLEN instr m_deco;
        mret (false, negb pc_not_affected, false)
      else
        let a_deco := a_decode instr in
        if negb (bool_decide (a_deco = OP_A_ERROR)) then
          pc_not_affected ← a_exec_instruction XLEN instr a_deco;
          mret (false, negb pc_not_affected, false)
        else
          NOP;; mret (false, false, false).

Definition EX_stage (c : cpuP2 S) : option (bool * cpuP2 S) :=
  if negb (l_valid (if_ex_latch c)) then Some (false, inc_stalls c)
  else
    match EX_dispatch (l_instruction (if_ex_latch c)) (p2_core c) with
    | None => None
    | Some ((is_branch, pc_changed, breakpoint), h) =>
        let c := { c with p2_core := h } in
        let c := if is_branch && pc_changed
                 then inc_control_hazards (inc_flushes { c with pipeline_flush := true }) else c in
        Some (breakpoint, c)
    end.

Definition CPU_P2_step (c : cpuP2 S) : option (bool * cpuP2 S) :=
  let c := inc_cycles 1 c in
  match EX_stage c with
  | None => None
  | Some (breakpoint, c) =>
    match IF_stage c with
    | None => None
    | Some c =>
      let c := if pipeline_flush c then inc_cycles 1 c else c in
      match wait_cycle (p2_core c) with
      | None => None
      | Some (_, h) => Some (breakpoint, { c with p2_core := h })
      end
    end
  end.

Definition CPU_P2_process_IRQ (c : cpuP2 S) : option (bool * cpuP2 S) :=
  if p2_interrupt c then
    match getCSR CSR_MSTATUS (p2_core c) with
    | None => None
    | Some (csr_temp, _) =>
      if (csr_temp .& MSTATUS_MIE) =? 0 then Some (false, c)
      else
        match getCSR CSR_MIP (p2_core c) with
        | None => None
        | Some (csr_temp, _) =>
          if (csr_temp .& MIP_MEIP) =? 0 then
            match (setCSR CSR_MIP (csr_temp .| MIP_MEIP);;
                   old_pc ← getPC;
                   setCSR CSR_MEPC old_pc;;
                   setCSR CSR_MCAUSE 0x80000000;;
                   new_pc ← getCSR CSR_MTVEC;
                   setPC XLEN new_pc) (p2_core c) with
            | None => None
            | Some (_, h) =>
                let c := { c with p2_core := h; pipeline_flush := true;
                             if_ex_latch := { if_ex_latch c with l_valid := false } } in
                let c := inc_cycles 2 (inc_flushes c) in
                Some (true, { c with p2_interrupt := false; p2_irq_already_down := false })
            end
          else Some (false, c)
        end
    end
  else if negb (p2_irq_already_down c) then
    match (csr_temp ← getCSR CSR_MIP; setCSR CSR_MIP (csr_temp .&~ MIP_MEIP)) (p2_core c) with
    | None => None
    | Some (_, h) => Some (false, { c with p2_core := h; p2_irq_already_down := true })
    end
  else Some (false, c).

Definition CPU_P2_call_interrupt (m_trans : payload) (c : cpuP2 S) : cpuP2 S * Z :=
  ({ c with p2_interrupt := true;
     p2_int_cause := le_combine (take (Z.to_nat (XLEN / 8)) (p_data m_trans)) }, 0).

(** One turn of [CPU_thread], with the wait that the base class adds for pipelined
    cores. *)
Definition CPU_P2_thread_body (c : cpuP2 S) : option (cpuP2 S) :=
  match CPU_P2_step c with
  | None => None
  | Some (_, c) =>
    match CPU_P2_process_IRQ c with
    | None => None
    | Some (_, c) =>
      match wait_cycle (p2_core c) with
      | None => None
      | Some (_, h) => Some { c with p2_core := h }
      end
    end
  end.
End cpu_p2.

(** ** The pipeline as a transition system on the architectural state *)

(** The length the fetch reads off a word. *)
Definition ilen (w : Z) : Z := if negb ((w .& 0x3) =? 0x3) then 2 else 4.

Lemma ilen_bits w : ilen w = if bits 1 0 w =? 3 then 4 else 2.
Proof.
  unfold ilen. change 3 with (Z.ones 2) at 1 2. rewrite Z.land_ones by lia.
  rewrite bits_div by lia. change (2 ^ 0) with 1. rewrite Z.div_1_r.
  change (2 ^ (1 - 0 + 1)) with (2 ^ 2). by destruct (_ =? _).
Qed.

Section spec.
Variable XLEN : Z.
Variable dom : Z -> Z -> Prop.

(** What EX sees of [s]: IF has advanced the pc past the latched instruction. *)
Definition displaced (s : arch) : arch := next XLEN (ilen (word_at s)) s.

(** What the pipeline makes of an instruction, and in how many cycles: a description of the
    code, not of the architecture, in which the pc that jumps, branches, links and AUIPC see is
    the advanced one and a branch flushes and goes on even when it is not taken.  It is what the
    timing models share; on [pc_free] code it is the architecture ([plain_p2_step]). *)
Inductive p2_step (s : arch) : nat -> arch -> Prop :=
| p2_straight len t : straight XLEN dom (word_at s) (displaced s) len t -> p2_step s 1 t
| p2_jump s' : jump XLEN (word_at s) (displaced s) s' -> p2_step s 2 s'.

(** Executions of some instructions in [k] cycles. *)
Inductive p2_run : nat -> arch -> arch -> Prop :=
| p2_run_0 s s' : s ≡ s' -> p2_run 0 s s'
| p2_run_step n k s t u :
    p2_step s n t -> dom (a_pc t) 4 -> p2_run k t u -> p2_run (n + k) s u.

(** The instructions that use the pc to get to the next instruction only: all but AUIPC, the
    jumps and branches relative to the pc, and the jumps that link. *)
Definition pc_free (w : Z) : bool :=
  match decode w with
  | OP_AUIPC | OP_JAL | OP_BEQ | OP_BNE | OP_BLT | OP_BGE | OP_BLTU | OP_BGEU => false
  | OP_JALR => get_rd w =? 0
  | OP_ERROR =>
      match c_decode XLEN w with
      | OP_C_J | OP_C_JAL | OP_C_JALR | OP_C_BEQZ | OP_C_BNEZ => false
      | _ => true
      end
  | _ => true
  end.

(** The cycles of an instruction: the jump to a register costs the slot after it. *)
Definition register_jump (w : Z) : bool :=
  if bits 1 0 w =? 3 then opcode w =? 0x67 else bool_decide (c_decode XLEN w = OP_C_JR).
Definition slots (w : Z) : nat := if register_jump w then 2 else 1.

(** Executions of [n] instructions of the architecture, all of that kind, of [k] slots. *)
Inductive isa_plain : nat -> nat -> arch -> arch -> Prop :=
| plain_0 s s' : s ≡ s' -> isa_plain 0 0 s s'
| plain_S n k s t u :
    isa_step XLEN dom s t -> pc_free (word_at s) = true -> dom (a_pc t) 4 ->
    isa_plain n k t u -> isa_plain (S n) (slots (word_at s) + k) s u.

Lemma effect_pc i s t : isa_effect XLEN dom i s t -> a_pc t = a_pc s.
Proof. intros [| |]; unfold set_rd; try case_match; done. Qed.

(** Moving the pc under an effect that does not read it. *)
Lemma effect_at p i s t :
  isa_effect XLEN dom i s t -> a_op i <> OP_AUIPC ->
  isa_effect XLEN dom i { s with a_pc := p } { t with a_pc := p }.
Proof.
  assert (forall rd v, { set_rd rd v s with a_pc := p } = set_rd rd v { s with a_pc := p }) as E
    by (intros; unfold set_rd; by case_match).
  intros [c Hc Hx|size ext a Hl Hd|size a Hl Hd] Hop.
  - rewrite E. assert (asm_src1 i (a_pc s) (a_reg s) = asm_src1 i p (a_reg s)) as ->
      by (unfold asm_src1; by destruct (a_op i)).
    exact (eff_alu XLEN dom i (mkArch p _ _) c Hc Hx).
  - rewrite E. exact (eff_load XLEN dom i (mkArch p _ _) size ext Hl Hd).
  - exact (eff_store XLEN dom i (mkArch p _ _) size Hl Hd).
Qed.

Lemma c_expand_not_auipc c : c_ok XLEN c -> a_op (c_expand c) <> OP_AUIPC.
Proof. intros _. unfold c_expand. by destruct (c_op c). Qed.

Lemma straight_at p w s len t :
  XLEN = 32 \/ XLEN = 64 -> straight XLEN dom w s len t -> decode w <> OP_AUIPC ->
  straight XLEN dom w { s with a_pc := p } len { t with a_pc := p } /\ a_pc t = a_pc s.
Proof.
  assert (forall s rd v, { set_rd rd v s with a_pc := p } = set_rd rd v { s with a_pc := p }) as E
    by (intros; unfold set_rd; by case_match).
  assert (forall s rd v, a_pc (set_rd rd v s) = a_pc s) as Ep
    by (intros; unfold set_rd; by case_match).
  intros HX [i t' -> Hi Ho Hs|c t' Hl Hc Hf Hs|op rd rs1 rs2 -> R0 R1 R2 Ho Hd
    |op q rd rs1 rs2 v -> Q R0 R1 R2 n Hn a Hf Hd old Hv] Hop.
  - destruct (decode_encode_lemma XLEN i HX Hi) as (_ & E' & _). rewrite E' in Hop.
    split; [|by eapply effect_pc]. eapply straight_base; [done..|]. by apply effect_at.
  - assert (c_control (c_op c) = false) as Ec.
    { destruct Hs as [k Hk _|size ext a Hl' _|size a Hl' _]; [unfold c_expand in Hk|unfold c_expand in Hl'..];
        by destruct (c_op c). }
    split; [|by eapply effect_pc]. eapply straight_c; [done..| |].
    + unfold c_faithful in *. by destruct (c_op c).
    + apply effect_at; [done|]. by apply c_expand_not_auipc.
  - rewrite E, Ep. split; [|done]. by exact (straight_m XLEN dom _ (mkArch p _ _) op rd rs1 rs2 eq_refl R0 R1 R2 Ho Hd).
  - rewrite E, Ep. split; [|done]. exact (straight_amo XLEN dom _ (mkArch p _ _) op q rd rs1 rs2 v eq_refl Q R0 R1 R2 Hn Hf Hd Hv).
Qed.

(** The fetch reads the length right. *)
Lemma straight_ilen w s len t :
  XLEN = 32 \/ XLEN = 64 -> straight XLEN dom w s len t -> ilen w = len.
Proof.
  intros HX Hs. rewrite ilen_bits.
  destruct Hs as [i t' -> Hi Ho Hs|c t' Hl Hc Hf Hs|op rd rs1 rs2 -> R0 R1 R2 Ho Hd
    |op q rd rs1 rs2 v -> Q R0 R1 R2 n Hn a Hf Hd old Hv].
  - destruct (decode_encode_lemma XLEN i HX Hi) as (_ & E & _).
    rewrite decode_low; [done|]. rewrite E. apply Hi.
  - destruct (c_word_dispatch XLEN HX w c Hc Hl) as [_ H].
    destruct (Z.eqb_spec (bits 1 0 w) 3) as [E|]; [|done]. by apply (c_decode_32 XLEN) in E.
  - rewrite low_bits. destruct (m_encode_word op rd rs1 rs2 R0 R1 R2) as (-> & ? & ? & ? & ? & ? & ?).
    rewrite word_opcode by done. by destruct op.
  - rewrite low_bits. destruct (a_encode_word op q rd rs1 rs2 Q R0 R1 R2) as (-> & ? & ? & ? & ? & ? & ?).
    by rewrite word_opcode.
Qed.

Lemma straight_slots w s len t :
  XLEN = 32 \/ XLEN = 64 -> straight XLEN dom w s len t -> slots w = 1%nat.
Proof.
  intros HX Hs. unfold slots, register_jump.
  destruct Hs as [i t' -> Hi Ho Hs|c t' Hl Hc Hf Hs|op rd rs1 rs2 -> R0 R1 R2 Ho Hd
    |op q rd rs1 rs2 v -> Q R0 R1 R2 n Hn a Hf Hd old Hv].
  - destruct (decode_encode_lemma XLEN i HX Hi) as (_ & E & _).
    assert (a_op i <> OP_JALR) as Hne.
    { intros Ej. destruct Hs as [k Hk _|size ext a Hl' _|size a Hl' _]; by rewrite Ej in *. }
    destruct (bits 1 0 (encode i) =? 3) eqn:E3.
    + destruct (Z.eqb_spec (opcode (encode i)) 0x67) as [Eo|]; [|done].
      exfalso. apply Hne. rewrite <-E. unfold decode. by rewrite Eo.
    + rewrite decode_low in E3; [done|]. rewrite E. apply Hi.
  - destruct (c_word_dispatch XLEN HX w c Hc Hl) as [_ H].
    destruct (Z.eqb_spec (bits 1 0 w) 3) as [E|]; [by apply (c_decode_32 XLEN) in E|].
    rewrite bool_decide_eq_false_2; [done|]. intros E.
    destruct (c_decode_encode_lemma XLEN c w HX Hc Hl) as [Ew _]. rewrite E in Ew.
    destruct Hs as [k Hk _|size ext a Hl' _|size a Hl' _];
      [unfold c_expand in Hk|unfold c_expand in Hl'..]; by destruct (c_op c).
  - rewrite low_bits. destruct (m_encode_word op rd rs1 rs2 R0 R1 R2) as (-> & ? & ? & ? & ? & ? & ?).
    rewrite word_opcode by done. by destruct op.
  - rewrite low_bits. destruct (a_encode_word op q rd rs1 rs2 Q R0 R1 R2) as (-> & ? & ? & ? & ? & ? & ?).
    by rewrite word_opcode.
Qed.

(** A jump to a register that does not link goes to the same place from anywhere. *)
Lemma register_jump_at p w s t :
  XLEN = 32 \/ XLEN = 64 -> jump XLEN w s t -> pc_free w = true ->
  slots w = 2%nat /\ jump XLEN w { s with a_pc := p } t.
Proof.
  intros HX [i pc' -> Hi Hpc|c pc' Hl Hc Hf Hpc] Hw; unfold slots, register_jump, pc_free in *.
  - destruct (decode_encode_lemma XLEN i HX Hi) as (_ & E & Ho). rewrite E in Hw.
    assert (a_op i = OP_JALR) as Ej by (revert Hpc Hw; unfold asm_next_pc; by destruct (a_op i)).
    assert (opcode (encode i) = 0x67) as Eo.
    { destruct (encode_word i Hi) as (f7 & rs2 & rs1 & f3 & rd & opc & He & Hd & _).
      destruct He as (-> & ? & ? & ? & ? & ? & ?). rewrite word_opcode by done.
      rewrite Ej in Hd. revert Hd. unfold decode_fields.
      repeat match goal with |- context [if opc =? ?k then _ else _] =>
        destruct (Z.eqb_spec opc k) as [->|]; [try done|] end.
      all: unfold decode_load, decode_store, decode_branch, decode_op_imm, decode_op, decode_system,
             decode_op_imm32, decode_op32;
             repeat (match goal with |- context [if ?b then _ else _] => destruct b; [try discriminate|] end); discriminate. }
    rewrite low_bits, Eo. split; [done|]. rewrite Ej in Hw. apply Z.eqb_eq in Hw.
    assert (get_rd (encode i) = a_rd i) as Erd by (unfold operands in Ho; rewrite Ej in Ho; apply Ho).
    assert (asm_next_pc XLEN 4 i p (a_reg s) = Some pc') as Hpc'
      by (revert Hpc; unfold asm_next_pc; by rewrite Ej).
    pose proof (jump_base XLEN (encode i) { s with a_pc := p } i pc' eq_refl Hi Hpc') as Hj.
    unfold transfer, set_rd in *. by rewrite Ej, <-Erd, Hw in *.
  - destruct (c_word_dispatch XLEN HX w c Hc Hl) as [Hd Hcd].
    destruct (c_decode_encode_lemma XLEN c w HX Hc Hl) as [Ew _]. rewrite Hd, Ew in Hw.
    assert (c_op c = OP_C_JR) as Ej by (revert Hpc Hw; unfold c_expand, asm_next_pc; by destruct (c_op c)).
    destruct (Z.eqb_spec (bits 1 0 w) 3) as [E|]; [by apply (c_decode_32 XLEN) in E|].
    rewrite Ew, Ej. split; [done|].
    assert (c_faithful XLEN c p (a_reg s)) as Hf' by (unfold c_faithful in *; by rewrite Ej in *).
    assert (asm_next_pc XLEN 2 (c_expand c) p (a_reg s) = Some pc') as Hpc'
      by (revert Hpc; unfold asm_next_pc, c_expand; by rewrite Ej).
    pose proof (jump_c XLEN w { s with a_pc := p } c pc' Hl Hc Hf' Hpc') as Hj.
    unfold transfer, set_rd, c_expand in *. by rewrite Ej in *.
Qed.

(** Such instructions run in the pipeline as the architecture says. *)
Lemma plain_p2_step s t :
  XLEN = 32 \/ XLEN = 64 -> isa_step XLEN dom s t -> pc_free (word_at s) = true ->
  p2_step s (slots (word_at s)) t.
Proof.
  intros HX [len t' Hs|t' Hj] Hw.
  - rewrite (straight_slots _ _ _ _ HX Hs). apply p2_straight with len. unfold displaced.
    rewrite (straight_ilen _ _ _ _ HX Hs).
    assert (decode (word_at s) <> OP_AUIPC) as Ha by (intros E; unfold pc_free in Hw; by rewrite E in Hw).
    destruct (straight_at (wrap XLEN (a_pc s + len)) _ _ _ _ HX Hs Ha) as [H E].
    unfold next. by rewrite E.
  - destruct (register_jump_at (wrap XLEN (a_pc s + ilen (word_at s))) _ _ _ HX Hj Hw) as [-> Hj'].
    by apply p2_jump.
Qed.

Lemma plain_step j n k s t u :
  slots (word_at s) = j -> isa_step XLEN dom s t -> pc_free (word_at s) = true -> dom (a_pc t) 4 ->
  isa_plain n k t u -> isa_plain (S n) (j + k) s u.
Proof. intros <-. apply plain_S. Qed.

Lemma plain_slots n k s t : isa_plain n k s t -> (n <= k <= 2 * n)%nat.
Proof. induction 1 as [|n k s t u _ _ _ _ IH]; [lia|]. unfold slots. case_match; lia. Qed.

Lemma plain_p2_run n k s t :
  XLEN = 32 \/ XLEN = 64 -> isa_plain n k s t -> p2_run k s t.
Proof.
  intros HX. induction 1 as [|n k s t u Hs Hw Hd _ IH]; [by apply p2_run_0|].
  by apply (p2_run_step _ k _ t); [apply plain_p2_step|..].
Qed.
End spec.

(** ** The cores implement the transition system *)

Section implements.
Context {S : Type} `{InstrMem S}.
Variable XLEN : Z.
Hypothesis XLEN_ok : XLEN = 32 \/ XLEN = 64.

(** A well-formed core that represents [s]; a direct pointer it uses was granted. *)
Definition p2_rep (c : cpuP2 S) (s : arch) : Prop :=
  pipeline_flush c = false /\ hart_ok XLEN (p2_core c) /\ abs (p2_core c) ≡ s /\
  (p2_dmi_ptr_valid c = true -> instr_dmi (S := S)).

(** Empty latch: the core is in the state [s]. *)
Definition bubble (c : cpuP2 S) (s : arch) : Prop :=
  l_valid (if_ex_latch c) = false /\ p2_rep c s.

(** The latch holds the instruction of the state [s]. *)
Definition latched (c : cpuP2 S) (s : arch) : Prop :=
  if_ex_latch c = mkLatch (word_at s) (a_pc s) true /\ p2_rep c (displaced XLEN s).

Lemma p2_fetch_word (c : cpuP2 S) s :
  p2_rep c s -> dom (S := S) XLEN (a_pc s) 4 ->
  exists c', p2_fetch (a_pc s) c = Some (word_at s, c') /\ p2_rep c' s.
Proof.
  intros (Hf & [Hwf Hm] & Ha & Hdmi) [Hd _]. unfold p2_fetch. unfold word_at.
  rewrite <-(load_equiv (abs (p2_core c)) s) by done. destruct (p2_dmi_ptr_valid c) eqn:Ev.
  - rewrite instr_direct by auto. exists c. split; [reflexivity|].
    split_and!; [done|done|done|]. by rewrite Ev.
  - destruct (instr_read (a_pc s) (le_split 4 (l_instruction (if_ex_latch c))) (mem_intf (p2_core c)) Hm Hd)
      as (d & dmi & ->). eexists. split; [reflexivity|]. split_and!; [done| |done|].
    + split; [|exact Hm]. by destruct Hwf.
    + cbn. destruct dmi; [|done]. by apply instr_grant.
Qed.

Lemma IF_stage_fetch (c : cpuP2 S) s :
  p2_rep c s -> dom (S := S) XLEN (a_pc s) 4 ->
  exists c', IF_stage XLEN c = Some c' /\ latched c' s.
Proof.
  intros Hr Hd. destruct (p2_fetch_word c s Hr Hd) as (c1 & E & Hf & [Hwf Hm] & Ha & Hdmi).
  destruct Hr as (Hf0 & _ & Ha0 & _). unfold IF_stage. rewrite Hf0.
  change (register_PC (p2_core c)) with (a_pc (abs (p2_core c))).
  rewrite (proj1 Ha0), E.
  assert (exists h, (if negb ((word_at s .& 0x3) =? 0x3) then incPCby2 XLEN else incPC XLEN)
            (p2_core c1) = Some (tt, h) /\
            hart_ok XLEN h /\ abs h ≡ next XLEN (ilen (word_at s)) (abs (p2_core c1)))
    as (h & -> & Hh & Eh).
  { unfold ilen. destruct (negb _); eexists; (split; [reflexivity|]); (split; [|done]);
      (split; [|done]); destruct Hwf; split; try done; apply wrap_fits; lia. }
  eexists. split; [reflexivity|]. split; [done|]. split_and!; [done|done| |done].
  cbn. by rewrite Eh, Ha.
Qed.

(** EX hands the latched word to the extension that executes it. *)
Lemma EX_dispatch_dispatched w len r (h h' : hart S) :
  dispatched XLEN w h len r h' ->
  exists is_branch, EX_dispatch XLEN w h = Some ((is_branch, negb r, false), h').
Proof.
  intros [r0 h0 D1 E|r0 h0 D1 D2 E|r0 h0 D1 D2 D3 E|r0 h0 D1 D2 D3 D4 E];
    unfold EX_dispatch; cbv zeta; decide_op; rewrite bind_eq, E; by eexists.
Qed.

Lemma opcode_mask w : w .& 0x7F = opcode w.
Proof.
  change 0x7F with (Z.ones 7). rewrite Z.land_ones by lia. unfold opcode. rewrite bits_div by lia.
  change (2 ^ 0) with 1. by rewrite Z.div_1_r.
Qed.

Definition is_control (op : opCodes) : bool :=
  match op with
  | OP_JAL | OP_JALR | OP_BEQ | OP_BNE | OP_BLT | OP_BGE | OP_BLTU | OP_BGEU => true
  | _ => false
  end.

Lemma control_opcode opc f3 f7 csr :
  is_control (decode_fields opc f3 f7 csr) = true ->
  (opc =? 0x63) || (opc =? 0x6F) || (opc =? 0x67) = true.
Proof.
  unfold decode_fields.
  repeat match goal with |- context [if opc =? ?k then _ else _] =>
    destruct (Z.eqb_spec opc k) as [->|]; [try done|] end; [..|done].
  all: unfold decode_load, decode_store, decode_op_imm, decode_op, decode_system,
         decode_op_imm32, decode_op32; repeat case_match; done.
Qed.

(** Every jump and branch is one that EX flushes for. *)
Lemma EX_dispatch_jump w s' (h : hart S) :
  hart_ok XLEN h -> jump XLEN w (abs h) s' ->
  exists h', EX_dispatch XLEN w h = Some ((true, true, false), h') /\ abs h' ≡ s' /\
    pm_wf (mem_intf h').
Proof.
  intros Hh Hj. destruct (jump_dispatched XLEN XLEN_ok w s' h Hh Hj) as (len & h' & D & Ha & Hm).
  exists h'. split; [|done].
  destruct (EX_dispatch_dispatched w len false h h' D) as (b & E). rewrite E.
  enough (b = true) as -> by done. revert E. unfold EX_dispatch. cbv zeta.
  destruct Hj as [i pc' -> Hi Hpc|c pc' Hl Hc Hf Hpc].
  - destruct (decode_encode_lemma XLEN i XLEN_ok Hi) as (_ & Ed & _). rewrite Ed.
    rewrite (bool_decide_eq_false_2 (a_op i = OP_ERROR)) by apply Hi. cbn [negb].
    rewrite opcode_mask, bind_eq. destruct (exec_instruction _ _ _ h) as [[[] ?]|]; [|done].
    intros [= <- _ _ _]. destruct (encode_word i Hi) as (f7 & rs2 & rs1 & f3 & rd & opc & Hw & Hd & _).
    destruct Hw as (-> & ? & ? & ? & ? & ? & ?). rewrite word_opcode by done.
    apply (control_opcode opc f3 f7 (f7 * 32 + rs2)). rewrite Hd.
    revert Hpc. clear. unfold asm_next_pc. by destruct (a_op i).
  - destruct (c_word_dispatch XLEN XLEN_ok w c Hc Hl) as [Hd Hcd]. decide_op.
    destruct (c_decode_encode_lemma XLEN c w XLEN_ok Hc Hl) as [Hw _]. rewrite Hw.
    rewrite bind_eq. destruct (c_exec_instruction _ _ _ h) as [[[] ?]|]; [|done].
    intros [= <- _ _ _]. revert Hpc. unfold c_expand, asm_next_pc. by destruct (c_op c).
Qed.

Lemma EX_dispatch_straight w len t (h : hart S) :
  hart_ok XLEN h -> straight XLEN (dom (S := S) XLEN) w (abs h) len t ->
  exists b h', EX_dispatch XLEN w h = Some ((b, false, false), h') /\ abs h' ≡ t /\
    pm_wf (mem_intf h').
Proof.
  intros Hh Hs. destruct (straight_dispatched XLEN XLEN_ok w len t h Hh Hs) as (h' & D & Ha & Hm).
  destruct (EX_dispatch_dispatched w len true h h' D) as (b & E). by exists b, h'.
Qed.

#[local] Hint Resolve keeps_exec keeps_c_exec keeps_m_exec keeps_a_exec : keeps.
Lemma keeps_EX_dispatch w : keeps (hart_wf XLEN) (EX_dispatch XLEN w : M S (bool * bool * bool)).
Proof. unfold EX_dispatch, NOP. keeps. Qed.

Lemma EX_dispatch_ok w r (h h' : hart S) :
  hart_ok XLEN h -> EX_dispatch XLEN w h = Some (r, h') -> pm_wf (mem_intf h') -> hart_ok XLEN h'.
Proof. intros [Hwf _] E Hm. split; [|done]. by apply (keeps_EX_dispatch w _ _ _ Hwf E). Qed.

Lemma hart_ok_wait n (h : hart S) : hart_ok XLEN h -> hart_ok XLEN { h with sim_time := n }.
Proof. intros [[] Hm]. by split. Qed.

Lemma p2_rep_core (c : cpuP2 S) h s :
  pipeline_flush c = false -> (p2_dmi_ptr_valid c = true -> instr_dmi (S := S)) ->
  hart_ok XLEN h -> abs h ≡ s -> p2_rep { c with p2_core := h } s.
Proof. intros. by split_and!. Qed.

Lemma latched_wait (c : cpuP2 S) s n :
  latched c s -> latched { c with p2_core := { p2_core c with sim_time := n } } s.
Proof.
  intros (Hv & Hf & Hh & Ha & Hd). split; [done|]. apply p2_rep_core; [done|done|by apply hart_ok_wait|done].
Qed.

(** The end of a cycle, after EX has left [c1] in the state [t]. *)
Lemma IF_and_wait (c1 : cpuP2 S) t :
  p2_rep c1 t -> dom (S := S) XLEN (a_pc t) 4 ->
  exists c', IF_stage XLEN c1 = Some c' /\ pipeline_flush c' = false /\
    latched { c' with p2_core := { p2_core c' with sim_time := sim_time (p2_core c') + 10000 } } t.
Proof.
  intros Hr Hd. destruct (IF_stage_fetch c1 t Hr Hd) as (c' & E & Hl). exists c'.
  split; [done|]. split; [apply Hl|by apply latched_wait].
Qed.

(** One cycle from an empty latch, and from a latched instruction of either kind. *)
Lemma P2_step_bubble (c : cpuP2 S) s :
  bubble c s -> dom (S := S) XLEN (a_pc s) 4 ->
  exists c', CPU_P2_step XLEN c = Some (false, c') /\ latched c' s.
Proof.
  intros (Hv & Hr) Hd. unfold CPU_P2_step, EX_stage.
  change (if_ex_latch (inc_cycles 1 c)) with (if_ex_latch c). rewrite Hv. cbn [negb].
  destruct (IF_and_wait (inc_stalls (inc_cycles 1 c)) s Hr Hd) as (c' & -> & Hf' & Hl).
  rewrite Hf'. unfold wait_cycle. by eexists.
Qed.

Lemma P2_step_straight (c : cpuP2 S) s len t :
  latched c s -> straight XLEN (dom (S := S) XLEN) (word_at s) (displaced XLEN s) len t ->
  dom (S := S) XLEN (a_pc t) 4 ->
  exists c', CPU_P2_step XLEN c = Some (false, c') /\ latched c' t.
Proof.
  intros (Hv & Hf & Hh & Ha & Hdmi) Hs Hd. symmetry in Ha.
  destruct (straight_equiv XLEN _ _ _ _ _ _ Ha Hs) as (t' & Hs' & Et).
  destruct (EX_dispatch_straight _ _ _ _ Hh Hs') as (b & h' & E & Ha' & Hm).
  pose proof (EX_dispatch_ok _ _ _ _ Hh E Hm) as Hh'.
  unfold CPU_P2_step, EX_stage. change (if_ex_latch (inc_cycles 1 c)) with (if_ex_latch c).
  rewrite Hv. cbn [negb l_valid l_instruction].
  change (p2_core (inc_cycles 1 c)) with (p2_core c). rewrite E, andb_false_r.
  destruct (IF_and_wait { inc_cycles 1 c with p2_core := h' } t) as (c' & -> & Hf' & Hl).
  - apply p2_rep_core; [done|done|done|by rewrite Et].
  - done.
  - rewrite Hf'. unfold wait_cycle. by eexists.
Qed.

Lemma P2_step_jump (c : cpuP2 S) s s' :
  latched c s -> jump XLEN (word_at s) (displaced XLEN s) s' ->
  exists c', CPU_P2_step XLEN c = Some (false, c') /\ bubble c' s'.
Proof.
  intros (Hv & Hf & Hh & Ha & Hdmi) Hs. symmetry in Ha.
  destruct (jump_equiv XLEN _ _ _ _ Ha Hs) as (t' & Hs' & Et).
  destruct (EX_dispatch_jump _ _ _ Hh Hs') as (h' & E & Ha' & Hm).
  pose proof (EX_dispatch_ok _ _ _ _ Hh E Hm) as Hh'.
  unfold CPU_P2_step, EX_stage. change (if_ex_latch (inc_cycles 1 c)) with (if_ex_latch c).
  rewrite Hv. cbn [negb l_valid l_instruction].
  change (p2_core (inc_cycles 1 c)) with (p2_core c). rewrite E. cbn [andb].
  unfold IF_stage, wait_cycle. eexists. split; [reflexivity|]. split; [done|].
  split_and!; [done|by apply hart_ok_wait| |exact Hdmi]. cbn. by rewrite Ha', Et.
Qed.

(** [n] cycles of the core. *)
Fixpoint CPU_P2_steps (n : nat) (c : cpuP2 S) : option (cpuP2 S) :=
  match n with
  | O => Some c
  | Datatypes.S n =>
      match CPU_P2_step XLEN c with Some (_, c) => CPU_P2_steps n c | None => None end
  end.

Lemma latched_equiv (c : cpuP2 S) s t : s ≡ t -> latched c s -> latched c t.
Proof.
  intros E (Hv & Hf & Hh & Ha & Hd). split; [by rewrite <-(word_at_equiv s t), <-(proj1 E)|].
  split_and!; [done|done| |done]. rewrite Ha. unfold displaced.
  rewrite (word_at_equiv s t) by done. by rewrite E.
Qed.

Lemma P2_run_latched k (c : cpuP2 S) s t :
  latched c s -> p2_run XLEN (dom (S := S) XLEN) k s t ->
  exists c', CPU_P2_steps k c = Some c' /\ latched c' t.
Proof.
  intros Hl Hr. revert c Hl. induction Hr as [s s' E|n k s t u Hs Hd _ IH]; intros c Hl.
  - exists c. split; [done|]. by apply (latched_equiv c s).
  - destruct Hs as [len t Hs|t Hs]; cbn [CPU_P2_steps Nat.add].
    + destruct (P2_step_straight c s len t Hl Hs Hd) as (c1 & -> & E1). by apply IH.
    + destruct (P2_step_jump c s t Hl Hs) as (c1 & -> & E1).
      destruct (P2_step_bubble c1 t E1 Hd) as (c2 & -> & E2). by apply IH.
Qed.
End implements.

(** The pipeline runs every program of its transition system, in exactly its cycles. *)
Lemma P2_runs_transitions {S} `{InstrMem S} XLEN k (c : cpuP2 S) s t :
  XLEN = 32 \/ XLEN = 64 -> bubble XLEN c s -> dom (S := S) XLEN (a_pc s) 4 ->
  p2_run XLEN (dom (S := S) XLEN) k s t ->
  exists c', CPU_P2_steps XLEN (Datatypes.S k) c = Some c' /\ latched XLEN c' t.
Proof.
  intros HX Hb Hd Hr. cbn [CPU_P2_steps].
  destruct (P2_step_bubble XLEN HX c s Hb Hd) as (c1 & -> & E1). by apply (P2_run_latched XLEN HX k c1 s).
Qed.

(** C19: The two-stage pipeline executes the architecture on code that uses the pc only to get to
    the next instruction ([pc_free]: no AUIPC, no branch or jump relative to the pc, no jump that
    links; those EX executes with the pc already advanced, see [p2_jal_displaced],
    [p2_not_taken_skips] and [p2_auipc_displaced]).  An execution of [n] such instructions of
    [isa_step] takes from an empty latch one call of [CPU_step] to fill the latch and [k] more, one
    for each instruction and two for a jump to a register; none fails, and afterwards registers
    and memory are those of the architecture and the latch holds its next instruction. *)
Theorem P2_runs_program {S} `{InstrMem S} XLEN n k (c : cpuP2 S) s t :
  XLEN = 32 \/ XLEN = 64 -> bubble XLEN c s -> dom (S := S) XLEN (a_pc s) 4 ->
  isa_plain XLEN (dom (S := S) XLEN) n k s t ->
  exists c', CPU_P2_steps XLEN (Datatypes.S k) c = Some c' /\ latched XLEN c' t /\ (n <= k <= 2 * n)%nat.
Proof.
  intros HX Hb Hd Hr.
  destruct (P2_runs_transitions XLEN k c s t HX Hb Hd) as (c' & E & Hl); [by apply (plain_p2_run _ _ n)|].
  exists c'. split_and!; [done|done|..]; apply (plain_slots _ _ _ _ _ _ Hr).
Qed.

(** ** Invariants of the pipeline *)

Section p2_invariant.
Context {S : Type} `{Target S, DirectMem S}.
Variable XLEN : Z.
Hypothesis XLEN_ok : XLEN = 32 \/ XLEN = 64.

(** What can happen to a core: a step, the interrupt check, or the delivery of an
    interrupt; the thread alternates the first two with waits in between, and the
    order is left open here. *)
Inductive p2_event : cpuP2 S -> cpuP2 S -> Prop :=
| p2_ev_step c b c' : CPU_P2_step XLEN c = Some (b, c') -> p2_event c c'
| p2_ev_check c b c' : CPU_P2_process_IRQ XLEN c = Some (b, c') -> p2_event c c'
| p2_ev_irq c p : p2_event c (CPU_P2_call_interrupt XLEN p c).1.

Inductive p2_reachable (PC : Z) (m : S) : cpuP2 S -> Prop :=
| p2_reach_init : p2_reachable PC m (CPU_P2 XLEN PC m)
| p2_reach_event c c' : p2_reachable PC m c -> p2_event c c' -> p2_reachable PC m c'.

(** A latched instruction is the one the pc has just passed, and a flush finds the
    latch empty. *)
Record p2_inv (c : cpuP2 S) : Prop := {
  pi_hart : hart_wf XLEN (p2_core c);
  pi_latch : l_valid (if_ex_latch c) = true ->
    register_PC (p2_core c) =
      wrap XLEN (l_pc (if_ex_latch c) + ilen (l_instruction (if_ex_latch c)));
  pi_flush : pipeline_flush c = true -> l_valid (if_ex_latch c) = false
}.

Lemma hart_wf_pc v (h : hart S) :
  hart_wf XLEN h -> fits XLEN v -> hart_wf XLEN { h with register_PC := v }.
Proof. intros []. by split. Qed.
Lemma hart_wf_mem s (h : hart S) : hart_wf XLEN h -> hart_wf XLEN { h with mem_intf := s }.
Proof. intros []. by split. Qed.
Lemma hart_wf_time n (h : hart S) : hart_wf XLEN h -> hart_wf XLEN { h with sim_time := n }.
Proof. intros []. by split. Qed.

Lemma p2_fetch_core pc (c c' : cpuP2 S) w :
  p2_fetch pc c = Some (w, c') ->
  exists s, p2_core c' = { p2_core c with mem_intf := s } /\ pipeline_flush c' = pipeline_flush c.
Proof.
  unfold p2_fetch. destruct (p2_dmi_ptr_valid c).
  - destruct (direct_read _ _ _); [|done]. intros [= _ <-]. exists (mem_intf (p2_core c)).
    by destruct c as [[] ? ? ? ? ? ? ?].
  - destruct (b_transport _ _ _) as [[p d] s]. destruct (is_response_error p); [done|].
    intros [= _ <-]. by exists s.
Qed.

Lemma IF_stage_inv (c c' : cpuP2 S) :
  hart_wf XLEN (p2_core c) -> IF_stage XLEN c = Some c' -> p2_inv c' /\ pipeline_flush c' = false.
Proof.
  intros Hwf. unfold IF_stage. destruct (pipeline_flush c) eqn:Ef.
  { intros [= <-]. split; [|done]. by split. }
  destruct (p2_fetch (register_PC (p2_core c)) c) as [[instr c1]|] eqn:E; [|done].
  apply p2_fetch_core in E as (s & E1 & E2).
  assert (forall h : hart S, (if negb ((instr .& 0x3) =? 0x3) then incPCby2 XLEN else incPC XLEN) h =
    Some (tt, { h with register_PC := wrap XLEN (register_PC h + ilen instr) })) as ->
    by (intros h; unfold ilen; by destruct (negb _)).
  intros [= <-]. split; [|cbn; congruence]. split; cbn; [|by rewrite E1|congruence].
  rewrite E1. by apply hart_wf_pc, wrap_fits; [apply hart_wf_mem|lia].
Qed.

Lemma CPU_P2_step_inv (c c' : cpuP2 S) b :
  p2_inv c -> CPU_P2_step XLEN c = Some (b, c') -> p2_inv c' /\ pipeline_flush c' = false.
Proof.
  intros [Hwf Hl Hf]. unfold CPU_P2_step. destruct (EX_stage XLEN _) as [[b1 c1]|] eqn:E; [|done].
  assert (hart_wf XLEN (p2_core c1)) as Hwf1.
  { revert E. unfold EX_stage. destruct (negb _); [by intros [= _ <-]|].
    destruct (EX_dispatch XLEN _ _) as [[[[? ?] ?] h]|] eqn:Ed; [|done].
    apply (keeps_EX_dispatch XLEN XLEN_ok) in Ed; [|done].
    intros [= _ <-]. by destruct (_ && _). }
  destruct (IF_stage XLEN c1) as [c2|] eqn:E2; [|done].
  destruct (IF_stage_inv c1 c2 Hwf1 E2) as [[W2 L2 F2] Hf2]. rewrite Hf2.
  intros [= _ <-]. split; [|done]. split; [by apply hart_wf_time|exact L2|exact F2].
Qed.

Lemma CPU_P2_process_IRQ_inv (c c' : cpuP2 S) b :
  p2_inv c -> CPU_P2_process_IRQ XLEN c = Some (b, c') -> p2_inv c'.
Proof.
  intros [Hwf Hl Hf]. unfold CPU_P2_process_IRQ. destruct (p2_interrupt c).
  - destruct (getCSR CSR_MSTATUS (p2_core c)) as [[ms ?]|]; [|done].
    destruct (_ =? 0); [by intros [= _ <-]|].
    destruct (getCSR CSR_MIP (p2_core c)) as [[ip ?]|]; [|done].
    destruct (_ =? 0); [|by intros [= _ <-]].
    match goal with |- context [match ?m (p2_core c) with _ => _ end] =>
      assert (keeps (hart_wf XLEN) m) as K by keeps;
      destruct (m (p2_core c)) as [[b1 hh]|] eqn:Eh; [|done] end.
    intros [= _ <-]. split; [|done|done]. by apply (K _ b1 _ Hwf).
  - destruct (p2_irq_already_down c); cbn [negb]; [by intros [= _ <-]|].
    intros [= _ <-]. split; [|exact Hl|exact Hf]. cbn. destruct Hwf; split; try done.
    by apply map_Forall_insert_2; [apply wrap_fits|].
Qed.

(** C20: in every reachable state of the pipelined core the registers, the pc and the
    CSRs are well formed, a valid latch holds the instruction just before the pc, and a
    requested flush finds the latch empty. *)
Theorem p2_reachable_inv PC (m : S) (c : cpuP2 S) : p2_reachable PC m c -> p2_inv c.
Proof.
  induction 1 as [|c c' _ IH Hev].
  - split; [|done|done]. apply (CPU_Simple_wf XLEN XLEN_ok PC m).
  - destruct Hev as [c b c' E|c b c' E|c p].
    + by apply (CPU_P2_step_inv c c' b).
    + by apply (CPU_P2_process_IRQ_inv c c' b).
    + by destruct IH.
Qed.

(** ** Interrupts *)

(** An interrupt the pipeline takes cancels the latched instruction and saves the
    pc after it, so the handler returns past an instruction that was never executed. *)
Theorem P2_interrupt_skips_instruction `{!PhysMem S, !InstrMem S} (c : cpuP2 S) s :
  latched XLEN c s -> p2_interrupt c = true ->
  Z.testbit (csr (p2_core c) CSR_MSTATUS) 3 = true ->
  Z.testbit (csr (p2_core c) CSR_MIP) 11 = false ->
  exists c', CPU_P2_process_IRQ XLEN c = Some (true, c') /\
    l_valid (if_ex_latch c') = false /\ pipeline_flush c' = true /\
    csr (p2_core c') CSR_MEPC = u32 (a_pc s + ilen (word_at s)) /\
    abs (p2_core c') ≡ { s with a_pc := wrap XLEN (csr (p2_core c) CSR_MTVEC) }.
Proof.
  intros (Hv & Hf & [Hwf Hm] & Ha & _) Hi Hms Hip. unfold CPU_P2_process_IRQ. rewrite Hi.
  change (getCSR CSR_MSTATUS (p2_core c)) with (Some (csr (p2_core c) CSR_MSTATUS, p2_core c)).
  cbv beta iota. change MSTATUS_MIE with (1 .<< 3). rewrite (land_bit _ 3), Hms by lia. cbn [negb].
  change (getCSR CSR_MIP (p2_core c)) with (Some (csr (p2_core c) CSR_MIP, p2_core c)).
  cbv beta iota. change MIP_MEIP with (1 .<< 11). rewrite (land_bit _ 11), Hip by lia. cbn [negb].
  eexists. split; [reflexivity|]. split; [done|]. split; [done|]. destruct Ha as (Ep & Er & Em).
  assert (register_PC (p2_core c) = wrap XLEN (a_pc s + ilen (word_at s))) as Epc by exact Ep.
  split.
  - cbn. unfold csr. cbn. rewrite lookup_insert_ne, lookup_insert_eq by done. cbn.
    rewrite Epc. destruct XLEN_ok as [-> | ->]; by rewrite wrap_le_idemp by lia.
  - split_and!; [|exact Er|exact Em]. cbn. unfold csr.
    by rewrite !lookup_insert_ne by done.
Qed.
End p2_invariant.

(** ** Consequences *)

(** The extra cycle [CPU_step] would charge for a flush is never charged: IF has cleared
    the flag by then, so every step counts one cycle. *)
Lemma P2_step_one_cycle {S} `{Target S, DirectMem S} XLEN (c c' : cpuP2 S) b :
  XLEN = 32 \/ XLEN = 64 -> p2_inv XLEN c -> CPU_P2_step XLEN c = Some (b, c') ->
  cycles (p2_stats c') = u64 (cycles (p2_stats c) + 1).
Proof.
  intros HX Hi E. destruct (CPU_P2_step_inv XLEN HX c c' b Hi E) as [_ Hf]. revert E.
  unfold CPU_P2_step. destruct (EX_stage XLEN _) as [[b1 c1]|] eqn:E1; [|done].
  assert (cycles (p2_stats c1) = u64 (cycles (p2_stats c) + 1)) as <-.
  { clear -E1. revert E1. unfold EX_stage. destruct (negb _); [by intros [= _ <-]|].
    destruct (EX_dispatch XLEN _ _) as [[[[? ?] ?] h]|] eqn:Ed; [|done].
    intros [= _ <-]. by destruct (_ && _). }
  destruct (IF_stage XLEN c1) as [c2|] eqn:E2; [|done].
  assert (p2_stats c2 = p2_stats c1) as <-.
  { revert E2. unfold IF_stage. destruct (pipeline_flush c1); [by intros [= <-]|].
    destruct (p2_fetch _ c1) as [[w c3]|] eqn:E2; [|done].
    match goal with |- context [match ?m with Some _ => _ | None => None end] =>
      destruct m as [[? h]|]; [|done] end. intros [= <-]. revert E2. unfold p2_fetch. cbn.
    destruct (p2_dmi_ptr_valid c1); [destruct (direct_read _ _ _); [|done]; by intros [= _ <-]|].
    destruct (b_transport _ _ _) as [[p d] s]. destruct (is_response_error p); [done|].
    by intros [= _ <-]. }
  destruct (pipeline_flush c2) eqn:E3; intros [= _ <-]; [|done].
  cbn in Hf. congruence.
Qed.

(** JAL 0x20 at 0x100 goes to 0x124 and links 0x108; the architecture says 0x120 and
    0x104. *)
Definition jump_program : memory :=
  { memory0 with mem := store (mem memory0) 0x100 4 (encode (mkAsm OP_JAL 1 0 0 0x20)) }.

Lemma p2_jal_displaced :
  match CPU_P2_steps 64 2 (CPU_P2 64 0x100 jump_program), CPU_step 64 (CPU_Simple 64 0x100 jump_program) with
  | Some c, Some (_, c') =>
      register_PC (p2_core c) = 0x124 /\ reg (p2_core c) 1 = 0x108 /\
      register_PC (core c') = 0x120 /\ reg (core c') 1 = 0x104
  | _, _ => False
  end.
Proof. vm_compute. by split_and!. Qed.

(** A branch that is not taken skips the instruction after it. *)
Lemma p2_not_taken_skips :
  let m := { memory0 with mem := store (mem memory0) 0x100 4 (encode (mkAsm OP_BNE 0 0 0 0x20)) } in
  match CPU_P2_steps 64 2 (CPU_P2 64 0x100 m), CPU_step 64 (CPU_Simple 64 0x100 m) with
  | Some c, Some (_, c') => register_PC (p2_core c) = 0x108 /\ register_PC (core c') = 0x104
  | _, _ => False
  end.
Proof. vm_compute. by split_and!. Qed.

(** AUIPC adds to the pc of the next instruction. *)
Lemma p2_auipc_displaced :
  let m := { memory0 with mem := store (mem memory0) 0x100 4 (encode (mkAsm OP_AUIPC 5 0 0 0)) } in
  match CPU_P2_steps 64 2 (CPU_P2 64 0x100 m), CPU_step 64 (CPU_Simple 64 0x100 m) with
  | Some c, Some (_, c') => reg (p2_core c) 5 = 0x104 /\ reg (core c') 5 = 0x100
  | _, _ => False
  end.
Proof. vm_compute. by split_and!. Qed.

(** ** Witnesses *)

Definition p2_0 (m : memory) : cpuP2 memory := CPU_P2 64 0x100 m.

Lemma p2_0_bubble m : mem_ok (mem m) -> bubble 64 (p2_0 m) (abs (p2_core (p2_0 m))).
Proof.
  intros Hm. split; [done|]. split_and!; [done| |done|done]. split; [|exact Hm].
  apply (CPU_Simple_wf 64 ltac:(by right) 0x100 m).
Qed.

Lemma zero_bytes_ok : mem_ok (mem memory0).
Proof. intros y. simpl. unfold fits. lia. Qed.

(** ADDI x5, x0, 0x200; JR x5. *)
Definition jr_program : memory :=
  { memory0 with mem := store (store (mem memory0) 0x100 4 (encode (mkAsm OP_ADDI 5 0 0 0x200)))
                          0x104 4 (encode (mkAsm OP_JALR 0 5 0 0)) }.

Lemma P2_runs_program_witness :
  exists c, CPU_P2_steps 64 4 (p2_0 jr_program) = Some c /\ reg (p2_core c) 5 = 0x200 /\
    l_pc (if_ex_latch c) = 0x200.
Proof.
  set (s := abs (p2_core (p2_0 jr_program))).
  set (s1 := next 64 4 (set_rd 5 0x200 s)).
  destruct (P2_runs_program 64 2 3 (p2_0 jr_program) s
    (transfer 64 4 (mkAsm OP_JALR 0 5 0 0) 0x200 s1)) as (c & E & (Hl & _ & _ & (_ & Hr & _) & _) & _).
  - by right.
  - apply p2_0_bubble, store_ok, store_ok, zero_bytes_ok.
  - apply program_dom. vm_compute. split; congruence.
  - apply (plain_step 64 _ 1 1 2 s s1); [by vm_compute|..].
    + apply (step_straight _ _ _ 4 (set_rd 5 0x200 s)), (straight_base _ _ _ _ (mkAsm OP_ADDI 5 0 0 0x200)); [by vm_compute|asm_okay|done|].
      alu_step (mkAsm OP_ADDI 5 0 0 0x200) ALU_I 0x200.
    + by vm_compute.
    + apply program_dom. vm_compute. split; congruence.
    + apply (plain_step 64 _ 2 0 0 s1 (transfer 64 4 (mkAsm OP_JALR 0 5 0 0) 0x200 s1)); [by vm_compute|..].
      * apply step_jump, jump_base; [by vm_compute|asm_okay|by vm_compute].
      * by vm_compute.
      * apply program_dom. vm_compute. split; congruence.
      * by apply plain_0.
  - exists c. split; [exact E|]. split; [exact (Hr 5 ltac:(lia))|by rewrite Hl].
Defined.

Lemma p2_reachable_inv_witness :
  exists c, CPU_P2_step 64 (p2_0 program) = Some (false, c) /\
    l_valid (if_ex_latch c) = true /\ p2_inv 64 c.
Proof.
  destruct (CPU_P2_step 64 (p2_0 program)) as [[b c]|] eqn:E; [|exfalso; by vm_compute in E].
  exists c. assert (b = false /\ l_valid (if_ex_latch c) = true) as [-> Hv].
  { by vm_compute in E; injection E as <- <-. }
  split; [reflexivity|]. split; [exact Hv|].
  apply (p2_reachable_inv 64 ltac:(by right) 0x100 program).
  eapply p2_reach_event; [apply p2_reach_init|]. by apply (p2_ev_step 64 _ false).
Defined.

(** The core with the first instruction of [program] latched and an interrupt pending. *)
Definition p2_irq : cpuP2 memory :=
  let h := p2_core (p2_0 program) in
  { p2_0 program with
      p2_core := { h with register_PC := 0x104; CSR := <[CSR_MSTATUS := 8]> (CSR h) };
      if_ex_latch := mkLatch (word_at (abs h)) 0x100 true; p2_interrupt := true }.

Lemma P2_interrupt_skips_instruction_witness :
  exists c, CPU_P2_process_IRQ 64 p2_irq = Some (true, c) /\
    csr (p2_core c) CSR_MEPC = 0x104 /\ reg (p2_core c) 5 = 0.
Proof.
  destruct (P2_interrupt_skips_instruction 64 ltac:(by right) p2_irq (abs (p2_core (p2_0 program))))
    as (c & E & _ & _ & Em & (_ & Er & _)).
  - split; [done|]. split_and!; [done| | |done].
    + split; [|unfold program; apply store_ok, store_ok, zero_bytes_ok].
      destruct (CPU_Simple_wf 64 ltac:(by right) 0x100 program). split; try done.
      by apply map_Forall_insert_2.
    + by split_and!.
  - reflexivity.
  - reflexivity.
  - reflexivity.
  - exists c. split; [exact E|]. split; [rewrite Em; by vm_compute|].
    exact (Er 5 ltac:(lia)).
Defined.
