(* ===== verification/CpuP2Cycle.v ===== *)
(** [src/CPU_P64_2_Cycle.cpp], [src/CPU_P32_2_Cycle.cpp]: the two-stage cores driven by
    the clock edges, [CPURV64P2_Cycle] and [CPURV32P2_Cycle].  The rising edge moves the
    latch and runs EX, the falling edge runs IF, which waits [fetch_latency] edges for
    the instruction.

    The word a fetch reads goes into a local variable of [IF_stage] that is gone when
    the latency has passed: without a direct pointer the core executes the word 0 only
    ([cycle_executes_zero]). *)
From S2P Require Import Prelude Bytes Memory PhysMem Regs BaseISA BaseISAProofs.
From S2P Require Import MExt AExt CExt CExtProofs CpuSimple ISASpec CpuP2.
Import RegsH.

Inductive MemState := IDLE | FETCH_PENDING | FETCH_COMPLETE.
#[export] Instance MemState_eq_dec : EqDecision MemState.
Proof. solve_decision. Defined.

Record LatencyConfig := mkLatency {
  fetch_latency : Z; load_latency : Z; store_latency : Z;
  mul_latency : Z; div_latency : Z; branch_penalty_latency : Z
}.
(** The configuration is private and has these values. *)
Definition latency : LatencyConfig := mkLatency 1 1 1 3 32 1.

Record CycleStats := mkCycleStats {
  total_cycles : Z; instruction_cycles : Z; stall_cycles : Z; fetch_cycles : Z;
  branch_penalty : Z; instructions_retired : Z
}.

Record cpuC (S : Type) := mkCpuC {
  c2_core : hart S;
  c2_int_cause : Z;
  c2_stats : CycleStats;
  latch : IF_EX_Latch;             (* if_ex_latch *)
  latch_next : IF_EX_Latch;        (* if_ex_latch_next *)
  c2_flush : bool;                 (* pipeline_flush *)
  if_stall : bool;
  ex_stall : bool;
  mem_state : MemState;
  mem_latency_remaining : Z;
  c2_dmi_ptr_valid : bool;
  c2_interrupt : bool;
  c2_irq_already_down : bool
}.
Arguments mkCpuC {S} _ _ _ _ _ _ _ _ _ _ _ _ _.
Arguments c2_core {S} _.
Arguments c2_int_cause {S} _.
Arguments c2_stats {S} _.
Arguments latch {S} _.
Arguments latch_next {S} _.
Arguments c2_flush {S} _.
Arguments if_stall {S} _.
Arguments ex_stall {S} _.
Arguments mem_state {S} _.
Arguments mem_latency_remaining {S} _.
Arguments c2_dmi_ptr_valid {S} _.
Arguments c2_interrupt {S} _.
Arguments c2_irq_already_down {S} _.

(** [get_instruction_latency]. *)
Definition get_instruction_latency (instruction : Z) : Z :=
  let opcode := instruction .& 0x7F in
  let funct3 := (instruction .>> 12) .& 0x7 in
  let funct7 := (instruction .>> 25) .& 0x7F in
  if (opcode =? 0x33) && (funct7 =? 0x01) then
    if funct3 <? 4 then mul_latency latency else div_latency latency
  else if opcode =? 0x03 then load_latency latency
  else if opcode =? 0x23 then store_latency latency
  else 1.

Section cpu_cycle.
Context {S : Type} `{Target S, DirectMem S}.
Variable XLEN : Z.

Definition CPU_P2_Cycle (PC : Z) (m : S) : cpuC S :=
  let h := Registers XLEN m in
  let h := { h with register_PC := wrap XLEN PC } in
  let h := write_reg 2 (wrap XLEN (SIZE / 4 - 1)) h in
  mkCpuC h 0 (mkCycleStats 0 0 0 0 0 0) (mkLatch 0 0 false) (mkLatch 0 0 false)
    false false false IDLE 0 false false false.

Definition add_total (n : Z) (c : cpuC S) : cpuC S :=
  { c with c2_stats := { c2_stats c with total_cycles := u64 (total_cycles (c2_stats c) + n) } }.
Definition add_instruction (n : Z) (c : cpuC S) : cpuC S :=
  { c with c2_stats :=
      { c2_stats c with instruction_cycles := u64 (instruction_cycles (c2_stats c) + n) } }.
Definition add_stall (n : Z) (c : cpuC S) : cpuC S :=
  { c with c2_stats := { c2_stats c with stall_cycles := u64 (stall_cycles (c2_stats c) + n) } }.
Definition add_fetch (n : Z) (c : cpuC S) : cpuC S :=
  { c with c2_stats := { c2_stats c with fetch_cycles := u64 (fetch_cycles (c2_stats c) + n) } }.
Definition add_branch (n : Z) (c : cpuC S) : cpuC S :=
  { c with c2_stats := { c2_stats c with branch_penalty := u64 (branch_penalty (c2_stats c) + n) } }.
Definition inc_retired (c : cpuC S) : cpuC S :=
  { c with c2_stats :=
      { c2_stats c with instructions_retired := u64 (instructions_retired (c2_stats c) + 1) } }.

(** [fetch_instruction]: the answer, and the caller's [instruction] after the call.
    The 64-bit class completes a fetch of no latency at once. *)
Definition fetch_instruction (pc instruction : Z) (c : cpuC S) : option (bool * Z * cpuC S) :=
  if c2_dmi_ptr_valid c then
    match direct_read pc 4 (mem_intf (c2_core c)) with
    | None => None
    | Some l => Some (true, le_combine l, { c with mem_state := IDLE })
    end
  else
    let complete (instruction : Z) (c : cpuC S) :=
      if bool_decide (mem_state c = FETCH_COMPLETE)
      then Some (true, instruction, { c with mem_state := IDLE })
      else Some (false, instruction, c) in
    if bool_decide (mem_state c = IDLE) then
      let c := { c with mem_state := FETCH_PENDING; mem_latency_remaining := fetch_latency latency } in
      let '(p, _, s) :=
        b_transport (mkPayload TLM_READ pc (le_split 4 instruction) false TLM_INCOMPLETE false) 0
          (mem_intf (c2_core c)) in
      if is_response_error p then None
      else
        let instruction := le_combine (p_data p) in
        let c := { c with c2_core := { c2_core c with mem_intf := s };
                     c2_dmi_ptr_valid := if p_dmi_allowed p then get_direct_mem_ptr s else false } in
        if 0 <? mem_latency_remaining c then Some (false, instruction, c)
        else
          complete instruction
            (if XLEN =? 64 then { c with mem_state := FETCH_COMPLETE } else c)
    else complete instruction c.

Definition C2_IF_stage (c : cpuC S) : option (cpuC S) :=
  let pending := bool_decide (mem_state c = FETCH_PENDING) in
  if pending && (0 <? mem_latency_remaining c) then
    Some (add_fetch 1 { c with mem_latency_remaining := mem_latency_remaining c - 1;
                          if_stall := true })
  else
    let c := if pending then { c with mem_state := FETCH_COMPLETE; if_stall := false } else c in
    let current_pc := register_PC (c2_core c) in
    match fetch_instruction current_pc 0 c with
    | None => None
    | Some (true, fetched_instr, c) =>
        let c := { c with latch_next := mkLatch fetched_instr current_pc true } in
        match (if negb ((fetched_instr .& 0x3) =? 0x3) then incPCby2 XLEN else incPC XLEN)
                (c2_core c) with
        | None => None
        | Some (_, h) => Some (add_fetch 1 { c with c2_core := h })
        end
    | Some (false, _, c) =>
        Some { c with latch_next := { latch_next c with l_valid := false }; if_stall := true }
    end.

(** EX dispatches as the loosely timed core does; it flushes for every instruction that
    changed the pc. *)
Definition C2_EX_stage (c : cpuC S) : option (bool * cpuC S) :=
  if negb (l_valid (latch c)) then Some (false, add_stall 1 c)
  else
    let instr := l_instruction (latch c) in
    let instr_latency := get_instruction_latency instr in
    let c := add_instruction instr_latency c in
    let c := if 1 <? instr_latency
             then add_total (instr_latency - 1) (add_stall (instr_latency - 1) c) else c in
    match EX_dispatch XLEN instr (c2_core c) with
    | None => None
    | Some ((_, pc_changed, breakpoint), h) =>
        let c := { c with c2_core := h } in
        let c := if pc_changed : bool
                 then add_total (branch_penalty_latency latency)
                        (add_branch (branch_penalty_latency latency) { c with c2_flush := true })
                 else c in
        Some (breakpoint, inc_retired c)
    end.

(** The cause of the 64-bit class has the interrupt number 11, the other one 0. *)
Definition C2_mcause : Z := if XLEN =? 64 then 0x80000000 .| 11 else 0x80000000.

Definition C2_process_IRQ (c : cpuC S) : option (bool * cpuC S) :=
  if c2_interrupt c then
    match getCSR CSR_MSTATUS (c2_core c) with
    | None => None
    | Some (csr_temp, _) =>
      if (csr_temp .& MSTATUS_MIE) =? 0 then Some (false, c)
      else
        match getCSR CSR_MIP (c2_core c) with
        | None => None
        | Some (csr_temp, _) =>
          if (csr_temp .& MIP_MEIP) =? 0 then
            match (setCSR CSR_MIP (csr_temp .| MIP_MEIP);;
                   old_pc ← getPC;
                   setCSR CSR_MEPC old_pc;;
                   setCSR CSR_MCAUSE C2_mcause;;
                   new_pc ← getCSR CSR_MTVEC;
                   setPC XLEN new_pc) (c2_core c) with
            | None => None
            | Some (_, h) =>
                let c := { c with c2_core := h; c2_flush := true;
                             latch := { latch c with l_valid := false };
                             latch_next := { latch_next c with l_valid := false } } in
                let c := add_total 2 (add_stall 2 c) in
                Some (true, { c with c2_interrupt := false; c2_irq_already_down := false })
            end
          else Some (false, c)
        end
    end
  else if negb (c2_irq_already_down c) then
    match (csr_temp ← getCSR CSR_MIP; setCSR CSR_MIP (csr_temp .&~ MIP_MEIP)) (c2_core c) with
    | None => None
    | Some (_, h) => Some (false, { c with c2_core := h; c2_irq_already_down := true })
    end
  else Some (false, c).

Definition on_posedge (c : cpuC S) : option (cpuC S) :=
  let c := add_total 1 c in
  match C2_process_IRQ c with
  | None => None
  | Some (_, c) =>
    if c2_flush c then Some (add_branch 1 { c with latch := mkLatch 0 0 false; c2_flush := false })
    else if ex_stall c then Some (add_stall 1 c)
    else
      match C2_EX_stage { c with latch := latch_next c } with
      | None => None
      | Some (_, c) => Some c
      end
  end.

Definition on_negedge (c : cpuC S) : option (cpuC S) :=
  if bool_decide (mem_state c = FETCH_PENDING) then C2_IF_stage c
  else if if_stall c || c2_flush c then Some (if if_stall c then add_stall 1 c else c)
  else C2_IF_stage c.

(** [wait(clock_period / 2)], of the default 10 ns period. *)
Definition half_period (c : cpuC S) : cpuC S :=
  { c with c2_core := { c2_core c with sim_time := sim_time (c2_core c) + 5000 } }.

(** [CPU_step], and one turn of the loop of [cycle_thread] without a clock signal.  The thread of
    the base class calls the one while [cycle_thread] makes the other; of a core that is debugged
    only [cycle_thread] runs, and the theorems on sequences of [C2_step] are about one driver. *)
Definition C2_step (c : cpuC S) : option (bool * cpuC S) :=
  match on_posedge c with
  | None => None
  | Some c =>
    match on_negedge (half_period c) with
    | None => None
    | Some c => Some (false, half_period c)
    end
  end.

Definition C2_call_interrupt (m_trans : payload) (c : cpuC S) : cpuC S * Z :=
  ({ c with c2_interrupt := true;
     c2_int_cause := le_combine (take (Z.to_nat (XLEN / 8)) (p_data m_trans)) }, 0).
End cpu_cycle.

(** ** Without a direct pointer: only the word 0 *)

Section no_dmi.
Context {S : Type} `{Target S, DirectMem S}.
Variable XLEN : Z.

(** The edges, in any order, and the delivery of interrupts: the thread of the base
    class and [cycle_thread] both drive the edges. *)
Inductive c2_event : cpuC S -> cpuC S -> Prop :=
| c2_ev_posedge c c' : on_posedge XLEN c = Some c' -> c2_event c c'
| c2_ev_negedge c c' : on_negedge XLEN c = Some c' -> c2_event c c'
| c2_ev_wait c : c2_event c (half_period c)
| c2_ev_irq c p : c2_event c (C2_call_interrupt XLEN p c).1.

Inductive c2_reachable (PC : Z) (m : S) : cpuC S -> Prop :=
| c2_reach_init : c2_reachable PC m (CPU_P2_Cycle XLEN PC m)
| c2_reach_event c c' : c2_reachable PC m c -> c2_event c c' -> c2_reachable PC m c'.

Definition zero_latch (l : IF_EX_Latch) : Prop := l_valid l = true -> l_instruction l = 0.
Definition zero_latches (c : cpuC S) : Prop :=
  c2_dmi_ptr_valid c = false -> zero_latch (latch c) /\ zero_latch (latch_next c).

(** What the operations other than IF do to the latches and the direct pointer. *)
Lemma C2_process_IRQ_latches (c c' : cpuC S) b :
  C2_process_IRQ XLEN c = Some (b, c') -> zero_latches c -> zero_latches c'.
Proof.
  unfold C2_process_IRQ. destruct (c2_interrupt c).
  - destruct (getCSR CSR_MSTATUS _) as [[ms ?]|]; [|done].
    destruct (_ =? 0); [by intros [= _ <-]|].
    destruct (getCSR CSR_MIP _) as [[ip ?]|]; [|done].
    destruct (_ =? 0); [|by intros [= _ <-]].
    match goal with |- context [match ?m (c2_core c) with _ => _ end] =>
      destruct (m (c2_core c)) as [[b1 hh]|]; [|done] end.
    intros [= _ <-] _ _. by split.
  - destruct (c2_irq_already_down c); cbn [negb]; by intros [= _ <-].
Qed.

Lemma C2_EX_stage_latches (c c' : cpuC S) b :
  C2_EX_stage XLEN c = Some (b, c') ->
  latch c' = latch c /\ latch_next c' = latch_next c /\ c2_dmi_ptr_valid c' = c2_dmi_ptr_valid c.
Proof.
  unfold C2_EX_stage. destruct (negb _); [by intros [= _ <-]|].
  destruct (EX_dispatch XLEN _ _) as [[[[? []] ?] h]|]; [..|done];
    intros [= _ <-]; by destruct (1 <? _).
Qed.

(** A fetch without a direct pointer that answers leaves the caller's word alone. *)
Lemma fetch_instruction_no_dmi pc i w r (c c' : cpuC S) :
  fetch_instruction XLEN pc i c = Some (r, w, c') -> c2_dmi_ptr_valid c' = false ->
  latch c' = latch c /\ latch_next c' = latch_next c /\ c2_dmi_ptr_valid c = false /\
  (r = true -> w = i).
Proof.
  unfold fetch_instruction. destruct (c2_dmi_ptr_valid c) eqn:Ev.
  - destruct (direct_read _ _ _); [|done]. intros [= _ _ <-]. simpl. by rewrite Ev.
  - destruct (bool_decide (mem_state c = IDLE)).
    + destruct (b_transport _ _ _) as [[p d] s]. destruct (is_response_error p); [done|].
      intros [= <- _ <-] _. by split_and!.
    + destruct (bool_decide (mem_state c = FETCH_COMPLETE)); intros [= <- <- <-] Hd; by split_and!.
Qed.

Lemma C2_IF_stage_latches (c c' : cpuC S) :
  C2_IF_stage XLEN c = Some c' -> zero_latches c -> zero_latches c'.
Proof.
  unfold C2_IF_stage. destruct (_ && _); [by intros [= <-]|].
  set (c1 := if bool_decide (mem_state c = FETCH_PENDING) then _ else c).
  assert (latch c1 = latch c /\ latch_next c1 = latch_next c /\
    c2_dmi_ptr_valid c1 = c2_dmi_ptr_valid c) as (L1 & L2 & L3) by (unfold c1; by case_match).
  destruct (fetch_instruction XLEN _ 0 c1) as [[[[] w] c2]|] eqn:E; [| |done].
  - match goal with |- context [match ?m with Some _ => _ | None => None end] =>
      destruct m as [[? h]|]; [|done] end.
    intros [= <-] Hz Hv. cbn in Hv.
    destruct (fetch_instruction_no_dmi _ _ _ _ _ _ E Hv) as (E1 & E2 & E3 & E4).
    destruct Hz as [Hz _]; [congruence|]. cbn. rewrite E1, L1. split; [done|]. intros _. cbn. auto.
  - intros [= <-] Hz Hv. cbn in Hv.
    destruct (fetch_instruction_no_dmi _ _ _ _ _ _ E Hv) as (E1 & E2 & E3 & _).
    destruct Hz as [Hz _]; [congruence|]. cbn. rewrite E1, L1. split; [done|]. by intros [=].
Qed.

Lemma on_posedge_latches (c c' : cpuC S) :
  on_posedge XLEN c = Some c' -> zero_latches c -> zero_latches c'.
Proof.
  unfold on_posedge. intros E Hz.
  destruct (C2_process_IRQ XLEN _) as [[b c1]|] eqn:E1; [|done].
  apply C2_process_IRQ_latches in E1; [|exact Hz]. revert E.
  destruct (c2_flush c1). { intros [= <-] Hv. destruct (E1 Hv). by split. }
  destruct (ex_stall c1); [by intros [= <-]|].
  destruct (C2_EX_stage XLEN _) as [[b2 c2]|] eqn:E2; [|done]. intros [= <-] Hv.
  apply C2_EX_stage_latches in E2 as (-> & -> & E3). rewrite E3 in Hv. destruct (E1 Hv). by split.
Qed.

Lemma on_negedge_latches (c c' : cpuC S) :
  on_negedge XLEN c = Some c' -> zero_latches c -> zero_latches c'.
Proof.
  unfold on_negedge. destruct (bool_decide _); [apply C2_IF_stage_latches|].
  destruct (if_stall c || c2_flush c); [|apply C2_IF_stage_latches].
  intros [= <-]. by destruct (if_stall c).
Qed.

(** As long as the memory has not granted a direct pointer, every instruction that
    reaches the EX stage of the clocked core is the word 0, whatever the program. *)
Theorem cycle_executes_zero PC (m : S) (c : cpuC S) :
  c2_reachable PC m c -> c2_dmi_ptr_valid c = false ->
  (l_valid (latch c) = true -> l_instruction (latch c) = 0) /\
  (l_valid (latch_next c) = true -> l_instruction (latch_next c) = 0).
Proof.
  intros Hr. change (zero_latches c). induction Hr as [|c c' _ IH Hev]; [by split|].
  destruct Hev as [c c' E|c c' E|c|c p].
  - by apply (on_posedge_latches c).
  - by apply (on_negedge_latches c).
  - exact IH.
  - exact IH.
Qed.
End no_dmi.

(** ** With a direct pointer: the transition system of the two-stage cores *)

Section with_dmi.
Context {S : Type} `{InstrMem S}.
Variable XLEN : Z.
Hypothesis XLEN_ok : XLEN = 32 \/ XLEN = 64.

(** The core uses a direct pointer, waits for nothing, and represents [s]. *)
Definition c2_rep (c : cpuC S) (s : arch) : Prop :=
  c2_dmi_ptr_valid c = true /\ instr_dmi (S := S) /\ ex_stall c = false /\ if_stall c = false /\
  mem_state c = IDLE /\ c2_interrupt c = false /\ hart_ok XLEN (c2_core c) /\ abs (c2_core c) ≡ s.

(** Between two clock cycles: the next instruction is that of [s], or a flush is due. *)
Definition c2_latched (c : cpuC S) (s : arch) : Prop :=
  c2_flush c = false /\ latch_next c = mkLatch (word_at s) (a_pc s) true /\
  c2_rep c (displaced XLEN s).
Definition c2_flushing (c : cpuC S) (s : arch) : Prop := c2_flush c = true /\ c2_rep c s.

Lemma c2_rep_wait (c : cpuC S) s : c2_rep c s -> c2_rep (half_period c) s.
Proof.
  intros (H1' & H2' & H3' & H4' & H5' & H6' & Hh & Ha). split_and!; try done. by apply hart_ok_wait.
Qed.

Lemma hart_ok_setCSR n v (h : hart S) :
  hart_ok XLEN h -> hart_ok XLEN { h with CSR := <[n := u32 v]> (CSR h) }.
Proof.
  intros [[] Hm]. split; [|done]. split; try done.
  by apply map_Forall_insert_2; [apply wrap_fits|].
Qed.

(** The interrupt check withdraws MEIP at most. *)
Lemma C2_process_IRQ_idle (c : cpuC S) s :
  c2_rep c s -> exists c', C2_process_IRQ XLEN c = Some (false, c') /\ c2_rep c' s /\
    c2_flush c' = c2_flush c /\ latch_next c' = latch_next c.
Proof.
  intros Hr. pose proof Hr as (H1' & H2' & H3' & H4' & H5' & H6' & Hh & Ha).
  unfold C2_process_IRQ. rewrite H6'. destruct (c2_irq_already_down c); cbn [negb].
  - exists c. by split_and!.
  - eexists. split; [reflexivity|]. split; [|done].
    do 6 (split; [done|]). split; [by apply hart_ok_setCSR|done].
Qed.

(** The falling edge fetches the instruction of the state. *)
Lemma on_negedge_fetch (c : cpuC S) s :
  c2_rep c s -> c2_flush c = false -> dom (S := S) XLEN (a_pc s) 4 ->
  exists c', on_negedge XLEN c = Some c' /\ c2_latched c' s.
Proof.
  intros (H1' & H2' & H3' & H4' & H5' & H6' & [Hwf Hm] & Ha) Hf [Hd _].
  unfold on_negedge, C2_IF_stage, fetch_instruction. rewrite H5', H4', Hf.
  change (bool_decide (IDLE = FETCH_PENDING)) with false. cbn [andb orb]. cbv zeta iota. rewrite H1'.
  change (register_PC (c2_core c)) with (a_pc (abs (c2_core c))). rewrite (proj1 Ha).
  rewrite (instr_direct (a_pc s) 4) by done.
  change (le_combine (load_bytes (pm_bytes (mem_intf (c2_core c))) (a_pc s) 4)) with
    (load (a_mem (abs (c2_core c))) (a_pc s) 4).
  rewrite (load_equiv (abs (c2_core c)) s) by done. fold (word_at s).
  assert (exists h, (if negb ((word_at s .& 0x3) =? 0x3) then incPCby2 XLEN else incPC XLEN)
            (c2_core c) = Some (tt, h) /\
            hart_ok XLEN h /\ abs h ≡ next XLEN (ilen (word_at s)) (abs (c2_core c)))
    as (h & E & Hh & Eh).
  { unfold ilen. destruct (negb _); eexists; (split; [reflexivity|]); (split; [|done]);
      (split; [|done]); destruct Hwf; split; try done; apply wrap_fits; lia. }
  cbn in E |- *. rewrite E. eexists. split; [reflexivity|]. split; [done|]. split; [done|]. split_and!; try done.
  cbn. by rewrite Eh, Ha.
Qed.

Lemma c2_rep_equiv (c : cpuC S) s t : s ≡ t -> c2_rep c s -> c2_rep c t.
Proof. intros E (? & ? & ? & ? & ? & ? & ? & Ha). split_and!; try done. by rewrite Ha. Qed.

Lemma c2_latched_equiv (c : cpuC S) s t : s ≡ t -> c2_latched c s -> c2_latched c t.
Proof.
  intros E (Hf & Hl & Hr). split_and!; [done|by rewrite <-(word_at_equiv s t), <-(proj1 E)|].
  apply (c2_rep_equiv c (displaced XLEN s)); [|done]. unfold displaced.
  rewrite (word_at_equiv s t) by done. by rewrite E.
Qed.

(** EX on the word [w], after the counters were advanced. *)
Lemma C2_EX_stage_dispatch (c : cpuC S) w pc s b changed h' :
  c2_rep c s -> latch c = mkLatch w pc true ->
  EX_dispatch XLEN w (c2_core c) = Some ((b, changed, false), h') -> hart_ok XLEN h' ->
  exists c', C2_EX_stage XLEN c = Some (false, c') /\ c2_rep c' (abs h') /\
    c2_flush c' = (changed || c2_flush c).
Proof.
  intros (H1' & H2' & H3' & H4' & H5' & H6' & _ & _) Hl E Hh. unfold C2_EX_stage. rewrite Hl.
  cbn [negb l_valid l_instruction].
  set (c1 := if 1 <? get_instruction_latency w then _ else _).
  assert (c2_core c1 = c2_core c) as -> by (unfold c1; by case_match).
  rewrite E. eexists. split; [reflexivity|].
  destruct changed; unfold c1; case_match; by split_and!.
Qed.

(** The rising edge on a latched instruction. *)
Lemma on_posedge_latched (c : cpuC S) s changed t :
  c2_latched c s ->
  (forall h, hart_ok XLEN h -> abs h ≡ displaced XLEN s ->
     exists b h', EX_dispatch XLEN (word_at s) h = Some ((b, changed, false), h') /\ abs h' ≡ t /\
       pm_wf (mem_intf h')) ->
  exists c', on_posedge XLEN c = Some c' /\ c2_rep c' t /\ c2_flush c' = changed.
Proof.
  intros (Hf & Hl & Hr) Hex. unfold on_posedge.
  destruct (C2_process_IRQ_idle (add_total 1 c) _ Hr) as (c1 & -> & Hr1 & E1 & E2).
  rewrite E1. change (c2_flush (add_total 1 c)) with (c2_flush c). rewrite Hf.
  assert (ex_stall c1 = false) as -> by apply Hr1.
  assert (hart_ok XLEN (c2_core c1) /\ abs (c2_core c1) ≡ displaced XLEN s) as [Hh Ha] by apply Hr1.
  destruct (Hex _ Hh Ha) as (b & h' & E & Et & Hm). pose proof (EX_dispatch_ok XLEN XLEN_ok _ _ _ _ Hh E Hm) as Hh'.
  match goal with |- context [C2_EX_stage XLEN ?x] =>
    destruct (C2_EX_stage_dispatch x (word_at s) (a_pc s) (displaced XLEN s) b changed h' Hr1)
      as (c2 & -> & Hr2 & Ef); [by cbn; rewrite E2|done|done|] end.
  exists c2. split; [done|]. split; [by apply (c2_rep_equiv _ (abs h'))|].
  rewrite Ef. cbn. rewrite E1. change (c2_flush (add_total 1 c)) with (c2_flush c). by rewrite Hf, orb_false_r.
Qed.

Lemma C2_step_straight (c : cpuC S) s len t :
  c2_latched c s -> straight XLEN (dom (S := S) XLEN) (word_at s) (displaced XLEN s) len t ->
  dom (S := S) XLEN (a_pc t) 4 ->
  exists c', C2_step XLEN c = Some (false, c') /\ c2_latched c' t.
Proof.
  intros Hl Hs Hd. destruct (on_posedge_latched c s false t Hl) as (c1 & E & Hr & Hf).
  { intros h Hh Ha. symmetry in Ha. destruct (straight_equiv XLEN _ _ _ _ _ _ Ha Hs) as (t' & Hs' & Et).
    destruct (EX_dispatch_straight XLEN XLEN_ok _ _ _ _ Hh Hs') as (b & h' & E & Ha' & Hm).
    exists b, h'. split_and!; [done| |done]. by rewrite Et. }
  unfold C2_step. rewrite E.
  destruct (on_negedge_fetch (half_period c1) t) as (c2 & -> & Hl2); [by apply c2_rep_wait|done|done|].
  eexists. split; [reflexivity|]. destruct Hl2 as (? & ? & ?). split_and!; try done. by apply c2_rep_wait.
Qed.

Lemma C2_step_jump (c : cpuC S) s s' :
  c2_latched c s -> jump XLEN (word_at s) (displaced XLEN s) s' ->
  exists c', C2_step XLEN c = Some (false, c') /\ c2_flushing c' s'.
Proof.
  intros Hl Hs. destruct (on_posedge_latched c s true s' Hl) as (c1 & E & Hr & Hf).
  { intros h Hh Ha. symmetry in Ha. destruct (jump_equiv XLEN _ _ _ _ Ha Hs) as (t' & Hs' & Et).
    destruct (EX_dispatch_jump XLEN XLEN_ok _ _ _ Hh Hs') as (h' & E & Ha' & Hm).
    exists true, h'. split_and!; [done| |done]. by rewrite Et. }
  unfold C2_step. rewrite E. unfold on_negedge.
  destruct (c2_rep_wait _ _ Hr) as (W1 & W2 & W3 & W4 & W5 & W).
  rewrite W5, W4. change (c2_flush (half_period c1)) with (c2_flush c1). rewrite Hf. change (bool_decide (IDLE = FETCH_PENDING)) with false. cbn [orb].
  eexists. split; [reflexivity|]. split; [exact Hf|]. by apply c2_rep_wait, c2_rep_wait.
Qed.

Lemma C2_step_flushing (c : cpuC S) s :
  c2_flushing c s -> dom (S := S) XLEN (a_pc s) 4 ->
  exists c', C2_step XLEN c = Some (false, c') /\ c2_latched c' s.
Proof.
  intros [Hf Hr] Hd. unfold C2_step, on_posedge.
  destruct (C2_process_IRQ_idle (add_total 1 c) _ Hr) as (c1 & -> & Hr1 & E1 & _).
  rewrite E1. change (c2_flush (add_total 1 c)) with (c2_flush c). rewrite Hf.
  destruct (on_negedge_fetch (half_period (add_branch 1 { c1 with latch := mkLatch 0 0 false; c2_flush := false })) s)
    as (c2 & -> & Hl2); [by apply c2_rep_wait|done|done|].
  eexists. split; [reflexivity|]. destruct Hl2 as (? & ? & ?). split_and!; try done. by apply c2_rep_wait.
Qed.

(** [n] cycles. *)
Fixpoint C2_steps (n : nat) (c : cpuC S) : option (cpuC S) :=
  match n with
  | O => Some c
  | Datatypes.S n => match C2_step XLEN c with Some (_, c) => C2_steps n c | None => None end
  end.

(** From a latched instruction. *)
Lemma C2_run_latched k (c : cpuC S) s t :
  c2_latched c s -> p2_run XLEN (dom (S := S) XLEN) k s t ->
  exists c', C2_steps k c = Some c' /\ c2_latched c' t.
Proof.
  intros Hl Hr. revert c Hl. induction Hr as [s s' E|n k s t u Hs Hd _ IH]; intros c Hl.
  - exists c. split; [done|]. by apply (c2_latched_equiv c s).
  - destruct Hs as [len t Hs|t Hs]; cbn [C2_steps Nat.add].
    + destruct (C2_step_straight c s len t Hl Hs Hd) as (c1 & -> & E1). by apply IH.
    + destruct (C2_step_jump c s t Hl Hs) as (c1 & -> & E1).
      destruct (C2_step_flushing c1 t E1 Hd) as (c2 & -> & E2). by apply IH.
Qed.
End with_dmi.

(** C21: The clocked two-stage cores, when the memory has granted a direct pointer and one thread
    drives the edges (a core that is debugged: [CPU_thread] is not started, [cycle_thread] turns
    the clock; [c2_two_drivers] shows what both do together), execute the architecture on code
    that uses the pc only to get to the next instruction ([pc_free]): from a state whose next
    instruction is latched, an execution of [n] such instructions of [isa_step] takes [k] clock
    periods, one for each instruction and two for a jump to a register; none fails, and
    afterwards registers and memory are those of the architecture and its next instruction is
    latched. *)
Theorem cycle_runs_program {S} `{InstrMem S} XLEN n k (c : cpuC S) s t :
  XLEN = 32 \/ XLEN = 64 -> c2_latched XLEN c s -> isa_plain XLEN (dom (S := S) XLEN) n k s t ->
  exists c', C2_steps XLEN k c = Some c' /\ c2_latched XLEN c' t /\ (n <= k <= 2 * n)%nat.
Proof.
  intros HX Hl Hr. destruct (C2_run_latched XLEN HX k c s t Hl) as (c' & E & Hl').
  - by apply (plain_p2_run _ _ n).
  - exists c'. split_and!; [done|done|..]; apply (plain_slots _ _ _ _ _ _ Hr).
Qed.

(** ** Examples and witnesses *)

(** With an image loaded at offset 0 the memory grants the pointer, and three cycles
    after reset the first instruction is latched. *)
Definition jump_dmi : memory := { jump_program with dmi_allowed := true }.

Lemma c2_reset_latched :
  match C2_steps 64 3 (CPU_P2_Cycle 64 0x100 jump_dmi) with
  | Some c => latch_next c = mkLatch (encode (mkAsm OP_JAL 1 0 0 0x20)) 0x100 true /\
              c2_dmi_ptr_valid c = true /\ mem_state c = IDLE /\ if_stall c = false
  | None => False
  end.
Proof. vm_compute. by split_and!. Qed.

(** The same program without the pointer: an illegal-instruction exception instead. *)
Lemma c2_no_dmi_illegal :
  match C2_steps 64 4 (CPU_P2_Cycle 64 0x100 jump_program) with
  | Some c => latch c = mkLatch 0 0x100 true /\ csr (c2_core c) CSR_MCAUSE = 2
  | None => False
  end.
Proof. vm_compute. by split_and!. Qed.

Lemma cycle_executes_zero_witness :
  exists c, C2_step 64 (CPU_P2_Cycle 64 0x100 program) = Some (false, c) /\
    (l_valid (latch c) = true -> l_instruction (latch c) = 0).
Proof.
  destruct (on_posedge 64 (CPU_P2_Cycle 64 0x100 program)) as [c1|] eqn:E1;
    [|exfalso; vm_compute in E1; discriminate E1].
  destruct (on_negedge 64 (half_period c1)) as [c2|] eqn:E2.
  2: { exfalso. vm_compute in E1. injection E1 as <-. vm_compute in E2. discriminate E2. }
  exists (half_period c2). unfold C2_step. rewrite E1, E2. split; [reflexivity|].
  apply (cycle_executes_zero 64 0x100 program).
  - eapply c2_reach_event; [|apply c2_ev_wait].
    eapply c2_reach_event; [|apply (c2_ev_negedge 64 (half_period c1)); exact E2].
    eapply c2_reach_event; [|apply c2_ev_wait].
    eapply c2_reach_event; [apply c2_reach_init|by apply c2_ev_posedge].
  - vm_compute in E1. injection E1 as <-. vm_compute in E2. by injection E2 as <-.
Defined.

Lemma CPU_P2_Cycle_wf {S} XLEN PC (m : S) :
  XLEN = 32 \/ XLEN = 64 -> hart_wf XLEN (c2_core (CPU_P2_Cycle XLEN PC m)).
Proof.
  intros HX. assert (0 < XLEN) as HX0 by lia. unfold CPU_P2_Cycle.
  apply write_reg_wf; [|lia|apply wrap_fits; lia].
  destruct (Registers_wf XLEN HX0 m HX). split; try done. apply wrap_fits. lia.
Qed.

(** ADDI x5, x5, 1; JR x5; and a core that has the first of them latched, with 0x1FF in x5. *)
Definition inc_dmi : memory :=
  { memory0 with mem := store (store (mem memory0) 0x100 4 (encode (mkAsm OP_ADDI 5 5 0 1)))
                          0x104 4 (encode (mkAsm OP_JALR 0 5 0 0)); dmi_allowed := true }.
Definition c2_ready : cpuC memory :=
  let c := CPU_P2_Cycle 64 0x100 inc_dmi in
  { c with c2_core := write_reg 5 0x1FF { c2_core c with register_PC := 0x104 }; c2_dmi_ptr_valid := true;
           latch_next := mkLatch (encode (mkAsm OP_ADDI 5 5 0 1)) 0x100 true }.
Definition c2_start : arch := { abs (c2_core c2_ready) with a_pc := 0x100 }.

(** Unless the core is debugged [CPU_thread] drives the edges too: when both threads are due at a
    rising edge, EX runs twice on the same latch. *)
Example c2_two_drivers :
  (c ← on_posedge 64 c2_ready; c ← on_posedge 64 c; Some (reg (c2_core c) 5)) = Some 0x201.
Proof. by vm_compute. Qed.

Lemma cycle_runs_program_witness :
  exists c, C2_steps 64 3 c2_ready = Some c /\ l_pc (latch_next c) = 0x200.
Proof.
  set (s1 := next 64 4 (set_rd 5 0x200 c2_start)).
  destruct (cycle_runs_program 64 2 3 c2_ready c2_start
    (transfer 64 4 (mkAsm OP_JALR 0 5 0 0) 0x200 s1)) as (c & E & (_ & Hl & _) & _).
  - by right.
  - split; [done|]. split; [by vm_compute|]. do 6 (split; [done|]). split.
    + split; [|apply store_ok, store_ok, zero_bytes_ok].
      apply write_reg_wf; [|lia|fits_const].
      apply hart_wf_pc; [apply (CPU_P2_Cycle_wf 64 0x100 inc_dmi); by right|by vm_compute].
    + split_and!; [by vm_compute|done|done].
  - apply (plain_step 64 _ 1 1 2 c2_start s1); [by vm_compute|..].
    + apply (step_straight _ _ _ 4 (set_rd 5 0x200 c2_start)), (straight_base _ _ _ _ (mkAsm OP_ADDI 5 5 0 1)); [by vm_compute|asm_okay|done|].
      alu_step (mkAsm OP_ADDI 5 5 0 1) ALU_I 0x200.
    + by vm_compute.
    + apply program_dom. vm_compute. split; congruence.
    + apply (plain_step 64 _ 2 0 0 s1 (transfer 64 4 (mkAsm OP_JALR 0 5 0 0) 0x200 s1)); [by vm_compute|..].
      * apply step_jump, jump_base; [by vm_compute|asm_okay|by vm_compute].
      * by vm_compute.
      * apply program_dom. vm_compute. split; congruence.
      * by apply plain_0.
  - exists c. split; [exact E|]. by rewrite Hl.
Defined.
