(* ===== verification/CpuAT.v ===== *)
(** [src/CPU_P64_2_AT.cpp], [src/CPU_P32_2_AT.cpp]: the two-stage cores that fetch with
    the non-blocking protocol of TLM-2.0, [CPURV64P2_AT] and [CPURV32P2_AT].

    A fetch begins a transaction with [nb_transport_fw]; when the target does not answer
    at once the thread waits, and [peq_callback] takes the answer.  Two threads run the
    pipeline: [pipeline_thread] and, unless the core is being debugged, the [CPU_thread] of
    the base class; where a thread waits is a field of the state, and what the scheduler,
    the clock and the target do is a sequence of [at_event]s.  The clock is set, so the
    waits are for its edges. *)
From S2P Require Import Prelude Bytes Memory PhysMem Regs BaseISA BaseISAProofs.
From S2P Require Import MExt AExt CExt CExtProofs CpuSimple ISASpec CpuP2.
Import RegsH.

Inductive tlm_phase := BEGIN_REQ | END_REQ | BEGIN_RESP | END_RESP.
Inductive tlm_sync_enum := TLM_ACCEPTED | TLM_UPDATED | TLM_COMPLETED.
#[export] Instance tlm_phase_eq_dec : EqDecision tlm_phase.
Proof. solve_decision. Defined.

(** The forward path of the instruction bus: the answer, the phase and the payload after
    the call. *)
Class ATTarget (S : Type) :=
  nb_transport_fw : payload -> tlm_phase -> S -> tlm_sync_enum * tlm_phase * payload * S.

Record ATStats := mkATStats {
  ats_cycles : Z; ats_instructions : Z; ats_stalls : Z; ats_flushes : Z;
  ats_control_hazards : Z; ats_if_stalls : Z; ats_mem_latency_cycles : Z
}.

(** Where a thread waits: for its next turn, for the fetch of the word at [pc] since
    [start], or, the base class's thread, for the edge at the end of [CPU_step]. *)
Inductive at_wait := AtTurn | AtFetch (start pc : Z) | AtStepEnd.

Record cpuAT (S : Type) := mkCpuAT {
  at_core : hart S;
  at_int_cause : Z;
  at_stats : ATStats;
  at_latch : IF_EX_Latch;
  at_latch_next : IF_EX_Latch;
  at_flush : bool;
  if_stage_busy : bool;
  fetched_instruction : Z;
  instr_buffer : Z;
  at_dmi_ptr_valid : bool;
  at_interrupt : bool;
  at_irq_already_down : bool;
  at_pipeline : at_wait;
  at_base : at_wait
}.
Arguments mkCpuAT {S} _ _ _ _ _ _ _ _ _ _ _ _ _ _.
Arguments at_core {S} _.
Arguments at_int_cause {S} _.
Arguments at_stats {S} _.
Arguments at_latch {S} _.
Arguments at_latch_next {S} _.
Arguments at_flush {S} _.
Arguments if_stage_busy {S} _.
Arguments fetched_instruction {S} _.
Arguments instr_buffer {S} _.
Arguments at_dmi_ptr_valid {S} _.
Arguments at_interrupt {S} _.
Arguments at_irq_already_down {S} _.
Arguments at_pipeline {S} _.
Arguments at_base {S} _.

Section cpu_at.
Context {S : Type} `{Target S, DirectMem S, ATTarget S}.
Variable XLEN : Z.
#[local] Abbreviation cpu := (cpuAT S).

Definition CPU_AT (PC : Z) (m : S) : cpu :=
  let h := Registers XLEN m in
  let h := { h with register_PC := wrap XLEN PC } in
  let h := write_reg 2 (wrap XLEN (SIZE / 4 - 1)) h in
  mkCpuAT h 0 (mkATStats 0 0 0 0 0 0 0) (mkLatch 0 0 false) (mkLatch 0 0 false)
    false false 0 0 false false false AtTurn AtTurn.

Definition at_count (f : ATStats -> ATStats) (c : cpu) : cpu := { c with at_stats := f (at_stats c) }.
Definition at_count_cycles (n : Z) : cpu -> cpu :=
  at_count (fun s => { s with ats_cycles := u64 (ats_cycles s + n) }).
Definition at_count_instruction : cpu -> cpu :=
  at_count (fun s => { s with ats_instructions := u64 (ats_instructions s + 1) }).
Definition at_count_stall : cpu -> cpu :=
  at_count (fun s => { s with ats_stalls := u64 (ats_stalls s + 1) }).
Definition at_count_flush : cpu -> cpu :=
  at_count (fun s => { s with ats_flushes := u64 (ats_flushes s + 1) }).
Definition at_count_hazard : cpu -> cpu :=
  at_count (fun s => { s with ats_control_hazards := u64 (ats_control_hazards s + 1) }).
Definition at_count_wait : cpu -> cpu :=
  at_count (fun s => { s with ats_if_stalls := u64 (ats_if_stalls s + 1);
                              ats_mem_latency_cycles := u64 (ats_mem_latency_cycles s + 1) }).

Definition set_memory (s : S) (c : cpu) : cpu := { c with at_core := { at_core c with mem_intf := s } }.

(** ** The fetch *)

(** The word in the payload's buffer, [instr_buffer], when the request is complete. *)
Definition at_take_word (c : cpu) : cpu :=
  { c with fetched_instruction := instr_buffer c; if_stage_busy := false }.

Definition send_END_RESP (p : payload) (c : cpu) : cpu :=
  let '(_, _, p, s) := nb_transport_fw p END_RESP (mem_intf (at_core c)) in
  { set_memory s c with instr_buffer := le_combine (p_data p) }.

Definition initiate_fetch (address : Z) (c : cpu) : option (bool * cpu) :=
  let fetch_trans :=
    mkPayload TLM_READ address (le_split 4 (instr_buffer c)) false TLM_INCOMPLETE false in
  let '(status, phase, p, s) := nb_transport_fw fetch_trans BEGIN_REQ (mem_intf (at_core c)) in
  let c := { set_memory s c with instr_buffer := le_combine (p_data p) } in
  match status with
  | TLM_ACCEPTED => Some (true, { c with if_stage_busy := true })
  | TLM_UPDATED =>
      match phase with
      | END_REQ => Some (true, { c with if_stage_busy := true })
      | BEGIN_RESP =>
          if bool_decide (p_status p = TLM_OK)
          then Some (true, send_END_RESP p (at_take_word c)) else Some (false, c)
      | _ => Some (false, c)
      end
  | TLM_COMPLETED =>
      if bool_decide (p_status p = TLM_OK) then Some (true, at_take_word c) else None
  end.

(** The answer on the backward path, from the queue of [nb_transport_bw]. *)
Definition peq_callback (trans : payload) (phase : tlm_phase) (c : cpu) : option cpu :=
  match phase with
  | END_REQ => Some c
  | BEGIN_RESP =>
      if bool_decide (p_status trans = TLM_OK)
      then Some (send_END_RESP trans { c with fetched_instruction := le_combine (p_data trans);
                                              if_stage_busy := false })
      else None
  | _ => None
  end.

(** ** The stages *)

(** The end of [IF_stage], with the word of the fetch. *)
Definition at_deliver (instr pc : Z) (c : cpu) : option cpu :=
  match (if negb ((instr .& 0x3) =? 0x3) then incPCby2 XLEN else incPC XLEN) (at_core c) with
  | None => None
  | Some (_, h) => Some { c with at_core := h; at_latch_next := mkLatch instr pc true }
  end.

(** [IF_stage] up to its end, or to the wait for the word at the returned pc. *)
Definition AT_IF_stage (c : cpu) : option (option Z * cpu) :=
  if at_flush c then
    Some (None, at_count_flush { c with at_latch_next := mkLatch 0 0 false; at_flush := false })
  else
    let current_pc := register_PC (at_core c) in
    if at_dmi_ptr_valid c then
      match direct_read current_pc 4 (mem_intf (at_core c)) with
      | None => None
      | Some l => option_map (fun c => (None, c)) (at_deliver (le_combine l) current_pc c)
      end
    else
      match initiate_fetch current_pc c with
      | None => None
      | Some (false, c) => Some (None, at_count_stall { c with at_latch_next := mkLatch 0 0 false })
      | Some (true, c) =>
          if if_stage_busy c then Some (Some current_pc, c)
          else option_map (fun c => (None, c)) (at_deliver (fetched_instruction c) current_pc c)
      end.

Definition AT_EX_stage (c : cpu) : option (bool * cpu) :=
  if negb (l_valid (at_latch c)) then Some (false, at_count_stall c)
  else
    match EX_dispatch XLEN (l_instruction (at_latch c)) (at_core c) with
    | None => None
    | Some ((is_branch, pc_changed, breakpoint), h) =>
        let c := { c with at_core := h } in
        let c := if is_branch && pc_changed then at_count_hazard { c with at_flush := true } else c in
        Some (breakpoint, at_count_instruction c)
    end.

(** The body of [pipeline_thread] and [CPU_step], which differ in what comes after. *)
Definition at_turn (c : cpu) : option (option Z * cpu) :=
  let c := at_count_cycles 1 c in
  match AT_EX_stage { c with at_latch := at_latch_next c } with
  | None => None
  | Some (_, c) => AT_IF_stage c
  end.

(** One pass of the loop of [wait_for_fetch] when the thread wakes; the timeout is 100
    periods of 10 ns.  The answer is whether the fetch goes on. *)
Definition at_wake (start pc : Z) (c : cpu) : option (bool * cpu) :=
  let c := at_count_wait c in
  if 100 * 10000 <? sim_time (at_core c) - start then None
  else if if_stage_busy c then Some (true, c)
  else option_map (fun c => (false, c)) (at_deliver (fetched_instruction c) pc c).

(** [setCSR] takes a 32-bit value. *)
Definition AT_mcause : Z := if XLEN =? 64 then 0x8000000000000000 else 0x80000000.

Definition AT_process_IRQ (c : cpu) : option (bool * cpu) :=
  if at_interrupt c then
    match getCSR CSR_MSTATUS (at_core c) with
    | None => None
    | Some (csr_temp, _) =>
      if (csr_temp .& MSTATUS_MIE) =? 0 then Some (false, c)
      else
        match getCSR CSR_MIP (at_core c) with
        | None => None
        | Some (csr_temp, _) =>
          if (csr_temp .& MIP_MEIP) =? 0 then
            match (setCSR CSR_MIP (csr_temp .| MIP_MEIP);;
                   old_pc ← getPC;
                   setCSR CSR_MEPC old_pc;;
                   setCSR CSR_MCAUSE AT_mcause;;
                   new_pc ← getCSR CSR_MTVEC;
                   setPC XLEN new_pc) (at_core c) with
            | None => None
            | Some (_, h) =>
                let c := { c with at_core := h; at_flush := true;
                             at_latch := { at_latch c with l_valid := false };
                             at_latch_next := { at_latch_next c with l_valid := false } } in
                let c := at_count_cycles 2 (at_count_flush c) in
                Some (true, { c with at_interrupt := false; at_irq_already_down := false })
            end
          else Some (false, c)
        end
    end
  else if negb (at_irq_already_down c) then
    match (csr_temp ← getCSR CSR_MIP; setCSR CSR_MIP (csr_temp .&~ MIP_MEIP)) (at_core c) with
    | None => None
    | Some (_, h) => Some (false, { c with at_core := h; at_irq_already_down := true })
    end
  else Some (false, c).

Definition AT_call_interrupt (m_trans : payload) (c : cpu) : cpu * Z :=
  ({ c with at_interrupt := true;
     at_int_cause := le_combine (take (Z.to_nat (XLEN / 8)) (p_data m_trans)) }, 0).

(** ** The threads *)

(** [pipeline_thread] runs to its next wait. *)
Definition at_pipeline_end (c : cpu) : option cpu :=
  option_map (fun r => { r.2 with at_pipeline := AtTurn }) (AT_process_IRQ c).
Definition run_pipeline (c : cpu) : option cpu :=
  match at_pipeline c with
  | AtFetch start pc =>
      match at_wake start pc c with
      | None => None
      | Some (true, c) => Some c
      | Some (false, c) => at_pipeline_end c
      end
  | _ =>
      match at_turn c with
      | None => None
      | Some (Some pc, c) => Some { c with at_pipeline := AtFetch (sim_time (at_core c)) pc }
      | Some (None, c) => at_pipeline_end c
      end
  end.

(** [CPU_thread] runs to its next wait: [CPU_step] waits for an edge, then the interrupt
    is processed and the base class waits for 10 ns. *)
Definition run_base (c : cpu) : option cpu :=
  match at_base c with
  | AtTurn =>
      match at_turn c with
      | None => None
      | Some (Some pc, c) => Some { c with at_base := AtFetch (sim_time (at_core c)) pc }
      | Some (None, c) => Some { c with at_base := AtStepEnd }
      end
  | AtFetch start pc =>
      match at_wake start pc c with
      | None => None
      | Some (true, c) => Some c
      | Some (false, c) => Some { c with at_base := AtStepEnd }
      end
  | AtStepEnd => option_map (fun r => { r.2 with at_base := AtTurn }) (AT_process_IRQ c)
  end.

Inductive at_event :=
| EvPipeline                                       (* pipeline_thread is resumed *)
| EvBase                                           (* CPU_thread is resumed *)
| EvAnswer (trans : payload) (phase : tlm_phase)   (* the queue calls peq_callback *)
| EvTime (ps : Z)                                  (* time passes *)
| EvInterrupt (trans : payload).                   (* call_interrupt *)

Definition at_step (e : at_event) (c : cpu) : option cpu :=
  match e with
  | EvPipeline => run_pipeline c
  | EvBase => run_base c
  | EvAnswer trans phase => peq_callback trans phase c
  | EvTime ps => Some { c with at_core := { at_core c with sim_time := sim_time (at_core c) + ps } }
  | EvInterrupt trans => Some (AT_call_interrupt trans c).1
  end.

Fixpoint at_steps (es : list at_event) (c : cpu) : option cpu :=
  match es with
  | [] => Some c
  | e :: es => match at_step e c with Some c => at_steps es c | None => None end
  end.
End cpu_at.

(** ** A memory behind the protocol *)

(** The target reads the requested bytes: at once, or it promises to. *)
Class ATMem (S : Type) `{InstrMem S} `{!ATTarget S} := {
  at_request a l (s : S) :
    pm_wf s -> pm_dom a (Z.of_nat (length l)) ->
    exists status phase p,
      nb_transport_fw (mkPayload TLM_READ a l false TLM_INCOMPLETE false) BEGIN_REQ s =
        (status, phase, p, s) /\
      ((status = TLM_ACCEPTED \/ status = TLM_UPDATED /\ phase = END_REQ) \/
       (status = TLM_COMPLETED \/ status = TLM_UPDATED /\ phase = BEGIN_RESP) /\
       p_status p = TLM_OK /\ p_data p = load_bytes (pm_bytes s) a (length l));
  at_release p (s : S) : (nb_transport_fw p END_RESP s).2 = s
}.

Section runs.
Context {S : Type} `{ATMem S}.
Variable XLEN : Z.
Hypothesis XLEN_ok : XLEN = 32 \/ XLEN = 64.

(** The target's answer to the pending request. *)
Definition at_answer (pc : Z) (c : cpuAT S) : payload :=
  mkPayload TLM_READ pc (load_bytes (pm_bytes (mem_intf (at_core c))) pc 4) false TLM_OK false.

(** [n] edges of the clock pass, then the target answers and the thread is resumed. *)
Definition at_late (n : nat) (pc : Z) (c : cpuAT S) : list at_event :=
  concat (replicate n [EvTime 10000; EvPipeline]) ++
  [EvAnswer (at_answer pc c) END_REQ; EvAnswer (at_answer pc c) BEGIN_RESP; EvPipeline].

(** The schedule in which [pipeline_thread] runs alone, that of a core that is debugged: a cycle
    of it, the target taking [n] edges if it answers late.  The events of [at_steps] allow every
    other interleaving with the second thread. *)
Definition at_cycle (n : nat) (c : cpuAT S) : option (cpuAT S) :=
  match run_pipeline XLEN c with
  | None => None
  | Some c =>
      at_steps XLEN
        (match at_pipeline c with AtFetch _ pc => at_late n pc c | _ => [] end ++ [EvTime 10000]) c
  end.
Fixpoint at_cycles (ns : list nat) (c : cpuAT S) : option (cpuAT S) :=
  match ns with
  | [] => Some c
  | n :: ns => match at_cycle n c with Some c => at_cycles ns c | None => None end
  end.

(** The core represents [s]; no interrupt is pending and no direct pointer is used. *)
Definition at_rep (c : cpuAT S) (s : arch) : Prop :=
  at_flush c = false /\ at_dmi_ptr_valid c = false /\ at_interrupt c = false /\
  hart_ok XLEN (at_core c) /\ abs (at_core c) ≡ s.

(** Between two turns: nothing was fetched, or the instruction of [s]. *)
Definition at_bubble (c : cpuAT S) (s : arch) : Prop :=
  at_pipeline c = AtTurn /\ l_valid (at_latch_next c) = false /\ at_rep c s.
Definition at_latched (c : cpuAT S) (s : arch) : Prop :=
  at_pipeline c = AtTurn /\ at_latch_next c = mkLatch (word_at s) (a_pc s) true /\
  at_rep c (displaced XLEN s).

Lemma at_rep_equiv (c : cpuAT S) s t : s ≡ t -> at_rep c s -> at_rep c t.
Proof. intros E (? & ? & ? & ? & Ha). split_and!; try done. by rewrite Ha. Qed.

Lemma at_latched_equiv (c : cpuAT S) s t : s ≡ t -> at_latched c s -> at_latched c t.
Proof.
  intros E (Hp & Hl & Hr). split_and!; [done|by rewrite <-(word_at_equiv s t), <-(proj1 E)|].
  apply (at_rep_equiv c (displaced XLEN s)); [|done]. unfold displaced.
  rewrite (word_at_equiv s t) by done. by rewrite E.
Qed.

Lemma at_rep_time n (c : cpuAT S) s :
  at_rep c s -> at_rep { c with at_core := { at_core c with sim_time := n } } s.
Proof. intros (? & ? & ? & Hh & Ha). split_and!; try done. by apply hart_ok_wait. Qed.

Lemma set_memory_same (c : cpuAT S) : set_memory (mem_intf (at_core c)) c = c.
Proof. by destruct c as [[]]. Qed.

Lemma send_END_RESP_rep p (c : cpuAT S) s :
  at_rep c s -> at_rep (send_END_RESP p c) s /\ mem_intf (at_core (send_END_RESP p c)) = mem_intf (at_core c) /\
  if_stage_busy (send_END_RESP p c) = if_stage_busy c /\
  fetched_instruction (send_END_RESP p c) = fetched_instruction c /\
  at_pipeline (send_END_RESP p c) = at_pipeline c /\
  sim_time (at_core (send_END_RESP p c)) = sim_time (at_core c).
Proof.
  intros Hr. unfold send_END_RESP. pose proof (at_release p (mem_intf (at_core c))) as E.
  destruct (nb_transport_fw p END_RESP _) as [[[? ?] p'] m]. simpl in E. subst m.
  rewrite set_memory_same. by split_and!.
Qed.

(** The word at the pc is latched. *)
Lemma at_deliver_latched (c : cpuAT S) s :
  at_rep c s ->
  exists c', at_deliver XLEN (word_at s) (a_pc s) c = Some c' /\
    at_latch_next c' = mkLatch (word_at s) (a_pc s) true /\ at_rep c' (displaced XLEN s).
Proof.
  intros (Hf & Hd & Hi & [Hwf Hm] & Ha). unfold at_deliver.
  assert (exists h, (if negb ((word_at s .& 0x3) =? 0x3) then incPCby2 XLEN else incPC XLEN)
            (at_core c) = Some (tt, h) /\
            hart_ok XLEN h /\ abs h ≡ next XLEN (ilen (word_at s)) (abs (at_core c)))
    as (h & -> & Hh & Eh).
  { unfold ilen. destruct (negb _); eexists; (split; [reflexivity|]); (split; [|done]);
      (split; [|done]); destruct Hwf; split; try done; apply wrap_fits; lia. }
  eexists. split; [reflexivity|]. do 5 (split; [done|]). change (abs h ≡ displaced XLEN s). by rewrite Eh, Ha.
Qed.

(** Without a pending interrupt the end of a turn withdraws MEIP at most. *)
Lemma at_pipeline_end_idle (c : cpuAT S) s :
  at_rep c s ->
  exists c', at_pipeline_end XLEN c = Some c' /\ at_pipeline c' = AtTurn /\
    at_latch_next c' = at_latch_next c /\ at_rep c' s.
Proof.
  intros (Hf & Hd & Hi & Hh & Ha). unfold at_pipeline_end, AT_process_IRQ. rewrite Hi.
  destruct (at_irq_already_down c); cbn [negb];
    (eexists; split; [reflexivity|]; do 5 (split; [done|]); split; [|done]).
  { apply Hh. }
  destruct Hh as [[] Hm]. split; [|done]. split; try done.
  by apply map_Forall_insert_2; [apply wrap_fits|].
Qed.

(** The pending fetch of the word of [s], [k] edges after its start. *)
Definition at_waiting (start : Z) (k : nat) (s : arch) (c : cpuAT S) : Prop :=
  at_pipeline c = AtFetch start (a_pc s) /\ if_stage_busy c = true /\
  sim_time (at_core c) = start + Z.of_nat k * 10000 /\ at_rep c s.

Lemma at_wait_edges start s n : forall k (c : cpuAT S),
  at_waiting start k s c -> (k + n <= 100)%nat ->
  exists c', at_steps XLEN (concat (replicate n [EvTime 10000; EvPipeline])) c = Some c' /\
    at_waiting start (k + n) s c' /\ mem_intf (at_core c') = mem_intf (at_core c).
Proof.
  induction n as [|n IH]; intros k c (Hp & Hb & Ht & Hr) Hn.
  { exists c. by rewrite Nat.add_0_r. }
  cbn [replicate concat app at_steps at_step]. unfold run_pipeline.
  match goal with |- context [at_pipeline ?x] => change (at_pipeline x) with (at_pipeline c) end. rewrite Hp.
  unfold at_wake. rewrite (proj2 (Z.ltb_ge _ _)) by (cbn; lia).
  match goal with |- context [if_stage_busy ?x] => change (if_stage_busy x) with (if_stage_busy c) end. rewrite Hb.
  match goal with |- exists c', at_steps XLEN _ ?c1 = _ /\ _ =>
    destruct (IH (Datatypes.S k) c1) as (c' & E & Hw & Em); [|lia|] end.
  - split_and!; try done; [cbn; lia|by apply at_rep_time].
  - exists c'. rewrite <-Nat.add_succ_comm. by split_and!.
Qed.

(** The memory's word is the instruction of the state. *)
Lemma at_rep_word (c : cpuAT S) s :
  at_rep c s -> le_combine (load_bytes (pm_bytes (mem_intf (at_core c))) (a_pc s) 4) = word_at s.
Proof.
  intros (_ & _ & _ & _ & Ha). unfold word_at. rewrite <-(load_equiv (abs (at_core c)) s) by done. done.
Qed.

(** The fetch in [c]: complete, or pending. *)
Lemma initiate_fetch_answer (c : cpuAT S) s :
  at_rep c s -> dom (S := S) XLEN (a_pc s) 4 ->
  exists c', initiate_fetch (a_pc s) c = Some (true, c') /\ at_rep c' s /\
    at_pipeline c' = at_pipeline c /\ (if_stage_busy c' = false -> fetched_instruction c' = word_at s).
Proof.
  intros Hr [Hd _]. pose proof Hr as (Hf & Hv & Hi & [Hwf Hm] & Ha). unfold initiate_fetch.
  destruct (at_request (a_pc s) (le_split 4 (instr_buffer c)) (mem_intf (at_core c)) Hm)
    as (st & ph & p & -> & Hp); [by rewrite le_split_length|].
  rewrite set_memory_same, le_split_length in *.
  set (c1 := { c with instr_buffer := le_combine (p_data p) }).
  assert (at_rep c1 s) as Hr1 by done.
  assert (p_data p = load_bytes (pm_bytes (mem_intf (at_core c))) (a_pc s) 4 ->
    at_rep (at_take_word c1) s /\ fetched_instruction (at_take_word c1) = word_at s) as Ht.
  { intros E. split; [done|]. unfold at_take_word, c1. cbn. rewrite E. by apply at_rep_word. }
  destruct Hp as [Hp|([->|[-> ->]] & Ep & Ed)].
  - exists { c1 with if_stage_busy := true }. split; [|by split_and!]. by destruct Hp as [->|[-> ->]].
  - rewrite bool_decide_eq_true_2 by done. destruct (Ht Ed). by eexists.
  - rewrite bool_decide_eq_true_2 by done. destruct (Ht Ed) as [Hr2 E2].
    destruct (send_END_RESP_rep p _ _ Hr2) as (Hr3 & _ & Eb & Ef & Ep3 & _).
    eexists. split; [reflexivity|]. split_and!; [done..|]. intros _. by rewrite Ef.
Qed.

(** The rest of a cycle whose fetch is pending. *)
Lemma at_late_latched n start s (c : cpuAT S) :
  at_waiting start 0 s c -> (n <= 100)%nat ->
  exists c', at_steps XLEN (at_late n (a_pc s) c ++ [EvTime 10000]) c = Some c' /\ at_latched c' s.
Proof.
  intros Hw Hn. unfold at_late. rewrite <-app_assoc.
  assert (forall es es' (x y : cpuAT S), at_steps XLEN es x = Some y ->
    at_steps XLEN (es ++ es') x = at_steps XLEN es' y) as Happ.
  { intros es es'. induction es as [|e es IH]; intros x y; [by intros [= ->]|]. cbn [at_steps app].
    destruct (at_step XLEN e x); [apply IH|done]. }
  destruct (at_wait_edges start s n 0 c Hw Hn) as (c1 & E & (Hp & Hb & Ht & Hr) & Em).
  rewrite (Happ _ _ _ _ E). cbn [app at_steps at_step peq_callback].
  unfold at_answer. cbn [p_status p_data]. rewrite bool_decide_eq_true_2 by done.
  rewrite <-Em, (at_rep_word c1 s Hr).
  set (c2 := { c1 with fetched_instruction := word_at s; if_stage_busy := false }).
  destruct (send_END_RESP_rep (mkPayload TLM_READ (a_pc s)
    (load_bytes (pm_bytes (mem_intf (at_core c1))) (a_pc s) 4) false TLM_OK false) c2 s Hr)
    as (Hr3 & _ & Eb & Ef & Ep3 & Et3).
  set (c3 := send_END_RESP _ c2) in *. clearbody c3.
  unfold run_pipeline. rewrite Ep3. change (at_pipeline c2) with (at_pipeline c1). rewrite Hp.
  unfold at_wake. change (sim_time (at_core (at_count_wait c3))) with (sim_time (at_core c3)).
  rewrite Et3. change (sim_time (at_core c2)) with (sim_time (at_core c1)). rewrite Ht.
  rewrite (proj2 (Z.ltb_ge _ _)) by lia.
  change (if_stage_busy (at_count_wait c3)) with (if_stage_busy c3). rewrite Eb. change (if_stage_busy c2) with false. cbv beta iota.
  change (fetched_instruction (at_count_wait c3)) with (fetched_instruction c3). rewrite Ef.
  change (fetched_instruction c2) with (word_at s).
  destruct (at_deliver_latched (at_count_wait c3) s Hr3) as (c4 & -> & El & Hr4). cbn [option_map].
  destruct (at_pipeline_end_idle c4 _ Hr4) as (c5 & E5 & Ep5 & El5 & Hr5). rewrite E5.
  eexists. split; [reflexivity|]. split; [done|]. split; [cbn; by rewrite El5|]. by apply at_rep_time.
Qed.

(** A cycle, after EX has left [c1] in the state [s]. *)
Lemma at_cycle_fetch n (c c1 : cpuAT S) s :
  at_turn XLEN c = AT_IF_stage XLEN c1 -> at_pipeline c = AtTurn -> at_rep c1 s ->
  dom (S := S) XLEN (a_pc s) 4 -> (n <= 100)%nat ->
  exists c', at_cycle n c = Some c' /\ at_latched c' s.
Proof.
  intros Et Hp Hr Hd Hn. unfold at_cycle, run_pipeline. rewrite Hp, Et. unfold AT_IF_stage.
  pose proof Hr as (-> & -> & _ & _ & Ha).
  change (register_PC (at_core c1)) with (a_pc (abs (at_core c1))). rewrite (proj1 Ha).
  destruct (initiate_fetch_answer c1 s Hr Hd) as (c2 & -> & Hr2 & Ep2 & Ef).
  destruct (if_stage_busy c2) eqn:Eb.
  - cbn [at_pipeline]. apply (at_late_latched n (sim_time (at_core c2))); [|done].
    split_and!; try done. cbn. lia.
  - rewrite Ef by done.
    destruct (at_deliver_latched c2 s Hr2) as (c4 & -> & El & Hr4). cbn [option_map].
    destruct (at_pipeline_end_idle c4 _ Hr4) as (c5 & -> & Ep5 & El5 & Hr5). rewrite Ep5.
    eexists. split; [reflexivity|]. split; [done|]. split; [cbn; by rewrite El5|]. by apply at_rep_time.
Qed.

(** One cycle from an empty latch, and from a latched instruction of either kind. *)
Lemma at_cycle_bubble n (c : cpuAT S) s :
  at_bubble c s -> dom (S := S) XLEN (a_pc s) 4 -> (n <= 100)%nat ->
  exists c', at_cycle n c = Some c' /\ at_latched c' s.
Proof.
  intros (Hp & Hl & Hr) Hd Hn.
  apply (at_cycle_fetch n c (at_count_stall { at_count_cycles 1 c with at_latch := at_latch_next c })); try done.
  unfold at_turn, AT_EX_stage. repeat match goal with |- context [at_latch ?x] => change (at_latch x) with (at_latch_next c) end. by rewrite Hl.
Qed.

(** EX on the latched word. *)
Lemma at_turn_latched (c : cpuAT S) s b changed h' :
  at_latch_next c = mkLatch (word_at s) (a_pc s) true ->
  EX_dispatch XLEN (word_at s) (at_core c) = Some ((b, changed, false), h') ->
  exists c1, at_turn XLEN c = AT_IF_stage XLEN c1 /\ at_core c1 = h' /\
    at_flush c1 = (b && changed || at_flush c) /\ at_dmi_ptr_valid c1 = at_dmi_ptr_valid c /\
    at_interrupt c1 = at_interrupt c.
Proof.
  intros Hl E. unfold at_turn, AT_EX_stage. repeat match goal with |- context [at_latch ?x] => change (at_latch x) with (at_latch_next c) end. rewrite Hl.
  cbn [negb l_valid l_instruction].
  match goal with |- context [EX_dispatch XLEN _ ?h] => change h with (at_core c) end. rewrite E.
  eexists. split; [reflexivity|]. by destruct (b && changed).
Qed.

Lemma at_cycle_straight n (c : cpuAT S) s len t :
  at_latched c s -> straight XLEN (dom (S := S) XLEN) (word_at s) (displaced XLEN s) len t ->
  dom (S := S) XLEN (a_pc t) 4 -> (n <= 100)%nat ->
  exists c', at_cycle n c = Some c' /\ at_latched c' t.
Proof.
  intros (Hp & Hl & Hf & Hd & Hi & Hh & Ha) Hs Hpc Hn. symmetry in Ha.
  destruct (straight_equiv XLEN _ _ _ _ _ _ Ha Hs) as (t' & Hs' & Et).
  destruct (EX_dispatch_straight XLEN XLEN_ok _ _ _ _ Hh Hs') as (b & h' & E & Ha' & Hm).
  pose proof (EX_dispatch_ok XLEN XLEN_ok _ _ _ _ Hh E Hm) as Hh'.
  destruct (at_turn_latched c s b false h' Hl E) as (c1 & Et1 & <- & Ef & Ed & Ei).
  apply (at_cycle_fetch n c c1); try done.
  split_and!; [by rewrite Ef, andb_false_r|congruence|congruence|done|by rewrite Et].
Qed.

Lemma at_cycle_jump n (c : cpuAT S) s s' :
  at_latched c s -> jump XLEN (word_at s) (displaced XLEN s) s' ->
  exists c', at_cycle n c = Some c' /\ at_bubble c' s'.
Proof.
  intros (Hp & Hl & Hf & Hd & Hi & Hh & Ha) Hs. symmetry in Ha.
  destruct (jump_equiv XLEN _ _ _ _ Ha Hs) as (t' & Hs' & Et).
  destruct (EX_dispatch_jump XLEN XLEN_ok _ _ _ Hh Hs') as (h' & E & Ha' & Hm).
  pose proof (EX_dispatch_ok XLEN XLEN_ok _ _ _ _ Hh E Hm) as Hh'.
  destruct (at_turn_latched c s true true h' Hl E) as (c1 & Et1 & <- & Ef & Ed & Ei).
  unfold at_cycle, run_pipeline. rewrite Hp, Et1. unfold AT_IF_stage. rewrite Ef. cbn [andb orb].
  set (c2 := at_count_flush { c1 with at_latch_next := mkLatch 0 0 false; at_flush := false }).
  destruct (at_pipeline_end_idle c2 s') as (c3 & -> & Ep & El & Hr).
  { split_and!; [done|cbn; congruence|cbn; congruence|done|by rewrite Et]. }
  rewrite Ep. eexists. split; [reflexivity|]. split; [done|]. split; [cbn; by rewrite El|].
  by apply at_rep_time.
Qed.
End runs.

Lemma at_latched_runs {S} `{ATMem S} XLEN ns (c : cpuAT S) s t :
  XLEN = 32 \/ XLEN = 64 -> at_latched XLEN c s ->
  p2_run XLEN (dom (S := S) XLEN) (length ns) s t -> Forall (fun n => n <= 100)%nat ns ->
  exists c', at_cycles XLEN ns c = Some c' /\ at_latched XLEN c' t.
Proof.
  intros HX Hl Hr. revert c Hl. remember (length ns) as k eqn:Ek. revert ns Ek.
  induction Hr as [s s' E|n k s t u Hs Hd _ IH]; intros ns Ek c Hl Hn.
  - destruct ns; [|done]. exists c. split; [done|]. by apply (at_latched_equiv XLEN c s).
  - destruct Hs as [len t Hs|t Hs].
    + destruct ns as [|n ns]; [done|]. inversion_clear Hn. cbn [at_cycles].
      destruct (at_cycle_straight XLEN HX n c s len t) as (c1 & -> & E1); try done.
      apply IH; try done. simpl in Ek. lia.
    + destruct ns as [|n [|n' ns]]; [done..|]. inversion_clear Hn as [|? ? ? Hn']. inversion_clear Hn'.
      cbn [at_cycles].
      destruct (at_cycle_jump XLEN HX n c s t Hl Hs) as (c1 & -> & E1).
      destruct (at_cycle_bubble XLEN HX n' c1 t E1 Hd) as (c2 & -> & E2); [done|].
      apply IH; try done. simpl in Ek. lia.
Qed.

(** C22: The two-stage core that fetches with the non-blocking protocol, when [pipeline_thread]
    alone turns it (the schedule [at_cycles], that of a core that is debugged; [at_two_threads]
    shows it together with the thread of the base class), executes the architecture on code that
    uses the pc only to get to the next instruction ([pc_free]): from an empty latch, an execution
    of [n] such instructions of [isa_step] takes one pipeline cycle to fill the latch and [k]
    more, one for each instruction and two for a jump to a register, whatever the latency of each
    fetch up to the timeout of 100 periods, and whether the target completes a request at once or
    answers it on the backward path.  None fails, and afterwards registers and memory are those of
    the architecture and its next instruction is latched. *)
Theorem AT_runs_program {S} `{ATMem S} XLEN n l ls (c : cpuAT S) s t :
  XLEN = 32 \/ XLEN = 64 -> at_bubble XLEN c s -> dom (S := S) XLEN (a_pc s) 4 ->
  isa_plain XLEN (dom (S := S) XLEN) n (length ls) s t -> Forall (fun l => l <= 100)%nat (l :: ls) ->
  exists c', at_cycles XLEN (l :: ls) c = Some c' /\ at_latched XLEN c' t /\ (n <= length ls <= 2 * n)%nat.
Proof.
  intros HX Hb Hd Hr Hn. inversion_clear Hn. cbn [at_cycles].
  destruct (at_cycle_bubble XLEN HX l c s Hb Hd) as (c1 & -> & Hl); [done|].
  destruct (at_latched_runs XLEN ls c1 s t HX Hl) as (c' & E & Hl'); [by apply (plain_p2_run _ _ n)|done|].
  exists c'. split_and!; [done|done|..]; apply (plain_slots _ _ _ _ _ _ Hr).
Qed.

(** ** Examples and witnesses *)

(** A memory that answers later, on the backward path. *)
#[local] Instance late_target : ATTarget memory := fun p phase s => (TLM_ACCEPTED, phase, p, s).
#[local] Program Instance late_mem : ATMem memory.
Next Obligation. intros a l s _ _. eexists _, _, _. split; [done|]. by left; left. Qed.
Next Obligation. done. Qed.

Lemma CPU_AT_bubble m : mem_ok (mem m) -> at_bubble 64 (CPU_AT 64 0x100 m) (abs (at_core (CPU_AT 64 0x100 m))).
Proof.
  intros Hm. do 2 (split; [done|]). do 3 (split; [done|]). split; [|done]. split; [|exact Hm].
  apply write_reg_wf; [|lia|apply wrap_fits; lia].
  destruct (Registers_wf 64 ltac:(lia) m ltac:(by right)). by split.
Qed.

Lemma AT_runs_program_witness :
  exists c, at_cycles 64 [3; 100; 0; 7]%nat (CPU_AT 64 0x100 jr_program) = Some c /\
    l_pc (at_latch_next c) = 0x200.
Proof.
  set (s := abs (at_core (CPU_AT 64 0x100 jr_program))).
  set (s1 := next 64 4 (set_rd 5 0x200 s)).
  destruct (AT_runs_program 64 2 3 [100; 0; 7]%nat (CPU_AT 64 0x100 jr_program) s
    (transfer 64 4 (mkAsm OP_JALR 0 5 0 0) 0x200 s1)) as (c & E & (_ & Hl & _) & _).
  - by right.
  - apply CPU_AT_bubble, store_ok, store_ok, zero_bytes_ok.
  - apply program_dom. vm_compute. split; congruence.
  - apply (plain_step 64 _ 1 1 2 s s1); [by vm_compute|..].
    + apply (step_straight _ _ _ 4 (set_rd 5 0x200 s)), (straight_base _ _ _ _ (mkAsm OP_ADDI 5 0 0 0x200)); [by vm_compute|asm_okay|done|].
      alu_step (mkAsm OP_ADDI 5 0 0 0x200) ALU_I 0x200.
    + by vm_compute.
    + apply program_dom. vm_compute. split; congruence.
    + apply (plain_step 64 _ 2 0 0 s1 (transfer 64 4 (mkAsm OP_JALR 0 5 0 0) 0x200 s1)); [by vm_compute|..].
      * apply step_jump, jump_base; [by vm_compute|asm_okay|by vm_compute].
      * by vm_compute.
      * apply program_dom. vm_compute. split; congruence.
      * by apply plain_0.
  - repeat constructor; lia.
  - exists c. split; [exact E|]. by rewrite Hl.
Defined.

(** Two increments of different registers and then zeros. *)
Definition two_increments : memory :=
  { memory0 with mem := store (store (mem memory0) 0x100 4 (encode (mkAsm OP_ADDI 5 5 0 1)))
                          0x104 4 (encode (mkAsm OP_ADDI 6 6 0 1)) }.

(** The answer to a fetch of the word at [pc]. *)
Definition answer (pc : Z) : list at_event :=
  [EvAnswer (mkPayload TLM_READ pc (load_bytes (mem two_increments) pc 4) false TLM_OK false) BEGIN_RESP].

(** The base class starts its thread too unless the core is debugged: both turn, share one
    transaction and its answer, and each delivers the word.  The first increment is
    executed twice, the second one never. *)
Example at_two_threads :
  (fun c => (reg (at_core c) 5, reg (at_core c) 6, register_PC (at_core c))) <$>
    at_steps 64 ([EvBase; EvPipeline] ++ answer 0x100 ++ [EvBase; EvPipeline; EvBase] ++
                 [EvBase; EvPipeline] ++ answer 0x108 ++ [EvBase; EvPipeline; EvBase])
      (CPU_AT 64 0x100 two_increments) = Some (2, 0, 0x10C).
Proof. by vm_compute. Qed.

(** [pipeline_thread] alone executes each of them once. *)
Example at_one_thread :
  (fun c => (reg (at_core c) 5, reg (at_core c) 6)) <$>
    at_cycles 64 [2; 2; 2]%nat (CPU_AT 64 0x100 two_increments) = Some (1, 1).
Proof. by vm_compute. Qed.

(** [setCSR] keeps 32 bits: the cause of an interrupt of the 64-bit core is 0. *)
Example at_mcause_zero :
  let c := CPU_AT 64 0x100 two_increments in
  let c := { c with at_core := { at_core c with CSR := <[CSR_MSTATUS := 8]> (CSR (at_core c)) };
                    at_interrupt := true } in
  (fun r => (r.1, csr (at_core r.2) CSR_MCAUSE)) <$> AT_process_IRQ 64 c = Some (true, 0).
Proof. by vm_compute. Qed.
