(* ===== verification/CoresRV32.v ===== *)
(** [src/CPU_P32_2.cpp], [src/CPU_P32_2_Cycle.cpp], [src/CPU_P32_2_AT.cpp]: the two-stage
    cores of the 32-bit platform, which are the definitions of [CpuP2.v], [CpuP2Cycle.v]
    and [CpuAT.v] at 32 bits, and the agreement of the three timing models. *)
From S2P Require Import Prelude Bytes Memory PhysMem Regs BaseISA BaseISAProofs.
From S2P Require Import MExt AExt CExt CExtProofs CpuSimple ISASpec CpuP2 CpuP2Cycle CpuAT.
Import RegsH.

Section rv32.
Context {S : Type} `{Target S, DirectMem S}.

(** ** [CPURV32P2], loosely timed *)

Definition CPURV32P2 : Z -> S -> cpuP2 S := CPU_P2 32.
Definition RV32P2_IF_stage : cpuP2 S -> option (cpuP2 S) := IF_stage 32.
Definition RV32P2_EX_stage : cpuP2 S -> option (bool * cpuP2 S) := EX_stage 32.
Definition RV32P2_CPU_step : cpuP2 S -> option (bool * cpuP2 S) := CPU_P2_step 32.
Definition RV32P2_process_IRQ : cpuP2 S -> option (bool * cpuP2 S) := CPU_P2_process_IRQ 32.
Definition RV32P2_call_interrupt : payload -> cpuP2 S -> cpuP2 S * Z := CPU_P2_call_interrupt 32.

(** ** [CPURV32P2_Cycle], clocked *)

Definition CPURV32P2_Cycle : Z -> S -> cpuC S := CPU_P2_Cycle 32.
Definition RV32C_on_posedge : cpuC S -> option (cpuC S) := on_posedge 32.
Definition RV32C_on_negedge : cpuC S -> option (cpuC S) := on_negedge 32.
Definition RV32C_IF_stage : cpuC S -> option (cpuC S) := C2_IF_stage 32.
Definition RV32C_fetch_instruction : Z -> Z -> cpuC S -> option (bool * Z * cpuC S) :=
  fetch_instruction 32.
Definition RV32C_instruction_latency : Z -> Z := get_instruction_latency.
Definition RV32C_EX_stage : cpuC S -> option (bool * cpuC S) := C2_EX_stage 32.
Definition RV32C_CPU_step : cpuC S -> option (bool * cpuC S) := C2_step 32.
Definition RV32C_process_IRQ : cpuC S -> option (bool * cpuC S) := C2_process_IRQ 32.
Definition RV32C_call_interrupt : payload -> cpuC S -> cpuC S * Z := C2_call_interrupt 32.

(** ** [CPURV32P2_AT], approximately timed *)

Context `{ATTarget S}.
Definition CPURV32P2_AT : Z -> S -> cpuAT S := CPU_AT 32.
Definition RV32AT_peq_callback : payload -> tlm_phase -> cpuAT S -> option (cpuAT S) := peq_callback.
Definition RV32AT_initiate_fetch : Z -> cpuAT S -> option (bool * cpuAT S) := initiate_fetch.
Definition RV32AT_wait_for_fetch : Z -> Z -> cpuAT S -> option (bool * cpuAT S) := at_wake 32.
Definition RV32AT_pipeline_thread : cpuAT S -> option (cpuAT S) := run_pipeline 32.
Definition RV32AT_IF_stage : cpuAT S -> option (option Z * cpuAT S) := AT_IF_stage 32.
Definition RV32AT_EX_stage : cpuAT S -> option (bool * cpuAT S) := AT_EX_stage 32.
Definition RV32AT_CPU_step : cpuAT S -> option (cpuAT S) := run_base 32.
Definition RV32AT_process_IRQ : cpuAT S -> option (bool * cpuAT S) := AT_process_IRQ 32.
Definition RV32AT_call_interrupt : payload -> cpuAT S -> cpuAT S * Z := AT_call_interrupt 32.
End rv32.

(** C23: The three timing models of a two-stage core agree, each turned by one thread (loosely
    timed by calls of [CPU_step]; clocked, with a direct pointer, by one driver of the edges;
    approximately timed by [pipeline_thread], with any latencies up to the timeout): started with
    the same instruction latched they take the same number of cycles over a program of the
    two-stage pipeline ([p2_run]: instructions, jumps, and branches, executed with the pc already
    advanced, and no interrupt), at the end of which their registers, their memory and their pc are
    the same and so is the instruction in their latch. *)
Theorem timing_models_agree {S} `{ATMem S} XLEN ns (cl : cpuP2 S) (cc : cpuC S) (ca : cpuAT S) s t :
  XLEN = 32 \/ XLEN = 64 ->
  latched XLEN cl s -> c2_latched XLEN cc s -> at_latched XLEN ca s ->
  p2_run XLEN (dom (S := S) XLEN) (length ns) s t -> Forall (fun n => n <= 100)%nat ns ->
  exists cl' cc' ca', CPU_P2_steps XLEN (length ns) cl = Some cl' /\
    C2_steps XLEN (length ns) cc = Some cc' /\ at_cycles XLEN ns ca = Some ca' /\
    abs (p2_core cl') ≡ abs (c2_core cc') /\ abs (p2_core cl') ≡ abs (at_core ca') /\
    if_ex_latch cl' = latch_next cc' /\ if_ex_latch cl' = at_latch_next ca'.
Proof.
  intros HX Hl Hc Ha Hr Hn.
  destruct (P2_run_latched XLEN HX _ cl s t Hl Hr) as (cl' & -> & El & _ & _ & Al & _).
  destruct (C2_run_latched XLEN HX _ cc s t Hc Hr) as (cc' & -> & _ & Ec & _ & _ & _ & _ & _ & _ & _ & Ac).
  destruct (at_latched_runs XLEN ns ca s t HX Ha Hr Hn) as (ca' & -> & _ & Ea & _ & _ & _ & _ & Aa).
  exists cl', cc', ca'. split_and!; [done..|by rewrite Al, Ac|by rewrite Al, Aa| |]; congruence.
Qed.

(** ** Witness *)

#[local] Existing Instances late_target late_mem.

(** The first instruction of [jump_dmi] is in the latch of each of them. *)
Definition ready_hart : hart memory :=
  { c2_core (CPURV32P2_Cycle 0x100 jump_dmi) with register_PC := 0x104 }.
Definition ready_latch : IF_EX_Latch := mkLatch (encode (mkAsm OP_JAL 1 0 0 0x20)) 0x100 true.
Definition ready_lt : cpuP2 memory :=
  { CPURV32P2 0x100 jump_dmi with p2_core := ready_hart; if_ex_latch := ready_latch }.
Definition ready_cycle : cpuC memory :=
  { CPURV32P2_Cycle 0x100 jump_dmi with c2_core := ready_hart; c2_dmi_ptr_valid := true;
      latch_next := ready_latch }.
Definition ready_at : cpuAT memory :=
  { CPURV32P2_AT 0x100 jump_dmi with at_core := ready_hart; at_latch_next := ready_latch }.
Definition ready_state : arch := { abs ready_hart with a_pc := 0x100 }.

Lemma ready_hart_ok : hart_ok 32 ready_hart /\ abs ready_hart ≡ displaced 32 ready_state.
Proof.
  split; [split; [|apply store_ok, zero_bytes_ok]|].
  - apply hart_wf_pc; [apply (CPU_P2_Cycle_wf 32 0x100 jump_dmi); by left|by vm_compute].
  - split_and!; [by vm_compute|done|done].
Qed.

Lemma timing_models_agree_witness :
  exists cl cc, RV32P2_CPU_step ready_lt = Some (false, cl) /\ C2_steps 32 2 ready_cycle = Some cc /\
    l_pc (latch_next cc) = 0x124 /\ a_reg (abs (c2_core cc)) 1 = 0x108.
Proof.
  destruct ready_hart_ok as [Hh Ha].
  destruct (timing_models_agree 32 [7; 0]%nat ready_lt ready_cycle ready_at ready_state
    (transfer 32 4 (mkAsm OP_JAL 1 0 0 0x20) 0x124 (displaced 32 ready_state)))
    as (cl & cc & ca & El & Ec & _ & (_ & Er & _) & _ & Elatch & _).
  - by left.
  - by split_and!.
  - by split_and!.
  - by split_and!.
  - refine (p2_run_step _ _ 2 0 ready_state
      (transfer 32 4 (mkAsm OP_JAL 1 0 0 0x20) 0x124 (displaced 32 ready_state)) _ _ _ _).
    + apply p2_jump, jump_base; [by vm_compute|asm_okay|by vm_compute].
    + apply program_dom. vm_compute. split; congruence.
    + by apply p2_run_0.
  - repeat constructor; lia.
  - vm_compute in El. injection El as El.
    destruct (RV32P2_CPU_step ready_lt) as [[b c1]|] eqn:E1; [|by vm_compute in E1].
    exists c1, cc. assert (b = false) as -> by (by vm_compute in E1; injection E1).
    split; [done|]. split; [done|]. rewrite <-Elatch. rewrite <-(Er 1) by lia. by subst cl.
Defined.
