(* ===== verification/CpuP6.v ===== *)
(** [src/CPU_P32_6_Cycle.cpp], [inc/CPU_P32_6_Cycle.h]: the six-stage RV32 core
    [CPURV32P6_Cycle].  One call of [P6_cycle] is one turn of [cycle_thread]: the latches
    move, then the stages run from the last to the first, each writing the [next] latch of
    its successor.

    The register bank and the memory interface are those of [Regs.v]; the reorder buffer
    and the store buffer are [ROB.v] and [StoreBuffer.v].  The statistics other than
    counters, the log and the clock are not modelled.  [None] is an error report of the
    memory interface, which throws. *)
From S2P Require Import Prelude Bytes Memory Regs ROB StoreBuffer.
Import RegsH.

(** ** Latches *)

(** The branch prediction metadata that every latch but the last carries. *)
Record prediction := mkPrediction {
  predicted_taken : bool;
  predicted_target : Z;
  is_ras_call : bool;
  is_ras_return : bool
}.
Definition no_prediction : prediction := mkPrediction false 0 false false.

Record PCGen_Fetch_Latch := mkPF { pf_pc : Z; pf_valid : bool; pf_pred : prediction }.

Record Fetch_ID_Latch := mkFI {
  fi_pc : Z; fi_instr : Z; fi_valid : bool; fi_pred : prediction
}.

(** [imm] is an [int32_t]. *)
Record ID_Issue_Latch := mkII {
  ii_pc : Z; ii_instr : Z;
  ii_rd : Z; ii_rs1 : Z; ii_rs2 : Z;
  ii_imm : Z; ii_opcode : Z; ii_funct3 : Z; ii_funct7 : Z;
  ii_valid : bool; ii_pred : prediction
}.

Record Issue_EX_Latch := mkIE {
  ie_pc : Z; ie_rs1_val : Z; ie_rs2_val : Z;
  ie_imm : Z; ie_rd : Z; ie_opcode : Z; ie_funct3 : Z; ie_funct7 : Z;
  ie_rob_index : Z; ie_valid : bool; ie_pred : prediction
}.

Record EX_Commit_Latch := mkEC {
  ec_result : Z; ec_rd : Z; ec_rob_index : Z;
  ec_is_store : bool; ec_store_addr : Z; ec_store_data : Z; ec_store_size : Z;
  ec_valid : bool
}.

Record latches := mkLatches {
  pcgen_fetch : PCGen_Fetch_Latch;
  fetch_id : Fetch_ID_Latch;
  id_issue : ID_Issue_Latch;
  issue_ex : Issue_EX_Latch;
  ex_commit : EX_Commit_Latch
}.
Definition no_latches : latches := mkLatches
  (mkPF 0 false no_prediction) (mkFI 0 0 false no_prediction)
  (mkII 0 0 0 0 0 0 0 0 0 false no_prediction)
  (mkIE 0 0 0 0 0 0 0 0 (-1) false no_prediction)
  (mkEC 0 0 (-1) false 0 0 0 false).

(** ** Control, prediction and statistics *)

Record control_state := mkControl {
  p6_next_pc : Z;
  stall_pcgen : bool; stall_fetch : bool; stall_issue : bool;
  flush_pipeline : bool;
  pc_redirect_target : Z;
  pc_redirect_valid : bool;
  scoreboard : list bool
}.

Record BTBEntry := mkBTB { btb_target : Z; btb_valid : bool; btb_is_return : bool }.
#[export] Instance BTBEntry_inhabited : Inhabited BTBEntry := populate (mkBTB 0 false false).

(** The return address stack has its top, the back of the vector, first. *)
Record predictor := mkPredictor { btb : list BTBEntry; bht : list Z; ras : list Z }.

Record P6Stats := mkP6Stats {
  p6_cycles : Z; p6_instructions : Z; p6_stalls : Z; p6_branches : Z; p6_mispredicts : Z
}.

Record cpuP6 (S : Type) := mkCpuP6 {
  p6_core : hart S;
  p6_reg : latches;               (* the [_reg] latches *)
  p6_next : latches;              (* the [_next] latches *)
  p6_ctl : control_state;
  p6_pred : predictor;
  rob : ReorderBuffer;
  store_buffer : StoreBuffer;
  p6_stats : P6Stats;
  p6_dmi : option (Z * Z);        (* [dmi_ptr_valid], with the window of the pointer *)
  p6_out : list (Z * Z);          (* [fputc]: 1 is stdout, 2 is stderr *)
  p6_interrupt : bool;
  p6_int_cause : Z;
  p6_stopped : bool               (* [sc_stop], or the end of [cycle_thread] *)
}.
Arguments mkCpuP6 {S} _ _ _ _ _ _ _ _ _ _ _ _ _.
Arguments p6_core {S} _.
Arguments p6_reg {S} _.
Arguments p6_next {S} _.
Arguments p6_ctl {S} _.
Arguments p6_pred {S} _.
Arguments rob {S} _.
Arguments store_buffer {S} _.
Arguments p6_stats {S} _.
Arguments p6_dmi {S} _.
Arguments p6_out {S} _.
Arguments p6_interrupt {S} _.
Arguments p6_int_cause {S} _.
Arguments p6_stopped {S} _.

Definition ROB_SIZE : nat := 32.
Definition SPEC_DEPTH : nat := 8.
Definition COMMIT_DEPTH : nat := 4.

Definition btb_index (pc : Z) : nat := Z.to_nat ((pc .>> 2) mod 128).
Definition bht_index (pc : Z) : nat := Z.to_nat ((pc .>> 2) mod 256).

(** ** Decoding: the pure part of [ID_stage] *)

(** [static_cast<int32_t>(x) << n >> n]. *)
Definition sext (n x : Z) : Z := s32 (x .<< n) .>> n.

Definition id_imm (opcode instr : Z) : Z :=
  if (opcode =? 0x13) || (opcode =? 0x03) || (opcode =? 0x67) then s32 instr .>> 20
  else if opcode =? 0x23 then
    sext 20 (((instr .>> 25) .<< 5) .| ((instr .>> 7) .& 0x1F))
  else if opcode =? 0x63 then
    sext 19 (((instr .>> 31) .<< 12) .| (((instr .>> 7) .& 1) .<< 11) .|
             (((instr .>> 25) .& 0x3F) .<< 5) .| (((instr .>> 8) .& 0xF) .<< 1))
  else if (opcode =? 0x37) || (opcode =? 0x17) then s32 (instr .& 0xFFFFF000)
  else if opcode =? 0x6F then
    sext 11 (((instr .>> 31) .<< 20) .| (((instr .>> 12) .& 0xFF) .<< 12) .|
             (((instr .>> 20) .& 1) .<< 11) .| (((instr .>> 21) .& 0x3FF) .<< 1))
  else if opcode =? 0x73 then s32 instr .>> 20
  else 0.

(** The latch after [fi], when [old_rd] is what the latch's [rd] held before: the test
    for a call reads it before it is assigned. *)
Definition id_decode (old_rd : Z) (fi : Fetch_ID_Latch) : ID_Issue_Latch :=
  let instr := fi_instr fi in
  let opcode := instr .& 0x7F in
  let funct3 := (instr .>> 12) .& 0x7 in
  let rs1 := (instr .>> 15) .& 0x1F in
  let rs2 := (instr .>> 20) .& 0x1F in
  let jump := (opcode =? 0x6F) || (opcode =? 0x67) in
  let is_call := (old_rd =? 1) || (old_rd =? 5) in
  let is_ret := (opcode =? 0x67) && ((rs1 =? 1) || (rs1 =? 5)) && negb (rs1 =? old_rd) in
  let none := (opcode =? 0x37) || (opcode =? 0x17) || (opcode =? 0x6F) in
  let one := (opcode =? 0x13) || (opcode =? 0x03) || (opcode =? 0x67) || (opcode =? 0x73) in
  {| ii_pc := fi_pc fi;
     ii_instr := instr;
     ii_rd := if (opcode =? 0x23) || (opcode =? 0x63) then 0 else (instr .>> 7) .& 0x1F;
     ii_rs1 := if none then 0 else rs1;
     ii_rs2 := if none || one then 0 else rs2;
     ii_imm := id_imm opcode instr;
     ii_opcode := opcode;
     ii_funct3 := funct3;
     ii_funct7 := (instr .>> 25) .& 0x7F;
     ii_valid := true;
     ii_pred := {| predicted_taken := predicted_taken (fi_pred fi);
                   predicted_target := predicted_target (fi_pred fi);
                   is_ras_call := jump && is_call;
                   is_ras_return := jump && is_ret |} |}.

(** The latch that [Issue_stage] dispatches, with the operands of the register bank [r]. *)
Definition issue_dispatch (ii : ID_Issue_Latch) (r : Z -> Z) (rob_idx : Z) : Issue_EX_Latch :=
  {| ie_pc := ii_pc ii; ie_rs1_val := r (ii_rs1 ii); ie_rs2_val := r (ii_rs2 ii);
     ie_imm := ii_imm ii; ie_rd := ii_rd ii; ie_opcode := ii_opcode ii;
     ie_funct3 := ii_funct3 ii; ie_funct7 := ii_funct7 ii;
     ie_rob_index := rob_idx; ie_valid := true; ie_pred := ii_pred ii |}.

(** ** Execution: the pure part of [EX_stage] *)

Definition ex_op (l : Issue_EX_Latch) : Z :=
  let a := ie_rs1_val l in
  let b := ie_rs2_val l in
  let f3 := ie_funct3 l in
  if f3 =? 0 then if ie_funct7 l =? 0x20 then u32 (a - b) else u32 (a + b)
  else if f3 =? 1 then u32 (a .<< (b .& 0x1F))
  else if f3 =? 2 then Z.b2z (s32 a <? s32 b)
  else if f3 =? 3 then Z.b2z (a <? b)
  else if f3 =? 4 then a .^ b
  else if f3 =? 5 then
    if ie_funct7 l =? 0x20 then u32 (s32 a .>> (b .& 0x1F)) else a .>> (b .& 0x1F)
  else if f3 =? 6 then a .| b
  else if f3 =? 7 then a .& b
  else 0.

Definition ex_op_imm (l : Issue_EX_Latch) : Z :=
  let a := ie_rs1_val l in
  let imm := ie_imm l in
  let f3 := ie_funct3 l in
  if f3 =? 0 then u32 (a + imm)
  else if f3 =? 2 then Z.b2z (s32 a <? imm)
  else if f3 =? 3 then Z.b2z (a <? u32 imm)
  else if f3 =? 4 then a .^ u32 imm
  else if f3 =? 6 then a .| u32 imm
  else if f3 =? 7 then a .& u32 imm
  else if f3 =? 1 then u32 (a .<< (imm .& 0x1F))
  else if f3 =? 5 then
    if negb ((imm .& 0x400) =? 0) then u32 (s32 a .>> (imm .& 0x1F)) else a .>> (imm .& 0x1F)
  else 0.

Definition ex_branch_taken (l : Issue_EX_Latch) : bool :=
  let a := ie_rs1_val l in
  let b := ie_rs2_val l in
  let f3 := ie_funct3 l in
  if f3 =? 0 then a =? b
  else if f3 =? 1 then negb (a =? b)
  else if f3 =? 4 then s32 a <? s32 b
  else if f3 =? 5 then s32 b <=? s32 a
  else if f3 =? 6 then a <? b
  else if f3 =? 7 then b <=? a
  else false.

(** [result], [branch_taken] and [branch_target] after the switch on the opcode. *)
Definition ex_switch (l : Issue_EX_Latch) : Z * bool * Z :=
  let op := ie_opcode l in
  if op =? 0x33 then (ex_op l, false, 0)
  else if op =? 0x13 then (ex_op_imm l, false, 0)
  else if op =? 0x37 then (u32 (ie_imm l), false, 0)
  else if op =? 0x17 then (u32 (ie_pc l + ie_imm l), false, 0)
  else if op =? 0x6F then (u32 (ie_pc l + 4), true, u32 (ie_pc l + ie_imm l))
  else if op =? 0x67 then (u32 (ie_pc l + 4), true, u32 (ie_rs1_val l + ie_imm l) .&~ 1)
  else if op =? 0x63 then (0, ex_branch_taken l, u32 (ie_pc l + ie_imm l))
  else (0, false, 0).

Definition is_branch_op (op : Z) : bool := (op =? 0x63) || (op =? 0x6F) || (op =? 0x67).

(** The training of the predictor by a branch or jump. *)
Definition train (l : Issue_EX_Latch) (branch_taken : bool) (branch_target : Z)
    (p : predictor) : predictor :=
  let bi := btb_index (ie_pc l) in
  let hi := bht_index (ie_pc l) in
  let e := btb p !!! bi in
  if ie_opcode l =? 0x63 then
    let current_bht := bht p !!! hi in
    let p := if branch_taken
             then if current_bht <? 3 then { p with bht := <[hi := current_bht + 1]> (bht p) } else p
             else if 0 <? current_bht then { p with bht := <[hi := current_bht - 1]> (bht p) } else p in
    { p with btb := <[bi := mkBTB branch_target true false]> (btb p) }
  else
    let e := { e with btb_target := branch_target; btb_valid := true } in
    let p := { p with btb := <[bi := e]> (btb p); bht := <[hi := 3]> (bht p) } in
    let p := if is_ras_call (ie_pred l)
             then { p with ras := take 4 (u32 (ie_pc l + 4) :: ras p) } else p in
    if is_ras_return (ie_pred l)
    then { p with btb := <[bi := { e with btb_is_return := true }]> (btb p) } else p.

(** The prediction of [PCGen_stage]: taken, the target, and the predictor, whose return
    address stack it may pop. *)
Definition predict (current_pc : Z) (p : predictor) : bool * Z * predictor :=
  let e := btb p !!! btb_index current_pc in
  if btb_valid e then
    if btb_is_return e then
      match ras p with
      | t :: ras' => (true, t, { p with ras := ras' })
      | [] => (false, 0, p)
      end
    else if 2 <=? bht p !!! bht_index current_pc then (true, btb_target e, p)
    else (false, 0, p)
  else (false, 0, p).

Section cpu_p6.
Context {S : Type} `{Target S, DirectMem S}.
#[local] Abbreviation cpu := (cpuP6 S).

(** The constructor.  [bht] is not initialised: [bht0] is what the memory held. *)
Definition CPU_P6 (PC : Z) (bht0 : list Z) (m : S) : cpu :=
  let h := Registers 32 m in
  let h := { h with register_PC := wrap 32 PC } in
  let h := write_reg 2 (wrap 32 (SIZE / 4 - 1)) h in
  {| p6_core := h; p6_reg := no_latches; p6_next := no_latches;
     p6_ctl := mkControl PC false false false false 0 false (replicate 32 false);
     p6_pred := mkPredictor (replicate 128 inhabitant) bht0 [];
     rob := rob_new ROB_SIZE; store_buffer := stb_new SPEC_DEPTH COMMIT_DEPTH;
     p6_stats := mkP6Stats 0 0 0 0 0; p6_dmi := None; p6_out := [];
     p6_interrupt := false; p6_int_cause := 0; p6_stopped := false |}.

Definition set_pcgen_fetch (l : PCGen_Fetch_Latch) (c : cpu) : cpu :=
  { c with p6_next := { p6_next c with pcgen_fetch := l } }.
Definition set_fetch_id (l : Fetch_ID_Latch) (c : cpu) : cpu :=
  { c with p6_next := { p6_next c with fetch_id := l } }.
Definition set_id_issue (l : ID_Issue_Latch) (c : cpu) : cpu :=
  { c with p6_next := { p6_next c with id_issue := l } }.
Definition set_issue_ex (l : Issue_EX_Latch) (c : cpu) : cpu :=
  { c with p6_next := { p6_next c with issue_ex := l } }.
Definition set_ex_commit (l : EX_Commit_Latch) (c : cpu) : cpu :=
  { c with p6_next := { p6_next c with ex_commit := l } }.

Definition count_stall (c : cpu) : cpu :=
  { c with p6_stats := { p6_stats c with p6_stalls := u64 (p6_stalls (p6_stats c) + 1) } }.
Definition count_branch (c : cpu) : cpu :=
  { c with p6_stats := { p6_stats c with p6_branches := u64 (p6_branches (p6_stats c) + 1) } }.
Definition count_mispredict (c : cpu) : cpu :=
  { c with p6_stats := { p6_stats c with p6_mispredicts := u64 (p6_mispredicts (p6_stats c) + 1) } }.
Definition count_instruction (c : cpu) : cpu :=
  { c with p6_stats := { p6_stats c with p6_instructions := u64 (p6_instructions (p6_stats c) + 1) } }.
Definition count_cycle (c : cpu) : cpu :=
  { c with p6_stats := { p6_stats c with p6_cycles := u64 (p6_cycles (p6_stats c) + 1) } }.

(** ** The stages *)

Definition PCGen_stage (c : cpu) : cpu :=
  let k := p6_ctl c in
  let l := pcgen_fetch (p6_next c) in
  if flush_pipeline k then
    set_pcgen_fetch { l with pf_valid := false }
      { c with p6_ctl := { k with p6_next_pc := pc_redirect_target k; flush_pipeline := false;
                                  pc_redirect_valid := false } }
  else if stall_pcgen k then c
  else
    let current_pc := p6_next_pc k in
    let '(predict_taken, pt_target, p) := predict current_pc (p6_pred c) in
    set_pcgen_fetch
      {| pf_pc := current_pc; pf_valid := true;
         pf_pred := { pf_pred l with predicted_taken := predict_taken; predicted_target := pt_target } |}
      { c with p6_pred := p;
               p6_ctl := { k with p6_next_pc := if predict_taken then pt_target
                                             else u32 (current_pc + 4) } }.

(** The word, if the bus answers, and the core with the window that was granted. *)
Definition P6_fetch_instruction (addr : Z) (c : cpu) : option (option Z * cpu) :=
  let bus :=
    let '(trans, _, s) :=
      b_transport (mkPayload TLM_READ addr (le_split 4 0) false TLM_INCOMPLETE false) 0
        (mem_intf (p6_core c)) in
    let c := { c with p6_core := { p6_core c with mem_intf := s } } in
    if is_response_error trans then Some (None, c)
    else
      let c := if p_dmi_allowed trans && get_direct_mem_ptr s
               then { c with p6_dmi := Some dmi_window } else c in
      Some (Some (le_combine (p_data trans)), c) in
  match p6_dmi c with
  | Some (dmi_start_addr, dmi_end_addr) =>
      if (dmi_start_addr <=? addr) && (u32 (addr + 4) <=? dmi_end_addr) then
        match direct_read (addr - dmi_start_addr) 4 (mem_intf (p6_core c)) with
        | Some data => Some (Some (le_combine data), c)
        | None => None
        end
      else bus
  | None => bus
  end.

Definition Fetch_stage (c : cpu) : option cpu :=
  let k := p6_ctl c in
  let l := fetch_id (p6_next c) in
  let pf := pcgen_fetch (p6_reg c) in
  if flush_pipeline k then Some (set_fetch_id { l with fi_valid := false } c)
  else if stall_fetch k then Some c
  else if negb (pf_valid pf) then Some (set_fetch_id { l with fi_valid := false } c)
  else
    match P6_fetch_instruction (pf_pc pf) c with
    | None => None
    | Some (Some instr, c) =>
        Some (set_fetch_id
          {| fi_pc := pf_pc pf; fi_instr := instr; fi_valid := true;
             fi_pred := { fi_pred l with predicted_taken := predicted_taken (pf_pred pf);
                                         predicted_target := predicted_target (pf_pred pf) } |} c)
    | Some (None, c) => Some (set_fetch_id { l with fi_valid := false } c)
    end.

Definition ID_stage (c : cpu) : cpu :=
  let k := p6_ctl c in
  let l := id_issue (p6_next c) in
  let fi := fetch_id (p6_reg c) in
  if flush_pipeline k then set_id_issue { l with ii_valid := false } c
  else if stall_issue k then c
  else if negb (fi_valid fi) then set_id_issue { l with ii_valid := false } c
  else set_id_issue (id_decode (ii_rd l) fi) c.

(** The stall that three of the tests of [Issue_stage] end in. *)
Definition issue_bubble (c : cpu) : cpu :=
  set_issue_ex { issue_ex (p6_next c) with ie_valid := false } c.
Definition issue_stalls (c : cpu) : cpu :=
  count_stall (issue_bubble
    { c with p6_ctl := { p6_ctl c with stall_issue := true; stall_fetch := true; stall_pcgen := true } }).

Definition Issue_stage (c : cpu) : cpu :=
  let c := { c with p6_ctl := { p6_ctl c with stall_pcgen := false; stall_fetch := false;
                                               stall_issue := false } } in
  let ii := id_issue (p6_reg c) in
  let sb := scoreboard (p6_ctl c) in
  if flush_pipeline (p6_ctl c) then issue_bubble c
  else if negb (ii_valid ii) then issue_bubble c
  else if (sb !!! Z.to_nat (ii_rs1 ii)) || (sb !!! Z.to_nat (ii_rs2 ii)) then issue_stalls c
  else if (ii_opcode ii =? 0x23) && stb_is_full SPEC_DEPTH (store_buffer c) then issue_stalls c
  else
    let '(rob_idx, r) := rob_allocate ROB_SIZE (rob c) in
    if rob_idx <? 0 then issue_stalls { c with rob := r }
    else
      let e := rob_entries r !!! Z.to_nat rob_idx in
      let e := { e with rob_pc := ii_pc ii; rob_is_store := ii_opcode ii =? 0x23;
                        rob_is_branch := is_branch_op (ii_opcode ii) } in
      let c := { c with rob := { r with rob_entries := <[Z.to_nat rob_idx := e]> (rob_entries r) } } in
      if ii_instr ii =? 0 then
        let c := { c with rob := rob_flush (rob c);
                          p6_ctl := { p6_ctl c with scoreboard := replicate 32 false } } in
        { issue_bubble c with p6_stopped := true }
      else
        let c := set_issue_ex (issue_dispatch ii (reg (p6_core c)) rob_idx) c in
        if negb (ii_rd ii =? 0)
        then { c with p6_ctl := { p6_ctl c with scoreboard := <[Z.to_nat (ii_rd ii) := true]> sb } }
        else c.

(** [write(fd, buf, count)]: the bytes go out one at a time. *)
Fixpoint ecall_write (count : nat) (out a1 i : Z) (c : cpu) : option cpu :=
  match count with
  | O => Some c
  | Datatypes.S count =>
      match readDataMem (u32 (a1 + i)) 1 (mem_intf (p6_core c)) with
      | (Some byte, s) =>
          ecall_write count out a1 (i + 1)
            { c with p6_core := { p6_core c with mem_intf := s }; p6_out := p6_out c ++ [(out, u8 byte)] }
      | (None, _) => None
      end
  end.

Definition ecall (c : cpu) : option cpu :=
  let h := p6_core c in
  let syscall_num := reg h 17 in
  let a0 := reg h 10 in
  let a1 := reg h 11 in
  let a2 := reg h 12 in
  if syscall_num =? 64 then
    match (if ((a0 =? 1) || (a0 =? 2)) && (0 <? a2) then ecall_write (Z.to_nat a2) a0 a1 0 c else Some c) with
    | None => None
    | Some c => Some { c with p6_core := write_reg 10 a2 (p6_core c) }
    end
  else if (syscall_num =? 93) || (syscall_num =? 1) then Some { c with p6_stopped := true }
  else if syscall_num =? 214 then Some { c with p6_core := write_reg 10 0 h }
  else Some { c with p6_core := write_reg 10 (u32 (-38)) h }.

(** The load of [EX_stage]: the result it replaces is 0. *)
Definition ex_load (l : Issue_EX_Latch) (s : S) : option (Z * S) :=
  let addr := u32 (ie_rs1_val l + ie_imm l) in
  let read size (ext : Z -> Z) :=
    match readDataMem addr size s with (Some v, s) => Some (ext v, s) | (None, _) => None end in
  let f3 := ie_funct3 l in
  if f3 =? 0 then read 1 (fun v => u32 (s8 v))
  else if f3 =? 1 then read 2 (fun v => u32 (s16 v))
  else if f3 =? 2 then read 4 (fun v => v)
  else if f3 =? 4 then read 1 (fun v => v)
  else if f3 =? 5 then read 2 (fun v => v)
  else Some (0, s).

(** Verification of the prediction, training and redirection. *)
Definition ex_resolve (l : Issue_EX_Latch) (branch_taken : bool) (branch_target : Z) (c : cpu) : cpu :=
  let mispredict := negb (Bool.eqb branch_taken (predicted_taken (ie_pred l))) ||
                    (branch_taken && negb (branch_target =? predicted_target (ie_pred l))) in
  let c := { c with p6_pred := train l branch_taken branch_target (p6_pred c) } in
  if mispredict then
    let c := { c with p6_ctl := { p6_ctl c with
                 pc_redirect_target := if branch_taken then branch_target else u32 (ie_pc l + 4);
                 pc_redirect_valid := true; flush_pipeline := true } } in
    let c := count_mispredict c in
    { c with p6_pred := { p6_pred c with ras := [] } }
  else c.

Definition ex_store_size (funct3 : Z) : Z :=
  if funct3 =? 0 then 1 else if funct3 =? 1 then 2 else if funct3 =? 2 then 4 else 0.

(** The latch to Commit; the fields of a store keep their values if it is none. *)
Definition ex_latch (l : Issue_EX_Latch) (result : Z) (old : EX_Commit_Latch) : EX_Commit_Latch :=
  let l' := { old with ec_result := result; ec_rd := ie_rd l; ec_rob_index := ie_rob_index l;
                       ec_is_store := ie_opcode l =? 0x23; ec_valid := true } in
  if ie_opcode l =? 0x23
  then { l' with ec_store_addr := u32 (ie_rs1_val l + ie_imm l); ec_store_data := ie_rs2_val l;
                 ec_store_size := ex_store_size (ie_funct3 l) }
  else l'.

Definition P6_EX_stage (c : cpu) : option cpu :=
  let l := issue_ex (p6_reg c) in
  if negb (ie_valid l) then Some (set_ex_commit { ex_commit (p6_next c) with ec_valid := false } c)
  else
    let '(result, branch_taken, branch_target) := ex_switch l in
    let c := if ie_opcode l =? 0x63 then count_branch c else c in
    match (if ie_opcode l =? 0x03 then ex_load l (mem_intf (p6_core c))
           else Some (result, mem_intf (p6_core c))) with
    | None => None
    | Some (result, s) =>
      let c := { c with p6_core := { p6_core c with mem_intf := s } } in
      let c := if is_branch_op (ie_opcode l) then ex_resolve l branch_taken branch_target c else c in
      match (if (ie_opcode l =? 0x73) && (ie_funct3 l =? 0) && (ie_imm l =? 0)
             then ecall c else Some c) with
      | None => None
      | Some c => Some (set_ex_commit (ex_latch l result (ex_commit (p6_next c))) c)
      end
    end.

(** The retirement of the store at the head: [commit_store], [drain_one] and the write. *)
Definition commit_stores (c : cpu) : option cpu :=
  let b := (commit_store SPEC_DEPTH COMMIT_DEPTH (store_buffer c)).2 in
  let '(drained, b) := drain_one COMMIT_DEPTH b in
  let c := { c with store_buffer := b } in
  match drained with
  | Some (addr, data, size) =>
      match writeDataMem addr (u32 data) size (mem_intf (p6_core c)) with
      | (Some _, s) => Some { c with p6_core := { p6_core c with mem_intf := s } }
      | (None, _) => None
      end
  | None => Some c
  end.

Definition Commit_stage (c : cpu) : option cpu :=
  let l := ex_commit (p6_reg c) in
  let c :=
    if ec_valid l && (0 <=? ec_rob_index l) then
      let c := { c with rob := rob_complete ROB_SIZE (ec_rob_index l) (ec_result l) (ec_rd l) (rob c) } in
      if ec_is_store l
      then { c with store_buffer :=
               (add_store SPEC_DEPTH (ec_store_addr l) (ec_store_data l) (ec_store_size l)
                  (ec_rob_index l) (store_buffer c)).2 }
      else c
    else c in
  if rob_head_ready (rob c) then
    let entry := rob_get_head (rob c) in
    match (if rob_is_store entry then commit_stores c else Some c) with
    | None => None
    | Some c =>
      let c :=
        if negb (rob_dest_reg entry =? 0) then
          { c with p6_core := write_reg (rob_dest_reg entry) (u32 (rob_result entry)) (p6_core c);
                   p6_ctl := { p6_ctl c with scoreboard :=
                     <[Z.to_nat (rob_dest_reg entry) := false]> (scoreboard (p6_ctl c)) } }
        else c in
      let c := count_instruction c in
      Some { c with rob := rob_retire ROB_SIZE (rob c) }
    end
  else Some c.

(** ** The cycle *)

(** The pipeline has drained: the end of the simulation. *)
Definition P6_terminates (this_cycle_flush : bool) (c : cpu) : bool :=
  (100 <? p6_cycles (p6_stats c)) && negb this_cycle_flush &&
  negb (pf_valid (pcgen_fetch (p6_reg c))) && negb (pf_valid (pcgen_fetch (p6_next c))) &&
  negb (fi_valid (fetch_id (p6_reg c))) && negb (ii_valid (id_issue (p6_reg c))) &&
  negb (ie_valid (issue_ex (p6_reg c))) && rob_is_empty (rob c).

(** One turn of [cycle_thread]; the thread does not run after [sc_stop]. *)
Definition P6_cycle (c : cpu) : option cpu :=
  if p6_stopped c then Some c
  else
    match Commit_stage { c with p6_reg := p6_next c } with
    | None => None
    | Some c =>
      match P6_EX_stage c with
      | None => None
      | Some c =>
        let this_cycle_flush := flush_pipeline (p6_ctl c) in
        match Fetch_stage (ID_stage (Issue_stage c)) with
        | None => None
        | Some c =>
          let c := count_cycle (PCGen_stage c) in
          Some (if P6_terminates this_cycle_flush c then { c with p6_stopped := true } else c)
        end
      end
    end.

Fixpoint P6_cycles (n : nat) (c : cpu) : option cpu :=
  match n with
  | O => Some c
  | Datatypes.S n => match P6_cycle c with Some c => P6_cycles n c | None => None end
  end.

Definition P6_call_interrupt (m_trans : payload) (c : cpu) : cpu * Z :=
  ({ c with p6_interrupt := true; p6_int_cause := le_combine (take 4 (p_data m_trans)) }, 0).
End cpu_p6.
