(* ===== verification/CpuP6Exec.v ===== *)
(** Decoding and execution in the six-stage RV32 core: what [id_decode] makes of an
    assembled instruction, and that [ex_switch], [ex_load] and the store fields of the
    latch compute what the architecture specifies. *)
From S2P Require Import Prelude Bytes Memory PhysMem Regs BaseISA BaseISAProofs ROB StoreBuffer CpuP6.
Import RegsH.

(** ** The instructions the core executes *)

Definition is_store_op (op : opCodes) : bool :=
  match op with OP_SB | OP_SH | OP_SW => true | _ => false end.
Definition is_load_op (op : opCodes) : bool :=
  match op with OP_LB | OP_LH | OP_LW | OP_LBU | OP_LHU => true | _ => false end.
Definition is_cond_op (op : opCodes) : bool :=
  match op with OP_BEQ | OP_BNE | OP_BLT | OP_BGE | OP_BLTU | OP_BGEU => true | _ => false end.
Definition is_jump_op (op : opCodes) : bool :=
  match op with OP_JAL | OP_JALR => true | _ => false end.
Definition is_alu_op (op : opCodes) : bool :=
  match op with
  | OP_LUI | OP_AUIPC | OP_ADDI | OP_SLTI | OP_SLTIU | OP_XORI | OP_ORI | OP_ANDI
  | OP_SLLI | OP_SRLI | OP_SRAI
  | OP_ADD | OP_SUB | OP_SLL | OP_SLT | OP_SLTU | OP_XOR | OP_SRL | OP_SRA | OP_OR | OP_AND => true
  | _ => false
  end.
Definition is_control_op (op : opCodes) : bool := is_cond_op op || is_jump_op op.

(** RV32I without FENCE and the system instructions. *)
Definition rv32i (op : opCodes) : bool :=
  is_alu_op op || is_load_op op || is_store_op op || is_control_op op.

(** The immediate shifts of RV32 have amounts below 32. *)
Definition shift_ok (i : asm) : Prop := fmt (a_op i) = Some FShift -> a_imm i < 32.

(** The register an instruction writes (0 for none) and the registers it reads, as the
    masked fields of the decoder. *)
Definition dest (i : asm) : Z :=
  match fmt (a_op i) with Some (FU | FJ | FI | FShift | FR) => a_rd i | _ => 0 end.
Definition src1 (i : asm) : Z :=
  match fmt (a_op i) with Some (FI | FShift | FB | FS | FR) => a_rs1 i | _ => 0 end.
Definition src2 (i : asm) : Z :=
  match fmt (a_op i) with Some (FB | FS | FR) => a_rs2 i | _ => 0 end.

Lemma dest_range i : asm_ok i -> 0 <= dest i < 32.
Proof. intros [_ ? _ _ _]. unfold dest. repeat case_match; lia. Qed.
Lemma src1_range i : asm_ok i -> 0 <= src1 i < 32.
Proof. intros [_ _ ? _ _]. unfold src1. repeat case_match; lia. Qed.
Lemma src2_range i : asm_ok i -> 0 <= src2 i < 32.
Proof. intros [_ _ _ ? _]. unfold src2. repeat case_match; lia. Qed.

(** ** Decoding *)

Lemma sext_spec n x :
  0 <= n < 32 -> fits (32 - n) x ->
  sext n x = if 2 ^ (31 - n) <=? x then x - 2 ^ (32 - n) else x.
Proof.
  intros Hn Hx. unfold sext. rewrite Z.shiftl_mul_pow2, Z.shiftr_div_pow2 by lia.
  unfold fits in Hx. pose proof (pow2_pos n ltac:(lia)).
  assert (2 ^ 32 = 2 ^ (32 - n) * 2 ^ n) as E by (rewrite <-Z.pow_add_r by lia; f_equal; lia).
  assert (2 ^ 31 = 2 ^ (31 - n) * 2 ^ n) as E' by (rewrite <-Z.pow_add_r by lia; f_equal; lia).
  unfold signed. rewrite wrap_small by (unfold fits; nia). change (32 - 1) with 31.
  destruct (Z.ltb_spec (x * 2 ^ n) (2 ^ 31)), (Z.leb_spec (2 ^ (31 - n)) x); try nia.
  - by rewrite Z.div_mul by lia.
  - rewrite E. replace (x * 2 ^ n - 2 ^ (32 - n) * 2 ^ n) with ((x - 2 ^ (32 - n)) * 2 ^ n) by lia.
    by rewrite Z.div_mul by lia.
Qed.

Lemma s32_word w : fits 32 w -> s32 w = if 2 ^ 31 <=? w then w - 2 ^ 32 else w.
Proof.
  intros Hw. unfold signed. rewrite wrap_small by done. change (32 - 1) with 31.
  destruct (Z.ltb_spec w (2 ^ 31)), (Z.leb_spec (2 ^ 31) w); (done || lia).
Qed.

Section imm.
Variable w : Z.
Hypothesis Hw : fits 32 w.

(** Both sides are arithmetic in the fields of [w]. *)
Ltac imm :=
  unfold fits in Hw;
  repeat match goal with |- context [?a <=? ?b] => destruct (Z.leb_spec a b) end;
  Z.to_euclidean_division_equations; lia.

Lemma imm_I : s32 w .>> 20 = get_imm_I 32 w.
Proof.
  rewrite s32_word, get_imm_I_word, Z.shiftr_div_pow2 by (auto || lia). imm.
Qed.

Lemma field_div lo k : 0 <= lo -> 0 <= k -> (w .>> lo) .& Z.ones k = (w / 2 ^ lo) mod 2 ^ k.
Proof. intros. by rewrite Z.land_ones, Z.shiftr_div_pow2 by lia. Qed.

Lemma top_div lo : 0 <= lo -> w .>> lo = w / 2 ^ lo.
Proof. intros. by apply Z.shiftr_div_pow2. Qed.

Lemma imm_S : sext 20 (((w .>> 25) .<< 5) .| ((w .>> 7) .& 0x1F)) = get_imm_S 32 w.
Proof.
  change 0x1F with (Z.ones 5). rewrite get_imm_S_word by auto.
  rewrite field_div, top_div by lia.
  rewrite lor_shiftl_add by (try lia; unfold fits; apply Z.mod_pos_bound; lia).
  rewrite sext_spec by (try lia; unfold fits in *; Z.to_euclidean_division_equations; lia).
  imm.
Qed.

Lemma imm_B :
  sext 19 (((w .>> 31) .<< 12) .| (((w .>> 7) .& 1) .<< 11) .|
           (((w .>> 25) .& 0x3F) .<< 5) .| (((w .>> 8) .& 0xF) .<< 1)) = get_imm_B 32 w.
Proof.
  rewrite get_imm_B_word by auto.
  change ((w .>> 7) .& 1) with ((w .>> 7) .& Z.ones 1).
  change 0x3F with (Z.ones 6). change 0xF with (Z.ones 4).
  rewrite !field_div, top_div by lia.
  pose proof (Z.mod_pos_bound (w / 2 ^ 7) (2 ^ 1) ltac:(lia)) as B1.
  pose proof (Z.mod_pos_bound (w / 2 ^ 25) (2 ^ 6) ltac:(lia)) as B2.
  pose proof (Z.mod_pos_bound (w / 2 ^ 8) (2 ^ 4) ltac:(lia)) as B3.
  rewrite lor_shiftl_add by (try lia; rewrite ?Z.shiftl_mul_pow2 by lia; unfold fits; lia).
  rewrite (Z.shiftl_mul_pow2 _ 11), (Z.shiftl_mul_pow2 _ 5), (Z.shiftl_mul_pow2 _ 1) by lia.
  set (x7 := (w / 2 ^ 7) mod 2 ^ 1) in *. set (x25 := (w / 2 ^ 25) mod 2 ^ 6) in *.
  set (x8 := (w / 2 ^ 8) mod 2 ^ 4) in *. set (x31 := w / 2 ^ 31).
  replace (x31 * 2 ^ 12 + x7 * 2 ^ 11) with ((x31 * 2 + x7) * 2 ^ 11) by lia.
  rewrite lor_mul_add by (unfold fits; lia).
  replace ((x31 * 2 + x7) * 2 ^ 11 + x25 * 2 ^ 5) with (((x31 * 2 + x7) * 2 ^ 6 + x25) * 2 ^ 5) by lia.
  rewrite lor_mul_add by (unfold fits; lia).
  subst x7 x25 x8 x31.
  rewrite sext_spec by (try lia; unfold fits in *; Z.to_euclidean_division_equations; lia).
  imm.
Qed.

Lemma imm_J :
  sext 11 (((w .>> 31) .<< 20) .| (((w .>> 12) .& 0xFF) .<< 12) .|
           (((w .>> 20) .& 1) .<< 11) .| (((w .>> 21) .& 0x3FF) .<< 1)) = get_imm_J 32 w.
Proof.
  rewrite get_imm_J_word by auto.
  change ((w .>> 20) .& 1) with ((w .>> 20) .& Z.ones 1).
  change 0xFF with (Z.ones 8). change 0x3FF with (Z.ones 10).
  rewrite !field_div, top_div by lia.
  pose proof (Z.mod_pos_bound (w / 2 ^ 12) (2 ^ 8) ltac:(lia)) as B1.
  pose proof (Z.mod_pos_bound (w / 2 ^ 20) (2 ^ 1) ltac:(lia)) as B2.
  pose proof (Z.mod_pos_bound (w / 2 ^ 21) (2 ^ 10) ltac:(lia)) as B3.
  rewrite lor_shiftl_add by (try lia; rewrite ?Z.shiftl_mul_pow2 by lia; unfold fits; lia).
  rewrite (Z.shiftl_mul_pow2 _ 12), (Z.shiftl_mul_pow2 _ 11), (Z.shiftl_mul_pow2 _ 1) by lia.
  set (x12 := (w / 2 ^ 12) mod 2 ^ 8) in *. set (x20 := (w / 2 ^ 20) mod 2 ^ 1) in *.
  set (x21 := (w / 2 ^ 21) mod 2 ^ 10) in *. set (x31 := w / 2 ^ 31).
  replace (x31 * 2 ^ 20 + x12 * 2 ^ 12) with ((x31 * 2 ^ 8 + x12) * 2 ^ 12) by lia.
  rewrite lor_mul_add by (unfold fits; lia).
  replace ((x31 * 2 ^ 8 + x12) * 2 ^ 12 + x20 * 2 ^ 11) with
    (((x31 * 2 ^ 8 + x12) * 2 + x20) * 2 ^ 11) by lia.
  rewrite lor_mul_add by (unfold fits; lia).
  subst x12 x20 x21 x31.
  rewrite sext_spec by (try lia; unfold fits in *; Z.to_euclidean_division_equations; lia).
  imm.
Qed.

Lemma imm_U : s32 (w .& 0xFFFFF000) = s32 (get_imm_U w * 2 ^ 12).
Proof.
  f_equal. unfold get_imm_U. rewrite bits_div by lia.
  replace (w .& 0xFFFFF000) with ((w .>> 12) .<< 12).
  - rewrite Z.shiftl_mul_pow2, Z.shiftr_div_pow2 by lia. f_equal. symmetry. apply Z.mod_small.
    unfold fits in Hw. Z.to_euclidean_division_equations; lia.
  - rewrite <-Z.ldiff_ones_r by lia. apply (bits_inj_fits 32); [lia| | |].
    + by apply fits_ldiff.
    + by apply fits_land_l.
    + intros j Hj. rewrite Z.ldiff_spec, Z.land_spec. f_equal.
      assert (0xFFFFF000 = Z.ones 32 .&~ Z.ones 12) as -> by reflexivity.
      rewrite Z.ldiff_spec, (Z.ones_spec_low 32) by lia. done.
Qed.
End imm.

(** The immediate the latch carries for the instruction [i]. *)
Definition latch_imm (i : asm) : Z :=
  match fmt (a_op i) with
  | Some FU => s32 (a_imm i * 2 ^ 12)
  | Some FShift => (code_of (a_op i)).2 * 32 + a_imm i
  | Some (FJ | FB | FI | FS) => a_imm i
  | _ => 0
  end.

Lemma id_decode_fields old fi :
  let w := fi_instr fi in
  let l := id_decode old fi in
  ii_pc l = fi_pc fi /\ ii_instr l = w /\ ii_opcode l = opcode w /\ ii_funct3 l = get_funct3 w /\
  ii_funct7 l = get_funct7 w /\ ii_valid l = true /\ ii_imm l = id_imm (opcode w) w /\
  ii_rd l = (if (opcode w =? 0x23) || (opcode w =? 0x63) then 0 else get_rd w) /\
  ii_rs1 l = (if (opcode w =? 0x37) || (opcode w =? 0x17) || (opcode w =? 0x6F) then 0 else get_rs1 w) /\
  ii_rs2 l = (if (opcode w =? 0x37) || (opcode w =? 0x17) || (opcode w =? 0x6F) ||
                 ((opcode w =? 0x13) || (opcode w =? 0x03) || (opcode w =? 0x67) || (opcode w =? 0x73))
              then 0 else get_rs2 w).
Proof.
  intros w l. subst w l. unfold id_decode.
  change 0x7F with (Z.ones 7). rewrite <-(Z.shiftr_0_r (fi_instr fi)) at 1. done.
Qed.

(** The codes of the manual are the fields of the encoding. *)
Lemma encode_codes i :
  asm_ok i ->
  let '(opc, f3, f7) := code_of (a_op i) in
  opcode (encode i) = opc /\
  match fmt (a_op i) with Some (FU | FJ) => True | _ => get_funct3 (encode i) = f3 end /\
  match fmt (a_op i) with
  | Some FR => get_funct7 (encode i) = f7
  | Some FShift => get_funct7 (encode i) = f7 + a_imm i / 32
  | _ => True
  end.
Proof.
  destruct i as [op rd rs1 rs2 u]. intros [Hop H1 H2 H3 H4]. simpl in *.
  unfold encode, imm_range in *. simpl in *.
  destruct op; try done; cbn [code_of fmt] in *; cbv zeta;
    repeat match goal with H : _ /\ _ |- _ => destruct H end;
    unfold opcode, get_funct3, get_funct7; rewrite !bits_div by lia; unfold word;
    split_and!; try done; Z.to_euclidean_division_equations; lia.
Qed.

(** What the latch to Issue holds for the instruction [i]. *)
Record decoded (i : asm) (pc : Z) (l : ID_Issue_Latch) : Prop := {
  d_pc : ii_pc l = pc;
  d_instr : ii_instr l <> 0;
  d_valid : ii_valid l = true;
  d_rd : ii_rd l = dest i;
  d_rs1 : ii_rs1 l = src1 i;
  d_rs2 : ii_rs2 l = src2 i;
  d_opcode : ii_opcode l = (code_of (a_op i)).1.1;
  d_funct3 : fmt (a_op i) <> Some FU -> fmt (a_op i) <> Some FJ -> ii_funct3 l = (code_of (a_op i)).1.2;
  d_funct7 : fmt (a_op i) = Some FR -> ii_funct7 l = (code_of (a_op i)).2;
  d_imm : ii_imm l = latch_imm i
}.

Lemma id_imm_encode i :
  asm_ok i -> rv32i (a_op i) = true -> shift_ok i ->
  id_imm (code_of (a_op i)).1.1 (encode i) = latch_imm i.
Proof.
  intros Hi Hr Hs. pose proof (encode_codes i Hi) as Hc.
  destruct (encode_word i Hi) as (f7 & rs2 & rs1 & f3 & rd & opc & Hw & _ & Ho).
  pose proof (is_word_decode _ _ _ _ _ _ _ Hw) as (Hf & _).
  destruct (decode_encode_lemma 32 i ltac:(by left) Hi) as (_ & _ & Hop).
  assert (get_funct7 (encode i) = f7) as E7
    by (destruct Hw as (-> & ? & ? & ? & ? & ? & ?); by apply word_funct7).
  unfold shift_ok, latch_imm, operands in *. destruct (a_op i); try discriminate Hr;
    cbn [code_of fmt fst snd] in *; unfold id_imm; cbn [Z.eqb Pos.eqb orb];
    rewrite ?imm_I, ?imm_S, ?imm_B, ?imm_J, ?imm_U by done; try tauto.
  1,2: by destruct Hop as [_ ->].
  all: rewrite (itype_imm 32 ltac:(by left) f7 rs2 rs1 f3 rd opc) by done.
  all: specialize (Hs eq_refl); destruct Ho as (_ & _ & Ho), Hc as (_ & _ & Hc).
  all: destruct Hw as (_ & ? & ? & _).
  all: destruct (Z.leb_spec 64 f7); Z.to_euclidean_division_equations; lia.
Qed.

Lemma id_decode_encode old fi i :
  asm_ok i -> rv32i (a_op i) = true -> shift_ok i -> fi_instr fi = encode i ->
  decoded i (fi_pc fi) (id_decode old fi).
Proof.
  intros Hi Hr Hs Hw. pose proof (id_decode_fields old fi) as F. cbv zeta in F. rewrite Hw in F.
  destruct F as (F1 & F2 & F3 & F4 & F5 & F6 & F7 & F8 & F9 & F10).
  pose proof (id_imm_encode i Hi Hr Hs) as Him.
  pose proof (encode_codes i Hi) as Hc.
  destruct (decode_encode_lemma 32 i ltac:(by left) Hi) as (_ & Hd & Hop).
  destruct (code_of (a_op i)) as [[opc f3] f7] eqn:Ec. simpl in Him.
  destruct Hc as (Hc1 & Hc2 & Hc3). rewrite Hc1 in *.
  split; try assumption.
  - rewrite F2. intros E0. rewrite E0 in Hd. by rewrite <-Hd in Hr.
  - rewrite F8. unfold dest, operands in *.
    destruct (a_op i); try discriminate Hr; cbn [code_of fmt] in *; injection Ec as <- <- <-;
      cbn [Z.eqb Pos.eqb orb]; try done; tauto.
  - rewrite F9. unfold src1, operands in *.
    destruct (a_op i); try discriminate Hr; cbn [code_of fmt] in *; injection Ec as <- <- <-;
      cbn [Z.eqb Pos.eqb orb]; try done; tauto.
  - rewrite F10. unfold src2, operands in *.
    destruct (a_op i); try discriminate Hr; cbn [code_of fmt] in *; injection Ec as <- <- <-;
      cbn [Z.eqb Pos.eqb orb]; try done; tauto.
  - by rewrite Ec.
  - rewrite Ec, F4. intros N1 N2. by destruct (fmt (a_op i)) as [[]|].
  - rewrite Ec, F5. intros N. by rewrite N in Hc3.
  - by rewrite F7.
Qed.

(** ** Execution *)

(** The latch to EX for the instruction [i] with operands from the registers [r]. *)
Record issued (i : asm) (pc : Z) (r : Z -> Z) (l : Issue_EX_Latch) : Prop := {
  x_pc : ie_pc l = pc;
  x_a : ie_rs1_val l = r (src1 i);
  x_b : ie_rs2_val l = r (src2 i);
  x_imm : ie_imm l = latch_imm i;
  x_rd : ie_rd l = dest i;
  x_opcode : ie_opcode l = (code_of (a_op i)).1.1;
  x_funct3 : fmt (a_op i) <> Some FU -> fmt (a_op i) <> Some FJ -> ie_funct3 l = (code_of (a_op i)).1.2;
  x_funct7 : fmt (a_op i) = Some FR -> ie_funct7 l = (code_of (a_op i)).2;
  x_valid : ie_valid l = true
}.

Lemma issue_dispatch_issued i pc ii r idx :
  decoded i pc ii -> issued i pc r (issue_dispatch ii r idx).
Proof. intros [? ? ? ? E1 E2 ? ? ? ?]. split; try done; simpl; by rewrite ?E1, ?E2. Qed.

Lemma signed_imm u : - 2 ^ 11 <= u < 2 ^ 11 -> s32 (u32 u) = u.
Proof. intros. rewrite signed_wrap. apply signed_id; lia. Qed.

Lemma srai_bit u : 0 <= u < 32 -> negb (((0x20 * 32 + u) .& 0x400) =? 0) = true.
Proof.
  intros Hu. change 0x400 with (1 .<< 10). rewrite land_bit, negb_involutive by lia.
  assert (bit 10 (0x20 * 32 + u) = 1) as E by (rewrite bit_div by lia; Z.to_euclidean_division_equations; lia).
  unfold bit in E. by destruct (Z.testbit _ 10).
Qed.
Lemma srli_bit u : 0 <= u < 32 -> negb ((u .& 0x400) =? 0) = false.
Proof.
  intros Hu. change 0x400 with (1 .<< 10). rewrite land_bit, negb_involutive by lia.
  apply (fits_testbit 5); unfold fits; lia.
Qed.

Section ex.
Variables (i : asm) (pc : Z) (r : Z -> Z) (l : Issue_EX_Latch).
Hypotheses (Hi : asm_ok i) (Hs : shift_ok i) (Hl : issued i pc r l).

(** Reads the fields of the latch off [issued]. *)
Ltac latch_fields :=
  destruct Hl as [Xpc Xa Xb Xim Xrd Xop Xf3 Xf7 _];
  unfold shift_ok, latch_imm, src1, src2, dest in *.
Ltac latch_case :=
  cbn [code_of fmt fst snd] in *;
  repeat match goal with H : ?A <> ?B -> _ |- _ => specialize (H ltac:(discriminate)) end;
  repeat match goal with H : ?A = ?A -> _ |- _ => specialize (H eq_refl) end.

Lemma ex_alu c :
  alu_class_of (a_op i) = Some c -> rv32i (a_op i) = true ->
  ex_switch l = (alu_spec 32 (a_op i) (asm_src1 i pc r) (asm_src2 32 c i r), false, 0).
Proof.
  intros Hc Hr. pose proof (ao_imm i Hi) as Himm. unfold imm_range in Himm. latch_fields.
  unfold ex_switch, asm_src1, asm_src2.
  destruct (a_op i); try discriminate Hr; try discriminate Hc; injection Hc as <-; latch_case;
    rewrite Xop; cbn [Z.eqb Pos.eqb]; cbv iota; unfold ex_op, ex_op_imm;
    rewrite ?Xf3, ?Xf7, ?Xa, ?Xb, ?Xim, ?Xpc; cbn [Z.eqb Pos.eqb]; cbv iota;
    rewrite ?srai_bit, ?srli_bit by lia; cbv iota;
    unfold alu_spec; rewrite ?land_31, ?Z.mul_0_l, ?Z.add_0_l;
    rewrite ?Z.shiftl_mul_pow2, ?Z.shiftr_div_pow2 by (apply Z.mod_pos_bound; lia);
    rewrite ?wrap_add_r, ?signed_imm by lia; try reflexivity.
  by replace ((0x20 * 32 + a_imm i) mod 32) with (a_imm i mod 32)
    by (Z.to_euclidean_division_equations; lia).
Qed.
Lemma ex_jump pc' :
  is_jump_op (a_op i) = true -> asm_next_pc 32 4 i pc r = Some pc' ->
  ex_switch l = (u32 (pc + 4), true, pc').
Proof.
  intros Hj Hpc. latch_fields. unfold asm_next_pc in Hpc. unfold ex_switch.
  destruct (a_op i); try discriminate Hj; latch_case; injection Hpc as <-;
    rewrite Xop; cbn [Z.eqb Pos.eqb]; cbv iota; rewrite ?Xpc, ?Xa, ?Xim; [done|].
  do 2 f_equal. change 1 with (Z.ones 1). rewrite Z.ldiff_ones_r by lia.
  rewrite Z.shiftr_div_pow2, Z.shiftl_mul_pow2 by lia. change (2 ^ 1) with 2. lia.
Qed.

Lemma ex_cond pc' :
  is_cond_op (a_op i) = true -> asm_next_pc 32 4 i pc r = Some pc' ->
  exists t, ex_switch l = (0, t, u32 (pc + a_imm i)) /\
    pc' = if t then u32 (pc + a_imm i) else u32 (pc + 4).
Proof.
  intros Hj Hpc. latch_fields. unfold asm_next_pc in Hpc. unfold ex_switch.
  destruct (a_op i); try discriminate Hj; latch_case; injection Hpc as <-;
    rewrite Xop; cbn [Z.eqb Pos.eqb]; cbv iota; unfold ex_branch_taken;
    rewrite Xf3; cbn [Z.eqb Pos.eqb]; cbv iota; rewrite Xpc, Xa, Xb, Xim;
    (eexists; split; [reflexivity|]); by case_match.
Qed.

Lemma ex_load_correct {S} `{PhysMem S} (s : S) size ext :
  is_load_op (a_op i) = true -> load_spec 32 (a_op i) = Some (size, ext) ->
  pm_wf s -> let a := u32 (r (a_rs1 i) + a_imm i) in pm_dom (S := S) a size ->
  ex_load l s = Some (u32 (ext (load (pm_bytes s) a size)), s).
Proof.
  intros Hload Hspec Hwf a Hd. latch_fields. pose proof (pm_bytes_ok s Hwf) as Hok.
  unfold ex_load. destruct (a_op i); try discriminate Hload; latch_case; injection Hspec as <- <-;
    rewrite Xf3; cbn [Z.eqb Pos.eqb]; cbv iota; rewrite Xa, Xim; fold a;
    rewrite pm_read32 by (done || lia); rewrite ?wrap_idemp; [done|done| |..].
  all: pose proof (load_fits (pm_bytes s) a) as F.
  - rewrite wrap_signed by lia. rewrite wrap_small; [done|]. apply (F 4); [done|lia].
  - rewrite wrap_small; [done|]. apply (fits_mono (8 * 1)); [lia|lia|]. apply (F 1); [done|lia].
  - rewrite wrap_small; [done|]. apply (fits_mono (8 * 2)); [lia|lia|]. apply (F 2); [done|lia].
Qed.

Lemma ex_store_fields size :
  is_store_op (a_op i) = true -> store_spec (a_op i) = Some size ->
  ie_opcode l = 0x23 /\ ex_store_size (ie_funct3 l) = size /\
  u32 (ie_rs1_val l + ie_imm l) = u32 (r (a_rs1 i) + a_imm i) /\ ie_rs2_val l = r (a_rs2 i) /\
  0 < size <= 4.
Proof.
  intros Hst Hspec. latch_fields.
  destruct (a_op i); try discriminate Hst; latch_case; injection Hspec as <-;
    rewrite Xop, Xf3, Xa, Xb, Xim; by split_and!.
Qed.

(** The opcode tests of [EX_stage]. *)
Lemma ex_opcode_tests :
  rv32i (a_op i) = true ->
  (ie_opcode l =? 0x03) = is_load_op (a_op i) /\ (ie_opcode l =? 0x23) = is_store_op (a_op i) /\
  (ie_opcode l =? 0x63) = is_cond_op (a_op i) /\ (ie_opcode l =? 0x73) = false /\
  is_branch_op (ie_opcode l) = is_control_op (a_op i).
Proof.
  intros Hr. rewrite (x_opcode _ _ _ _ Hl). by destruct (a_op i).
Qed.
End ex.
