(* ===== verification/CpuP6Proofs.v ===== *)
(** The six-stage RV32 core executes its programs: the refinement of the architecture of
    [ISASpec.v] by the pipeline of [CpuP6.v].

    A program is a run of the architecture together with the instructions it executes
    ([rv_program]); two of its conditions exclude what the core gets wrong: a second writer
    of a register that overtakes the scoreboard ([pg_waw]), and an instruction that
    shares a slot of the branch target buffer with a jump ([pg_alias]). *)
From S2P Require Import Prelude Ring Bytes Memory PhysMem Regs BaseISA BaseISAProofs.
From S2P Require Import MExt AExt CExt CExtProofs CpuSimple ISASpec ROB StoreBuffer CpuP6 CpuP6Exec.
Import RegsH.
#[local] Arguments ring_at : simpl never.

(** ** Programs *)

Section spec.
Context {S : Type} `{InstrMem S}.

(** One step of RV32I, by the instruction [i]. *)
Inductive rv_step (i : asm) (s : arch) : arch -> Prop :=
| rv_straight t : isa_effect 32 (dom (S := S) 32) i s t -> rv_step i s (next 32 4 t)
| rv_jump pc' :
    asm_next_pc 32 4 i (a_pc s) (a_reg s) = Some pc' -> rv_step i s (transfer 32 4 i pc' s).

Lemma rv_step_isa i s t :
  asm_ok i -> rv32i (a_op i) = true -> word_at s = encode i -> rv_step i s t ->
  isa_step 32 (dom (S := S) 32) s t.
Proof.
  intros Hi Hr Hw [u Hu|pc' Hpc].
  - apply step_straight. apply (straight_base _ _ _ _ i); [done|done| |done]. by destruct (a_op i).
  - apply step_jump. rewrite Hw. by apply jump_base.
Qed.

(** The word at [b] and the next two can be fetched. *)
Definition fetchable (b : Z) : Prop :=
  forall j, 0 <= j <= 2 -> pm_dom (S := S) (b + 4 * j) 4 /\ fits 32 (b + 4 * j).

Definition reads (i : asm) (r : Z) : Prop := src1 i = r \/ src2 i = r.
Definition is_control (i : asm) : bool := is_control_op (a_op i).

(** A run of the architecture that executes [ins 0], [ins 1], ..., and does not modify
    its own code. *)
Record rv_program (run : nat -> arch) (ins : nat -> asm) : Prop := {
  pg_asm n : asm_ok (ins n);
  pg_op n : rv32i (a_op (ins n)) = true;
  pg_step n : exists t, rv_step (ins n) (run n) t /\ t ≡ run (Datatypes.S n);
  pg_code m n : load (a_mem (run m)) (a_pc (run n)) 4 = encode (ins n);
  pg_pc n : fetchable (a_pc (run n));
  pg_target n : is_cond_op (a_op (ins n)) = true -> fetchable (u32 (a_pc (run n) + a_imm (ins n)));
  pg_link n : is_jump_op (a_op (ins n)) = true -> fetchable (u32 (a_pc (run n) + 4));
  pg_alias m n :
    is_control (ins m) = true -> is_control (ins n) = false ->
    btb_index (a_pc (run m)) <> btb_index (a_pc (run n));
  pg_waw n :
    let d := dest (ins n) in
    d <> 0 -> dest (ins (Datatypes.S n)) = d -> ~ reads (ins (Datatypes.S n)) d ->
    ~ reads (ins (Datatypes.S (Datatypes.S n))) d
}.

(** What a hart shows of a state, the pc aside. *)
Definition seen (h : hart S) (s : arch) : Prop :=
  (forall n, 0 <= n < 32 -> reg h n = a_reg s n) /\ (forall x, pm_bytes (mem_intf h) x = a_mem s x).

Definition core_ok (h : hart S) : Prop := hart_wf 32 h /\ pm_wf (mem_intf h).

Lemma shift_ok_step i s t : asm_ok i -> rv_step i s t -> shift_ok i.
Proof.
  intros Hi [u [c Hc Hs|size ext a Hl _|size a Hl _]|pc' Hpc] Hf.
  - apply Hs. by destruct (a_op i); try discriminate Hf; injection Hc as <-.
  - by destruct (a_op i).
  - by destruct (a_op i).
  - unfold asm_next_pc in Hpc. by destruct (a_op i).
Qed.
End spec.

(** ** Execution of one instruction *)

Section exec.
Context {S : Type} `{InstrMem S}.
Variables (run : nat -> arch) (ins : nat -> asm).
Hypothesis P : rv_program (S := S) run ins.
Variable h0 : hart S.
Hypotheses (Hh0 : hart_ok 32 h0) (E0 : abs h0 ≡ run 0%nat).

Lemma pg_word n : word_at (run n) = encode (ins n).
Proof. apply P. Qed.

(** Every state of the run is that of some hart, so its values are in range. *)
Lemma run_hart n : exists h, hart_ok 32 h /\ abs h ≡ run n.
Proof.
  induction n as [|n (h & Hh & E)]; [by exists h0|].
  destruct (pg_step _ _ P n) as (t & Ht & Et).
  pose proof (rv_step_isa _ _ _ (pg_asm _ _ P n) (pg_op _ _ P n) (pg_word n) Ht) as Hi.
  destruct (isa_step_equiv 32 (dom (S := S) 32) (run n) (abs h) t) as (t' & Ht' & Et'); [by symmetry|done|].
  destruct (decode_execute_refines 32 ltac:(by left) h t' Hh Ht') as (h' & D & Ea & Hm).
  exists h'. split; [|by rewrite Ea, <-Et'].
  split; [|done]. apply (keeps_decode_execute 32 ltac:(by left) _ _ _ _ (proj1 Hh) D).
Qed.

Lemma run_reg_fits n r : 0 <= r < 32 -> fits 32 (a_reg (run n) r).
Proof.
  intros Hr. destruct (run_hart n) as (h & [Hwf _] & (_ & E & _)). rewrite <-E by done.
  by apply reg_fits.
Qed.

Lemma run_x0 n : a_reg (run n) 0 = 0.
Proof. destruct (run_hart n) as (h & [Hwf _] & (_ & E & _)). rewrite <-E by done. apply Hwf. Qed.

Lemma run_pc_fits n : fits 32 (a_pc (run n)).
Proof. destruct (run_hart n) as (h & [Hwf _] & (E & _)). rewrite <-E. apply Hwf. Qed.

(** The latch to Commit carries the difference of two states. *)
Record ec_ok (s t : arch) (l : EX_Commit_Latch) : Prop := {
  ec_range : 0 <= ec_rd l < 32;
  ec_value : ec_rd l <> 0 -> ec_result l = a_reg t (ec_rd l);
  ec_frame n : 0 <= n < 32 -> n = 0 \/ n <> ec_rd l -> a_reg t n = a_reg s n;
  ec_memory :
    if ec_is_store l then
      fits 32 (ec_store_addr l) /\ fits 32 (ec_store_data l) /\ 0 < ec_store_size l <= 4 /\
      pm_dom (S := S) (ec_store_addr l) (ec_store_size l) /\
      forall x, a_mem t x = store (a_mem s) (ec_store_addr l) (ec_store_size l) (ec_store_data l) x
    else forall x, a_mem t x = a_mem s x
}.

Lemma set_rd_reg rd v s n :
  a_reg (set_rd rd v s) n = if (n =? rd) && negb (rd =? 0) then v else a_reg s n.
Proof. unfold set_rd. destruct (Z.eqb_spec rd 0); simpl; [by rewrite andb_false_r|by rewrite andb_true_r]. Qed.
Lemma set_rd_mem rd v s : a_mem (set_rd rd v s) = a_mem s.
Proof. unfold set_rd. by destruct (rd =? 0). Qed.
Lemma set_rd_pc rd v s : a_pc (set_rd rd v s) = a_pc s.
Proof. unfold set_rd. by destruct (rd =? 0). Qed.

(** An instruction that only writes its destination. *)
Lemma ec_ok_write k l result old t :
  issued (ins k) (a_pc (run k)) (a_reg (run k)) l -> is_store_op (a_op (ins k)) = false ->
  t ≡ run (Datatypes.S k) ->
  (forall n, 0 <= n < 32 ->
     a_reg t n = if (n =? dest (ins k)) && negb (dest (ins k) =? 0) then result else a_reg (run k) n) ->
  (forall x, a_mem t x = a_mem (run k) x) ->
  ec_ok (run k) (run (Datatypes.S k)) (ex_latch l result old).
Proof.
  intros Hl Hst (_ & Er & Em) Hr Hm.
  destruct (ex_opcode_tests _ _ _ _ Hl (pg_op _ _ P k)) as (_ & E23 & _).
  pose proof (x_rd _ _ _ _ Hl) as Xrd. pose proof (dest_range _ (pg_asm _ _ P k)) as Rd.
  unfold ex_latch. rewrite E23, Hst. split; simpl.
  - by rewrite Xrd.
  - rewrite Xrd. intros Hd. rewrite <-Er, Hr, Z.eqb_refl, (proj2 (Z.eqb_neq _ _) Hd) by done. done.
  - rewrite Xrd. intros n Hn Hc. rewrite <-Er, Hr by done.
    destruct (Z.eqb_spec n (dest (ins k))) as [->|]; [|done].
    destruct Hc as [-> |]; [done|done].
  - intros x. by rewrite <-Em.
Qed.

Lemma ec_ok_store k l old size (s := run k) :
  shift_ok (ins k) ->
  issued (ins k) (a_pc s) (a_reg s) l -> is_store_op (a_op (ins k)) = true ->
  store_spec (a_op (ins k)) = Some size ->
  let a := u32 (a_reg s (a_rs1 (ins k)) + a_imm (ins k)) in
  pm_dom (S := S) a size ->
  next 32 4 { s with a_mem := store (a_mem s) a size (a_reg s (a_rs2 (ins k))) } ≡ run (Datatypes.S k) ->
  ec_ok s (run (Datatypes.S k)) (ex_latch l 0 old).
Proof.
  intros Hsh Hl Hst Hsp a Hd (_ & Er & Em).
  destruct (ex_opcode_tests _ _ _ _ Hl (pg_op _ _ P k)) as (_ & E23 & _).
  destruct (ex_store_fields _ _ _ _ Hsh Hl size Hst Hsp) as (_ & Esz & Ea & Ed & Rs).
  pose proof (pg_asm _ _ P k) as Hi.
  assert (dest (ins k) = 0) as Ed0 by (unfold dest; by destruct (a_op (ins k))).
  unfold ex_latch. rewrite E23, Hst. split; simpl; rewrite ?(x_rd _ _ _ _ Hl), ?Ed0.
  - lia.
  - done.
  - intros n Hn _. by rewrite <-Er.
  - rewrite Ea, Ed, Esz. split; [by apply wrap_fits|]. split; [apply run_reg_fits, Hi|].
    split; [lia|]. split; [exact Hd|]. intros x. by rewrite <-Em.
Qed.

Lemma ex_correct k h l :
  core_ok h -> seen h (run k) -> issued (ins k) (a_pc (run k)) (a_reg (run k)) l ->
  exists r0 taken target result,
    ex_switch l = (r0, taken, target) /\
    (if ie_opcode l =? 0x03 then ex_load l (mem_intf h) else Some (r0, mem_intf h)) =
      Some (result, mem_intf h) /\
    (forall old, ec_ok (run k) (run (Datatypes.S k)) (ex_latch l result old)) /\
    (is_control (ins k) = true ->
       a_pc (run (Datatypes.S k)) = (if taken then target else u32 (a_pc (run k) + 4)) /\
       fetchable (S := S) target) /\
    (is_control (ins k) = false -> a_pc (run (Datatypes.S k)) = u32 (a_pc (run k) + 4)).
Proof.
  intros [Hwf Hm] [Sr Sm] Hl. pose proof (pg_asm _ _ P k) as Hi. pose proof (pg_op _ _ P k) as Hop.
  destruct (ex_opcode_tests _ _ _ _ Hl Hop) as (E3 & _). rewrite E3.
  destruct (pg_step _ _ P k) as (t & Ht & Et). pose proof (shift_ok_step _ _ _ Hi Ht) as Hs.
  pose proof Et as (Ep & _).
  destruct Ht as [u Hu|pc' Hpc].
  - destruct Hu as [c Hc Hcs|size ext a Hld [Hd Hda]|size a Hst [Hd _]].
    + pose proof (ex_alu _ _ _ _ Hi Hs Hl c Hc Hop) as Ex.
      assert (is_load_op (a_op (ins k)) = false /\ is_store_op (a_op (ins k)) = false /\
              is_control (ins k) = false /\ dest (ins k) = a_rd (ins k)) as (-> & Nst & -> & Ed)
        by (unfold is_control, dest; by destruct (a_op (ins k))).
      eexists _, _, _, _. split_and!; [exact Ex|done| |done|].
      * intros old. apply (ec_ok_write k l _ old _ Hl Nst Et).
        -- intros n Hn. simpl. by rewrite set_rd_reg, Ed.
        -- intros x. simpl. by rewrite set_rd_mem.
      * intros _. rewrite <-Ep. simpl. by rewrite set_rd_pc.
    + assert (is_load_op (a_op (ins k)) = true /\ is_store_op (a_op (ins k)) = false /\
              is_control (ins k) = false /\ dest (ins k) = a_rd (ins k)) as (Eld & Nst & Nc & Ed)
        by (unfold is_control, dest; by destruct (a_op (ins k))).
      rewrite Eld, Nc. destruct (ex_switch l) as [[r0 tk] tg].
      assert (load (pm_bytes (mem_intf h)) a size = load (a_mem (run k)) a size) as El
        by (apply load_ext; intros; apply Sm).
      eexists _, _, _, _. split_and!; [done| | |done|].
      * rewrite (ex_load_correct _ _ _ _ Hs Hl (mem_intf h) size ext) by done. fold a. rewrite El. done.
      * intros old. apply (ec_ok_write k l _ old _ Hl Nst Et).
        -- intros n Hn. simpl. by rewrite set_rd_reg, Ed.
        -- intros x. simpl. by rewrite set_rd_mem.
      * intros _. rewrite <-Ep. simpl. by rewrite set_rd_pc.
    + assert (is_load_op (a_op (ins k)) = false /\ is_store_op (a_op (ins k)) = true /\
              is_control (ins k) = false) as (-> & Est & ->)
        by (unfold is_control; by destruct (a_op (ins k))).
      assert (ex_switch l = (0, false, 0)) as ->.
      { unfold ex_switch. rewrite (x_opcode _ _ _ _ Hl). by destruct (a_op (ins k)). }
      eexists _, _, _, _. split_and!; [done|done| |done|].
      * intros old. by apply (ec_ok_store k l old size).
      * intros _. by rewrite <-Ep.
  - pose proof Hpc as Hpc'. unfold asm_next_pc in Hpc'.
    assert (is_load_op (a_op (ins k)) = false /\ is_store_op (a_op (ins k)) = false /\
            is_control (ins k) = true) as (-> & Nst & ->)
      by (unfold is_control; by destruct (a_op (ins k))).
    assert (a_pc (transfer 32 4 (ins k) pc' (run k)) = pc') as Etp
      by (unfold transfer; cbv zeta; destruct (links _); by rewrite ?set_rd_pc).
    rewrite Etp in Ep.
    assert (is_jump_op (a_op (ins k)) = true \/ is_cond_op (a_op (ins k)) = true) as [Hj|Hj]
      by (clear - Hpc'; destruct (a_op (ins k)); (by left) || (by right) || discriminate Hpc').
    + pose proof (ex_jump _ _ _ _ Hs Hl pc' Hj Hpc) as Ex.
      assert (dest (ins k) = a_rd (ins k) /\ links (a_op (ins k)) = true) as [Ed El]
        by (unfold dest; by destruct (a_op (ins k))).
      eexists _, _, _, _. split_and!; [exact Ex|done| | |done].
      * intros old. apply (ec_ok_write k l _ old _ Hl Nst Et).
        -- intros n Hn. unfold transfer. cbv zeta. rewrite El, set_rd_reg, Ed. done.
        -- intros x. unfold transfer. cbv zeta. by rewrite El, set_rd_mem.
      * intros _. split; [done|]. rewrite Ep. apply P.
    + destruct (ex_cond _ _ _ _ Hs Hl pc' Hj Hpc) as (tk & Ex & Ex').
      assert (dest (ins k) = 0 /\ links (a_op (ins k)) = false) as [Ed El]
        by (unfold dest; by destruct (a_op (ins k))).
      eexists _, _, _, _. split_and!; [exact Ex|done| | |done].
      * intros old. apply (ec_ok_write k l _ old _ Hl Nst Et).
        -- intros n Hn. unfold transfer. cbv zeta. rewrite El, Ed. simpl. by rewrite andb_false_r.
        -- intros x. unfold transfer. cbv zeta. by rewrite El.
      * intros _. split; [by rewrite <-Ep|]. by apply P.
Qed.

(** *** Commitment *)

Lemma wrap_result v : fits 32 v -> u32 (u64 v) = v.
Proof. intros. rewrite wrap_le_idemp by lia. by apply wrap_small. Qed.

(** Writing the register bank and memory from the latch takes the hart to the next state. *)
Lemma commit_seen k (h : hart S) l :
  core_ok h -> seen h (run k) -> ec_ok (run k) (run (Datatypes.S k)) l ->
  exists s,
    (if ec_is_store l
     then writeDataMem (ec_store_addr l) (u32 (ec_store_data l)) (ec_store_size l) (mem_intf h) = (Some tt, s)
     else s = mem_intf h) /\
    let h' := write_reg (ec_rd l) (u32 (u64 (ec_result l))) { h with mem_intf := s } in
    core_ok h' /\ seen h' (run (Datatypes.S k)).
Proof.
  intros [Hwf Hm] [Sr Sm] [Rd Hv Hf Hs].
  assert (exists s, (if ec_is_store l
     then writeDataMem (ec_store_addr l) (u32 (ec_store_data l)) (ec_store_size l) (mem_intf h) = (Some tt, s)
     else s = mem_intf h) /\ pm_wf s /\ forall x, pm_bytes s x = a_mem (run (Datatypes.S k)) x)
    as (s & E & Hms & Hb).
  { destruct (ec_is_store l).
    - destruct Hs as (Fa & Fd & Rs & Hd & Ht).
      destruct (pm_write32 (ec_store_addr l) (u32 (ec_store_data l)) (ec_store_size l) (mem_intf h))
        as (s & E & Hms & Hb); [done|done|].
      exists s. split_and!; [done|done|]. intros x. rewrite Hb, Ht, wrap_idemp, (wrap_small 32) by done.
      unfold store, store_bytes. by rewrite Sm.
    - exists (mem_intf h). split_and!; [done|done|]. intros x. by rewrite Sm. }
  exists s. split; [exact E|]. intros h'.
  assert (hart_wf 32 { h with mem_intf := s }) as Hwf1 by (by apply set_mem_wf).
  assert (fits 32 (u32 (u64 (ec_result l)))) as Fv by (apply wrap_fits; lia).
  split; [split|split].
  - apply write_reg_wf; [done|lia|done].
  - unfold h'. by rewrite mem_write_reg.
  - intros n Hn. unfold h'. rewrite (reg_write_reg 32) by done.
    destruct (Z.eqb_spec n (ec_rd l)) as [->|Hne], (Z.eqb_spec (ec_rd l) 0) as [E0'|Hn0]; simpl.
    + rewrite Hf by (done || by left). by apply Sr.
    + rewrite Hv by done. apply wrap_result. by apply run_reg_fits.
    + rewrite Hf by (done || by right). by apply Sr.
    + rewrite Hf by (done || by right). by apply Sr.
  - intros x. unfold h'. by rewrite mem_write_reg.
Qed.

(** *** The predictor *)

Definition pnext (pc : Z) (p : prediction) : Z :=
  if predicted_taken p then predicted_target p else u32 (pc + 4).

(** A prediction leads to code, and an instruction of the run that is predicted taken is
    a branch or jump. *)
Record pred_ok (pc : Z) (p : prediction) : Prop := {
  po_target : predicted_taken p = true -> fetchable (S := S) (predicted_target p);
  po_control n : predicted_taken p = true -> pc = a_pc (run n) -> is_control (ins n) = true
}.

Record predictor_ok (p : predictor) : Prop := {
  pr_btb j : btb_valid (btb p !!! j) = true ->
    fetchable (S := S) (btb_target (btb p !!! j)) /\
    exists n, is_control (ins n) = true /\ btb_index (a_pc (run n)) = j;
  pr_ras : Forall (fetchable (S := S)) (ras p)
}.

Lemma predict_ok pc p tk tg p' pr :
  predictor_ok p -> predict pc p = (tk, tg, p') ->
  predictor_ok p' /\ pred_ok pc { pr with predicted_taken := tk; predicted_target := tg }.
Proof.
  intros [Hb Hr] E. unfold predict in E. specialize (Hb (btb_index pc)) as Hj.
  assert (forall n, btb_valid (btb p !!! btb_index pc) = true -> pc = a_pc (run n) ->
    is_control (ins n) = true) as Hc.
  { intros n Hv ->. destruct (Hj Hv) as (_ & m & Hm & Ei).
    destruct (is_control (ins n)) eqn:En; [done|]. by destruct (pg_alias _ _ P m n). }
  destruct (btb_valid _) eqn:Ev; [|injection E as <- <- <-; split; by split].
  destruct (btb_is_return _).
  - destruct (ras p) as [|t l] eqn:Er; injection E as <- <- <-; [split; split; try done; by rewrite Er|].
    apply Forall_cons_1 in Hr as [Ht Hl]. split; [by split|]. split; simpl; auto.
  - destruct (2 <=? _); injection E as <- <- <-; [|split; by split].
    split; [by split|]. split; simpl; [|auto]. intros _. by apply Hj.
Qed.

Lemma btb_insert_ok p k e q :
  predictor_ok p -> is_control (ins k) = true -> fetchable (S := S) (btb_target e) ->
  predictor_ok (mkPredictor (<[btb_index (a_pc (run k)) := e]> (btb p)) q (ras p)).
Proof.
  intros [Hb Hr] Hk He. split; simpl; [|done]. intros j.
  destruct (list_lookup_total_insert_cases (btb p) (btb_index (a_pc (run k))) j e) as [[Ej ->]| ->].
  - intros _. split; [done|]. by exists k.
  - apply Hb.
Qed.

Lemma train_ok k l tk tg p :
  predictor_ok p -> is_control (ins k) = true -> ie_pc l = a_pc (run k) ->
  (ie_opcode l =? 0x63) = is_cond_op (a_op (ins k)) -> fetchable (S := S) tg ->
  predictor_ok (train l tk tg p).
Proof.
  intros Hp Hk Epc Eop Ht. unfold train. rewrite Epc, Eop.
  assert (forall b, predictor_ok (mkPredictor (<[btb_index (a_pc (run k)) := mkBTB tg true b]> (btb p))
    (<[bht_index (a_pc (run k)) := 3]> (bht p)) (ras p))) as Hins
    by (intros b; by apply btb_insert_ok).
  destruct (is_cond_op (a_op (ins k))) eqn:Ec.
  - by destruct tk; case_match; apply (btb_insert_ok p k (mkBTB tg true false)).
  - assert (is_jump_op (a_op (ins k)) = true) as Hj
      by (unfold is_control, is_control_op in Hk; by rewrite Ec in Hk).
    pose proof (pg_link _ _ P k Hj) as Hl.
    assert (Forall (fetchable (S := S)) (take 4 (u32 (a_pc (run k) + 4) :: ras p))) as Hras
      by (apply Forall_take; constructor; [done|apply Hp]).
    destruct (Hins (btb_is_return (btb p !!! btb_index (a_pc (run k))))) as [Hb _].
    destruct (is_ras_call (ie_pred l)), (is_ras_return (ie_pred l)); simpl.
    all: try (split; simpl; [exact Hb|first [exact Hras|apply Hp]]).
    all: rewrite list_insert_insert_eq.
    all: destruct (Hins true) as [Hb' _]; split; simpl; [exact Hb'|first [exact Hras|apply Hp]].
Qed.

(** *** The front end *)

Definition fi_ok (l : Fetch_ID_Latch) : Prop :=
  forall n, fi_pc l = a_pc (run n) -> fi_instr l = encode (ins n).

Record front_ok (ls : latches) : Prop := {
  fo_ii : ii_valid (id_issue ls) = true ->
    pred_ok (ii_pc (id_issue ls)) (ii_pred (id_issue ls)) /\
    exists old fi, id_issue ls = id_decode old fi /\ fi_ok fi;
  fo_fi : fi_valid (fetch_id ls) = true ->
    pred_ok (fi_pc (fetch_id ls)) (fi_pred (fetch_id ls)) /\ fi_ok (fetch_id ls);
  fo_pf : pf_valid (pcgen_fetch ls) = true ->
    pred_ok (pf_pc (pcgen_fetch ls)) (pf_pred (pcgen_fetch ls))
}.

(** The valid latches hold, from the oldest, the path that the predictions make from [q];
    [npc] is where it goes on. *)
Definition advance (v : bool) (pc : Z) (p : prediction) (q : Z) (k : Z -> Prop) : Prop :=
  if v then pc = q /\ k (pnext pc p) else k q.
Definition chain (q : Z) (ii : ID_Issue_Latch) (fi : Fetch_ID_Latch) (pf : PCGen_Fetch_Latch)
    (npc : Z) : Prop :=
  advance (ii_valid ii) (ii_pc ii) (ii_pred ii) q (fun q =>
  advance (fi_valid fi) (fi_pc fi) (fi_pred fi) q (fun q =>
  advance (pf_valid pf) (pf_pc pf) (pf_pred pf) q (fun q => npc = q))).

(** [q] is at most [j] words after the start of fetchable code. *)
Definition near (j q : Z) : Prop :=
  exists b i, fetchable (S := S) b /\ 0 <= i <= j /\ q = b + 4 * i.

Lemma near_dom q : near 2 q -> pm_dom (S := S) q 4 /\ fits 32 q.
Proof. intros (b & i & Hb & Hi & ->). by apply Hb. Qed.

Lemma near_pnext j pc p :
  0 <= j <= 1 -> near j pc -> pred_ok pc p -> near (j + 1) (pnext pc p).
Proof.
  intros Hj (b & i & Hb & Hi & ->) [Ht _]. unfold pnext. destruct (predicted_taken p).
  - exists (predicted_target p), 0. split_and!; [by apply Ht|lia..].
  - exists b, (i + 1). split; [done|]. split; [lia|]. rewrite wrap_small; [lia|].
    replace (b + 4 * i + 4) with (b + 4 * (i + 1)) by lia. apply Hb. lia.
Qed.

Lemma near_mono i j q : i <= j -> near i q -> near j q.
Proof. intros Hij (b & k & Hb & Hk & ->). exists b, k. split_and!; (done || lia). Qed.

(** What PCGen has sent can be fetched. *)
Lemma chain_fetch q ls npc :
  front_ok ls -> fetchable (S := S) q ->
  chain q (id_issue ls) (fetch_id ls) (pcgen_fetch ls) npc ->
  pf_valid (pcgen_fetch ls) = true ->
  pm_dom (S := S) (pf_pc (pcgen_fetch ls)) 4 /\ fits 32 (pf_pc (pcgen_fetch ls)).
Proof.
  intros [Hii Hfi _] Hq Hc Hpf. unfold chain, advance in Hc. rewrite Hpf in Hc.
  assert (near 0 q) as Hn by (exists q, 0; split_and!; (done || lia)).
  apply near_dom.
  destruct (ii_valid (id_issue ls)); [destruct Hc as [E1 Hc]; destruct (Hii eq_refl) as [Pi _]|];
    (destruct (fi_valid (fetch_id ls)); [destruct Hc as [E2 Hc]; destruct (Hfi eq_refl) as [Pf _]|]);
    destruct Hc as [-> _].
  - apply (near_pnext 1); [lia| |done]. rewrite E2. apply (near_pnext 0); [lia| |done]. by rewrite E1.
  - apply (near_mono 1); [lia|]. apply (near_pnext 0); [lia| |done]. by rewrite E1.
  - apply (near_mono 1); [lia|]. apply (near_pnext 0); [lia| |done]. by rewrite E2.
  - by apply (near_mono 0).
Qed.

(** *** The invariant *)

Definition dmi_ok (d : option (Z * Z)) : Prop := d = None \/ d = Some dmi_window /\ instr_dmi (S := S).

(** What holds between any two stages: [k] instructions are committed. *)
Record steady (k : nat) (c : cpuP6 S) : Prop := {
  s_running : p6_stopped c = false;
  s_core : core_ok (p6_core c);
  s_seen : seen (p6_core c) (run k);
  s_dmi : dmi_ok (p6_dmi c);
  s_pred : predictor_ok (p6_pred c);
  s_stb : stb_wf SPEC_DEPTH COMMIT_DEPTH (store_buffer c);
  s_stb_empty : pending SPEC_DEPTH COMMIT_DEPTH (store_buffer c) = [];
  s_rob : rob_wf ROB_SIZE (rob c);
  s_sb : length (scoreboard (p6_ctl c)) = 32%nat;
  s_count : p6_instructions (p6_stats c) = u64 (Z.of_nat k)
}.

Definition rob_shape (r : ReorderBuffer) : list (bool * bool) :=
  (fun e => (rob_ready e, rob_is_store e)) <$> rob_items ROB_SIZE r.

Definition in_flight (b : bool) (store : bool) : list (bool * bool) := if b then [(false, store)] else [].

(** The scoreboard holds the destinations of instructions in flight. *)
Definition sb_at (c : cpuP6 S) (r : Z) : bool := scoreboard (p6_ctl c) !!! Z.to_nat r.

(** The instruction [k] has been executed and waits for Commit. *)
Record waits (k : nat) (c : cpuP6 S) (l : EX_Commit_Latch) : Prop := {
  w_ok : ec_ok (run k) (run (Datatypes.S k)) l;
  w_rd : ec_rd l = dest (ins k);
  w_index : ec_rob_index l = Z.of_nat (rob_head (rob c))
}.

(** The instruction [k] has been issued, the [j]-th after the head of the reorder buffer. *)
Record is_issued (k j : nat) (c : cpuP6 S) (l : Issue_EX_Latch) : Prop := {
  ii_issued : issued (ins k) (a_pc (run k)) (a_reg (run k)) l;
  ii_predok : pred_ok (ie_pc l) (ie_pred l);
  ii_index : ie_rob_index l = Z.of_nat (ring_at ROB_SIZE (rob_head (rob c)) j)
}.

(** The latches to EX and Commit, the reorder buffer and the scoreboard once EX and Issue
    have run, when [j] instructions are committed: at most two are in flight. *)
Record backend (j : nat) (c : cpuP6 S) (e := ec_valid (ex_commit (p6_next c)))
    (k := if e then Datatypes.S j else j) : Prop := {
  b_ec : e = true -> waits j c (ex_commit (p6_next c));
  b_ie : ie_valid (issue_ex (p6_next c)) = true ->
    is_issued k (if e then 1 else 0) c (issue_ex (p6_next c));
  b_haz : e = true -> ie_valid (issue_ex (p6_next c)) = true ->
    dest (ins j) <> 0 -> ~ reads (ins (Datatypes.S j)) (dest (ins j));
  b_sb r : 0 <= r < 32 -> sb_at c r = true -> r <> 0 /\
    (e = true /\ r = dest (ins j) \/ ie_valid (issue_ex (p6_next c)) = true /\ r = dest (ins k));
  b_sb_ie : ie_valid (issue_ex (p6_next c)) = true -> dest (ins k) <> 0 -> sb_at c (dest (ins k)) = true;
  b_shape : rob_shape (rob c) =
    in_flight e (ec_is_store (ex_commit (p6_next c))) ++
    in_flight (ie_valid (issue_ex (p6_next c))) (ie_opcode (issue_ex (p6_next c)) =? 0x23)
}.

(** At the end of a cycle: the path that the front end follows starts after the
    instruction in the latch to EX. *)
Definition path_start (k : nat) (l : Issue_EX_Latch) : Z :=
  if ie_valid l then pnext (ie_pc l) (ie_pred l) else a_pc (run k).

Record inv (j : nat) (c : cpuP6 S) : Prop := {
  i_steady : steady j c;
  i_back : backend j c;
  i_flush : flush_pipeline (p6_ctl c) = false;
  i_front : front_ok (p6_next c);
  i_chain :
    chain (path_start (if ec_valid (ex_commit (p6_next c)) then Datatypes.S j else j) (issue_ex (p6_next c)))
      (id_issue (p6_next c)) (fetch_id (p6_next c)) (pcgen_fetch (p6_next c)) (p6_next_pc (p6_ctl c))
}.

(** Between Commit and EX: the instruction [k] may be in the latch to EX; if the
    scoreboard has lost its destination, the instruction before wrote the same. *)
Record committed (k : nat) (c : cpuP6 S) : Prop := {
  c_steady : steady k c;
  c_latches : p6_reg c = p6_next c;
  c_flush : flush_pipeline (p6_ctl c) = false;
  c_front : front_ok (p6_reg c);
  c_ie : ie_valid (issue_ex (p6_reg c)) = true -> is_issued k 0 c (issue_ex (p6_reg c));
  c_chain :
    chain (path_start k (issue_ex (p6_reg c)))
      (id_issue (p6_reg c)) (fetch_id (p6_reg c)) (pcgen_fetch (p6_reg c)) (p6_next_pc (p6_ctl c));
  c_sb r : 0 <= r < 32 -> sb_at c r = true ->
    r <> 0 /\ ie_valid (issue_ex (p6_reg c)) = true /\ r = dest (ins k);
  c_sb_ie : ie_valid (issue_ex (p6_reg c)) = true -> dest (ins k) <> 0 ->
    sb_at c (dest (ins k)) = true \/
    exists m, k = Datatypes.S m /\ dest (ins m) = dest (ins k) /\ ~ reads (ins k) (dest (ins m));
  c_shape : rob_shape (rob c) =
    in_flight (ie_valid (issue_ex (p6_reg c))) (ie_opcode (issue_ex (p6_reg c)) =? 0x23)
}.

(** *** Commit *)

Lemma Commit_idle c :
  rob_wf ROB_SIZE (rob c) -> ec_valid (ex_commit (p6_reg c)) = false ->
  Forall (fun p => p.1 = false) (rob_shape (rob c)) -> Commit_stage c = Some c.
Proof.
  intros Hr He Hs. unfold Commit_stage. rewrite He. simpl.
  rewrite (rob_head_ready_items ROB_SIZE) by (done || unfold ROB_SIZE; lia).
  unfold rob_shape in Hs. destruct (rob_items ROB_SIZE (rob c)) as [|e q]; [done|].
  apply Forall_cons_1 in Hs as [Hs _]. simpl in Hs. by rewrite Hs.
Qed.

(** The bank, the memory, the buffers and the scoreboard after the commit of [l]. *)
Lemma Commit_busy k e q c (l := ex_commit (p6_reg c)) :
  steady k c -> ec_valid l = true -> waits k c l ->
  rob_items ROB_SIZE (rob c) = e :: q -> rob_is_store e = ec_is_store l ->
  exists h b r,
    Commit_stage c = Some
      { c with p6_core := h; store_buffer := b; rob := r;
               p6_ctl := { p6_ctl c with scoreboard :=
                 if ec_rd l =? 0 then scoreboard (p6_ctl c)
                 else <[Z.to_nat (ec_rd l) := false]> (scoreboard (p6_ctl c)) };
               p6_stats := { p6_stats c with
                 p6_instructions := u64 (p6_instructions (p6_stats c) + 1) } } /\
    core_ok h /\ seen h (run (Datatypes.S k)) /\
    stb_wf SPEC_DEPTH COMMIT_DEPTH b /\ pending SPEC_DEPTH COMMIT_DEPTH b = [] /\
    rob_wf ROB_SIZE r /\ rob_items ROB_SIZE r = q /\
    rob_head r = ring_at ROB_SIZE (rob_head (rob c)) 1.
Proof.
  intros Hst He [Hok Hrd Hix] Hit Hes. pose proof (ec_range _ _ _ Hok) as Rd.
  destruct (rob_commit ROB_SIZE (rob c) e q (ec_result l) (ec_rd l)) as (R1 & R2 & R3 & R4 & R5);
    [apply Hst|done|].
  destruct (commit_seen k (p6_core c) l) as (s & Em & Hc' & Hs'); [apply Hst..|done|].
  rewrite <-Hix in R1, R2, R3, R4, R5. rewrite (wrap_small 8 (ec_rd l)) in R2 by (unfold fits; lia).
  unfold Commit_stage. fold l. rewrite He, (proj2 (Z.leb_le 0 (ec_rob_index l))) by lia. cbn [andb].
  destruct (ec_is_store l) eqn:Est.
  - pose proof (ec_memory _ _ _ Hok) as Hmem. rewrite Est in Hmem. destruct Hmem as (Fa & Fd & Rs & _).
    destruct (store_passes SPEC_DEPTH COMMIT_DEPTH (ec_store_addr l) (ec_store_data l) (ec_store_size l)
      (ec_rob_index l) (store_buffer c)) as (D1 & D2 & D3);
      [unfold SPEC_DEPTH; lia|unfold COMMIT_DEPTH; lia|apply Hst|apply Hst| |].
    { split; simpl; [apply Fa|lia|unfold fits in Fa; lia|]. apply (fits_mono 32); (lia || done). }
    simpl. rewrite R1, R2. simpl.
    rewrite Hes. unfold commit_stores. simpl.
    destruct (drain_one COMMIT_DEPTH _) as [dr b]. simpl in D1, D2, D3. subst dr. simpl.
    rewrite Em. eexists _, b, _. split; [|split_and!; [exact Hc'|exact Hs'|done..]].
    destruct c as [? ? ? [] ? ? ? [] ? ? ? ? ?]. simpl in *. unfold write_reg.
    destruct (Z.eqb_spec (ec_rd l) 0); reflexivity.
  - simpl. rewrite R1, R2. simpl.
    rewrite Hes. subst s.
    eexists _, (store_buffer c), _.
    split; [|split_and!; [exact Hc'|exact Hs'|apply Hst|apply Hst|done..]].
    destruct c as [[] ? ? [] ? ? ? [] ? ? ? ? ?]. simpl in *. unfold write_reg.
    destruct (Z.eqb_spec (ec_rd l) 0); reflexivity.
Qed.

Lemma u64_succ v n : v = u64 (Z.of_nat n) -> u64 (v + 1) = u64 (Z.of_nat (Datatypes.S n)).
Proof. intros ->. rewrite wrap_add_l. f_equal. lia. Qed.

(** The scoreboard after the release of [rd]. *)
Lemma sb_clear sb rd r :
  length sb = 32%nat -> 0 <= rd < 32 -> 0 <= r < 32 ->
  (if rd =? 0 then sb else <[Z.to_nat rd := false]> sb) !!! Z.to_nat r =
    if negb (rd =? 0) && (r =? rd) then false else sb !!! Z.to_nat r.
Proof.
  intros Hl Hrd Hr. destruct (Z.eqb_spec rd 0); [done|]. simpl.
  destruct (Z.eqb_spec r rd) as [->|].
  - apply list_lookup_total_insert_eq. lia.
  - apply list_lookup_total_insert_ne. lia.
Qed.

Lemma commit_step j c :
  inv j c ->
  let k := if ec_valid (ex_commit (p6_next c)) then Datatypes.S j else j in
  exists c', Commit_stage { c with p6_reg := p6_next c } = Some c' /\ committed k c' /\
    p6_next c' = p6_next c.
Proof.
  intros [St [Hec Hie Hhz Hsb Hsi Hsh] Hfl Hfr Hch] k. subst k.
  destruct (ec_valid (ex_commit (p6_next c))) eqn:Ee.
  - specialize (Hec eq_refl). unfold in_flight in Hsh at 1. simpl in Hsh.
    unfold rob_shape in Hsh. destruct (rob_items ROB_SIZE (rob c)) as [|e q] eqn:Eit; [done|].
    simpl in Hsh. injection Hsh as Er1 Es1 Hsh.
    destruct (Commit_busy j e q { c with p6_reg := p6_next c }) as
      (h & b & r & E & Hc & Hs & Hb1 & Hb2 & Hr & Hq & Hhd); [by destruct St|done|by destruct Hec|done|done|].
    eexists. split; [exact E|]. split; [|done]. simpl in Hhd.
    pose proof (ec_range _ _ _ (w_ok _ _ _ Hec)) as Rd.
    assert (forall r, 0 <= r < 32 ->
      (if ec_rd (ex_commit (p6_next c)) =? 0 then scoreboard (p6_ctl c)
       else <[Z.to_nat (ec_rd (ex_commit (p6_next c))) := false]> (scoreboard (p6_ctl c))) !!! Z.to_nat r =
      if negb (ec_rd (ex_commit (p6_next c)) =? 0) && (r =? ec_rd (ex_commit (p6_next c))) then false
      else scoreboard (p6_ctl c) !!! Z.to_nat r) as Hcl
      by (intros; apply sb_clear; [apply St|done|done]).
    rewrite (w_rd _ _ _ Hec) in Hcl, Rd.
    split; simpl; try done.
    + destruct St as [? ? ? ? ? ? ? ? Hlen ?]. split; simpl; try done.
      * destruct (ec_rd (ex_commit (p6_next c)) =? 0); [done|]. by rewrite length_insert.
      * by apply u64_succ.
    + intros Hv. destruct (Hie Hv) as [X1 X2 X3]. split; simpl; try done.
      rewrite X3, Hhd, ring_at_at. do 2 f_equal.
    + intros i Hi. unfold sb_at. simpl. rewrite (w_rd _ _ _ Hec), Hcl by done. intros Hb.
      assert (sb_at c i = true) as Hb' by (unfold sb_at; by destruct (negb _ && _)).
      destruct (Hsb i Hi Hb') as [Hn [[_ ->]|[Hv ->]]]; [|by split_and!].
      rewrite Z.eqb_refl, andb_true_r in Hb. by rewrite (proj2 (Z.eqb_neq _ _)) in Hb.
    + intros Hv Hd. unfold sb_at. simpl. rewrite (w_rd _ _ _ Hec), Hcl by (apply dest_range, P).
      destruct (Z.eqb_spec (dest (ins (Datatypes.S j))) (dest (ins j))) as [Ed|];
        [right|left; rewrite andb_false_r; by apply Hsi].
      exists j. split_and!; [done|done|]. apply Hhz; [done|done|]. by rewrite <-Ed.
    + unfold rob_shape. by rewrite Hq.
  - unfold in_flight in Hsh at 1. simpl in Hsh.
    eexists. split; [apply Commit_idle|].
    + apply St.
    + done.
    + simpl. rewrite Hsh. unfold in_flight. case_match; by repeat constructor.
    + split; [|done]. split; simpl; try done.
      * by destruct St.
      * intros Hv. by destruct (Hie Hv).
      * intros i Hi Hb. destruct (Hsb i Hi Hb) as [Hn [[? _]|[Hv ->]]]; [done|]. by split_and!.
      * intros Hv Hd. left. by apply Hsi.
Qed.

(** *** EX *)

(** Between EX and Issue: [x] says that the instruction [j] was executed in this cycle. *)
Record executed (j : nat) (x : bool) (c : cpuP6 S) : Prop := {
  m_steady : steady j c;
  m_x : ec_valid (ex_commit (p6_next c)) = x;
  m_ec : x = true -> waits j c (ex_commit (p6_next c));
  m_ii : id_issue (p6_next c) = id_issue (p6_reg c);
  m_fi : fetch_id (p6_next c) = fetch_id (p6_reg c);
  m_pf : pcgen_fetch (p6_next c) = pcgen_fetch (p6_reg c);
  m_front : front_ok (p6_reg c);
  m_path : let k := if x then Datatypes.S j else j in
    if flush_pipeline (p6_ctl c) then pc_redirect_target (p6_ctl c) = a_pc (run k) /\ x = true
    else chain (a_pc (run k)) (id_issue (p6_reg c)) (fetch_id (p6_reg c)) (pcgen_fetch (p6_reg c))
           (p6_next_pc (p6_ctl c));
  m_sb r : 0 <= r < 32 -> sb_at c r = true -> r <> 0 /\ x = true /\ r = dest (ins j);
  m_sb_ex : x = true -> dest (ins j) <> 0 ->
    sb_at c (dest (ins j)) = true \/
    exists m, j = Datatypes.S m /\ dest (ins m) = dest (ins j) /\ ~ reads (ins j) (dest (ins m));
  m_shape : rob_shape (rob c) = in_flight x (ec_is_store (ex_commit (p6_next c)))
}.

Lemma hart_same (h : hart S) : { h with mem_intf := mem_intf h } = h.
Proof. by destruct h. Qed.

(** The front end and the redirection after the branch [l] was resolved. *)
Lemma ex_resolve_path k (l : Issue_EX_Latch) (tk : bool) (tg : Z) (c : cpuP6 S) :
  is_issued k 0 c l -> is_control (ins k) = true ->
  flush_pipeline (p6_ctl c) = false ->
  a_pc (run (Datatypes.S k)) = (if tk then tg else u32 (a_pc (run k) + 4)) ->
  let c' := ex_resolve l tk tg c in
  if flush_pipeline (p6_ctl c') then pc_redirect_target (p6_ctl c') = a_pc (run (Datatypes.S k))
  else p6_ctl c' = p6_ctl c /\ pnext (ie_pc l) (ie_pred l) = a_pc (run (Datatypes.S k)).
Proof.
  intros [Hl _ _] Hk Hfl Hpc c'. pose proof (x_pc _ _ _ _ Hl) as Epc. rewrite Hpc.
  unfold c', ex_resolve, pnext. rewrite Epc.
  destruct tk, (predicted_taken (ie_pred l)); simpl; try done; [|by rewrite Hfl].
  destruct (Z.eqb_spec tg (predicted_target (ie_pred l))) as [->|]; simpl; [by rewrite Hfl|done].
Qed.

(** Everything else [ex_resolve] leaves alone, but for the predictor. *)
Lemma ex_resolve_frame (l : Issue_EX_Latch) (tk : bool) (tg : Z) (c : cpuP6 S) :
  let c' := ex_resolve l tk tg c in
  p6_core c' = p6_core c /\ p6_reg c' = p6_reg c /\ p6_next c' = p6_next c /\ rob c' = rob c /\
  store_buffer c' = store_buffer c /\ p6_dmi c' = p6_dmi c /\ p6_stopped c' = p6_stopped c /\
  scoreboard (p6_ctl c') = scoreboard (p6_ctl c) /\
  p6_instructions (p6_stats c') = p6_instructions (p6_stats c) /\
  btb (p6_pred c') = btb (train l tk tg (p6_pred c)) /\
  (ras (p6_pred c') = ras (train l tk tg (p6_pred c)) \/ ras (p6_pred c') = []).
Proof. unfold ex_resolve. destruct (_ || _); split_and!; auto. Qed.

Lemma predictor_ok_ras p q :
  predictor_ok p -> btb q = btb p -> ras q = ras p \/ ras q = [] -> predictor_ok q.
Proof.
  intros [Hb Hr] Eb Er. split; [by rewrite Eb|]. by destruct Er as [-> | ->].
Qed.

Lemma is_issued_head k c l :
  steady k c -> is_issued k 0 c l -> ie_rob_index l = Z.of_nat (rob_head (rob c)).
Proof.
  intros St Hl. rewrite (ii_index _ _ _ _ Hl). f_equal. apply ring_at_0.
  destruct (s_rob _ _ St) as [[] _]. done.
Qed.

Lemma steady_count k c : steady k c -> steady k (count_branch c).
Proof. by intros []. Qed.

Lemma ex_step k c :
  committed k c ->
  let x := ie_valid (issue_ex (p6_reg c)) in
  exists c', P6_EX_stage c = Some c' /\ executed k x c' /\ p6_reg c' = p6_reg c.
Proof.
  intros [St Hlat Hfl Hfr Hie Hch Hsb Hsi Hsh] x. subst x. unfold P6_EX_stage.
  unfold path_start in Hch. destruct (ie_valid (issue_ex (p6_reg c))) eqn:Ev.
  2: { eexists. split; [reflexivity|]. split; [|done].
    split; simpl; rewrite <-?Hlat; try done; [by destruct St|by rewrite Hfl]. }
  specialize (Hie eq_refl). set (l := issue_ex (p6_reg c)) in *. cbn [negb].
  pose proof (ii_issued _ _ _ _ Hie) as Hl.
  destruct (ex_correct k (p6_core c) l) as (r0 & tk & tg & res & E1 & E2 & Hec & Hctl & Hseq);
    [apply St|apply St|done|].
  destruct (ex_opcode_tests _ _ _ _ Hl (pg_op _ _ P k)) as (_ & _ & T63 & T73 & Tbr).
  rewrite E1, T73, T63. cbn [andb].
  set (c1 := if is_cond_op (a_op (ins k)) then count_branch c else c).
  assert (p6_core c1 = p6_core c /\ p6_reg c1 = p6_reg c /\ p6_next c1 = p6_next c /\ rob c1 = rob c /\
    store_buffer c1 = store_buffer c /\ p6_dmi c1 = p6_dmi c /\ p6_stopped c1 = p6_stopped c /\
    p6_ctl c1 = p6_ctl c /\ p6_instructions (p6_stats c1) = p6_instructions (p6_stats c) /\
    p6_pred c1 = p6_pred c) as (F1 & F2 & F3 & F4 & F5 & F6 & F7 & F8 & F9 & F10)
    by (unfold c1; by destruct (is_cond_op _)).
  rewrite F1, E2.
  assert ({ c1 with p6_core := { p6_core c with mem_intf := mem_intf (p6_core c) } } = c1) as ->
    by (rewrite hart_same, <-F1; by destruct c1).
  rewrite Tbr. fold (is_control (ins k)).
  set (c2 := if is_control (ins k) then ex_resolve l tk tg c1 else c1).
  destruct (ex_resolve_frame l tk tg c1) as (G1 & G2 & G3 & G4 & G5 & G6 & G7 & G8 & G9 & G10 & G11).
  assert (p6_core c2 = p6_core c /\ p6_reg c2 = p6_reg c /\ p6_next c2 = p6_next c /\ rob c2 = rob c /\
    store_buffer c2 = store_buffer c /\ p6_dmi c2 = p6_dmi c /\ p6_stopped c2 = p6_stopped c /\
    scoreboard (p6_ctl c2) = scoreboard (p6_ctl c) /\
    p6_instructions (p6_stats c2) = p6_instructions (p6_stats c) /\ predictor_ok (p6_pred c2) /\
    if flush_pipeline (p6_ctl c2) then pc_redirect_target (p6_ctl c2) = a_pc (run (Datatypes.S k))
    else p6_ctl c2 = p6_ctl c /\ pnext (ie_pc l) (ie_pred l) = a_pc (run (Datatypes.S k)))
    as (H1' & H2' & H3' & H4' & H5' & H6' & H7' & H8' & H9' & H10' & H11').
  { unfold c2. destruct (is_control (ins k)) eqn:Ec.
    - destruct (Hctl eq_refl) as [Hpc Htg].
      split_and!; try congruence.
      + apply (predictor_ok_ras (train l tk tg (p6_pred c1))); [|done|done].
        rewrite F10. apply train_ok with k; [apply St|done|apply Hl|done|done].
      + rewrite <-F8. apply ex_resolve_path; [|done|by rewrite F8|done].
        destruct Hie. split; [done|done|by rewrite F4].
    - rewrite F8, Hfl. split_and!; try congruence; [rewrite F10; apply St|].
      unfold pnext. rewrite (Hseq eq_refl), (x_pc _ _ _ _ Hl).
      destruct (predicted_taken (ie_pred l)) eqn:Et; [|done].
      pose proof (po_control _ _ (ii_predok _ _ _ _ Hie) k Et (x_pc _ _ _ _ Hl)). congruence. }
  eexists. split; [reflexivity|]. split; [|done].
  split; simpl; unfold sb_at; simpl; rewrite ?H1', ?H2', ?H3', ?H4', ?H5', ?H6', ?H7', ?H8', ?H9', <-?Hlat; try done.
  - destruct St. by split; simpl; rewrite ?H1', ?H4', ?H5', ?H6', ?H7', ?H8', ?H9'.
  - unfold ex_latch. by destruct (_ =? _).
  - intros _. split; simpl; [apply Hec| |].
    + unfold ex_latch. rewrite <-(x_rd _ _ _ _ Hl). by destruct (_ =? _).
    + rewrite H4', <-(is_issued_head k c l St Hie). unfold ex_latch. by destruct (_ =? _).
  - destruct (flush_pipeline (p6_ctl c2)); [done|]. destruct H11' as [-> <-]. exact Hch.
  - rewrite Hsh. unfold in_flight, ex_latch. by destruct (_ =? _).
Qed.

(** *** Issue *)

(** The path beyond the latch to Issue. *)
Definition ahead (q : Z) (fi : Fetch_ID_Latch) (pf : PCGen_Fetch_Latch) (npc : Z) : Prop :=
  advance (fi_valid fi) (fi_pc fi) (fi_pred fi) q (fun q =>
  advance (pf_valid pf) (pf_pc pf) (pf_pred pf) q (fun q => npc = q)).

Lemma chain_ahead q ii fi pf npc :
  chain q ii fi pf npc <->
  if ii_valid ii then ii_pc ii = q /\ ahead (pnext (ii_pc ii) (ii_pred ii)) fi pf npc
  else ahead q fi pf npc.
Proof. unfold chain, advance at 1. by destruct (ii_valid ii). Qed.

(** Between Issue and ID: [b] says that Issue stalled. *)
Record issue_done (j : nat) (x b : bool) (c : cpuP6 S) : Prop := {
  q_steady : steady j c;
  q_back : backend j c;
  q_flush : flush_pipeline (p6_ctl c) = false;
  q_stall : stall_pcgen (p6_ctl c) = b /\ stall_fetch (p6_ctl c) = b /\ stall_issue (p6_ctl c) = b;
  q_x : ec_valid (ex_commit (p6_next c)) = x;
  q_ii : id_issue (p6_next c) = id_issue (p6_reg c);
  q_fi : fetch_id (p6_next c) = fetch_id (p6_reg c);
  q_pf : pcgen_fetch (p6_next c) = pcgen_fetch (p6_reg c);
  q_front : front_ok (p6_reg c);
  q_busy : b = true -> x = true /\ ii_valid (id_issue (p6_reg c)) = true;
  q_ie : ie_valid (issue_ex (p6_next c)) = negb b && ii_valid (id_issue (p6_reg c));
  q_path : let q := path_start (if x then Datatypes.S j else j) (issue_ex (p6_next c)) in
    if b then chain q (id_issue (p6_reg c)) (fetch_id (p6_reg c)) (pcgen_fetch (p6_reg c))
           (p6_next_pc (p6_ctl c))
    else ahead q (fetch_id (p6_reg c)) (pcgen_fetch (p6_reg c)) (p6_next_pc (p6_ctl c))
}.

(** A bubble goes to EX. *)
Lemma bubble_back j x (c c' : cpuP6 S) :
  executed j x c -> ex_commit (p6_next c') = ex_commit (p6_next c) ->
  ie_valid (issue_ex (p6_next c')) = false ->
  rob c' = rob c -> scoreboard (p6_ctl c') = scoreboard (p6_ctl c) -> backend j c'.
Proof.
  intros [] E1 E2 E3 E4.
  split; cbv zeta; rewrite ?E1, ?E2, ?E3; try done.
  - intros Hx. rewrite Hx in *. destruct (m_ec0 ltac:(congruence)). split; try done. by rewrite E3.
  - intros r Hr Hb. unfold sb_at in Hb. rewrite E4 in Hb. destruct (m_sb0 r Hr Hb) as (? & ? & ?).
    split; [done|left]. split; congruence.
  - rewrite m_shape0, m_x0. simpl. by rewrite app_nil_r.
Qed.

Lemma stb_not_full (b : StoreBuffer) :
  pending SPEC_DEPTH COMMIT_DEPTH b = [] -> stb_is_full SPEC_DEPTH b = false.
Proof.
  unfold pending, spec_items, ring_items. intros E. apply app_eq_nil in E as [_ E].
  apply fmap_nil_inv in E. unfold stb_is_full, spec_is_full. by destruct (spec_count b).
Qed.

Lemma rob_shape_count (r : ReorderBuffer) : length (rob_shape r) = rob_count r.
Proof. unfold rob_shape. rewrite length_fmap. apply rob_items_length. Qed.

(** The instruction that passes the scoreboard reads nothing that the executed one writes. *)
Lemma no_hazard j x (c : cpuP6 S) r :
  executed j x c -> x = true -> reads (ins (Datatypes.S j)) r -> sb_at c r = false ->
  r = 0 \/ r <> dest (ins j).
Proof.
  intros Hm Hx Hr Hb. destruct (Z.eq_dec r 0); [by left|right]. intros ->.
  destruct (m_sb_ex _ _ _ Hm Hx) as [E|(m & -> & Ed & Hn)]; [done|congruence|].
  apply (pg_waw _ _ P m); rewrite ?Ed; try done. by rewrite <-Ed.
Qed.

(** The operands that the register bank holds are those of the state to come. *)
Lemma operand_ready j (x : bool) (c : cpuP6 S) r (k := if x then Datatypes.S j else j) :
  executed j x c -> 0 <= r < 32 -> reads (ins k) r -> sb_at c r = false ->
  reg (p6_core c) r = a_reg (run k) r.
Proof.
  intros Hm Hr Hk Hb. destruct (s_seen _ _ (m_steady _ _ _ Hm)) as [Sr _]. rewrite Sr by done. subst k.
  destruct x; [|done]. pose proof (m_ec _ _ _ Hm eq_refl) as [Hok Hrd _]. symmetry.
  apply (ec_frame _ _ _ Hok); [done|]. rewrite Hrd. by apply (no_hazard j true c).
Qed.

(** The dispatch of the instruction at the head of the front end. *)
Lemma Issue_dispatch (c : cpuP6 S) (ii := id_issue (p6_reg c)) :
  flush_pipeline (p6_ctl c) = false -> ii_valid ii = true -> ii_instr ii <> 0 ->
  sb_at c (ii_rs1 ii) = false -> sb_at c (ii_rs2 ii) = false ->
  pending SPEC_DEPTH COMMIT_DEPTH (store_buffer c) = [] ->
  rob_wf ROB_SIZE (rob c) -> (rob_count (rob c) < ROB_SIZE)%nat ->
  exists idx r,
    Issue_stage c =
      { set_issue_ex (issue_dispatch ii (reg (p6_core c)) idx) c with
        rob := r;
        p6_ctl := { p6_ctl c with stall_pcgen := false; stall_fetch := false; stall_issue := false;
          scoreboard := if ii_rd ii =? 0 then scoreboard (p6_ctl c)
                        else <[Z.to_nat (ii_rd ii) := true]> (scoreboard (p6_ctl c)) } } /\
    idx = Z.of_nat (ring_at ROB_SIZE (rob_head (rob c)) (rob_count (rob c))) /\
    rob_wf ROB_SIZE r /\ rob_head r = rob_head (rob c) /\
    rob_shape r = rob_shape (rob c) ++ [(false, ii_opcode ii =? 0x23)].
Proof.
  intros Hfl Hv Hi Hs1 Hs2 Hp Hwf Hc. unfold sb_at in Hs1, Hs2.
  destruct (rob_issue ROB_SIZE (fun e => { e with rob_pc := ii_pc ii; rob_is_store := ii_opcode ii =? 0x23;
    rob_is_branch := is_branch_op (ii_opcode ii) }) (rob c)) as (I1 & I2 & I3 & e & I4 & I5);
    [done|lia|done|].
  unfold Issue_stage. simpl. fold ii. rewrite Hfl, Hv, Hs1, Hs2, stb_not_full, andb_false_r by done. simpl.
  destruct (rob_allocate ROB_SIZE (rob c)) as [idx r1]. simpl in *.
  rewrite (proj2 (Z.ltb_ge _ _)), (proj2 (Z.eqb_neq _ _) Hi) by lia.
  eexists idx, _. split; [|split_and!; [exact I1|exact I2|exact I3|]].
  - by destruct (ii_rd ii =? 0).
  - unfold rob_shape. rewrite I5, fmap_app. simpl. by rewrite I4.
Qed.

(** The scoreboard after the mark of [rd]. *)
Lemma sb_mark sb rd r :
  length sb = 32%nat -> 0 <= rd < 32 -> 0 <= r < 32 ->
  (if rd =? 0 then sb else <[Z.to_nat rd := true]> sb) !!! Z.to_nat r =
    (negb (rd =? 0) && (r =? rd)) || sb !!! Z.to_nat r.
Proof.
  intros Hl Hrd Hr. destruct (Z.eqb_spec rd 0); [done|]. simpl.
  destruct (Z.eqb_spec r rd) as [->|].
  - apply list_lookup_total_insert_eq. lia.
  - apply list_lookup_total_insert_ne. lia.
Qed.

Lemma pg_shift k : shift_ok (ins k).
Proof. destruct (pg_step _ _ P k) as (t & Ht & _). by apply (shift_ok_step _ _ _ (pg_asm _ _ P k) Ht). Qed.

(** The front end holds the instruction of its pc. *)
Lemma front_decoded k ls :
  front_ok ls -> ii_valid (id_issue ls) = true -> ii_pc (id_issue ls) = a_pc (run k) ->
  decoded (ins k) (a_pc (run k)) (id_issue ls) /\ pred_ok (ii_pc (id_issue ls)) (ii_pred (id_issue ls)).
Proof.
  intros Hf Hv Hpc. destruct (fo_ii _ Hf Hv) as (Hp & old & fi & E & Hok). split; [|done].
  pose proof (id_decode_fields old fi) as (F & _). rewrite <-E, Hpc in F.
  rewrite E, F. apply id_decode_encode; [apply P|apply P|apply pg_shift|]. by apply Hok.
Qed.

Lemma dispatch_back j (x : bool) (c : cpuP6 S) (k := if x then Datatypes.S j else j) (ii := id_issue (p6_reg c)) idx r
    (sb := if ii_rd ii =? 0 then scoreboard (p6_ctl c)
           else <[Z.to_nat (ii_rd ii) := true]> (scoreboard (p6_ctl c))) (c' : cpuP6 S) :
  executed j x c -> decoded (ins k) (a_pc (run k)) ii -> pred_ok (ii_pc ii) (ii_pred ii) ->
  sb_at c (ii_rs1 ii) = false -> sb_at c (ii_rs2 ii) = false ->
  idx = Z.of_nat (ring_at ROB_SIZE (rob_head (rob c)) (rob_count (rob c))) ->
  rob_head r = rob_head (rob c) ->
  rob_shape r = rob_shape (rob c) ++ [(false, ii_opcode ii =? 0x23)] ->
  p6_next c' = p6_next (set_issue_ex (issue_dispatch ii (reg (p6_core c)) idx) c) ->
  rob c' = r -> scoreboard (p6_ctl c') = sb -> backend j c'.
Proof.
  intros Hm Hd Hp Hs1 Hs2 Ei Eh Es En Er Ek.
  pose proof (pg_asm _ _ P k) as Hi. pose proof (dest_range _ Hi) as Rd. pose proof (src1_range _ Hi). pose proof (src2_range _ Hi).
  rewrite (d_rs1 _ _ _ Hd) in Hs1. rewrite (d_rs2 _ _ _ Hd) in Hs2.
  assert (forall n, 0 <= n < 32 -> sb_at c' n = (negb (dest (ins k) =? 0) && (n =? dest (ins k))) || sb_at c n)
    as Hsb.
  { intros n Hn. unfold sb_at. rewrite Ek. unfold sb. rewrite (d_rd _ _ _ Hd).
    apply sb_mark; [apply Hm|done|done]. }
  assert (ec_valid (ex_commit (p6_next c')) = x) as Ex by (rewrite En; apply Hm).
  assert (ex_commit (p6_next c') = ex_commit (p6_next c)) as Ec by (by rewrite En).
  split; rewrite Ex; fold k; rewrite ?Ec, ?Er.
  - intros Hx. destruct (m_ec _ _ _ Hm Hx) as [W1 W2 W3]. split; [done|done|]. by rewrite Er, Eh.
  - intros _. rewrite En. simpl. split; simpl.
    + rewrite <-(d_pc _ _ _ Hd). destruct Hd as [D1 ? ? ? D2 D3 ? ? ? ?]. split; try done; simpl.
      * rewrite D2. apply (operand_ready j x c); [done|done|by left|done].
      * rewrite D3. apply (operand_ready j x c); [done|done|by right|done].
    + done.
    + rewrite Er, Eh, Ei, <-rob_shape_count, (m_shape _ _ _ Hm). by destruct x.
  - intros Hx _ Hn Hr. subst k. rewrite Hx in *.
    destruct (no_hazard j true c (dest (ins j)) Hm eq_refl Hr) as [|]; [|done|done].
    by destruct Hr as [<-|<-].
  - intros n Hn. rewrite Hsb by done. intros Hb. rewrite En. simpl.
    destruct (Z.eqb_spec (dest (ins k)) 0) as [|N0]; simpl in Hb.
    + destruct (m_sb _ _ _ Hm n Hn Hb) as (? & ? & ?). auto.
    + destruct (Z.eqb_spec n (dest (ins k))) as [->|]; simpl in Hb; [auto|].
      destruct (m_sb _ _ _ Hm n Hn Hb) as (? & ? & ?). auto.
  - intros _ Hn. rewrite Hsb, Z.eqb_refl, (proj2 (Z.eqb_neq _ _)) by done. done.
  - rewrite Es, (m_shape _ _ _ Hm), En. done.
Qed.

Lemma issue_step j x c :
  executed j x c -> flush_pipeline (p6_ctl c) = false ->
  exists b, issue_done j x b (Issue_stage c) /\ p6_reg (Issue_stage c) = p6_reg c /\
    p6_next_pc (p6_ctl (Issue_stage c)) = p6_next_pc (p6_ctl c).
Proof.
  intros Hm Hfl. pose proof (m_path _ _ _ Hm) as Hp. cbv zeta in Hp. rewrite Hfl in Hp.
  rewrite chain_ahead in Hp. pose proof (m_steady _ _ _ Hm) as St.
  set (ii := id_issue (p6_reg c)) in *.
  fold ii in Hp. destruct (ii_valid ii) eqn:Hv.
  2: { exists false.
    assert (Issue_stage c = issue_bubble { c with p6_ctl := { p6_ctl c with stall_pcgen := false;
      stall_fetch := false; stall_issue := false } }) as ->
      by (unfold Issue_stage; simpl; fold ii; by rewrite Hfl, Hv).
    split; [|done]. destruct Hm. split; simpl; fold ii; try done.
    - by destruct St.
    - by apply (bubble_back j x c). }
  destruct Hp as [Hpc Hp].
  destruct (front_decoded (if x then Datatypes.S j else j) (p6_reg c) (m_front _ _ _ Hm) Hv Hpc) as [Hd Hpo].
  pose proof (pg_asm _ _ P (if x then Datatypes.S j else j)) as Hi.
  pose proof (src1_range _ Hi) as Rs1. pose proof (src2_range _ Hi) as Rs2.
  rewrite <-(d_rs1 _ _ _ Hd) in Rs1. rewrite <-(d_rs2 _ _ _ Hd) in Rs2.
  destruct (sb_at c (ii_rs1 ii) || sb_at c (ii_rs2 ii)) eqn:Hz.
  { exists true.
    assert (Issue_stage c = issue_stalls { c with p6_ctl := { p6_ctl c with stall_pcgen := false;
      stall_fetch := false; stall_issue := false } }) as ->.
    { unfold sb_at in Hz. unfold Issue_stage. simpl. fold ii. by rewrite Hfl, Hv, Hz. }
    split; [|done]. split; simpl; fold ii; try apply Hm; try done.
    - by destruct St.
    - by apply (bubble_back j x c).
    - intros _. split; [|done]. apply orb_true_iff in Hz as [Hz|Hz];
        [apply (m_sb _ _ _ Hm _ Rs1 Hz)|apply (m_sb _ _ _ Hm _ Rs2 Hz)].
    - unfold path_start. simpl. rewrite chain_ahead. fold ii. by rewrite Hv. }
  apply orb_false_iff in Hz as [Hz1 Hz2].
  assert (rob_count (rob c) < ROB_SIZE)%nat as Hcount.
  { rewrite <-rob_shape_count, (m_shape _ _ _ Hm). unfold ROB_SIZE. destruct x; simpl; lia. }
  destruct (Issue_dispatch c) as (idx & r & E & Ei & R1 & R2 & R3);
    [done|done|apply Hd|done|done|apply St|apply St|done|].
  rewrite E. exists false. split; [|done]. fold ii in R3.
  assert (backend j (Issue_stage c)) as Hb by (by eapply (dispatch_back j x c idx r); rewrite ?E).
  rewrite E in Hb. split; simpl; try apply Hm; try done.
  destruct St as [? ? ? ? ? ? ? ? Hlen ?]. split; simpl; try done.
  fold ii. destruct (ii_rd ii =? 0); [done|]. by rewrite length_insert.
Qed.

(** *** The front end *)

Lemma P6_fetch_ok j (c : cpuP6 S) pc :
  steady j c -> pm_dom (S := S) pc 4 ->
  exists w d, P6_fetch_instruction pc c = Some (Some w, { c with p6_dmi := d }) /\
    dmi_ok d /\ forall n, pc = a_pc (run n) -> w = encode (ins n).
Proof.
  intros St Hd. destruct (s_core _ _ St) as [_ Hm]. destruct (s_seen _ _ St) as [_ Sm].
  set (w := load (pm_bytes (mem_intf (p6_core c))) pc 4).
  assert (forall n, pc = a_pc (run n) -> w = encode (ins n)) as Hw.
  { intros n ->. rewrite <-(pg_code _ _ P j n). apply load_ext. intros. apply Sm. }
  unfold P6_fetch_instruction.
  set (bus := let '(trans, _, s) := b_transport _ 0 _ in _).
  assert (exists d, bus = Some (Some w, { c with p6_dmi := d }) /\ dmi_ok d) as (d & Hb & Hdo).
  { unfold bus. destruct (instr_read pc (le_split 4 0) (mem_intf (p6_core c)) Hm Hd) as (d & dmi & ->).
    destruct dmi; simpl; [destruct (get_direct_mem_ptr _) eqn:Hg|].
    1: exists (Some dmi_window); split; [|right; split; [done|by apply (instr_grant _ Hm)]].
    2,3: exists (p6_dmi c); split; [|apply St].
    all: by destruct c as [[] ? ? ? ? ? ? ? ? ? ? ? ?]. }
  clearbody bus. destruct (s_dmi _ _ St) as [E|[E Hi]]; rewrite E; [by exists w, d|].
  unfold dmi_window at 1. cbv iota beta. destruct (_ && _); [|by exists w, d].
  rewrite Z.sub_0_r, (instr_direct pc 4) by done.
  exists w, (p6_dmi c). split_and!; [by destruct c|apply St|done].
Qed.

Lemma steady_frame k (c c' : cpuP6 S) :
  steady k c -> p6_stopped c' = p6_stopped c -> p6_core c' = p6_core c -> dmi_ok (p6_dmi c') ->
  predictor_ok (p6_pred c') -> store_buffer c' = store_buffer c -> rob c' = rob c ->
  scoreboard (p6_ctl c') = scoreboard (p6_ctl c) ->
  p6_instructions (p6_stats c') = p6_instructions (p6_stats c) -> steady k c'.
Proof. intros [] E1 E2 E3 E4 E5 E6 E7 E8. by split; rewrite ?E1, ?E2, ?E3, ?E4, ?E5, ?E6, ?E7, ?E8. Qed.

Lemma backend_frame j (c c' : cpuP6 S) :
  backend j c -> ex_commit (p6_next c') = ex_commit (p6_next c) ->
  issue_ex (p6_next c') = issue_ex (p6_next c) -> rob c' = rob c ->
  scoreboard (p6_ctl c') = scoreboard (p6_ctl c) -> backend j c'.
Proof.
  intros [] E1 E2 E3 E4. split; unfold sb_at in *; cbv zeta; rewrite ?E1, ?E2, ?E3, ?E4; try done.
  - intros Hx. destruct (b_ec0 Hx). split; try done. by rewrite E3.
  - intros Hx. destruct (b_ie0 Hx). split; try done. by rewrite E3.
Qed.

(** The flush: the front end empties and PCGen goes to the target. *)
Lemma front_flush j c :
  executed j true c -> flush_pipeline (p6_ctl c) = true ->
  exists c', Fetch_stage (ID_stage (Issue_stage c)) = Some c' /\ inv j (PCGen_stage c') /\
    ec_valid (ex_commit (p6_next (PCGen_stage c'))) = true.
Proof.
  intros Hm Hfl. pose proof (m_path _ _ _ Hm) as Hp. cbv zeta in Hp. rewrite Hfl in Hp. destruct Hp as [Hp _].
  unfold Issue_stage. simpl. rewrite Hfl. unfold ID_stage. simpl. rewrite Hfl.
  unfold Fetch_stage. simpl. rewrite Hfl. eexists. split; [reflexivity|].
  unfold PCGen_stage. simpl. rewrite Hfl. split; [|apply Hm].
  assert (backend j (PCGen_stage (set_fetch_id { fetch_id (p6_next c) with fi_valid := false }
    (set_id_issue { id_issue (p6_next c) with ii_valid := false } (issue_bubble c))))) as Hb
    by (apply (bubble_back j true c); unfold PCGen_stage; simpl; by rewrite ?Hfl).
  split; simpl.
  - by destruct (m_steady _ _ _ Hm).
  - eapply backend_frame; [exact Hb|unfold PCGen_stage; simpl; by rewrite ?Hfl..].
  - done.
  - by split.
  - unfold chain, advance, path_start. simpl. by rewrite (m_x _ _ _ Hm).
Qed.

Lemma pred_ok_same pc p q :
  predicted_taken q = predicted_taken p -> predicted_target q = predicted_target p ->
  pred_ok pc p -> pred_ok pc q.
Proof. intros E1 E2 []. split; by rewrite E1, ?E2. Qed.

(** PCGen sends the next pc. *)
Lemma PCGen_step j (c : cpuP6 S) :
  steady j c -> flush_pipeline (p6_ctl c) = false -> stall_pcgen (p6_ctl c) = false ->
  exists p pr npc,
    PCGen_stage c =
      set_pcgen_fetch {| pf_pc := p6_next_pc (p6_ctl c); pf_valid := true; pf_pred := pr |}
        { c with p6_pred := p; p6_ctl := { p6_ctl c with p6_next_pc := npc } } /\
    predictor_ok p /\ pred_ok (p6_next_pc (p6_ctl c)) pr /\ npc = pnext (p6_next_pc (p6_ctl c)) pr.
Proof.
  intros St Hfl Hs. unfold PCGen_stage. rewrite Hfl, Hs.
  destruct (predict _ _) as [[tk tg] p] eqn:E.
  destruct (predict_ok _ _ _ _ _ (pf_pred (pcgen_fetch (p6_next c))) (s_pred _ _ St) E) as [Hp Hpr].
  eexists _, _, _. by split_and!.
Qed.

(** The latch that Fetch writes. *)
Record fetched (pf : PCGen_Fetch_Latch) (l : Fetch_ID_Latch) : Prop := {
  fe_valid : fi_valid l = pf_valid pf;
  fe_pc : pf_valid pf = true -> fi_pc l = pf_pc pf;
  fe_taken : pf_valid pf = true -> predicted_taken (fi_pred l) = predicted_taken (pf_pred pf);
  fe_target : pf_valid pf = true -> predicted_target (fi_pred l) = predicted_target (pf_pred pf);
  fe_ok : pf_valid pf = true -> fi_ok l
}.

Lemma Fetch_step j (c : cpuP6 S) (pf := pcgen_fetch (p6_reg c)) :
  steady j c -> flush_pipeline (p6_ctl c) = false -> stall_fetch (p6_ctl c) = false ->
  (pf_valid pf = true -> pm_dom (S := S) (pf_pc pf) 4) ->
  exists d l, Fetch_stage c = Some (set_fetch_id l { c with p6_dmi := d }) /\ dmi_ok d /\ fetched pf l.
Proof.
  intros St Hfl Hs Hd. unfold Fetch_stage. rewrite Hfl, Hs. fold pf.
  destruct (pf_valid pf) eqn:Hv; simpl.
  - destruct (P6_fetch_ok j c (pf_pc pf) St (Hd eq_refl)) as (w & d & E & Hdo & Hw). rewrite E.
    eexists d, _. split; [reflexivity|]. split; [done|]. by split.
  - exists (p6_dmi c). eexists. split; [by destruct c|]. split; [apply St|]. by split; rewrite ?Hv.
Qed.

(** The latch that ID writes. *)
Record id_done (fi : Fetch_ID_Latch) (l : ID_Issue_Latch) : Prop := {
  id_valid : ii_valid l = fi_valid fi;
  id_from : fi_valid fi = true -> exists old, l = id_decode old fi
}.

Lemma ID_step (c : cpuP6 S) (fi := fetch_id (p6_reg c)) :
  flush_pipeline (p6_ctl c) = false -> stall_issue (p6_ctl c) = false ->
  exists l, ID_stage c = set_id_issue l c /\ id_done fi l.
Proof.
  intros Hfl Hs. unfold ID_stage. rewrite Hfl, Hs. fold fi.
  destruct (fi_valid fi) eqn:Hv; simpl; eexists; (split; [reflexivity|]).
  - split; [done|]. by eexists.
  - by split; rewrite ?Hv.
Qed.

Lemma ahead_fetch ls q npc k :
  front_ok ls -> near k q -> 0 <= k <= 1 ->
  ahead q (fetch_id ls) (pcgen_fetch ls) npc -> pf_valid (pcgen_fetch ls) = true ->
  pm_dom (S := S) (pf_pc (pcgen_fetch ls)) 4.
Proof.
  intros [_ Hfi _] Hn Hk Ha Hv. unfold ahead, advance in Ha. rewrite Hv in Ha.
  destruct (fi_valid (fetch_id ls)); [destruct Ha as [E Ha]|]; destruct Ha as [-> _]; apply near_dom.
  - apply (near_mono (k + 1)); [lia|]. destruct (Hfi eq_refl). apply near_pnext; [lia|by rewrite E|done].
  - by apply (near_mono k); [lia|].
Qed.

(** The latches that move keep the path. *)
Lemma ahead_chain q ls npc ii fi pr npc' :
  ahead q (fetch_id ls) (pcgen_fetch ls) npc ->
  id_done (fetch_id ls) ii -> fetched (pcgen_fetch ls) fi -> npc' = pnext npc pr ->
  chain q ii fi (mkPF npc true pr) npc'.
Proof.
  intros Ha [I1 I2] [F1 F2 F3 F4 _] Hn. unfold chain, ahead, advance in *. rewrite I1, F1.
  destruct (fi_valid (fetch_id ls)).
  - destruct (I2 eq_refl) as (old & ->). destruct Ha as [E Ha]. split; [exact E|].
    change (pnext (ii_pc (id_decode old (fetch_id ls))) (ii_pred (id_decode old (fetch_id ls))))
      with (pnext (fi_pc (fetch_id ls)) (fi_pred (fetch_id ls))).
    destruct (pf_valid (pcgen_fetch ls)); [|by split].
    destruct Ha as [E' ->]. rewrite F2 by done. split; [done|].
    unfold pnext. rewrite F3, F4 by done. by split.
  - destruct (pf_valid (pcgen_fetch ls)); [|by split].
    destruct Ha as [E' ->]. rewrite F2 by done. split; [done|].
    unfold pnext. rewrite F3, F4 by done. by split.
Qed.

Lemma path_start_near j (c : cpuP6 S) (e := ec_valid (ex_commit (p6_next c))) :
  backend j c -> near 1 (path_start (if e then Datatypes.S j else j) (issue_ex (p6_next c))).
Proof.
  intros [_ Hie _ _ _ _]. fold e in Hie. unfold path_start. set (k := if e then _ else _) in *.
  assert (near 0 (a_pc (run k))) as Hn by (exists (a_pc (run k)), 0; split_and!; [apply P|lia..]).
  destruct (ie_valid _); [|by apply (near_mono 0)].
  destruct (Hie eq_refl) as [Hl Hp _]. apply (near_pnext 0); [lia| |done]. by rewrite (x_pc _ _ _ _ Hl).
Qed.

(** The front end moves. *)
Lemma front_advance j x c :
  issue_done j x false c ->
  exists c', Fetch_stage (ID_stage c) = Some c' /\ inv j (PCGen_stage c') /\
    (let l := p6_next (PCGen_stage c') in
     ec_valid (ex_commit l) = x /\ ie_valid (issue_ex l) = ii_valid (id_issue (p6_reg c)) /\
     ii_valid (id_issue l) = fi_valid (fetch_id (p6_reg c)) /\
     fi_valid (fetch_id l) = pf_valid (pcgen_fetch (p6_reg c)) /\ pf_valid (pcgen_fetch l) = true).
Proof.
  intros [St Hb Hfl (S1 & S2 & S3) Hx _ _ _ Hfr _ Hie Hp].
  destruct (ID_step c Hfl S3) as (ii & -> & Hii). set (c1 := set_id_issue ii c).
  assert (steady j c1) as St1 by (by apply (steady_frame j c); [..|apply St|apply St| | | |]).
  destruct (Fetch_step j c1) as (d & fi & -> & Hd & Hfi); [done|done|done| |].
  { intros Hv. apply (ahead_fetch (p6_reg c) _ (p6_next_pc (p6_ctl c)) 1 Hfr
      (path_start_near j c Hb) ltac:(lia)); [|done]. by rewrite Hx. }
  eexists. split; [reflexivity|]. set (c2 := set_fetch_id fi _).
  assert (steady j c2) as St2 by (by apply (steady_frame j c); [..|apply St| | | |]).
  destruct (PCGen_step j c2 St2) as (p & pr & npc & -> & Hpo & Hpr & En); [done|done|].
  simpl. split.
  - split; simpl; [|by apply (backend_frame j c)|done| |].
    + by apply (steady_frame j c).
    + destruct Hii as [I1 I2], Hfi as [F1 F2 F3 F4 F5]. split; simpl; [rewrite I1|rewrite F1|done].
      * intros Hv. destruct (I2 Hv) as (old & ->). destruct (fo_fi _ Hfr Hv) as [Ho Hok].
        split; [by apply (pred_ok_same _ (fi_pred (fetch_id (p6_reg c))))|]. by eexists _, _.
      * intros Hv. rewrite F2 by done. split; [|by apply F5].
        apply (pred_ok_same _ (pf_pred (pcgen_fetch (p6_reg c)))); [by apply F3|by apply F4|by apply Hfr].
    + rewrite Hx. by eapply ahead_chain.
  - split_and!; [done|by rewrite Hie|apply Hii|apply Hfi|done].
Qed.

(** The front end holds while Issue stalls. *)
Lemma front_hold j x c :
  issue_done j x true c ->
  Fetch_stage (ID_stage c) = Some c /\ PCGen_stage c = c /\ inv j c.
Proof.
  intros [St Hb Hfl (S1 & S2 & S3) Hx E1 E2 E3 Hfr _ Hie Hp].
  unfold ID_stage. rewrite Hfl, S3. unfold Fetch_stage, PCGen_stage. rewrite Hfl, S1, S2.
  split_and!; [done|done|]. split; [done..| |].
  - destruct Hfr. split; by rewrite ?E1, ?E2, ?E3.
  - by rewrite Hx, E1, E2, E3.
Qed.

(** *** The cycle *)

(** The stages that the next instruction to execute is away from EX. *)
Definition distance (l : latches) : nat :=
  if ie_valid (issue_ex l) then 0 else if ii_valid (id_issue l) then 1
  else if fi_valid (fetch_id l) then 2 else if pf_valid (pcgen_fetch l) then 3 else 4.

(** The number of instructions executed. *)
Definition executed_count (j : nat) (l : latches) : nat := if ec_valid (ex_commit l) then Datatypes.S j else j.

Lemma count_cycle_inv j c : inv j c -> inv j (count_cycle c).
Proof.
  intros []. split; try done; [by apply (steady_frame j c); [..|apply i_steady0|apply i_steady0| | | |]|].
  by apply (backend_frame j c).
Qed.

Lemma terminates_false fl (c : cpuP6 S) :
  fl = true \/ pf_valid (pcgen_fetch (p6_next c)) = true \/ ii_valid (id_issue (p6_reg c)) = true ->
  P6_terminates fl c = false.
Proof.
  unfold P6_terminates. intros [-> |[-> | ->]]; simpl;
    rewrite ?andb_false_r; simpl; rewrite ?andb_false_r; done.
Qed.

Lemma cycle_step j c :
  inv j c ->
  exists c', P6_cycle c = Some c' /\ inv (executed_count j (p6_next c)) c' /\
    ec_valid (ex_commit (p6_next c')) = ie_valid (issue_ex (p6_next c)) /\
    (ie_valid (issue_ex (p6_next c)) = false -> Datatypes.S (distance (p6_next c')) = distance (p6_next c)).
Proof.
  intros Hi. unfold P6_cycle. rewrite (s_running _ _ (i_steady _ _ Hi)).
  destruct (commit_step j c Hi) as (c1 & -> & Hc & Hn). fold (executed_count j (p6_next c)) in Hc.
  set (k := executed_count j (p6_next c)) in *.
  destruct (ex_step k c1 Hc) as (c2 & -> & Hm & Hr). rewrite (c_latches _ _ Hc), Hn in Hm, Hr.
  set (x := ie_valid (issue_ex (p6_next c))) in *.
  destruct (flush_pipeline (p6_ctl c2)) eqn:Hfl.
  - pose proof (m_path _ _ _ Hm) as Hp. cbv zeta in Hp. rewrite Hfl in Hp. destruct Hp as [_ Ex].
    rewrite Ex in *. destruct (front_flush k c2 Hm Hfl) as (c3 & -> & Hi3 & He).
    rewrite terminates_false by (by left). eexists. split; [reflexivity|].
    split_and!; [by apply count_cycle_inv|done|done].
  - destruct (issue_step k x c2 Hm Hfl) as ([] & Hq & Hr2 & _).
    + destruct (q_busy _ _ _ _ Hq eq_refl) as [Ex Hv].
      destruct (front_hold k x _ Hq) as (-> & -> & Hi3).
      rewrite terminates_false by (right; right; exact Hv). eexists. split; [reflexivity|].
      split_and!; [by apply count_cycle_inv|apply Hq|by rewrite Ex].
    + destruct (front_advance k x _ Hq) as (c3 & -> & Hi3 & E1 & E2 & E3 & E4 & E5).
      rewrite terminates_false by (right; left; exact E5). eexists. split; [reflexivity|].
      split_and!; [by apply count_cycle_inv|done|].
      intros Ex. change (p6_next (count_cycle ?c)) with (p6_next c). rewrite Hr2, Hr in *.
      unfold distance. rewrite E2, E3, E4, E5. fold x. rewrite Ex.
      by repeat (case_match; try done).
Qed.

Lemma distance_le l : (distance l <= 4)%nat.
Proof. unfold distance. repeat case_match; lia. Qed.

(** After [n] cycles. *)
Lemma cycles_progress n j c k :
  inv j c -> (k <= 5 * executed_count j (p6_next c) + 4 - distance (p6_next c))%nat ->
  exists j' c', P6_cycles n c = Some c' /\ inv j' c' /\ (j' <= j + n)%nat /\
    (k + n <= 5 * executed_count j' (p6_next c') + 4 - distance (p6_next c'))%nat.
Proof.
  revert j c k. induction n as [|n IH]; intros j c k Hi Hk.
  - exists j, c. split_and!; [done|done|lia|lia].
  - destruct (cycle_step j c Hi) as (c1 & E & Hi1 & He & Hd).
    pose proof (distance_le (p6_next c)). pose proof (distance_le (p6_next c1)).
    assert (Datatypes.S k <= 5 * executed_count (executed_count j (p6_next c)) (p6_next c1) + 4 -
      distance (p6_next c1))%nat as Hk1.
    { set (e := executed_count j (p6_next c)) in *. unfold executed_count. rewrite He.
      destruct (ie_valid _); [lia|]. specialize (Hd eq_refl). lia. }
    destruct (IH _ _ _ Hi1 Hk1) as (j' & c' & E' & Hi' & Hj & Hk').
    exists j', c'. cbn [P6_cycles]. rewrite E. split_and!; [done|done| |by rewrite <-Nat.add_succ_comm].
    assert (executed_count j (p6_next c) <= Datatypes.S j)%nat by (unfold executed_count; case_match; lia).
    lia.
Qed.
End exec.
