(* ===== verification/CpuP6Run.v ===== *)
(** The six-stage RV32 core from reset: the refinement theorem for its programs, and runs
    that show what the conditions of the theorem exclude. *)
From S2P Require Import Prelude Ring Bytes Memory PhysMem Regs BaseISA BaseISAProofs.
From S2P Require Import MExt AExt CExt CExtProofs CpuSimple ISASpec ROB StoreBuffer CpuP6 CpuP6Exec CpuP6Proofs.
Import RegsH.

(** ** Reset *)

(** Out of range the default is the value itself. *)
Lemma lookup_total_replicate `{Inhabited A} n (x : A) i : x = inhabitant -> replicate n x !!! i = x.
Proof.
  intros Ex. destruct (decide (i < n)%nat); [by apply lookup_total_replicate_2|].
  rewrite list_lookup_total_alt, lookup_ge_None_2; [done|]. rewrite length_replicate. lia.
Qed.

Section reset.
Context {S : Type} `{InstrMem S}.
Variables (PC : Z) (bht0 : list Z) (m : S).
Hypotheses (HPC : fits 32 PC) (Hm : pm_wf m).
#[local] Abbreviation c0 := (CPU_P6 PC bht0 m).

Lemma CPU_P6_hart_ok : hart_ok 32 (p6_core c0).
Proof.
  split; [|done]. apply write_reg_wf; [|lia|apply wrap_fits; lia].
  destruct (Registers_wf 32 ltac:(lia) m ltac:(by left)). split; try done. by apply wrap_fits.
Qed.

Lemma CPU_P6_inv run ins : abs (p6_core c0) ≡ run 0%nat -> inv run ins 0 c0.
Proof.
  intros (Ep & Er & Em). split.
  - split; try done.
    + apply CPU_P6_hart_ok.
    + by left.
    + split; [|constructor]. intros j.
      change (btb (p6_pred c0)) with (replicate 128 (inhabitant (A := BTBEntry))).
      by rewrite lookup_total_replicate.
    + apply stb_new_wf; [unfold SPEC_DEPTH|unfold COMMIT_DEPTH]; lia.
    + apply rob_new_wf. unfold ROB_SIZE. lia.
  - split; try done. intros r Hr Hb. unfold sb_at in Hb.
    change (scoreboard (p6_ctl c0)) with (replicate 32 false) in Hb. by rewrite lookup_total_replicate_2 in Hb by lia.
  - done.
  - by split.
  - unfold chain, advance, path_start. simpl in *. rewrite <-Ep. symmetry. by apply wrap_small.
Qed.
End reset.

(** C2: the six-stage core runs the RV32I programs that [rv_program] admits: base
    instructions of RV32 only (not the M instructions, whose case the core does not have, see
    [p6_mul_adds]); code that stays the same; no instruction that is not a jump or branch in
    the slot of the branch target buffer of one that is ([p6_alias_loops]); and no two
    adjacent writers of a register, the second not reading it, before a reader
    ([p6_waw_stale]); memory answers the fetches at its pcs and targets and the two after.  From reset, the registers and the memory of the core are after every
    number [n] of cycles those of the architecture after the number [j] of instructions that
    the core counts as committed; no cycle fails or stops the core, and it takes at most five
    cycles per instruction, after nine to fill the pipeline. *)
Theorem P6_runs_program {S} `{InstrMem S} run ins PC bht0 (m : S) n :
  fits 32 PC -> pm_wf m -> abs (p6_core (CPU_P6 PC bht0 m)) ≡ run 0%nat ->
  rv_program (S := S) run ins ->
  exists j c, P6_cycles n (CPU_P6 PC bht0 m) = Some c /\ p6_stopped c = false /\
    seen (p6_core c) (run j) /\ p6_instructions (p6_stats c) = u64 (Z.of_nat j) /\
    (j <= n <= 5 * j + 9)%nat.
Proof.
  intros HPC Hm E0 P. pose proof (CPU_P6_inv PC bht0 m HPC Hm run ins E0) as Hi.
  destruct (cycles_progress run ins P (p6_core (CPU_P6 PC bht0 m)) (CPU_P6_hart_ok PC bht0 m Hm) E0
    n 0 (CPU_P6 PC bht0 m) 0 Hi) as (j & c & E & Hc & Hj & Hk); [simpl; lia|].
  exists j, c. destruct (i_steady _ _ _ _ Hc). split_and!; try done.
  assert (executed_count j (p6_next c) <= Datatypes.S j)%nat by (unfold executed_count; case_match; lia). lia.
Qed.

(** ** Programs, executably *)

(** The state after the instruction [i]. *)
Definition rv_next (i : asm) (s : arch) : arch :=
  match asm_next_pc 32 4 i (a_pc s) (a_reg s) with
  | Some pc' => transfer 32 4 i pc' s
  | None =>
      let a := u32 (a_reg s (a_rs1 i) + a_imm i) in
      next 32 4
        match alu_class_of (a_op i), load_spec 32 (a_op i), store_spec (a_op i) with
        | Some c, _, _ =>
            set_rd (a_rd i)
              (alu_spec 32 (a_op i) (asm_src1 i (a_pc s) (a_reg s)) (asm_src2 32 c i (a_reg s))) s
        | _, Some (size, ext), _ => set_rd (a_rd i) (u32 (ext (load (a_mem s) a size))) s
        | _, _, Some size => { s with a_mem := store (a_mem s) a size (a_reg s (a_rs2 i)) }
        | _, _, _ => s
        end
  end.

(** The instruction has an effect in the state. *)
Definition rv_defined {S} `{InstrMem S} (i : asm) (s : arch) : Prop :=
  let a := u32 (a_reg s (a_rs1 i) + a_imm i) in
  match asm_next_pc 32 4 i (a_pc s) (a_reg s) with
  | Some _ => True
  | None =>
      match alu_class_of (a_op i), load_spec 32 (a_op i), store_spec (a_op i) with
      | Some c, _, _ => c = ALU_shift -> a_imm i < 32
      | _, Some (size, _), _ => dom (S := S) 32 a size
      | _, _, Some size => dom (S := S) 32 a size
      | _, _, _ => False
      end
  end.

Lemma rv_next_step {S} `{InstrMem S} i s :
  rv_defined (S := S) i s -> rv_step (S := S) i s (rv_next i s).
Proof.
  unfold rv_defined, rv_next. cbv zeta. destruct (asm_next_pc _ _ _ _ _) eqn:E; [intros _; by constructor|].
  destruct (alu_class_of (a_op i)) eqn:Ea; [intros Hs; apply rv_straight; by apply (eff_alu _ _ _ _ _ Ea)|].
  destruct (load_spec 32 (a_op i)) as [[size ext]|] eqn:El;
    [intros Hd; apply rv_straight; by apply (eff_load _ _ _ _ _ _ El)|].
  destruct (store_spec (a_op i)) eqn:Es; [|done].
  intros Hd. apply rv_straight. by apply (eff_store _ _ _ _ _ Es).
Qed.

Fixpoint rv_run (ins : nat -> asm) (s : arch) (n : nat) : arch :=
  match n with O => s | Datatypes.S n => rv_next (ins n) (rv_run ins s n) end.

(** The words of a program, from the address [a]. *)
Fixpoint place (a : Z) (l : list asm) (m : bytemem) : bytemem :=
  match l with [] => m | i :: l => place (a + 4) l (store m a 4 (encode i)) end.

Definition p6_memory (l : list asm) : memory := { memory0 with mem := place 0x100 l (mem memory0) }.
Definition p6_start (l : list asm) : cpuP6 memory := CPU_P6 0x100 (replicate 256 0) (p6_memory l).

Lemma place_ok a l m : mem_ok m -> mem_ok (place a l m).
Proof. revert a m. induction l as [|i l IH]; intros a m Hm; [done|]. by apply IH, store_ok. Qed.

(** A program with a hazard on each operand, a store and a load of the same word, and a
    branch that is mispredicted; it ends in a jump to itself. *)
Definition demo : list asm :=
  [mkAsm OP_ADDI 5 0 0 5; mkAsm OP_ADDI 6 0 0 7; mkAsm OP_ADD 7 5 6 0; mkAsm OP_SW 0 0 7 0x200;
   mkAsm OP_LW 8 0 0 0x200; mkAsm OP_BEQ 0 7 8 8; mkAsm OP_ADDI 9 0 0 1; mkAsm OP_JAL 0 0 0 0].
Definition demo_ins (n : nat) : asm :=
  match n with
  | 0%nat => mkAsm OP_ADDI 5 0 0 5
  | 1%nat => mkAsm OP_ADDI 6 0 0 7
  | 2%nat => mkAsm OP_ADD 7 5 6 0
  | 3%nat => mkAsm OP_SW 0 0 7 0x200
  | 4%nat => mkAsm OP_LW 8 0 0 0x200
  | 5%nat => mkAsm OP_BEQ 0 7 8 8
  | _ => mkAsm OP_JAL 0 0 0 0
  end.
Definition demo_run : nat -> arch := rv_run demo_ins (abs (p6_core (p6_start demo))).

(** The run stays in its last state. *)
Lemma demo_min n : demo_ins n = demo_ins (min n 6) /\ demo_run n = demo_run (min n 6).
Proof.
  destruct (Nat.le_gt_cases 6 n) as [Hn|Hn]; [|by rewrite Nat.min_l by lia].
  rewrite Nat.min_r by done. split.
  - do 6 (destruct n as [|n]; [lia|]). done.
  - induction Hn as [|n Hn IH]; [done|]. unfold demo_run in *. cbn [rv_run]. rewrite IH.
    do 6 (destruct n as [|n]; [lia|]). by vm_compute.
Qed.

Lemma demo_all (Q : asm -> arch -> Prop) :
  (forall n, (n < 7)%nat -> Q (demo_ins n) (demo_run n)) -> forall n, Q (demo_ins n) (demo_run n).
Proof. intros HQ n. destruct (demo_min n) as [-> ->]. apply HQ. lia. Qed.

Lemma demo_dom a size : 0 <= a < 0x1000 -> 0 < size <= 4 -> pm_dom (S := memory) a size.
Proof. intros. assert (0 <= a /\ 0 < size <= 8 /\ a + size <= SIZE) by (unfold SIZE; lia). done. Qed.

Lemma demo_fetchable a : 0 <= a < 0x800 -> fetchable (S := memory) a.
Proof. intros Ha j Hj. split; [apply demo_dom; lia|]. unfold fits. lia. Qed.

Tactic Notation "demo_cases" tactic3(tac) :=
  let n := fresh in let Hn := fresh in
  intros n Hn; cbv beta; do 7 (destruct n as [|n]; [clear Hn; tac|]); lia.

Lemma demo_program : rv_program (S := memory) demo_run demo_ins.
Proof.
  split.
  - apply (demo_all (fun i _ => asm_ok i)). demo_cases asm_okay.
  - apply (demo_all (fun i _ => rv32i (a_op i) = true)). demo_cases reflexivity.
  - intros n. eexists. split; [|reflexivity]. apply rv_next_step. fold demo_run.
    apply (demo_all (rv_defined (S := memory))).
    demo_cases (vm_compute; intuition congruence).
  - intros m n. revert m. apply (demo_all (fun i s => forall m, load (a_mem (demo_run m)) (a_pc s) 4 = encode i)).
    demo_cases (apply (demo_all (fun _ t => load (a_mem t) _ 4 = _)); demo_cases (by vm_compute)).
  - apply (demo_all (fun _ s => fetchable (S := memory) (a_pc s))).
    demo_cases (apply demo_fetchable; by vm_compute).
  - apply (demo_all (fun i s => is_cond_op (a_op i) = true -> fetchable (S := memory) (u32 (a_pc s + a_imm i)))).
    demo_cases (intros _; apply demo_fetchable; by vm_compute).
  - apply (demo_all (fun i s => is_jump_op (a_op i) = true -> fetchable (S := memory) (u32 (a_pc s + 4)))).
    demo_cases (intros _; apply demo_fetchable; by vm_compute).
  - intros m n. revert m.
    apply (demo_all (fun j t => forall m, is_control (demo_ins m) = true -> is_control j = false ->
      btb_index (a_pc (demo_run m)) <> btb_index (a_pc t))).
    demo_cases (
      apply (demo_all (fun i s => is_control i = true -> _ -> btb_index (a_pc s) <> _));
      demo_cases (vm_compute; intuition congruence)).
  - intros n d Hd E. subst d. do 6 (destruct n as [|n]; [by vm_compute in E|]). done.
Qed.

Lemma P6_runs_program_witness :
  exists c, P6_cycles 40 (p6_start demo) = Some c /\ reg (p6_core c) 8 = 12 /\ reg (p6_core c) 9 = 0 /\
    p6_mispredicts (p6_stats c) = 2.
Proof.
  destruct (P6_runs_program demo_run demo_ins 0x100 (replicate 256 0) (p6_memory demo) 40)
    as (j & c & E & _ & [Hr _] & _ & Hj).
  - by vm_compute.
  - apply place_ok. intros y. simpl. unfold fits. lia.
  - done.
  - apply demo_program.
  - exists c. split; [exact E|]. assert (6 <= j)%nat as Hj6 by lia. split_and!.
    + rewrite Hr by lia. destruct (demo_min j) as [_ ->]. rewrite Nat.min_r by done. by vm_compute.
    + rewrite Hr by lia. destruct (demo_min j) as [_ ->]. rewrite Nat.min_r by done. by vm_compute.
    + vm_compute in E. by injection E as <-.
Defined.

(** ** What the conditions exclude *)

(** The register [r] after [n] cycles of the words [l]. *)
Fixpoint place_words (a : Z) (l : list Z) (m : bytemem) : bytemem :=
  match l with [] => m | w :: l => place_words (a + 4) l (store m a 4 w) end.
Definition p6_observe {A} (f : cpuP6 memory -> A) (n : nat) (l : list Z) : option A :=
  f <$> P6_cycles n (CPU_P6 0x100 (replicate 256 0)
          { memory0 with mem := place_words 0x100 l (mem memory0) }).
Definition self : Z := encode (mkAsm OP_JAL 0 0 0 0).

(** [pg_waw]: the first of two writers of [x5] clears the mark of the second, and the
    third instruction reads the value of the first. *)
Example p6_waw_stale :
  p6_observe (fun c => (reg (p6_core c) 5, reg (p6_core c) 6)) 40
    [encode (mkAsm OP_ADDI 5 0 0 1); encode (mkAsm OP_ADDI 5 0 0 2); encode (mkAsm OP_ADDI 6 5 0 0); self] =
  Some (2, 1).
Proof. by vm_compute. Qed.

(** [pg_alias]: the jump at 0x100 and the addition at 0x500 share their slots; the
    addition is predicted to jump to itself, which nothing corrects. *)
Example p6_alias_loops :
  (fun n => p6_observe (fun c => reg (p6_core c) 5) n
    (encode (mkAsm OP_JAL 0 0 0 0x400) :: replicate 255 0 ++ [encode (mkAsm OP_ADDI 5 5 0 1); self])) <$>
    [20%nat; 40%nat; 80%nat] = [Some 5; Some 15; Some 35].
Proof. by vm_compute. Qed.

(** [pg_op]: a multiplication is executed as an addition. *)
Example p6_mul_adds :
  p6_observe (fun c => reg (p6_core c) 7) 40
    [encode (mkAsm OP_ADDI 5 0 0 3); encode (mkAsm OP_ADDI 6 0 0 5); m_encode OP_M_MUL 7 5 6; self] =
  Some 8.
Proof. by vm_compute. Qed.

(** A word of zeroes stops the core and discards the instruction before it. *)
Example p6_zero_word_discards :
  p6_observe (fun c => (p6_stopped c, reg (p6_core c) 5)) 40 [encode (mkAsm OP_ADDI 5 0 0 1); 0] =
  Some (true, 0).
Proof. by vm_compute. Qed.

(** The check of the direct pointer wraps at the last word of the address space. *)
Example p6_dmi_check_wraps :
  P6_fetch_instruction 0xFFFFFFFC { p6_start demo with p6_dmi := Some dmi_window } = None.
Proof. by vm_compute. Qed.

(** A call is told from the [rd] of the instruction before it. *)
Example p6_call_by_old_rd :
  let l old := mkFI 0x100 (encode (mkAsm OP_JAL 1 0 0 0x20)) true no_prediction in
  (fun old => is_ras_call (ii_pred (id_decode old (l old)))) <$> [0; 1] = [false; true].
Proof. by vm_compute. Qed.
