(* ===== verification/TLB.v ===== *)
(** [inc/TLB.h]: the fully associative TLB with LRU replacement, used as ITLB and
    DTLB.  Entries translate 4 KB, 2 MB and 1 GB pages; matching ignores the VPN
    bits below the page's level. *)
From S2P Require Import Prelude.

Record TLBEntry := mkTLBEntry {
  te_valid : bool;
  te_global : bool;
  te_perm : Z;        (* uint8_t: PTE bits 4..1 *)
  te_level : Z;       (* uint8_t: 0, 1 or 2 *)
  te_asid : Z;        (* uint16_t *)
  te_vpn : Z;
  te_ppn : Z;
  te_lru_time : Z;
}.

Definition te0 : TLBEntry := mkTLBEntry false false 0 0 0 0 0 0.
#[export] Instance TLBEntry_inhabited : Inhabited TLBEntry := populate te0.

Record TLB := mkTLB {
  tlb_entries : list TLBEntry;
  tlb_lru_clock : Z;
}.

Definition vpn_match (vpn stored_vpn level : Z) : bool :=
  let shift := level * 9 in (vpn .>> shift) =? (stored_vpn .>> shift).

(** The test the loop of [lookup] makes on one entry. *)
Definition te_match (vpn asid : Z) (e : TLBEntry) : bool :=
  te_valid e && (te_global e || (te_asid e =? asid)) && vpn_match vpn (te_vpn e) (te_level e).

Section tlb.
Context (SIZE : nat).
Implicit Types (t : TLB) (e : TLBEntry) (vaddr asid : Z).

Definition tlb_new : TLB := mkTLB (replicate SIZE te0) 0.

Definition tlb_find (vpn asid : Z) (l : list TLBEntry) : option (nat * TLBEntry) :=
  list_find (fun e => te_match vpn asid e = true) l.

(** The hit's [ppn], [perm] and [level], and the TLB with its LRU time updated. *)
Definition tlb_lookup vaddr asid t : option (Z * Z * Z) * TLB :=
  let vpn := vaddr .>> 12 in
  let clock := u64 (tlb_lru_clock t + 1) in
  match tlb_find vpn asid (tlb_entries t) with
  | Some (i, e) =>
      (Some (te_ppn e, te_perm e, te_level e),
       mkTLB (<[i := { e with te_lru_time := clock }]> (tlb_entries t)) clock)
  | None => (None, mkTLB (tlb_entries t) clock)
  end.

(** The victim loop of [insert]. *)
Definition tlb_victim (l : list TLBEntry) : nat :=
  foldl (fun victim i =>
    if negb (te_valid (l !!! i)) || (te_lru_time (l !!! i) <? te_lru_time (l !!! victim))
    then i else victim) 0%nat (seq 1 (SIZE - 1)).

Definition tlb_insert vaddr ppn asid perm level (global : bool) t : TLB :=
  let victim := tlb_victim (tlb_entries t) in
  { t with tlb_entries :=
      <[victim := mkTLBEntry true global perm level asid (vaddr .>> 12) ppn (tlb_lru_clock t)]>
        (tlb_entries t) }.

Definition te_kill e : TLBEntry := { e with te_valid := false }.

Definition tlb_flush_all t : TLB := { t with tlb_entries := te_kill <$> tlb_entries t }.

Definition tlb_flush_va vaddr t : TLB :=
  let vpn := vaddr .>> 12 in
  { t with tlb_entries :=
      (fun e => if te_valid e && vpn_match vpn (te_vpn e) (te_level e) then te_kill e else e)
        <$> tlb_entries t }.

Definition tlb_flush_asid asid t : TLB :=
  { t with tlb_entries :=
      (fun e => if te_valid e && negb (te_global e) && (te_asid e =? asid) then te_kill e else e)
        <$> tlb_entries t }.

Definition tlb_flush_va_asid vaddr asid t : TLB :=
  let vpn := vaddr .>> 12 in
  { t with tlb_entries :=
      (fun e => if te_valid e && negb (te_global e) && (te_asid e =? asid) &&
                   vpn_match vpn (te_vpn e) (te_level e) then te_kill e else e)
        <$> tlb_entries t }.

Definition tlb_invalidate_all t : TLB := { t with tlb_entries := te_kill <$> tlb_entries t }.

(** *** Facts *)

Definition tlb_wf t : Prop := length (tlb_entries t) = SIZE.

Lemma vpn_match_refl vpn level : vpn_match vpn vpn level = true.
Proof. apply Z.eqb_refl. Qed.

(** Matching at level [l] is equality of the virtual page numbers' prefixes. *)
Lemma vpn_match_spec vpn v level :
  0 <= level -> vpn_match vpn v level = true <-> vpn / 2 ^ (9 * level) = v / 2 ^ (9 * level).
Proof.
  intros. unfold vpn_match. rewrite Z.eqb_eq, !Z.shiftr_div_pow2 by lia.
  by rewrite (Z.mul_comm level 9).
Qed.

Lemma tlb_victim_lt l : (0 < SIZE)%nat -> (tlb_victim l < SIZE)%nat.
Proof.
  intros HS. unfold tlb_victim.
  assert (H : forall js v, (v < SIZE)%nat -> Forall (fun i => i < SIZE)%nat js ->
    (foldl (fun victim i => if negb (te_valid (l !!! i)) ||
       (te_lru_time (l !!! i) <? te_lru_time (l !!! victim))%Z then i else victim) v js < SIZE)%nat).
  { intros js. induction js as [|i js IH]; intros v Hv Hi; simpl; [done|].
    inversion Hi; subst. apply IH; [by case_match|done]. }
  apply H; [done|]. apply Forall_forall. intros i Hi%in_seq. lia.
Qed.

Lemma tlb_find_Some vpn asid l i e :
  tlb_find vpn asid l = Some (i, e) ->
  l !! i = Some e /\ te_match vpn asid e = true /\
  forall j e', l !! j = Some e' -> (j < i)%nat -> te_match vpn asid e' = false.
Proof.
  intros (Hi & Hm & Hf)%list_find_Some. split_and!; [done|done|].
  intros j e' Hj Hlt. apply not_true_iff_false. by eapply Hf.
Qed.

Lemma tlb_find_None vpn asid l :
  tlb_find vpn asid l = None <-> Forall (fun e => te_match vpn asid e = false) l.
Proof.
  unfold tlb_find. rewrite list_find_None. apply Forall_iff. intros e.
  apply not_true_iff_false.
Qed.

(** Lookup is sound and complete for the set of live matching entries. *)
Lemma tlb_lookup_spec vaddr asid t :
  match (tlb_lookup vaddr asid t).1 with
  | Some (ppn, perm, level) => exists e, e ∈ tlb_entries t /\
      te_match (vaddr .>> 12) asid e = true /\
      ppn = te_ppn e /\ perm = te_perm e /\ level = te_level e
  | None => forall e, e ∈ tlb_entries t -> te_match (vaddr .>> 12) asid e = false
  end.
Proof.
  unfold tlb_lookup. destruct (tlb_find _ _ _) as [[i e]|] eqn:E; simpl.
  - apply tlb_find_Some in E as (Hi & Hm & _). exists e.
    split_and!; try done. by eapply list_elem_of_lookup_2.
  - apply tlb_find_None in E. by apply list.Forall_forall.
Qed.
(** When every entry is live the victim is a least recently used one. *)
Lemma tlb_victim_lru l :
  Forall (fun e => te_valid e = true) l -> length l = SIZE -> (0 < SIZE)%nat ->
  forall j, (j < SIZE)%nat -> te_lru_time (l !!! tlb_victim l) <= te_lru_time (l !!! j).
Proof.
  intros Hv Hl HS. unfold tlb_victim.
  set (f := fun victim i => if negb (te_valid (l !!! i)) ||
        (te_lru_time (l !!! i) <? te_lru_time (l !!! victim)) then i else victim).
  assert (H : forall n, (S n <= SIZE)%nat ->
    forall j, (j < S n)%nat -> te_lru_time (l !!! foldl f 0%nat (seq 1 n)) <= te_lru_time (l !!! j)).
  { induction n as [|n IH]; intros Hn j Hj.
    - by replace j with 0%nat by lia.
    - rewrite seq_S, foldl_app. simpl. unfold f at 1.
      assert (te_valid (l !!! S n) = true) as ->.
      { apply (Forall_lookup_1 _ _ (S n) _ Hv), list_lookup_lookup_total_lt. lia. }
      simpl. fold f. set (v := foldl f 0%nat (seq 1 n)) in *.
      destruct (Z.ltb_spec (te_lru_time (l !!! S n)) (te_lru_time (l !!! v))) as [Hlt|Hge];
        (destruct (decide (j = S n)) as [->|]; [lia|]); specialize (IH ltac:(lia) j ltac:(lia)); lia. }
  intros j Hj. apply H; lia.
Qed.

Lemma tlb_insert_wf vaddr ppn asid perm level g t :
  tlb_wf t -> tlb_wf (tlb_insert vaddr ppn asid perm level g t).
Proof. unfold tlb_wf, tlb_insert; simpl. by rewrite length_insert. Qed.

Lemma tlb_lookup_wf vaddr asid t : tlb_wf t -> tlb_wf (tlb_lookup vaddr asid t).2.
Proof.
  unfold tlb_wf, tlb_lookup. destruct (tlb_find _ _ _) as [[i e]|]; simpl; [|done].
  by rewrite length_insert.
Qed.

(** After [insert], every address of the page hits with the inserted
    translation, in its address space (in every one for a global page), unless an
    older entry already matched it; and at most the victim was lost. *)
Theorem tlb_insert_lookup va va' ppn asid asid' perm level g t :
  tlb_wf t -> (0 < SIZE)%nat ->
  vpn_match (va' .>> 12) (va .>> 12) level = true -> (g = true \/ asid = asid') ->
  (forall e, e ∈ tlb_entries t -> te_match (va' .>> 12) asid' e = false) ->
  let t' := tlb_insert va ppn asid perm level g t in
  (tlb_lookup va' asid' t').1 = Some (ppn, perm, level) /\
  (forall j, j <> tlb_victim (tlb_entries t) -> tlb_entries t' !! j = tlb_entries t !! j).
Proof.
  intros Hwf HS Hvpn Hg Hno t'. split.
  2: { intros j Hj. unfold t', tlb_insert; simpl. by apply list_lookup_insert_ne. }
  pose proof (tlb_victim_lt (tlb_entries t) HS) as Hlt.
  pose proof (tlb_lookup_spec va' asid' t') as Hspec.
  set (e0 := mkTLBEntry true g perm level asid (va .>> 12) ppn (tlb_lru_clock t)).
  assert (Hm0 : te_match (va' .>> 12) asid' e0 = true).
  { unfold te_match, e0; simpl. rewrite Hvpn, andb_true_r.
    destruct Hg as [->| ->]; simpl; [done|by rewrite Z.eqb_refl, orb_true_r]. }
  assert (Hin : forall e, e ∈ tlb_entries t' -> te_match (va' .>> 12) asid' e = true -> e = e0).
  { intros e [j Hj]%list_elem_of_lookup_1 Hm. unfold t', tlb_insert in Hj; simpl in Hj.
    apply list_lookup_insert_Some in Hj as [(_ & <- & _)|[_ Hj]]; [done|].
    rewrite Hno in Hm; [done|by eapply list_elem_of_lookup_2]. }
  destruct (tlb_lookup va' asid' t').1 as [[[p q] l]|].
  - destruct Hspec as (e & He & Hm & -> & -> & ->). by rewrite (Hin e He Hm).
  - exfalso. rewrite (Hspec e0) in Hm0; [done|].
    unfold t', tlb_insert; simpl. eapply list_elem_of_lookup_2, list_lookup_insert_eq.
    rewrite Hwf. exact Hlt.
Qed.

Lemma flush_fmap_elem (P : TLBEntry -> bool) (l : list TLBEntry) e :
  te_valid e = true ->
  e ∈ ((fun e => if P e then te_kill e else e) <$> l) <-> e ∈ l /\ P e = false.
Proof.
  intros Hv. rewrite list_elem_of_fmap. split.
  - intros (e' & He & Hin). destruct (P e') eqn:EP; subst; [done|done].
  - intros [Hin HP]. exists e. by rewrite HP.
Qed.

(** The live entries after each flush. *)
Definition live t : list TLBEntry := filter (fun e => te_valid e = true) (tlb_entries t).

Lemma live_elem t e : e ∈ live t <-> te_valid e = true /\ e ∈ tlb_entries t.
Proof. unfold live. by rewrite list_elem_of_filter. Qed.

(** SFENCE.VMA: each of the four flushes removes exactly the live entries the
    privileged specification names (page and address space, global pages exempt
    from the address-space flavours) and keeps every other one. *)
Theorem tlb_flush_live vaddr asid t e :
  ~ e ∈ live (tlb_flush_all t) /\
  (e ∈ live (tlb_flush_va vaddr t) <->
     e ∈ live t /\ vpn_match (vaddr .>> 12) (te_vpn e) (te_level e) = false) /\
  (e ∈ live (tlb_flush_asid asid t) <->
     e ∈ live t /\ (te_global e = true \/ te_asid e <> asid)) /\
  (e ∈ live (tlb_flush_va_asid vaddr asid t) <->
     e ∈ live t /\ (te_global e = true \/ te_asid e <> asid \/
                    vpn_match (vaddr .>> 12) (te_vpn e) (te_level e) = false)).
Proof.
  rewrite !live_elem. unfold tlb_flush_all, tlb_flush_va, tlb_flush_asid, tlb_flush_va_asid; simpl.
  split_and!.
  - intros [Hv (e' & -> & _)%list_elem_of_fmap]. done.
  - destruct (te_valid e) eqn:Hv; [|intuition congruence]. rewrite (flush_fmap_elem _ _ _ Hv), Hv. simpl.
    tauto.
  - destruct (te_valid e) eqn:Hv; [|intuition congruence]. rewrite (flush_fmap_elem _ _ _ Hv), Hv. simpl.
    destruct (te_global e), (Z.eqb_spec (te_asid e) asid); simpl; intuition congruence.
  - destruct (te_valid e) eqn:Hv; [|intuition congruence]. rewrite (flush_fmap_elem _ _ _ Hv), Hv. simpl.
    destruct (te_global e), (Z.eqb_spec (te_asid e) asid), (vpn_match _ _ _); simpl; intuition congruence.
Qed.

(** After a flush of [vaddr] its lookup misses in every address space; after a
    flush of [asid] only global pages hit there. *)
Theorem tlb_flush_lookup vaddr asid t :
  (forall a, (tlb_lookup vaddr a (tlb_flush_va vaddr t)).1 = None) /\
  (forall v a, (tlb_lookup v a (tlb_flush_all t)).1 = None) /\
  (forall v r, (tlb_lookup v asid (tlb_flush_asid asid t)).1 = Some r ->
     exists e, e ∈ live t /\ te_global e = true /\ te_match (v .>> 12) asid e = true).
Proof.
  split_and!.
  - intros a. pose proof (tlb_lookup_spec vaddr a (tlb_flush_va vaddr t)) as H.
    destruct (tlb_lookup _ _ _).1 as [[[p q] l]|]; [|done].
    destruct H as (e & He & Hm & _). unfold te_match in Hm.
    apply andb_true_iff in Hm as [[Hv _]%andb_true_iff Hvpn].
    unfold tlb_flush_va in He; simpl in He. apply (flush_fmap_elem _ _ _ Hv) in He as [_ HP].
    by rewrite Hv, Hvpn in HP.
  - intros v a. pose proof (tlb_lookup_spec v a (tlb_flush_all t)) as H.
    destruct (tlb_lookup _ _ _).1 as [[[p q] l]|]; [|done].
    destruct H as (e & (e' & -> & _)%list_elem_of_fmap & Hm & _). done.
  - intros v r Hr. pose proof (tlb_lookup_spec v asid (tlb_flush_asid asid t)) as H.
    rewrite Hr in H. destruct r as [[p q] l]. destruct H as (e & He & Hm & _).
    pose proof Hm as Hm'. unfold te_match in Hm'.
    apply andb_true_iff in Hm' as [[Hv Ha]%andb_true_iff _].
    unfold tlb_flush_asid in He; simpl in He. apply (flush_fmap_elem _ _ _ Hv) in He as [Hin HP].
    exists e. rewrite live_elem. split_and!; try done.
    rewrite Hv in HP. simpl in HP. destruct (te_global e); [done|].
    simpl in HP, Ha. by rewrite Ha in HP.
Qed.
End tlb.

(** Witnesses and a finding on a two-entry TLB. *)
Example tlb_insert_lookup_witness :
  (tlb_lookup 0x80234567 1 (tlb_insert 2 0x80200000 0x12345 1 0xF 1 false (tlb_new 2))).1 =
    Some (0x12345, 0xF, 1).
Proof.
  apply (tlb_insert_lookup 2 0x80200000 0x80234567 0x12345 1 1 0xF 1 false (tlb_new 2)).
  - reflexivity.
  - lia.
  - vm_compute. reflexivity.
  - right; reflexivity.
  - intros e [He _]%elem_of_replicate. by subst.
Defined.

(** [insert] can evict a live translation although a slot is free: the comparison
    goes on with the stale LRU time of the invalid victim. *)
Definition tlb_half : TLB :=
  mkTLB [mkTLBEntry true false 0xF 0 1 0x11 0x22 0; mkTLBEntry false false 0xF 0 1 0x33 0x44 9;
         mkTLBEntry true false 0xF 0 1 0x55 0x66 5] 10.

Example tlb_insert_evicts_live_entry :
  te_valid (tlb_entries tlb_half !!! 1%nat) = false /\
  tlb_victim 3 (tlb_entries tlb_half) = 2%nat /\
  (tlb_lookup 0x55000 1 tlb_half).1 = Some (0x66, 0xF, 0) /\
  (tlb_lookup 0x55000 1 (tlb_insert 3 0x77000 0x88 1 0xF 0 false tlb_half)).1 = None.
Proof. vm_compute. done. Qed.
