(* ===== verification/Cache.v ===== *)
(** [inc/Cache.h]: the set-associative cache timing model with LFSR (default) or LRU
    replacement.  It holds tags only: [access] answers hit or miss and fills. *)
From S2P Require Import Prelude.

Inductive Policy := LFSR | LRU.

Record Line := mkLine {
  ln_valid : bool;
  ln_tag : Z;
  ln_lru_time : Z;
}.
Definition line0 : Line := mkLine false 0 0.
#[export] Instance Line_inhabited : Inhabited Line := populate line0.

Record Cache := mkCache {
  policy_ : Policy;
  lfsr : Z;                    (* uint8_t *)
  csets : list (list Line);
  total_accesses : Z;
  total_hits : Z;
}.

(** [constexpr log2c]: the recursion halves its argument, at most 64 times. *)
Fixpoint log2c_fuel (fuel : nat) (n : Z) : Z :=
  match fuel with
  | O => 0
  | S fuel => if n <=? 1 then 0 else 1 + log2c_fuel fuel (n .>> 1)
  end.
Definition log2c (n : Z) : Z := log2c_fuel 64 n.

Definition lfsr_step (l : Z) : Z :=
  let fb := ((l .>> 7) .^ (l .>> 5) .^ (l .>> 4) .^ (l .>> 3)) .& 1 in
  u8 ((l .<< 1) .| fb).

Section cache.
Context (SETS WAYS LINE_BYTES : nat).
Implicit Types (c : Cache) (s : list Line) (addr tag : Z).

Definition OFFSET_BITS : Z := log2c (Z.of_nat LINE_BYTES).
Definition TAG_SHIFT : Z := log2c (Z.of_nat LINE_BYTES) + log2c (Z.of_nat SETS).

Definition cache_new : Cache := mkCache LFSR 0xAC (replicate SETS (replicate WAYS line0)) 0 0.

Definition set_policy (p : Policy) c : Cache := { c with policy_ := p }.
Definition get_policy c : Policy := policy_ c.

Definition cache_idx addr : nat :=
  Z.to_nat ((addr .>> OFFSET_BITS) .& (Z.of_nat SETS - 1)).
Definition cache_tag addr : Z := addr .>> TAG_SHIFT.

Definition line_match tag (l : Line) : bool := ln_valid l && (ln_tag l =? tag).

Definition find_way tag s : option (nat * Line) := list_find (fun l => line_match tag l = true) s.
Definition find_invalid s : option (nat * Line) := list_find (fun l => ln_valid l = false) s.

(** The LRU scan: the first way with the smallest time. *)
Definition lru_way s : nat :=
  foldl (fun victim w =>
    if ln_lru_time (s !!! w) <? ln_lru_time (s !!! victim) then w else victim)
    0%nat (seq 1 (WAYS - 1)).

(** The way to fill and the LFSR after the choice. *)
Definition choose_victim (p : Policy) (l : Z) s : nat * Z :=
  match find_invalid s with
  | Some (w, _) => (w, l)
  | None =>
    match p with
    | LRU => (lru_way s, l)
    | LFSR => (Z.to_nat (l mod Z.of_nat WAYS), lfsr_step l)
    end
  end.

Definition access addr c : bool * Cache :=
  let idx := cache_idx addr in
  let tag := cache_tag addr in
  let total := u64 (total_accesses c + 1) in
  let s := csets c !!! idx in
  match find_way tag s with
  | Some (w, l) =>
      (true, { c with csets := <[idx := <[w := { l with ln_lru_time := total }]> s]> (csets c);
                      total_accesses := total;
                      total_hits := u64 (total_hits c + 1) })
  | None =>
      let '(victim, lfsr') := choose_victim (policy_ c) (lfsr c) s in
      (false, { c with csets := <[idx := <[victim := mkLine true tag total]> s]> (csets c);
                       lfsr := lfsr';
                       total_accesses := total })
  end.

Definition cache_flush c : Cache :=
  { c with csets := (fun s : list Line => (fun l : Line => { l with ln_valid := false }) <$> s) <$> csets c }.

Definition get_accesses c : Z := total_accesses c.
Definition get_hits c : Z := total_hits c.
Definition get_misses c : Z := u64 (total_accesses c - total_hits c).

(** *** Invariant *)

(** In a set no two live lines have the same tag. *)
Definition set_nodup s : Prop :=
  forall i j li lj, s !! i = Some li -> s !! j = Some lj ->
    ln_valid li = true -> ln_valid lj = true -> ln_tag li = ln_tag lj -> i = j.

Record cache_wf c : Prop := {
  cw_sets : length (csets c) = SETS;
  cw_ways : Forall (fun s => length s = WAYS) (csets c);
  cw_nodup : Forall set_nodup (csets c);
  cw_lfsr : 0 < lfsr c < 256;
}.

(** The line [addr] belongs to is resident. *)
Definition resident addr c : Prop :=
  exists l, l ∈ csets c !!! cache_idx addr /\ line_match (cache_tag addr) l = true.

Lemma find_way_Some tag s w l :
  find_way tag s = Some (w, l) -> s !! w = Some l /\ line_match tag l = true.
Proof. by intros (? & ? & _)%list_find_Some. Qed.

Lemma find_way_None tag s :
  find_way tag s = None <-> forall l, l ∈ s -> line_match tag l = false.
Proof.
  unfold find_way. rewrite list_find_None, list.Forall_forall.
  split; intros H l Hl; apply not_true_iff_false; (by apply H || by rewrite H).
Qed.

Lemma find_way_resident addr c :
  is_Some (find_way (cache_tag addr) (csets c !!! cache_idx addr)) <-> resident addr c.
Proof.
  split.
  - intros [[w l] E]. apply find_way_Some in E as [Hw Hm]. exists l.
    split; [by eapply list_elem_of_lookup_2|done].
  - intros (l & Hl & Hm). destruct (find_way _ _) eqn:E; [by eexists|].
    rewrite find_way_None in E. by rewrite E in Hm.
Qed.

Lemma lfsr_step_range l : 0 < l < 256 -> 0 < lfsr_step l < 256.
Proof.
  intros Hl. assert (H : forallb (fun n => let x := lfsr_step (Z.of_nat n) in
    (0 <? x) && (x <? 256)) (seq 1 255) = true) by (vm_compute; reflexivity).
  rewrite forallb_forall in H. specialize (H (Z.to_nat l)). rewrite Z2Nat.id in H by lia.
  rewrite in_seq in H. specialize (H ltac:(lia)). cbv zeta in H.
  apply andb_true_iff in H as [?%Z.ltb_lt ?%Z.ltb_lt]. lia.
Qed.
Hypothesis SETS_pos : (0 < SETS)%nat.
Hypothesis WAYS_pos : (0 < WAYS)%nat.

Lemma cache_idx_lt addr : (cache_idx addr < SETS)%nat.
Proof.
  unfold cache_idx.
  assert (0 <= (addr .>> OFFSET_BITS) .& (Z.of_nat SETS - 1) <= Z.of_nat SETS - 1); [|lia].
  split; [apply Z.land_nonneg; right; lia|]. apply land_le_r. lia.
Qed.

Lemma cache_new_wf : cache_wf cache_new.
Proof.
  split; simpl; [apply length_replicate|..|lia].
  - apply Forall_replicate, length_replicate.
  - apply Forall_replicate. intros i j li lj [-> _]%lookup_replicate_1 _ Hv. done.
Qed.

Lemma find_invalid_None s : find_invalid s = None -> Forall (fun l => ln_valid l = true) s.
Proof.
  unfold find_invalid. rewrite list_find_None. apply Forall_impl. intros l.
  by destruct (ln_valid l).
Qed.

Lemma lru_way_lt s : (lru_way s < WAYS)%nat.
Proof.
  unfold lru_way. assert (H : forall js v, (v < WAYS)%nat -> Forall (fun w => w < WAYS)%nat js ->
    (foldl (fun victim w => if (ln_lru_time (s !!! w) <? ln_lru_time (s !!! victim))%Z
       then w else victim) v js < WAYS)%nat).
  { intros js. induction js as [|w js IH]; intros v Hv Hj; simpl; [done|].
    inversion Hj; subst. apply IH; [by case_match|done]. }
  apply H; [done|]. apply Forall_forall. intros i Hi%in_seq. lia.
Qed.

Lemma lru_way_min s w :
  (w < WAYS)%nat -> ln_lru_time (s !!! lru_way s) <= ln_lru_time (s !!! w).
Proof.
  unfold lru_way.
  set (f := fun victim w => if ln_lru_time (s !!! w) <? ln_lru_time (s !!! victim) then w else victim).
  assert (H : forall n, (S n <= WAYS)%nat -> forall j, (j < S n)%nat ->
    ln_lru_time (s !!! foldl f 0%nat (seq 1 n)) <= ln_lru_time (s !!! j)).
  { induction n as [|n IH]; intros Hn j Hj; [by replace j with 0%nat by lia|].
    rewrite seq_S, foldl_app. simpl. unfold f at 1. set (v := foldl f 0%nat (seq 1 n)) in *.
    destruct (Z.ltb_spec (ln_lru_time (s !!! S n)) (ln_lru_time (s !!! v)));
      (destruct (decide (j = S n)) as [->|]; [lia|]); specialize (IH ltac:(lia) j ltac:(lia)); lia. }
  intros Hw. apply H; lia.
Qed.

(** The victim is a way of the set; it is a live line only when all are. *)
Lemma choose_victim_spec p l s :
  length s = WAYS -> 0 < l < 256 ->
  let '(v, l') := choose_victim p l s in
  (v < WAYS)%nat /\ 0 < l' < 256 /\
  (ln_valid (s !!! v) = true -> Forall (fun x => ln_valid x = true) s).
Proof.
  intros Hs Hl. unfold choose_victim. destruct (find_invalid s) as [[w x]|] eqn:E.
  - unfold find_invalid in E. apply list_find_Some in E as (Hw & Hv & _).
    split_and!; [apply lookup_lt_Some in Hw; lia|lia|lia|].
    rewrite (list_lookup_total_correct _ _ _ Hw). congruence.
  - pose proof (find_invalid_None s E). destruct p.
    + pose proof (Z.mod_pos_bound l (Z.of_nat WAYS) ltac:(lia)).
      pose proof (lfsr_step_range l Hl). split_and!; (lia || done).
    + pose proof (lru_way_lt s). split_and!; (lia || done).
Qed.

Lemma set_nodup_touch s w l x :
  set_nodup s -> s !! w = Some l -> set_nodup (<[w := { l with ln_lru_time := x }]> s).
Proof.
  intros Hs Hw i j li lj Hi Hj Hvi Hvj Ht.
  apply list_lookup_insert_Some in Hi as [(<- & <- & _)|[? Hi]];
    apply list_lookup_insert_Some in Hj as [(<- & <- & _)|[? Hj]]; simpl in *; eauto.
Qed.

Lemma set_nodup_fill s v tag x :
  set_nodup s -> (forall l, l ∈ s -> line_match tag l = false) ->
  set_nodup (<[v := mkLine true tag x]> s).
Proof.
  intros Hs Hno i j li lj Hi Hj Hvi Hvj Ht.
  assert (Hc : forall k lk, s !! k = Some lk -> ln_valid lk = true -> ln_tag lk <> tag).
  { intros k lk Hk Hv E. specialize (Hno lk (list_elem_of_lookup_2 _ _ _ Hk)).
    unfold line_match in Hno. rewrite Hv, E, Z.eqb_refl in Hno. done. }
  apply list_lookup_insert_Some in Hi as [(<- & <- & _)|[? Hi]];
    apply list_lookup_insert_Some in Hj as [(<- & <- & _)|[? Hj]]; simpl in *; eauto.
  - exfalso. by eapply Hc.
  - exfalso. by eapply Hc.
Qed.
Lemma set_at_lookup c a :
  cache_wf c -> csets c !! cache_idx a = Some (csets c !!! cache_idx a).
Proof.
  intros Hwf. apply list_lookup_lookup_total_lt. rewrite (cw_sets _ Hwf). apply cache_idx_lt.
Qed.

Lemma set_at_ok c a :
  cache_wf c -> length (csets c !!! cache_idx a) = WAYS /\ set_nodup (csets c !!! cache_idx a).
Proof.
  intros Hwf. pose proof (set_at_lookup c a Hwf) as E. split.
  - apply (Forall_lookup_1 _ _ _ _ (cw_ways _ Hwf) E).
  - apply (Forall_lookup_1 _ _ _ _ (cw_nodup _ Hwf) E).
Qed.

(** Replacing one set by a good one keeps the invariant. *)
Lemma cache_wf_update c c' a s :
  cache_wf c -> csets c' = <[cache_idx a := s]> (csets c) -> length s = WAYS -> set_nodup s ->
  0 < lfsr c' < 256 -> cache_wf c'.
Proof.
  intros Hwf E Hs Hn Hl. split; rewrite ?E; [rewrite length_insert; apply Hwf|..|done].
  - apply Forall_insert; [apply Hwf|done].
  - apply Forall_insert; [apply Hwf|done].
Qed.

Lemma resident_update c c' a s b :
  cache_wf c -> csets c' = <[cache_idx a := s]> (csets c) ->
  resident b c' <->
    if decide (cache_idx b = cache_idx a)
    then exists l, l ∈ s /\ line_match (cache_tag b) l = true else resident b c.
Proof.
  intros Hwf E. unfold resident. rewrite E. case_decide as Ei.
  - rewrite Ei, list_lookup_total_insert_eq; [done|]. rewrite (cw_sets _ Hwf). apply cache_idx_lt.
  - by rewrite list_lookup_total_insert_ne by done.
Qed.

Definition same_line (a b : Z) : Prop := cache_idx b = cache_idx a /\ cache_tag b = cache_tag a.

Lemma resident_same_line a b c : same_line a b -> resident a c -> resident b c.
Proof. unfold resident. by intros [-> ->]. Qed.

(** The line a miss throws out, if any. *)
Definition evicted addr c : option Z :=
  let s := csets c !!! cache_idx addr in
  match find_way (cache_tag addr) s with
  | Some _ => None
  | None =>
    let l := s !!! (choose_victim (policy_ c) (lfsr c) s).1 in
    if ln_valid l then Some (ln_tag l) else None
  end.

Lemma fill_resident s v t tag x :
  set_nodup s -> (v < length s)%nat ->
  (exists l, l ∈ <[v := mkLine true tag x]> s /\ line_match t l = true) <->
  t = tag \/ (exists l, l ∈ s /\ line_match t l = true) /\
             ~ (ln_valid (s !!! v) = true /\ ln_tag (s !!! v) = t).
Proof.
  intros Hn Hv. pose proof (list_lookup_lookup_total_lt s v Hv) as Hsv. split.
  - intros (l & [j Hj]%list_elem_of_lookup_1 & Hm).
    apply list_lookup_insert_Some in Hj as [(<- & <- & _)|[Hne Hj]].
    + left. unfold line_match in Hm; simpl in Hm. by apply Z.eqb_eq in Hm.
    + right. split; [exists l; split; [by eapply list_elem_of_lookup_2|done]|].
      intros [Hvv Ht]. unfold line_match in Hm.
      apply andb_true_iff in Hm as [Hvl Htl%Z.eqb_eq]. apply Hne.
      apply (Hn v j _ _ Hsv Hj); congruence.
  - intros [->|[(l & [j Hj]%list_elem_of_lookup_1 & Hm) Hev]].
    + exists (mkLine true tag x). split; [|unfold line_match; simpl; apply Z.eqb_refl].
      eapply list_elem_of_lookup_2. by apply list_lookup_insert_eq.
    + exists l. split; [|done]. apply (list_elem_of_lookup_2 _ j).
      rewrite list_lookup_insert_ne; [done|]. intros ->. apply Hev.
      rewrite Hj in Hsv. injection Hsv as <-. unfold line_match in Hm.
      by apply andb_true_iff in Hm as [? ?%Z.eqb_eq].
Qed.

(** One access, for either policy: it hits exactly when the line is resident;
    afterwards the line is resident, at most one other line of its set has left,
    and none when a way was free; tags stay unique and the LFSR stays non-zero. *)
Theorem access_correct addr c :
  cache_wf c ->
  let '(hit, c') := access addr c in
  (hit = true <-> resident addr c) /\ cache_wf c' /\
  (forall b, resident b c' <->
     same_line addr b \/
     (resident b c /\ ~ (cache_idx b = cache_idx addr /\ evicted addr c = Some (cache_tag b)))) /\
  (evicted addr c <> None -> hit = false /\
     Forall (fun l => ln_valid l = true) (csets c !!! cache_idx addr)).
Proof.
  intros Hwf. destruct (set_at_ok c addr Hwf) as [Hlen Hnd].
  pose proof (find_way_resident addr c) as Hres. unfold access, evicted.
  set (s := csets c !!! cache_idx addr) in *.
  destruct (find_way (cache_tag addr) s) as [[w l]|] eqn:E.
  - pose proof (find_way_Some _ _ _ _ E) as [Hw Hm].
    assert (Hr : resident addr c) by (apply Hres; by eexists).
    split_and!; [done| |intros b|done].
    + eapply (cache_wf_update c _ addr); [done|reflexivity|by rewrite length_insert
        |by apply set_nodup_touch|apply Hwf].
    + match goal with |- resident b ?c' <-> _ =>
        rewrite (resident_update c c' addr _ b Hwf eq_refl) end.
      unfold same_line. case_decide as Eb; [|naive_solver].
      transitivity (resident b c).
      2: { pose proof (fun H => resident_same_line addr b c H Hr) as Hsl.
           unfold same_line in Hsl. naive_solver. }
      unfold resident. rewrite Eb. fold s. split.
      * intros (x & [j Hj]%list_elem_of_lookup_1 & Hx).
        apply list_lookup_insert_Some in Hj as [(<- & <- & _)|[_ Hj]];
          [exists l|exists x]; (split; [by eapply list_elem_of_lookup_2|done]).
      * intros (x & [j Hj]%list_elem_of_lookup_1 & Hx). destruct (decide (w = j)) as [<-|Hne].
        -- eexists. split; [eapply list_elem_of_lookup_2, list_lookup_insert_eq;
             by eapply lookup_lt_Some|]. rewrite Hw in Hj. by injection Hj as <-.
        -- exists x. split; [|done]. apply (list_elem_of_lookup_2 _ j).
           by rewrite list_lookup_insert_ne.
  - pose proof (choose_victim_spec (policy_ c) (lfsr c) s Hlen (cw_lfsr _ Hwf)) as Hv.
    destruct (choose_victim _ _ _) as [v l'] eqn:Ev. destruct Hv as (Hv & Hl' & Hall).
    pose proof (proj1 (find_way_None _ _) E) as Hno.
    split_and!; [by rewrite <-Hres; split; [|intros []]| |intros b|].
    + eapply (cache_wf_update c _ addr); [done|reflexivity|by rewrite length_insert
        |by apply set_nodup_fill|exact Hl'].
    + match goal with |- resident b ?c' <-> _ =>
        rewrite (resident_update c c' addr _ b Hwf eq_refl) end. unfold same_line.
      case_decide as Eb; [|naive_solver]. rewrite fill_resident by (done || lia).
      unfold resident. rewrite Eb. fold s. simpl. destruct (ln_valid (s !!! v)); intuition congruence.
    + simpl. destruct (ln_valid (s !!! v)) eqn:Evv; [|done]. intros _. split; [done|by apply Hall].
Qed.
Lemma access_wf addr c : cache_wf c -> cache_wf (access addr c).2.
Proof.
  intros Hwf. pose proof (set_at_ok c addr Hwf) as [Hlen Hnd]. unfold access.
  destruct (find_way _ _) as [[w l]|] eqn:E.
  - apply find_way_Some in E as [Hw Hm].
    eapply (cache_wf_update c _ addr); [done|reflexivity|by rewrite length_insert
        |by apply set_nodup_touch|apply Hwf].
  - pose proof (choose_victim_spec (policy_ c) (lfsr c) _ Hlen (cw_lfsr _ Hwf)) as Hv.
    destruct (choose_victim _ _ _) as [v l']. destruct Hv as (Hv & Hl' & _).
    rewrite find_way_None in E.
    eapply (cache_wf_update c _ addr); [done|reflexivity|by rewrite length_insert
        |by apply set_nodup_fill|exact Hl'].
Qed.

Lemma cache_flush_wf c : cache_wf c -> cache_wf (cache_flush c).
Proof.
  intros Hwf. split; simpl; [rewrite length_fmap; apply Hwf|..|apply Hwf].
  - apply Forall_fmap. eapply Forall_impl; [|apply (cw_ways _ Hwf)].
    intros s Hs. simpl. by rewrite length_fmap.
  - apply Forall_fmap, Forall_true. intros s i j li lj Hi Hj Hv. simpl in Hi.
    rewrite list_lookup_fmap in Hi. apply fmap_Some in Hi as (l & _ & ->). done.
Qed.

Lemma cache_flush_resident b c : cache_wf c -> ~ resident b (cache_flush c).
Proof.
  intros Hwf (l & Hl & Hm). revert Hl. simpl.
  rewrite lookup_total_fmap_lt by (rewrite (cw_sets _ Hwf); apply cache_idx_lt).
  intros (x & -> & _)%list_elem_of_fmap. done.
Qed.

(** The answers of a sequence of accesses. *)
Fixpoint access_all (addrs : list Z) c : list bool * Cache :=
  match addrs with
  | [] => ([], c)
  | a :: addrs =>
      let '(h, c1) := access a c in
      let '(hs, c2) := access_all addrs c1 in (h :: hs, c2)
  end.

Definition count_hits (hs : list bool) : Z := Z.of_nat (length (filter (fun h => h = true) hs)).

Lemma access_counters addr c :
  total_accesses (access addr c).2 = u64 (total_accesses c + 1) /\
  total_hits (access addr c).2 = u64 (total_hits c + Z.b2z (access addr c).1) \/
  total_accesses (access addr c).2 = u64 (total_accesses c + 1) /\
  (access addr c).1 = false /\ total_hits (access addr c).2 = total_hits c.
Proof.
  unfold access. destruct (find_way _ _) as [[w l]|]; [by left|].
  destruct (choose_victim _ _ _) as [v l']. by right.
Qed.

(** The statistics: over any run of fewer than 2^64 accesses, the three counters
    are the numbers of accesses, hits and misses that [access] answered. *)
Theorem access_statistics addrs c :
  total_accesses c = 0 -> total_hits c = 0 -> Z.of_nat (length addrs) < 2 ^ 64 ->
  let '(hs, c') := access_all addrs c in
  get_accesses c' = Z.of_nat (length addrs) /\ get_hits c' = count_hits hs /\
  get_misses c' = Z.of_nat (length addrs) - count_hits hs.
Proof.
  assert (H : forall addrs c, 0 <= total_hits c <= total_accesses c ->
    total_accesses c + Z.of_nat (length addrs) < 2 ^ 64 ->
    let '(hs, c') := access_all addrs c in
    total_accesses c' = total_accesses c + Z.of_nat (length addrs) /\
    total_hits c' = total_hits c + count_hits hs /\
    0 <= count_hits hs <= Z.of_nat (length addrs)).
  { clear. intros addrs. induction addrs as [|a addrs IH]; intros c Hh Ht; simpl in Ht |- *.
    - unfold count_hits. simpl. lia.
    - pose proof (access_counters a c) as Hc. destruct (access a c) as [h c1]. simpl in Hc.
      specialize (IH c1). destruct (access_all addrs c1) as [hs c2].
      rewrite !(wrap_small 64 (total_accesses c + 1)) in Hc by (unfold fits; lia).
      rewrite (wrap_small 64 (total_hits c + _)) in Hc by (unfold fits; destruct h; simpl; lia).
      assert (Hcnt : count_hits (h :: hs) = Z.b2z h + count_hits hs).
      { unfold count_hits. rewrite filter_cons. destruct h; simpl; lia. }
      rewrite Hcnt. destruct Hc as [[E1 E2]|(E1 & -> & E2)]; rewrite E1, E2 in IH;
        try destruct h; simpl in *; lia. }
  intros E1 E2 Hl. specialize (H addrs c). destruct (access_all addrs c) as [hs c'].
  unfold get_accesses, get_hits, get_misses.
  destruct H as (H1 & H2 & H3); [lia|lia|]. rewrite H1, H2, E1, E2, wrap_small by (unfold fits; lia).
  lia.
Qed.

(** Under LRU a miss in a full set evicts a least recently used line. *)
Theorem lru_evicts_oldest addr c t l :
  cache_wf c -> policy_ c = LRU -> evicted addr c = Some t ->
  l ∈ csets c !!! cache_idx addr ->
  exists v, v ∈ csets c !!! cache_idx addr /\ ln_valid v = true /\ ln_tag v = t /\
            ln_lru_time v <= ln_lru_time l.
Proof.
  intros Hwf Hp. unfold evicted. destruct (set_at_ok c addr Hwf) as [Hlen _].
  set (s := csets c !!! cache_idx addr) in *. destruct (find_way _ s); [done|].
  unfold choose_victim. destruct (find_invalid s) as [[w x]|] eqn:Ei; rewrite ?Hp; simpl.
  - unfold find_invalid in Ei. apply list_find_Some in Ei as (Hw & Hx & _).
    rewrite (list_lookup_total_correct _ _ _ Hw). by rewrite Hx.
  - destruct (ln_valid (s !!! lru_way s)) eqn:Ev; [|done]. intros [= <-] [j Hj]%list_elem_of_lookup_1.
    exists (s !!! lru_way s). split_and!; [|done|done|].
    + eapply list_elem_of_lookup_2, list_lookup_lookup_total_lt. rewrite Hlen. apply lru_way_lt.
    + rewrite <-(list_lookup_total_correct _ _ _ Hj). apply lru_way_min.
      apply lookup_lt_Some in Hj. lia.
Qed.
End cache.

(** The LFSR is maximal length: from the seed 0xAC it comes back after 255
    evictions and not before, so it never sticks. *)
Theorem lfsr_period :
  Nat.iter 255 lfsr_step 0xAC = 0xAC /\
  forall k, (0 < k < 255)%nat -> Nat.iter k lfsr_step 0xAC <> 0xAC.
Proof.
  split; [vm_compute; reflexivity|]. intros k Hk.
  assert (H : forallb (fun k => negb (Nat.iter k lfsr_step 0xAC =? 0xAC)) (seq 1 254) = true)
    by (vm_compute; reflexivity).
  rewrite forallb_forall in H. specialize (H k). rewrite in_seq in H.
  specialize (H ltac:(lia)). by apply negb_true_iff, Z.eqb_neq in H.
Qed.

(** Witnesses on a two-set, two-way cache of 16-byte lines. *)
Definition cache_example : Cache :=
  (access 2 2 16 0x20 (access 2 2 16 0x00 (cache_new 2 2)).2).2.

Lemma cache_example_wf : cache_wf 2 2 cache_example.
Proof. do 2 (apply access_wf; [lia|lia|]). apply cache_new_wf; lia. Qed.

Example access_correct_witness :
  cache_wf 2 2 cache_example /\ (access 2 2 16 0x2F cache_example).1 = true /\
  (access 2 2 16 0x40 cache_example).1 = false /\ evicted 2 2 16 0x40 cache_example = Some 0.
Proof.
  pose proof (access_correct 2 2 16 ltac:(lia) ltac:(lia) 0x2F cache_example cache_example_wf) as H.
  destruct (access 2 2 16 0x2F cache_example) as [hit c'] eqn:E. destruct H as ([_ H] & Hwf & _).
  split_and!; [exact cache_example_wf| |vm_compute; reflexivity|vm_compute; reflexivity].
  apply H. eexists. split; [apply (list_elem_of_lookup_2 _ 1%nat); reflexivity|reflexivity].
Defined.

Example access_statistics_witness :
  get_misses (access_all 2 2 16 [0x00; 0x20; 0x08; 0x40] (cache_new 2 2)).2 = 3.
Proof.
  pose proof (access_statistics 2 2 16 ltac:(lia) ltac:(lia) [0x00; 0x20; 0x08; 0x40] (cache_new 2 2)
    eq_refl eq_refl ltac:(simpl; lia)) as H.
  destruct (access_all _ _ _ _ _) as [hs c] eqn:E. destruct H as (_ & _ & H). simpl. rewrite H.
  revert E. vm_compute. intros [= <- _]. reflexivity.
Defined.

Example lru_evicts_oldest_witness :
  let c := (access 2 2 16 0x00 (set_policy LRU cache_example)).2 in
  evicted 2 2 16 0x40 c = Some 1 /\
  exists v, v ∈ csets c !!! cache_idx 2 16 0x40 /\ ln_tag v = 1 /\ ln_lru_time v <= 3.
Proof.
  intros c. assert (Hwf : cache_wf 2 2 c).
  { apply access_wf; [lia|lia|]. destruct cache_example_wf. by split. }
  assert (E : evicted 2 2 16 0x40 c = Some 1) by (vm_compute; reflexivity).
  destruct (lru_evicts_oldest 2 2 16 ltac:(lia) ltac:(lia) 0x40 c 1 (mkLine true 0 3) Hwf eq_refl E)
    as (v & Hv & _ & Ht & Hl).
  - apply (list_elem_of_lookup_2 _ 0%nat). reflexivity.
  - split; [exact E|]. by exists v.
Defined.
