(* ===== verification/Belady.v ===== *)
(** Demand caching of a set of [k] ways and the optimality of evicting what is used furthest in
    the future (Belady 1966), which [src/tools/cache_sweep] compares its policies with.

    A run starts from the resident tags, takes the tags that are accessed and counts the hits;
    what is evicted on a miss of a full set is arbitrary. *)
From S2P Require Import Prelude.

(** ** Demand runs *)

Inductive demand (k : nat) : gset Z -> list Z -> nat -> Prop :=
| demand_nil C : demand k C [] 0
| demand_hit C t l h : t ∈ C -> demand k C l h -> demand k C (t :: l) (S h)
| demand_fill C t l h : t ∉ C -> (size C < k)%nat -> demand k ({[t]} ∪ C) l h -> demand k C (t :: l) h
| demand_evict C t v l h :
    t ∉ C -> size C = k -> v ∈ C -> demand k ({[t]} ∪ C ∖ {[v]}) l h -> demand k C (t :: l) h.

(** [a] is used again no later than [b], or neither is. *)
Fixpoint sooner (a b : Z) (l : list Z) : Prop :=
  match l with
  | [] => True
  | t :: l => if decide (t = a) then True else if decide (t = b) then False else sooner a b l
  end.

Lemma size_add (a : Z) (X : gset Z) : a ∉ X -> size ({[a]} ∪ X) = S (size X).
Proof. intros Ha. rewrite size_union by set_solver. by rewrite size_singleton. Qed.

Lemma size_swap (t v : Z) (X : gset Z) : t ∉ X -> v ∈ X -> size ({[t]} ∪ X ∖ {[v]}) = size X.
Proof.
  intros Ht Hv. rewrite size_add by set_solver. rewrite size_difference by set_solver.
  rewrite size_singleton. pose proof (subseteq_size {[v]} X ltac:(set_solver)) as Hs.
  rewrite size_singleton in Hs. lia.
Qed.
Lemma evict_other (t b v : Z) (X : gset Z) :
  v <> b -> {[t]} ∪ ({[b]} ∪ X) ∖ {[v]} = {[b]} ∪ ({[t]} ∪ X ∖ {[v]}).
Proof. set_solver. Qed.
Lemma evict_this (t b : Z) (X : gset Z) : b ∉ X -> {[t]} ∪ ({[b]} ∪ X) ∖ {[b]} = {[t]} ∪ X.
Proof. set_solver. Qed.
Lemma put_back (a v : Z) (X : gset Z) : v ∈ X -> {[v]} ∪ ({[a]} ∪ X ∖ {[v]}) = {[a]} ∪ X.
Proof. intros. apply set_eq. intros x. destruct (decide (x = v)); set_solver. Qed.

Section full.
Variable k : nat.

(** A miss of a full set that holds [b] and [X]. *)
Lemma demand_miss X b t l h :
  b ∉ X -> S (size X) = k -> t ∉ {[b]} ∪ X -> demand k ({[b]} ∪ X) (t :: l) h ->
  demand k ({[t]} ∪ X) l h \/
  exists v, v ∈ X /\ v <> b /\ demand k ({[b]} ∪ ({[t]} ∪ X ∖ {[v]})) l h.
Proof.
  intros Hb Hk Ht Hd. pose proof (size_add b X Hb). inversion Hd; subst; [done|lia|].
  destruct (decide (v = b)) as [->|Hvb]; [left|right; exists v]; simplify_eq.
  - by rewrite evict_this in * by done.
  - split_and!; [set_solver|done|]. by rewrite evict_other in * by done.
Qed.

Lemma demand_miss_this X a t l h :
  a ∉ X -> S (size X) = k -> t ∉ {[a]} ∪ X -> demand k ({[t]} ∪ X) l h -> demand k ({[a]} ∪ X) (t :: l) h.
Proof.
  intros Ha Hk Ht Hd. pose proof (size_add a X Ha). apply demand_evict with a; [done|lia|set_solver|].
  by rewrite evict_this.
Qed.
Lemma demand_miss_other X a t v l h :
  a ∉ X -> S (size X) = k -> t ∉ {[a]} ∪ X -> v ∈ X -> demand k ({[a]} ∪ ({[t]} ∪ X ∖ {[v]})) l h ->
  demand k ({[a]} ∪ X) (t :: l) h.
Proof.
  intros Ha Hk Ht Hv Hd. pose proof (size_add a X Ha). apply demand_evict with v; [done|lia|set_solver|].
  rewrite evict_other; [done|set_solver].
Qed.

Lemma demand_hit_inv C t l h : t ∈ C -> demand k C (t :: l) h -> exists h0, h = S h0 /\ demand k C l h0.
Proof. intros Ht Hd. inversion Hd; subst; [by eexists|done..]. Qed.

(** Another set of resident tags, with one tag exchanged, loses one hit at most. *)
Lemma exchange_loss l : forall X a b h,
  a ∉ X -> b ∉ X -> S (size X) = k -> demand k ({[b]} ∪ X) l h ->
  exists h', (h <= S h')%nat /\ demand k ({[a]} ∪ X) l h'.
Proof.
  induction l as [|t l IH]; intros X a b h Ha Hb Hk Hd.
  { inversion Hd; subst. exists 0%nat. split; [lia|constructor]. }
  destruct (decide (a = b)) as [<-|Hab]; [exists h; split; [lia|done]|].
  destruct (decide (t = b)) as [->|Htb].
  { apply demand_hit_inv in Hd as (h0 & -> & Hd); [|set_solver].
    exists h0. split; [lia|]. apply demand_miss_this; [done..|set_solver|done]. }
  destruct (decide (t ∈ X)) as [HtX|HtX].
  { apply demand_hit_inv in Hd as (h0 & -> & Hd); [|set_solver].
    destruct (IH X a b h0) as (h' & ? & ?); [done..|]. exists (S h'). split; [lia|]. apply demand_hit; [set_solver|done]. }
  apply demand_miss in Hd; [|done|done|set_solver].
  destruct (decide (t = a)) as [->|Hta].
  - destruct Hd as [Hd|(v & Hv & Hvb & Hd)].
    + exists (S h). split; [lia|]. apply demand_hit; [set_solver|done].
    + destruct (IH ({[a]} ∪ X ∖ {[v]}) v b h) as (h' & ? & Hd'); [set_solver..|by rewrite size_swap|done|].
      rewrite put_back in Hd' by done. exists (S h'). split; [lia|]. apply demand_hit; [set_solver|done].
  - destruct Hd as [Hd|(v & Hv & Hvb & Hd)].
    + exists h. split; [lia|]. apply demand_miss_this; [done..|set_solver|done].
    + destruct (IH ({[t]} ∪ X ∖ {[v]}) a b h) as (h' & ? & Hd'); [set_solver..|by rewrite size_swap|done|].
      exists h'. split; [lia|]. apply (demand_miss_other _ _ _ v); [done..|set_solver|done|done].
Qed.

(** Exchanging a resident tag for one that is used sooner loses nothing. *)
Lemma exchange_sooner l : forall X a b h,
  a ∉ X -> b ∉ X -> S (size X) = k -> sooner a b l -> demand k ({[b]} ∪ X) l h ->
  exists h', (h <= h')%nat /\ demand k ({[a]} ∪ X) l h'.
Proof.
  induction l as [|t l IH]; intros X a b h Ha Hb Hk Hs Hd.
  { inversion Hd; subst. exists 0%nat. split; [lia|constructor]. }
  destruct (decide (a = b)) as [<-|Hab]; [exists h; split; [lia|done]|].
  simpl in Hs. destruct (decide (t ∈ X)) as [HtX|HtX].
  { destruct (decide (t = a)) as [->|]; [done|]. destruct (decide (t = b)) as [->|]; [done|].
    apply demand_hit_inv in Hd as (h0 & -> & Hd); [|set_solver].
    destruct (IH X a b h0) as (h' & ? & ?); [done..|]. exists (S h'). split; [lia|]. apply demand_hit; [set_solver|done]. }
  destruct (decide (t = a)) as [->|Hta].
  - apply demand_miss in Hd as [Hd|(v & Hv & Hvb & Hd)]; [..|done|done|set_solver].
    + exists (S h). split; [lia|]. apply demand_hit; [set_solver|done].
    + destruct (exchange_loss l ({[a]} ∪ X ∖ {[v]}) v b h) as (h' & ? & Hd'); [set_solver..|by rewrite size_swap|done|].
      rewrite put_back in Hd' by done. exists (S h'). split; [lia|]. apply demand_hit; [set_solver|done].
  - destruct (decide (t = a)); [done|]. destruct (decide (t = b)) as [|Htb]; [done|].
    apply demand_miss in Hd as [Hd|(v & Hv & Hvb & Hd)]; [..|done|done|set_solver].
    + exists h. split; [lia|]. apply demand_miss_this; [done..|set_solver|done].
    + destruct (IH ({[t]} ∪ X ∖ {[v]}) a b h) as (h' & ? & Hd'); [set_solver..|by rewrite size_swap|done|done|].
      exists h'. split; [lia|]. apply (demand_miss_other _ _ _ v); [done..|set_solver|done|done].
Qed.
End full.

(** ** Evicting the tag used furthest in the future *)

Inductive optimal (k : nat) : gset Z -> list Z -> nat -> Prop :=
| optimal_nil C : optimal k C [] 0
| optimal_hit C t l h : t ∈ C -> optimal k C l h -> optimal k C (t :: l) (S h)
| optimal_fill C t l h : t ∉ C -> (size C < k)%nat -> optimal k ({[t]} ∪ C) l h -> optimal k C (t :: l) h
| optimal_evict C t x l h :
    t ∉ C -> size C = k -> x ∈ C -> (forall v, v ∈ C -> sooner v x l) ->
    optimal k ({[t]} ∪ C ∖ {[x]}) l h -> optimal k C (t :: l) h.

(** No demand run has more hits. *)
Theorem optimal_best k C l h h' : optimal k C l h -> demand k C l h' -> (h' <= h)%nat.
Proof.
  intros Ho. revert h'. induction Ho as [C|C t l h Ht Ho IH|C t l h Ht Hk Ho IH|C t x l h Ht Hk Hx Hf Ho IH];
    intros h' Hd.
  - inversion Hd. lia.
  - inversion Hd; subst; [|done..]. match goal with H : demand k C l _ |- _ => apply IH in H end. lia.
  - inversion Hd; subst; [done| |lia]. by apply IH.
  - inversion Hd as [|? ? ? ? Ht'|? ? ? ? ? Hlt|? ? v ? ? _ _ Hv Hd']; subst; [done|lia|].
    destruct (decide (v = x)) as [->|Hvx]; [by apply IH|].
    set (Y := {[t]} ∪ C ∖ {[x]} ∖ {[v]}).
    assert (x ∉ Y /\ v ∉ Y) as [HxY HvY] by set_solver.
    assert ({[t]} ∪ C ∖ {[v]} = {[x]} ∪ Y) as E1.
    { apply set_eq. intros y. destruct (decide (y = x)), (decide (y = v)); set_solver. }
    assert ({[t]} ∪ C ∖ {[x]} = {[v]} ∪ Y) as E2.
    { apply set_eq. intros y. destruct (decide (y = x)), (decide (y = v)); set_solver. }
    rewrite E1 in Hd'. assert (S (size Y) = size C) as Hs.
    { rewrite <-(size_add v Y HvY), <-E2. by apply size_swap. }
    destruct (exchange_sooner (size C) l Y v x h') as (h2 & Hle & Hd2); [done..|by apply Hf|done|].
    rewrite <-E2 in Hd2. apply IH in Hd2. lia.
Qed.
