(* ===== verification/CacheSweep.v ===== *)
(** [src/tools/cache_sweep]: the runtime-parameterised cache of [RuntimeCache.h] and the
    comparison of policies of [cache_sweep.cpp].

    [runtime_cache_faithful] is what the tool's [self_check] tests on one sequence of addresses:
    the cache answers as the production cache of [inc/Cache.h].  [opt_is_ceiling] is what the
    comments say of [run_opt]: no policy has more hits. *)
From S2P Require Import Prelude Cache Belady.

(** ** [RuntimeCache] *)

Inductive RPolicy := RP_LFSR | RP_LRU | RP_MRU.

Record RuntimeCache := mkRuntime {
  sets_ : Z; ways_ : Z; line_bytes_ : Z;
  offset_bits_ : Z; tag_shift_ : Z;
  lines_ : list (list Line);
  rpolicy_ : RPolicy;
  lfsr_ : Z;
  total_accesses_ : Z;
  total_hits_ : Z
}.

(** [while (n > 1) { n >>= 1; r++; }], on a number of at most 64 bits. *)
Fixpoint log2_loop (fuel : nat) (n r : Z) : Z :=
  match fuel with
  | O => r
  | S fuel => if 1 <? n then log2_loop fuel (n .>> 1) (r + 1) else r
  end.
Definition log2_of (n : Z) : Z := log2_loop 64 n 0.

Definition runtime_new (sets ways line_bytes : nat) : RuntimeCache :=
  mkRuntime (Z.of_nat sets) (Z.of_nat ways) (Z.of_nat line_bytes) (log2_of (Z.of_nat line_bytes))
    (log2_of (Z.of_nat line_bytes) + log2_of (Z.of_nat sets)) (replicate sets (replicate ways line0)) RP_LFSR 0xAC 0 0.

Definition runtime_set_policy (p : RPolicy) (c : RuntimeCache) : RuntimeCache := { c with rpolicy_ := p }.

(** The scan of the ways for the least, or the most, recently touched one. *)
Definition scan_ways (better : Z -> Z -> bool) (ways : nat) (s : list Line) : nat :=
  foldl (fun victim w => if better (ln_lru_time (s !!! w)) (ln_lru_time (s !!! victim)) then w else victim)
    0%nat (seq 1 (ways - 1)).

Definition runtime_victim (c : RuntimeCache) (s : list Line) : nat * Z :=
  let ways := Z.to_nat (ways_ c) in
  match find_invalid s with
  | Some (w, _) => (w, lfsr_ c)
  | None =>
      match rpolicy_ c with
      | RP_LRU => (scan_ways Z.ltb ways s, lfsr_ c)
      | RP_MRU => (scan_ways Z.gtb ways s, lfsr_ c)
      | RP_LFSR =>
          let l := lfsr_ c in
          let fb := ((l .>> 7) .^ (l .>> 5) .^ (l .>> 4) .^ (l .>> 3)) .& 1 in
          (Z.to_nat (l mod ways_ c), u8 ((l .<< 1) .| fb))
      end
  end.

Definition runtime_idx (c : RuntimeCache) (addr : Z) : nat :=
  Z.to_nat ((addr .>> offset_bits_ c) .& (sets_ c - 1)).

Definition runtime_access (addr : Z) (c : RuntimeCache) : bool * RuntimeCache :=
  let idx := runtime_idx c addr in
  let tag := addr .>> tag_shift_ c in
  let total := u64 (total_accesses_ c + 1) in
  let s := lines_ c !!! idx in
  match find_way tag s with
  | Some (w, l) =>
      (true, { c with lines_ := <[idx := <[w := { l with ln_lru_time := total }]> s]> (lines_ c);
                      total_accesses_ := total; total_hits_ := u64 (total_hits_ c + 1) })
  | None =>
      let '(victim, lfsr') := runtime_victim c s in
      (false, { c with lines_ := <[idx := <[victim := mkLine true tag total]> s]> (lines_ c);
                       lfsr_ := lfsr'; total_accesses_ := total })
  end.

Definition runtime_flush (c : RuntimeCache) : RuntimeCache :=
  { c with lines_ := (fun s : list Line => (fun l : Line => { l with ln_valid := false }) <$> s) <$> lines_ c }.

Definition runtime_get_hits (c : RuntimeCache) : Z := total_hits_ c.
Definition runtime_get_misses (c : RuntimeCache) : Z := u64 (total_accesses_ c - total_hits_ c).

(** ** [cache_sweep.cpp] *)

Definition run_real_trace (trace : list Z) (c : RuntimeCache) : RuntimeCache :=
  fold_left (fun c addr => (runtime_access addr c).2) trace c.

Definition SIZE_MAX : Z := 2 ^ 64 - 1.

(** [nextUse] for the positions from [p] on, and [lastPos]. *)
Fixpoint next_uses (p : Z) (tags : list Z) : list Z * gmap Z Z :=
  match tags with
  | [] => ([], ∅)
  | tag :: tags =>
      let '(nextUse, lastPos) := next_uses (p + 1) tags in
      (default SIZE_MAX (lastPos !! tag) :: nextUse, <[tag := p]> lastPos)
  end.

Definition opt_worse (nextUse : list Z) '((first, worst, victim_tag) : bool * Z * Z) (kv : Z * Z) : bool * Z * Z :=
  let nu := nextUse !!! Z.to_nat kv.2 in
  if first || (worst <? nu) then (false, nu, kv.1) else (first, worst, victim_tag).

Section opt.
(** The order in which an [unordered_map] is iterated. *)
Variable order : gmap Z Z -> list (Z * Z).

Definition opt_victim (nextUse : list Z) (cached : gmap Z Z) : Z :=
  (foldl (opt_worse nextUse) (true, 0, 0) (order cached)).2.

(** The simulation of one set from position [p] on. *)
Fixpoint opt_set (ways : nat) (nextUse : list Z) (p : Z) (tags : list Z) (cached_last_pos : gmap Z Z)
    (hits misses : Z) : Z * Z :=
  match tags with
  | [] => (hits, misses)
  | tag :: tags =>
      match cached_last_pos !! tag with
      | Some _ => opt_set ways nextUse (p + 1) tags (<[tag := p]> cached_last_pos) (u64 (hits + 1)) misses
      | None =>
          let cached := if (ways <=? size cached_last_pos)%nat
                        then delete (opt_victim nextUse cached_last_pos) cached_last_pos
                        else cached_last_pos in
          opt_set ways nextUse (p + 1) tags (<[tag := p]> cached) hits (u64 (misses + 1))
      end
  end.

(** The positions of the trace that touch a set, and their tags. *)
Definition per_set_indices (sets_n line_bytes : nat) (trace : list Z) (s : nat) : list nat :=
  filter (fun i => Z.to_nat ((trace !!! i .>> log2_of (Z.of_nat line_bytes)) .& (Z.of_nat sets_n - 1)) = s)
    (seq 0 (length trace)).
Definition opt_tags (sets_n line_bytes : nat) (trace : list Z) (s : nat) : list Z :=
  (fun i => trace !!! i .>> (log2_of (Z.of_nat line_bytes) + log2_of (Z.of_nat sets_n))) <$>
    per_set_indices sets_n line_bytes trace s.

Definition opt_of_set (sets_n ways line_bytes : nat) (trace : list Z) '((hits, misses) : Z * Z) (s : nat) : Z * Z :=
  let tags := opt_tags sets_n line_bytes trace s in
  opt_set ways (next_uses 0 tags).1 0 tags ∅ hits misses.

Definition run_opt (sets_n ways line_bytes : nat) (trace : list Z) : Z * Z :=
  fold_left (opt_of_set sets_n ways line_bytes trace) (seq 0 sets_n) (0, 0).
End opt.

(** The second section: [conflict_tags] tags of set 0, in turn. *)
Definition run_section2 (conflict_tags reps : nat) (c : RuntimeCache) : RuntimeCache :=
  let tag_shift := log2_of (line_bytes_ c) + log2_of (sets_ c) in
  fold_left (fun c _ =>
    fold_left (fun c t => (runtime_access (u64 ((Z.of_nat t .<< tag_shift) + 0x20000000)) c).2)
      (seq 1 conflict_tags) c) (seq 1 reps) c.

(** ** The duplicate is faithful *)

Fixpoint runtime_access_all (addrs : list Z) (c : RuntimeCache) : list bool * RuntimeCache :=
  match addrs with
  | [] => ([], c)
  | a :: addrs =>
      let '(h, c1) := runtime_access a c in
      let '(hs, c2) := runtime_access_all addrs c1 in (h :: hs, c2)
  end.

Lemma log2_loop_spec fuel n r : log2_loop fuel n r = r + log2c_fuel fuel n.
Proof.
  revert n r. induction fuel as [|fuel IH]; intros n r; simpl; [lia|].
  destruct (Z.ltb_spec 1 n), (Z.leb_spec n 1); try lia. rewrite IH. lia.
Qed.
Lemma log2_of_eq n : log2_of n = log2c n.
Proof. unfold log2_of. by rewrite log2_loop_spec. Qed.

Definition runtime_policy (p : Policy) : RPolicy := match p with LFSR => RP_LFSR | LRU => RP_LRU end.

(** The production cache with the same contents. *)
Definition duplicate (sets ways line_bytes : nat) (c : Cache) : RuntimeCache :=
  mkRuntime (Z.of_nat sets) (Z.of_nat ways) (Z.of_nat line_bytes) (OFFSET_BITS line_bytes)
    (TAG_SHIFT sets line_bytes) (csets c) (runtime_policy (policy_ c)) (lfsr c) (total_accesses c) (total_hits c).

Lemma runtime_access_duplicate sets ways line_bytes addr c :
  runtime_access addr (duplicate sets ways line_bytes c) =
  ((access sets ways line_bytes addr c).1, duplicate sets ways line_bytes (access sets ways line_bytes addr c).2).
Proof.
  unfold runtime_access, access. unfold runtime_idx, cache_idx, cache_tag. simpl.
  destruct (find_way _ _) as [[w l]|]; [done|]. unfold runtime_victim, choose_victim. simpl.
  destruct (find_invalid _) as [[w l]|]; [done|]. rewrite Nat2Z.id. by destruct (policy_ c).
Qed.

Lemma runtime_access_all_duplicate sets ways line_bytes addrs : forall c,
  runtime_access_all addrs (duplicate sets ways line_bytes c) =
    ((access_all sets ways line_bytes addrs c).1,
     duplicate sets ways line_bytes (access_all sets ways line_bytes addrs c).2).
Proof.
  induction addrs as [|a addrs IH]; intros c; [done|]. simpl.
  rewrite runtime_access_duplicate. destruct (access sets ways line_bytes a c) as [h c1]. simpl.
  rewrite IH. by destruct (access_all sets ways line_bytes addrs c1).
Qed.
Lemma runtime_new_duplicate sets ways line_bytes p :
  runtime_set_policy (runtime_policy p) (runtime_new sets ways line_bytes) =
  duplicate sets ways line_bytes (set_policy p (cache_new sets ways)).
Proof. unfold runtime_new, duplicate, OFFSET_BITS, TAG_SHIFT. rewrite !log2_of_eq. by destruct p. Qed.

(** On every sequence of accesses the runtime-parameterised cache answers, and counts hits and
    misses, exactly as the production cache of the same geometry and policy. *)
Theorem runtime_cache_faithful sets ways line_bytes p addrs :
  let '(hs, c) := access_all sets ways line_bytes addrs (set_policy p (cache_new sets ways)) in
  let '(hs', c') := runtime_access_all addrs
                      (runtime_set_policy (runtime_policy p) (runtime_new sets ways line_bytes)) in
  hs' = hs /\ runtime_get_hits c' = get_hits c /\ runtime_get_misses c' = get_misses c.
Proof.
  rewrite runtime_new_duplicate, runtime_access_all_duplicate.
  by destruct (access_all sets ways line_bytes addrs _) as [hs c].
Qed.

(** The check the tool starts with: the addresses, the comparison at every step and of the counters. *)
Definition self_check_addr (i : Z) : Z :=
  u64 ((u64 (i * 37)) mod (200 * 1024) + (if i mod 13 =? 0 then 0 else u64 (i * 16))).

Fixpoint self_check_loop (addrs : list Z) (real : Cache) (dup : RuntimeCache) (mismatches : Z) : Z * Cache * RuntimeCache :=
  match addrs with
  | [] => (mismatches, real, dup)
  | a :: addrs =>
      let '(hr, real) := access 256 8 16 a real in
      let '(hd, dup) := runtime_access a dup in
      self_check_loop addrs real dup (if eqb hr hd then mismatches else u64 (mismatches + 1))
  end.

(** [false] is [std::exit(1)]. *)
Definition self_check (steps : nat) : bool :=
  let '(mismatches, real, dup) :=
    self_check_loop ((fun i => self_check_addr (Z.of_nat i)) <$> seq 0 steps)
      (cache_new 256 8) (runtime_new 256 8 16) 0 in
  (mismatches =? 0) && (runtime_get_hits dup =? get_hits real) && (runtime_get_misses dup =? get_misses real).

Theorem self_check_passes steps : self_check steps = true.
Proof.
  unfold self_check. pose proof (runtime_new_duplicate 256 8 16 LFSR) as E. simpl in E.
  change (runtime_set_policy RP_LFSR (runtime_new 256 8 16)) with (runtime_new 256 8 16) in E. rewrite E.
  change (set_policy LFSR (cache_new 256 8)) with (cache_new 256 8).
  generalize (cache_new 256 8), ((fun i => self_check_addr (Z.of_nat i)) <$> seq 0 steps).
  intros real addrs. revert real. induction addrs as [|a addrs IH]; intros real.
  - simpl. by rewrite !Z.eqb_refl.
  - cbn [self_check_loop]. rewrite runtime_access_duplicate. destruct (access 256 8 16 a real) as [h c1]. simpl.
    rewrite eqb_reflx. apply IH.
Qed.

(** ** A set of the cache makes a demand run *)

Definition live_tags (s : list Line) : list Z := ln_tag <$> filter (fun l => ln_valid l = true) s.
Definition resident_tags (s : list Line) : gset Z := list_to_set (live_tags s).

Lemma elem_of_resident t s : t ∈ resident_tags s <-> exists l, l ∈ s /\ line_match t l = true.
Proof.
  unfold resident_tags, live_tags. rewrite elem_of_list_to_set, list_elem_of_fmap. unfold line_match. split.
  - intros (l & -> & [Hv Hl]%list_elem_of_filter). exists l. by rewrite Hv, Z.eqb_refl.
  - intros (l & Hl & [Hv Ht%Z.eqb_eq]%andb_true_iff). exists l. split; [done|]. by apply list_elem_of_filter.
Qed.

Lemma live_tags_nodup s : set_nodup s -> NoDup (live_tags s).
Proof.
  unfold live_tags. induction s as [|l s IH]; intros Hs; [constructor|].
  assert (set_nodup s) as Hs'.
  { intros i j li lj Hi Hj Hvi Hvj Ht. assert (S i = S j) by (by apply (Hs (S i) (S j) li lj)). lia. }
  rewrite filter_cons. case_decide as Hv; [|by apply IH]. rewrite fmap_cons. constructor; [|by apply IH].
  intros (l' & Ht & [Hv' [j Hj]%list_elem_of_lookup_1]%list_elem_of_filter)%list_elem_of_fmap.
  by specialize (Hs 0%nat (S j) l l' eq_refl Hj Hv Hv' Ht).
Qed.

Lemma size_resident s : set_nodup s -> size (resident_tags s) = length (filter (fun l => ln_valid l = true) s).
Proof.
  intros Hs. unfold resident_tags. rewrite size_list_to_set by by apply live_tags_nodup.
  apply length_fmap.
Qed.
Lemma size_resident_invalid s w l :
  set_nodup s -> s !! w = Some l -> ln_valid l = false -> (size (resident_tags s) < length s)%nat.
Proof.
  intros Hs Hw Hv. rewrite size_resident by done. apply (length_filter_lt _ s l); [by eapply list_elem_of_lookup_2|].
  by rewrite Hv.
Qed.
Lemma size_resident_full s :
  set_nodup s -> Forall (fun l => ln_valid l = true) s -> size (resident_tags s) = length s.
Proof. intros Hs Hf. rewrite size_resident by done. f_equal. clear Hs. induction Hf; [done|]. rewrite filter_cons_True by done. by f_equal. Qed.

(** One access of the set: [s'] and the answer against the demand runs that follow. *)
Lemma set_touch_demand s w l x k t tl h :
  find_way t s = Some (w, l) -> demand k (resident_tags (<[w := { l with ln_lru_time := x }]> s)) tl h ->
  demand k (resident_tags s) (t :: tl) (S h).
Proof.
  intros Hf Hd. apply find_way_Some in Hf as [Hw Hm]. apply demand_hit.
  - apply elem_of_resident. exists l. split; [by eapply list_elem_of_lookup_2|done].
  - assert (resident_tags (<[w := { l with ln_lru_time := x }]> s) = resident_tags s) as <-; [|done].
    apply set_eq. intros t'. rewrite !elem_of_resident. split; intros (l' & [j Hj]%list_elem_of_lookup_1 & Hm').
    + apply list_lookup_insert_Some in Hj as [(<- & <- & _)|[_ Hj]]; [exists l|exists l'];
        (split; [by eapply list_elem_of_lookup_2|done]).
    + destruct (decide (w = j)) as [<-|Hne]; simplify_eq.
      * exists { l with ln_lru_time := x }. split; [|done].
        eapply list_elem_of_lookup_2, list_lookup_insert_eq. by eapply lookup_lt_Some.
      * exists l'. split; [|done]. apply (list_elem_of_lookup_2 _ j). by rewrite list_lookup_insert_ne.
Qed.

Lemma set_fill_demand s v t x tl h :
  set_nodup s -> (v < length s)%nat -> find_way t s = None ->
  (ln_valid (s !!! v) = true -> Forall (fun l => ln_valid l = true) s) ->
  demand (length s) (resident_tags (<[v := mkLine true t x]> s)) tl h ->
  demand (length s) (resident_tags s) (t :: tl) h.
Proof.
  intros Hs Hv Hf Hall Hd. pose proof (list_lookup_lookup_total_lt s v Hv) as Hsv.
  assert (t ∉ resident_tags s) as Ht.
  { rewrite elem_of_resident. intros (l & Hl & Hm). rewrite find_way_None in Hf. by rewrite Hf in Hm. }
  destruct (ln_valid (s !!! v)) eqn:Ev.
  - apply demand_evict with (ln_tag (s !!! v)); [done|by apply size_resident_full; auto| |].
    + apply elem_of_resident. exists (s !!! v). split; [by eapply list_elem_of_lookup_2|].
      unfold line_match. by rewrite Ev, Z.eqb_refl.
    + assert (resident_tags (<[v := mkLine true t x]> s) =
              {[t]} ∪ resident_tags s ∖ {[ln_tag (s !!! v)]}) as <-; [|done].
      apply set_eq. intros t'. rewrite elem_of_resident, fill_resident by done. rewrite <-elem_of_resident.
      set_solver.
  - apply demand_fill; [done|by eapply size_resident_invalid|].
    assert (resident_tags (<[v := mkLine true t x]> s) = {[t]} ∪ resident_tags s) as <-; [|done].
    apply set_eq. intros t'. rewrite elem_of_resident, fill_resident by done. rewrite <-elem_of_resident.
    rewrite Ev. set_solver.
Qed.

(** ** Every policy makes a demand run of every set *)

(** The tags of the accesses of a trace that touch set [s]. *)
Definition set_stream (sets line_bytes : nat) (s : nat) (trace : list Z) : list Z :=
  (fun a => a .>> (log2_of (Z.of_nat line_bytes) + log2_of (Z.of_nat sets))) <$>
    filter (fun a => Z.to_nat ((a .>> log2_of (Z.of_nat line_bytes)) .& (Z.of_nat sets - 1)) = s) trace.

Definition sum_sets (sets : nat) (f : nat -> nat) : nat := sum_list (f <$> seq 0 sets).

Lemma sum_list_cons (f : nat -> nat) s l : sum_list (f <$> s :: l) = (f s + sum_list (f <$> l))%nat.
Proof. done. Qed.
Lemma sum_list_fmap_ext (f g : nat -> nat) l :
  (forall s, s ∈ l -> f s = g s) -> sum_list (f <$> l) = sum_list (g <$> l).
Proof. intros H. f_equal. apply list_fmap_ext. intros i s Hs. apply H. by eapply list_elem_of_lookup_2. Qed.

Lemma sum_sets_bump sets f i :
  (i < sets)%nat -> sum_sets sets (fun s => if decide (s = i) then S (f s) else f s) = S (sum_sets sets f).
Proof.
  unfold sum_sets. intros Hi. assert (i ∈ seq 0 sets) as Hin by (apply elem_of_seq; lia).
  pose proof (NoDup_seq 0 sets) as Hnd. induction (seq 0 sets) as [|s l IH]; [by apply not_elem_of_nil in Hin|].
  inversion Hnd as [|? ? Hs Hnd']; subst. rewrite !sum_list_cons. apply elem_of_cons in Hin as [<-|Hin].
  - rewrite decide_True by done. rewrite (sum_list_fmap_ext _ f); [done|].
    intros s Hs'. rewrite decide_False; [done|]. by intros ->.
  - rewrite decide_False by (by intros ->). rewrite IH by done. lia.
Qed.

Lemma sum_sets_le sets f g :
  (forall s, (s < sets)%nat -> (f s <= g s)%nat) -> (sum_sets sets f <= sum_sets sets g)%nat.
Proof.
  intros H. unfold sum_sets. assert (forall s, s ∈ seq 0 sets -> (f s <= g s)%nat) as H'.
  { intros s Hs. apply H. apply elem_of_seq in Hs. lia. }
  clear H. induction (seq 0 sets) as [|s l IH]; [done|]. rewrite !sum_list_cons.
  assert (f s <= g s)%nat by (apply H'; left). assert (sum_list (f <$> l) <= sum_list (g <$> l))%nat; [|lia].
  apply IH. intros x Hx. apply H'. by right.
Qed.

Section sweep.
Variables sets ways line_bytes : nat.
Hypothesis sets_pos : (0 < sets)%nat.
Hypothesis ways_pos : (0 < ways)%nat.

Record runtime_wf (c : RuntimeCache) : Prop := {
  rw_sets : sets_ c = Z.of_nat sets;
  rw_ways : ways_ c = Z.of_nat ways;
  rw_offset : offset_bits_ c = log2_of (Z.of_nat line_bytes);
  rw_tag : tag_shift_ c = log2_of (Z.of_nat line_bytes) + log2_of (Z.of_nat sets);
  rw_lines : length (lines_ c) = sets;
  rw_len : Forall (fun s => length s = ways) (lines_ c);
  rw_nodup : Forall set_nodup (lines_ c);
}.

Lemma runtime_new_wf p : runtime_wf (runtime_set_policy p (runtime_new sets ways line_bytes)).
Proof.
  split; [done..| | |]; simpl; [apply length_replicate|apply Forall_replicate, length_replicate|].
  apply Forall_replicate. intros i j li lj [-> _]%lookup_replicate_1 _ Hv. done.
Qed.

Lemma scan_ways_lt better s : (scan_ways better ways s < ways)%nat.
Proof.
  unfold scan_ways. assert (forall l v, (v < ways)%nat -> Forall (fun w => (w < ways)%nat) l ->
    (foldl (fun victim w => if better (ln_lru_time (s !!! w)) (ln_lru_time (s !!! victim)) then w else victim) v l
       < ways)%nat) as H.
  { intros l. induction l as [|w l IH]; intros v Hv Hl; [done|]. simpl. inversion Hl; subst.
    apply IH; [by case_match|done]. }
  apply H; [done|]. apply list.Forall_forall. intros w Hw%elem_of_seq. lia.
Qed.

Lemma runtime_victim_spec c s :
  runtime_wf c -> length s = ways -> let v := (runtime_victim c s).1 in
  (v < ways)%nat /\ (ln_valid (s !!! v) = true -> Forall (fun l => ln_valid l = true) s).
Proof.
  intros Hc Hs. unfold runtime_victim. destruct (find_invalid s) as [[w l]|] eqn:E.
  - apply list_find_Some in E as (Hw & Hv & _). simpl. split; [rewrite <-Hs; by eapply lookup_lt_Some|].
    rewrite (list_lookup_total_correct _ _ _ Hw). congruence.
  - apply find_invalid_None in E. rewrite (rw_ways c Hc), Nat2Z.id.
    destruct (rpolicy_ c); simpl; (split; [|done]); [|apply scan_ways_lt..].
    pose proof (Z.mod_pos_bound (lfsr_ c) (Z.of_nat ways)). lia.
Qed.

Lemma runtime_idx_lt c a : runtime_wf c -> (runtime_idx c a < sets)%nat.
Proof.
  intros Hc. unfold runtime_idx. rewrite (rw_sets c Hc).
  pose proof (land_le_r (a .>> offset_bits_ c) (Z.of_nat sets - 1)).
  assert (0 <= (a .>> offset_bits_ c) .& (Z.of_nat sets - 1)) by (apply Z.land_nonneg; right; lia). lia.
Qed.

(** One access: the set it touches, and the others. *)
Lemma runtime_access_demand a c :
  runtime_wf c -> let '(hit, c') := runtime_access a c in let i := runtime_idx c a in
  runtime_wf c' /\ total_hits_ c' = (if hit : bool then u64 (total_hits_ c + 1) else total_hits_ c) /\
  (forall s, s <> i -> lines_ c' !!! s = lines_ c !!! s) /\
  (forall tl h, demand ways (resident_tags (lines_ c' !!! i)) tl h ->
     demand ways (resident_tags (lines_ c !!! i)) ((a .>> tag_shift_ c) :: tl) (if hit then S h else h)).
Proof.
  intros Hc. pose proof (runtime_idx_lt c a Hc) as Hi. rewrite <-(rw_lines c Hc) in Hi.
  pose proof (list_lookup_lookup_total_lt _ _ Hi) as Hs. unfold runtime_access.
  set (s := lines_ c !!! runtime_idx c a) in *.
  pose proof (Forall_lookup_1 _ _ _ _ (rw_len c Hc) Hs) as Hlen.
  pose proof (Forall_lookup_1 _ _ _ _ (rw_nodup c Hc) Hs) as Hnd. simpl in Hlen.
  assert (forall s' x y z, length s' = ways -> set_nodup s' ->
    runtime_wf { c with lines_ := <[runtime_idx c a := s']> (lines_ c); lfsr_ := x; total_accesses_ := y; total_hits_ := z }) as Hwf.
  { intros s' x y z Hl Hn. destruct Hc. split; simpl; [done..|by rewrite length_insert|by apply Forall_insert|by apply Forall_insert]. }
  destruct (find_way (a .>> tag_shift_ c) s) as [[w l]|] eqn:E; simpl.
  - pose proof (find_way_Some _ _ _ _ E) as [Hw Hm]. split_and!; [|done| |].
    + apply (Hwf _ (lfsr_ c)); [by rewrite length_insert|by apply set_nodup_touch].
    + intros s' Hne. by rewrite list_lookup_total_insert_ne.
    + intros tl h Hd. rewrite list_lookup_total_insert_eq in Hd by done. by eapply set_touch_demand.
  - destruct (runtime_victim_spec c s Hc Hlen) as [Hv Hfull].
    destruct (runtime_victim c s) as [v lf] eqn:Ev. simpl in *. split_and!; [|done| |].
    + apply (Hwf (<[v := mkLine true (a .>> tag_shift_ c) (u64 (total_accesses_ c + 1))]> s) lf (u64 (total_accesses_ c + 1)) (total_hits_ c)); [by rewrite length_insert|]. apply set_nodup_fill; [done|].
      by apply find_way_None.
    + intros s' Hne. by rewrite list_lookup_total_insert_ne.
    + intros tl h Hd. rewrite list_lookup_total_insert_eq in Hd by done. rewrite <-Hlen in Hd |- *.
      by eapply set_fill_demand; [..|exact Hd]; [|rewrite Hlen| |].
Qed.

Lemma set_stream_cons c a trace s :
  runtime_wf c -> set_stream sets line_bytes s (a :: trace) =
  if decide (s = runtime_idx c a) then (a .>> tag_shift_ c) :: set_stream sets line_bytes s trace
  else set_stream sets line_bytes s trace.
Proof.
  intros Hc. unfold set_stream, runtime_idx. rewrite (rw_sets c Hc), (rw_offset c Hc), (rw_tag c Hc).
  rewrite filter_cons. repeat case_decide; by (simplify_eq || congruence).
Qed.

Lemma run_real_trace_demand trace : forall c,
  runtime_wf c -> 0 <= total_hits_ c -> total_hits_ c + Z.of_nat (length trace) < 2 ^ 64 ->
  exists hs : nat -> nat,
    (forall s, (s < sets)%nat ->
       demand ways (resident_tags (lines_ c !!! s)) (set_stream sets line_bytes s trace) (hs s)) /\
    total_hits_ (run_real_trace trace c) = total_hits_ c + Z.of_nat (sum_sets sets hs).
Proof.
  induction trace as [|a trace IH]; intros c Hc H0 Hb; simpl in Hb.
  - exists (fun _ => 0%nat). split; [intros; constructor|]. simpl.
    assert (sum_sets sets (fun _ => 0%nat) = 0%nat) as ->; [|lia].
    unfold sum_sets. by induction (seq 0 sets).
  - pose proof (runtime_access_demand a c Hc) as Ha. pose proof (runtime_idx_lt c a Hc) as Hi.
    unfold run_real_trace. simpl. destruct (runtime_access a c) as [hit c1]. destruct Ha as (Hc1 & Ht & Ho & Hd). simpl.
    assert (total_hits_ c1 = total_hits_ c + Z.b2z hit) as Ht'.
    { rewrite Ht. destruct hit; simpl; [|lia]. apply wrap_small. unfold fits. lia. }
    destruct (IH c1) as (hs & Hhs & Hsum); [done|destruct hit; simpl in *; lia..|].
    exists (fun s => if decide (s = runtime_idx c a) then (if hit then S (hs s) else hs s) else hs s). split.
    + intros s Hs. rewrite (set_stream_cons c) by done. specialize (Hhs s Hs).
      case_decide as Es; [subst s; by apply Hd|]. by rewrite <-Ho.
    + unfold run_real_trace in Hsum. rewrite Hsum, Ht'. destruct hit; simpl.
      * rewrite sum_sets_bump by done. lia.
      * unfold sum_sets. rewrite (sum_list_fmap_ext (fun s => if decide (s = runtime_idx c a) then hs s else hs s) hs); [lia|].
        intros s _. by case_decide.
Qed.

Lemma sum_stream_length trace : sum_sets sets (fun s => length (set_stream sets line_bytes s trace)) = length trace.
Proof.
  pose proof (runtime_new_wf RP_LRU) as Hc. induction trace as [|a trace IH]; simpl.
  - unfold sum_sets. by induction (seq 0 sets).
  - rewrite <-IH. rewrite <-(sum_sets_bump _ _ _ (runtime_idx_lt _ a Hc)). unfold sum_sets.
    apply sum_list_fmap_ext. intros s _. rewrite (set_stream_cons _ _ _ _ Hc). by repeat case_decide.
Qed.
End sweep.

(** ** The simulation of the optimum *)

(** The position from [p] on at which [t] is next accessed. *)
Fixpoint first_use (t : Z) (p : Z) (l : list Z) : Z :=
  match l with
  | [] => SIZE_MAX
  | x :: l => if decide (x = t) then p else first_use t (p + 1) l
  end.

Lemma first_use_ge t l : forall p, p + Z.of_nat (length l) <= SIZE_MAX -> p <= first_use t p l.
Proof.
  induction l as [|x l IH]; intros p Hp; simpl in *; [lia|]. case_decide; [lia|].
  pose proof (IH (p + 1)). lia.
Qed.

Lemma first_use_sooner a b l : forall p,
  p + Z.of_nat (length l) <= SIZE_MAX -> first_use a p l <= first_use b p l -> sooner a b l.
Proof.
  induction l as [|x l IH]; intros p Hp Hle; simpl in *; [done|].
  repeat case_decide; subst; try done.
  - pose proof (first_use_ge a l (p + 1)). lia.
  - apply (IH (p + 1)); lia.
Qed.

Lemma next_uses_last t l : forall p, default SIZE_MAX ((next_uses p l).2 !! t) = first_use t p l.
Proof.
  induction l as [|x l IH]; intros p; simpl; [by rewrite lookup_empty|].
  specialize (IH (p + 1)). destruct (next_uses (p + 1) l) as [nu lp]. simpl in *.
  case_decide as Ex; subst; [by rewrite lookup_insert_eq|]. by rewrite lookup_insert_ne.
Qed.

Lemma next_uses_cons x l p :
  (next_uses p (x :: l)).1 = first_use x (p + 1) l :: (next_uses (p + 1) l).1.
Proof. simpl. rewrite <-next_uses_last. by destruct (next_uses (p + 1) l). Qed.

Lemma run_opt_stream sets line_bytes s trace :
  opt_tags sets line_bytes trace s = set_stream sets line_bytes s trace.
Proof.
  unfold opt_tags, set_stream, per_set_indices.
  set (P := fun a => Z.to_nat ((a .>> log2_of (Z.of_nat line_bytes)) .& (Z.of_nat sets - 1)) = s).
  set (f := fun a => a .>> (log2_of (Z.of_nat line_bytes) + log2_of (Z.of_nat sets))).
  enough (forall pre, f <$> filter P trace =
    (fun i => f ((pre ++ trace) !!! i)) <$> filter (fun i => P ((pre ++ trace) !!! i)) (seq (length pre) (length trace)))
    as H by (symmetry; apply (H [])).
  induction trace as [|a trace IH]; intros pre; [done|]. simpl.
  assert ((pre ++ a :: trace) !!! length pre = a) as Ha by by rewrite lookup_total_app_r, Nat.sub_diag.
  specialize (IH (pre ++ [a])). rewrite <-app_assoc in IH. simpl in IH. rewrite length_app in IH. simpl in IH.
  rewrite Nat.add_1_r in IH. rewrite !filter_cons. rewrite Ha. case_decide; [|done].
  rewrite !fmap_cons, Ha. by f_equal.
Qed.

Section opt_proof.
Variable order : gmap Z Z -> list (Z * Z).
Hypothesis order_perm : forall m, order m ≡ₚ map_to_list m.

Lemma opt_victim_furthest nextUse cached :
  cached <> ∅ -> exists q, cached !! opt_victim order nextUse cached = Some q /\
    forall t' q', cached !! t' = Some q' -> nextUse !!! Z.to_nat q' <= nextUse !!! Z.to_nat q.
Proof.
  intros Hne. unfold opt_victim. set (F := opt_worse nextUse).
  set (nu := fun kv : Z * Z => nextUse !!! Z.to_nat kv.2).
  assert (forall l kv seen, kv ∈ seen -> (forall kv', kv' ∈ seen -> nu kv' <= nu kv) ->
    exists kv', foldl F (false, nu kv, kv.1) l = (false, nu kv', kv'.1) /\ kv' ∈ seen ++ l /\
                forall kv'', kv'' ∈ seen ++ l -> nu kv'' <= nu kv') as HF.
  { induction l as [|x l IH]; intros kv seen Hin Hmax; [exists kv; by rewrite app_nil_r|].
    change (foldl F (false, nu kv, kv.1) (x :: l)) with (foldl F (if nu kv <? nu x then (false, nu x, x.1) else (false, nu kv, kv.1)) l).
    destruct (Z.ltb_spec (nu kv) (nu x)) as [Hlt|Hge].
    - destruct (IH x (seen ++ [x])) as (kv' & -> & Hk); [set_solver| |].
      + intros kv' [Hk|Hk%list_elem_of_singleton]%elem_of_app; [apply Hmax in Hk; lia|by subst].
      + rewrite <-app_assoc in Hk. by exists kv'.
    - destruct (IH kv (seen ++ [x])) as (kv' & -> & Hk); [set_solver| |].
      + intros kv' [Hk|Hk%list_elem_of_singleton]%elem_of_app; [by apply Hmax|by subst].
      + rewrite <-app_assoc in Hk. by exists kv'. }
  assert (forall t q, (t, q) ∈ order cached <-> cached !! t = Some q) as Hord.
  { intros t q. rewrite order_perm. apply elem_of_map_to_list. }
  destruct (order cached) as [|kv l] eqn:Eo.
  { exfalso. apply Hne. apply map_empty. intros t. apply eq_None_not_Some. intros [q Hq].
    apply Hord in Hq. by apply not_elem_of_nil in Hq. }
  simpl. destruct (HF l kv [kv]) as ([t q] & E & Hin & Hmax); [set_solver| |].
  { intros kv' Hk%list_elem_of_singleton. by subst. }
  unfold nu at 1 in E. rewrite E. simpl. exists q. split; [by apply Hord|].
  intros t' q' Hq'. by apply (Hmax (t', q')), Hord.
Qed.

(** What the loop knows at position [p]: where each resident tag is used next. *)
Record opt_inv (ways : nat) (nextUse : list Z) (p : Z) (tags : list Z) (cached : gmap Z Z) : Prop := {
  oi_pos : 0 <= p /\ p + Z.of_nat (length tags) <= SIZE_MAX;
  oi_next : drop (Z.to_nat p) nextUse = (next_uses p tags).1;
  oi_cached : forall t q, cached !! t = Some q -> 0 <= q < p /\ nextUse !!! Z.to_nat q = first_use t p tags;
  oi_size : (size cached <= ways)%nat;
}.

Lemma opt_inv_step ways nextUse p t tags cached cached' :
  opt_inv ways nextUse p (t :: tags) cached -> (forall t' q, cached' !! t' = Some q -> cached !! t' = Some q) ->
  (size (<[t := p]> cached') <= ways)%nat -> opt_inv ways nextUse (p + 1) tags (<[t := p]> cached').
Proof.
  intros [[Hp Hb] Hn Hc Hs] Hsub Hs'. simpl in Hb. rewrite next_uses_cons in Hn.
  assert (nextUse !! Z.to_nat p = Some (first_use t (p + 1) tags)) as Hnp.
  { rewrite <-(Nat.add_0_r (Z.to_nat p)), <-lookup_drop, Hn. done. }
  split; [lia| | |done].
  - replace (Z.to_nat (p + 1)) with (S (Z.to_nat p)) by lia. rewrite <-Nat.add_1_r, <-drop_drop, Hn. done.
  - intros t' q [[<- <-]|[Hne Hq]]%lookup_insert_Some.
    + split; [lia|]. by rewrite (list_lookup_total_correct _ _ _ Hnp).
    + apply Hsub, Hc in Hq as [? Hq]. split; [lia|]. rewrite Hq. simpl. by rewrite decide_False.
Qed.

Lemma opt_set_optimal ways nextUse : (0 < ways)%nat -> forall tags p cached hits misses,
  opt_inv ways nextUse p tags cached -> fits 64 hits -> fits 64 misses ->
  exists h m : nat, optimal ways (dom cached) tags h /\ (h + m = length tags)%nat /\
    opt_set order ways nextUse p tags cached hits misses = (u64 (hits + Z.of_nat h), u64 (misses + Z.of_nat m)).
Proof.
  intros Hw tags. induction tags as [|t tags IH]; intros p cached hits misses Hi Hh Hm.
  { exists 0%nat, 0%nat. split_and!; [constructor|done|]. simpl. rewrite !Z.add_0_r. by rewrite !wrap_small. }
  simpl. destruct (cached !! t) as [q|] eqn:Et.
  - destruct (IH (p + 1) (<[t := p]> cached) (u64 (hits + 1)) misses) as (h & m & Ho & Hl & ->);
      [|by apply wrap_fits|done|].
    { eapply opt_inv_step; [done|by auto|]. rewrite map_size_insert_Some by done. apply Hi. }
    exists (S h), m. assert (t ∈ dom cached) by by apply elem_of_dom_2 in Et.
    split_and!; [|lia|f_equal; rewrite wrap_add_l; f_equal; lia].
    apply optimal_hit; [done|]. rewrite dom_insert_L in Ho.
    by replace ({[t]} ∪ dom cached) with (dom cached) in Ho by set_solver.
  - apply not_elem_of_dom in Et as Htd. pose proof (oi_size _ _ _ _ _ Hi) as Hsz.
    destruct (Nat.leb_spec ways (size cached)) as [Hfull|Hroom].
    + assert (size cached = ways) as Hk by lia.
      destruct (opt_victim_furthest nextUse cached) as (q & Hq & Hmax).
      { intros ->. rewrite map_size_empty in Hk. lia. }
      set (x := opt_victim order nextUse cached) in *.
      destruct (IH (p + 1) (<[t := p]> (delete x cached)) hits (u64 (misses + 1))) as (h & m & Ho & Hl & ->);
        [|done|by apply wrap_fits|].
      { eapply opt_inv_step; [done|by intros t' q' [_ ?]%lookup_delete_Some|].
        rewrite map_size_insert_None by (by rewrite lookup_delete_None; right).
        rewrite map_size_delete_Some by done. lia. }
      exists h, (S m). split_and!; [|lia|f_equal; rewrite wrap_add_l; f_equal; lia].
      apply optimal_evict with x; [done|by rewrite size_dom|by apply elem_of_dom_2 in Hq| |].
      * intros v [qv Hv]%elem_of_dom. destruct Hi as [[Hp Hb] _ Hc _].
        pose proof (Hmax _ _ Hv) as Hle. destruct (Hc _ _ Hv) as [_ Hv']. destruct (Hc _ _ Hq) as [_ Hq'].
        rewrite Hv', Hq' in Hle. simpl in Hle, Hb.
        rewrite !decide_False in Hle by (intros ->; congruence || by apply Htd, elem_of_dom).
        apply (first_use_sooner _ _ _ (p + 1)); [lia|done].
      * by rewrite dom_insert_L, dom_delete_L in Ho.
    + destruct (IH (p + 1) (<[t := p]> cached) hits (u64 (misses + 1))) as (h & m & Ho & Hl & ->);
        [|done|by apply wrap_fits|].
      { eapply opt_inv_step; [done|by auto|]. rewrite map_size_insert_None by done. lia. }
      exists h, (S m). split_and!; [|lia|f_equal; rewrite wrap_add_l; f_equal; lia].
      apply optimal_fill; [done|by rewrite size_dom|]. by rewrite dom_insert_L in Ho.
Qed.

Section ceiling.
Variables sets ways line_bytes : nat.
Hypothesis sets_pos : (0 < sets)%nat.
Hypothesis ways_pos : (0 < ways)%nat.
Variable trace : list Z.
Hypothesis trace_short : Z.of_nat (length trace) < SIZE_MAX.

Lemma set_stream_length s : (length (set_stream sets line_bytes s trace) <= length trace)%nat.
Proof. unfold set_stream. rewrite length_fmap. apply length_filter. Qed.

Lemma opt_inv_start tags :
  (length tags <= length trace)%nat -> opt_inv ways (next_uses 0 tags).1 0 tags ∅.
Proof. intros Hl. split; [lia|by rewrite drop_0|done|rewrite map_size_empty; lia]. Qed.

(** Against any demand runs of the sets. *)
Lemma opt_sets_best (f : nat -> nat) l : forall hits misses,
  (forall s, s ∈ l -> demand ways ∅ (set_stream sets line_bytes s trace) (f s)) ->
  fits 64 hits -> fits 64 misses ->
  exists h m : nat,
    fold_left (opt_of_set order sets ways line_bytes trace) l (hits, misses)
      = (u64 (hits + Z.of_nat h), u64 (misses + Z.of_nat m)) /\
    (sum_list (f <$> l) <= h)%nat /\
    (h + m = sum_list ((fun s => length (set_stream sets line_bytes s trace)) <$> l))%nat.
Proof.
  induction l as [|s l IH]; intros hits misses Hd Hh Hm.
  - exists 0%nat, 0%nat. simpl. rewrite !Z.add_0_r. by rewrite !wrap_small.
  - cbn [fold_left]. unfold opt_of_set at 2. cbv zeta. rewrite run_opt_stream. set (tags := set_stream sets line_bytes s trace) in *.
    destruct (opt_set_optimal ways (next_uses 0 tags).1 ways_pos tags 0 ∅ hits misses)
      as (h1 & m1 & Ho & Hl & ->); [by apply opt_inv_start, set_stream_length|done..|].
    destruct (IH (u64 (hits + Z.of_nat h1)) (u64 (misses + Z.of_nat m1))) as (h2 & m2 & -> & Hf & Hs);
      [by intros; apply Hd; right|by apply wrap_fits..|].
    exists (h1 + h2)%nat, (m1 + m2)%nat. rewrite dom_empty_L in Ho.
    pose proof (optimal_best _ _ _ _ _ Ho (Hd s ltac:(by left))) as Hbest. rewrite !sum_list_cons. fold tags.
    split_and!; [f_equal; rewrite wrap_add_l; f_equal; lia|lia|lia].
Qed.

Lemma run_opt_best (f : nat -> nat) :
  (forall s, (s < sets)%nat -> demand ways ∅ (set_stream sets line_bytes s trace) (f s)) ->
  let '(hits, misses) := run_opt order sets ways line_bytes trace in
  Z.of_nat (sum_sets sets f) <= hits /\ hits + misses = Z.of_nat (length trace).
Proof.
  intros Hd. unfold SIZE_MAX in trace_short. unfold run_opt.
  destruct (opt_sets_best f (seq 0 sets) 0 0) as (h & m & -> & Hf & Hs);
    [intros s [_ Hs]%elem_of_seq; by apply Hd|by unfold fits..|].
  fold (sum_sets sets f) in Hf.
  assert (h + m = length trace)%nat as Hl.
  { rewrite Hs. apply (sum_stream_length sets ways line_bytes sets_pos ways_pos trace). }
  rewrite !wrap_small by (unfold fits; lia). lia.
Qed.
End ceiling.
End opt_proof.

(** C37: The simulation of Belady's optimum is a ceiling: whatever the policy, a cache of the same
    geometry has at most as many hits on the trace; the hits and the misses of the simulation add up
    to the length of the trace. *)
Theorem opt_is_ceiling order sets ways line_bytes p trace :
  (forall m, order m ≡ₚ map_to_list m) -> (0 < sets)%nat -> (0 < ways)%nat ->
  Z.of_nat (length trace) < SIZE_MAX ->
  let c := run_real_trace trace (runtime_set_policy p (runtime_new sets ways line_bytes)) in
  let '(hits, misses) := run_opt order sets ways line_bytes trace in
  runtime_get_hits c <= hits /\ hits + misses = Z.of_nat (length trace).
Proof.
  intros Hord Hsets Hways Hlen c. unfold SIZE_MAX in Hlen.
  destruct (run_real_trace_demand sets ways line_bytes Hsets Hways trace
    (runtime_set_policy p (runtime_new sets ways line_bytes))) as (hs & Hd & Ht); [by apply runtime_new_wf|done|simpl; lia|].
  pose proof (run_opt_best order Hord sets ways line_bytes Hsets Hways trace Hlen hs) as Hb.
  unfold runtime_get_hits. fold c in Ht. rewrite Ht. simpl.
  destruct (run_opt order sets ways line_bytes trace) as [hits misses]. apply Hb.
  intros s Hs. specialize (Hd s Hs). simpl in Hd.
  rewrite lookup_total_replicate_2 in Hd by done.
  assert (resident_tags (replicate ways line0) = ∅) as <-; [|done].
  apply set_eq. intros t. rewrite elem_of_resident. split; [|set_solver].
  intros (l & [-> _]%elem_of_replicate & Hm). discriminate Hm.
Qed.

Lemma opt_is_ceiling_witness :
  let trace := [0; 16; 32; 0; 16; 32; 0] in
  let c := run_real_trace trace (runtime_set_policy RP_LRU (runtime_new 1 2 16)) in
  let '(hits, misses) := run_opt map_to_list 1 2 16 trace in
  runtime_get_hits c <= hits /\ hits + misses = Z.of_nat (length trace).
Proof. apply (opt_is_ceiling map_to_list 1 2 16 RP_LRU [0; 16; 32; 0; 16; 32; 0]); [done|lia|lia|done]. Defined.

(** Two ways and three lines in turn: the least recently used is always the one used next. *)
Example opt_beats_lru :
  let trace := [0; 16; 32; 0; 16; 32; 0] in
  runtime_get_hits (run_real_trace trace (runtime_set_policy RP_LRU (runtime_new 1 2 16))) = 0 /\
  runtime_get_hits (run_real_trace trace (runtime_set_policy RP_MRU (runtime_new 1 2 16))) = 2 /\
  run_opt map_to_list 1 2 16 trace = (2, 5).
Proof. vm_compute. split_and!; reflexivity. Qed.

(** The 8-bit shift register never names a way from 256 on: of the swept geometries with 512, 1024 and
    2048 ways the rest is never replaced once the set is full. *)
Theorem lfsr_replaces_256_ways c s :
  rpolicy_ c = RP_LFSR -> 0 <= lfsr_ c < 256 -> 0 < ways_ c -> find_invalid s = None ->
  ((runtime_victim c s).1 < 256)%nat /\ 0 <= (runtime_victim c s).2 < 256.
Proof.
  intros Hp Hl Hw Hs. unfold runtime_victim. rewrite Hs, Hp. cbn [fst snd].
  pose proof (Z.mod_le (lfsr_ c) (ways_ c)). pose proof (Z.mod_pos_bound (lfsr_ c) (ways_ c)).
  split; [lia|]. apply (wrap_fits 8). lia.
Qed.

(** Every access of the second section touches set 0 as long as the tag field starts at or below bit 29. *)
Lemma section2_set sets line_bytes t :
  0 <= log2_of (Z.of_nat line_bytes) -> 0 <= log2_of (Z.of_nat sets) ->
  Z.of_nat sets = 2 ^ log2_of (Z.of_nat sets) ->
  log2_of (Z.of_nat line_bytes) + log2_of (Z.of_nat sets) <= 29 ->
  runtime_idx (runtime_new sets 1 line_bytes)
    (u64 ((t .<< (log2_of (Z.of_nat line_bytes) + log2_of (Z.of_nat sets))) + 0x20000000)) = 0%nat.
Proof.
  intros Ho Hi Hs Hb. set (o := log2_of (Z.of_nat line_bytes)) in *. set (i := log2_of (Z.of_nat sets)) in *.
  unfold runtime_idx. simpl. fold o. rewrite Hs.
  replace (2 ^ i - 1) with (Z.ones i) by (rewrite Z.ones_equiv; lia).
  rewrite Z.land_ones by done. rewrite Z.shiftr_div_pow2, Z.shiftl_mul_pow2 by lia.
  replace 0x20000000 with (2 ^ (29 - (o + i)) * 2 ^ (o + i)) by (rewrite <-Z.pow_add_r, Z.sub_add by lia; reflexivity).
  rewrite <-Z.mul_add_distr_r. set (x := t + _). unfold u64, wrap.
  replace (2 ^ 64) with (2 ^ (64 - (o + i)) * 2 ^ (o + i)) by (rewrite <-Z.pow_add_r, Z.sub_add by lia; reflexivity).
  rewrite Zmult_mod_distr_r, Z.pow_add_r by lia. rewrite (Z.mul_comm (2 ^ o)), Z.mul_assoc, Z.div_mul by lia.
  rewrite Z.mod_mul by lia. done.
Qed.
