(* ===== verification/Axi.v ===== *)
(** [inc/axi] and [src/axi]: the AXI managers that the six-stage RV64 core refills its caches
    through in the builds with an interconnect, and [tools/axi_external_demo].

    An [sc_signal] holds the value that was current when the clock ticked; what a process writes at
    a tick is current at the next.  A tick runs the manager's process and the thread that drives it
    on the same current values, in any order, so a tick is one function.  The arbiter and the
    channels are a library: at a tick they let the transfer that the manager is blocked in complete,
    or not; the transfers that complete are the log of a run. *)
From S2P Require Import Prelude Cache.

(** ** Configurations *)

Inductive AxiCfg := standard | wide128 | wide256 | wide512 | wide1024.
Definition dataWidth (c : AxiCfg) : Z :=
  match c with standard => 64 | wide128 => 128 | wide256 => 256 | wide512 => 512 | wide1024 => 1024 end.
Definition bytesPerBeat (c : AxiCfg) : Z := dataWidth c / 8.

(** [CPURV64P6_Cycle::set_clock]: the beats of a refill; [beats] is the number in [VP_AXI_BEATS]. *)
Definition refill_beats (c : AxiCfg) (beats : option Z) : Z :=
  match beats with
  | Some b => if b <? 1 then 1 else b
  | None => let burst_beats := 16 / (dataWidth c / 8) in if burst_beats <? 1 then 1 else burst_beats
  end.

(** The beats cover a line of 16 bytes, and one fewer would not. *)
Lemma refill_covers_line c :
  16 <= refill_beats c None * bytesPerBeat c /\ (refill_beats c None - 1) * bytesPerBeat c < 16.
Proof. by destruct c. Qed.

(** ** [AxiRefillMaster] *)

Record axi_req := mkReq { req_valid : bool; req_addr : Z; req_is_write : bool; req_wdata : Z }.
Record axi_resp := mkResp { resp_valid : bool; resp_data : Z }.
Definition req0 : axi_req := mkReq false 0 false 0.

(** Where the process waits: for a request, in the transfer of the read address, in that of a beat
    with [n] more to come, in a write, or for the request to be withdrawn. *)
Inductive axi_master := MIdle | MAddr (addr : Z) | MBeat (n : nat) | MWrite (addr data : Z) | MHold.

Section master.
Variable burst_beats_ : nat.

(** The end of a transaction: the response, held while the request is. *)
Definition axi_respond (req : axi_req) (data : Z) : axi_master * axi_resp :=
  if req_valid req then (MHold, mkResp true data) else (MIdle, mkResp false data).

(** One tick of [master_process]; [go]: the library lets the pending transfer complete. *)
Definition master_tick (rst_bar go : bool) (req : axi_req) (m : axi_master) (resp : axi_resp) : axi_master * axi_resp :=
  if negb rst_bar then (MIdle, mkResp false 0) else
  match m with
  | MIdle =>
      if req_valid req then
        ((if req_is_write req then MWrite (req_addr req) (req_wdata req) else MAddr (req_addr req)), resp)
      else (MIdle, resp)
  | MWrite addr data => if go then axi_respond req 0 else (m, resp)
  | MAddr addr =>
      if go then match burst_beats_ with O => axi_respond req (req_wdata req) | S n => (MBeat n, resp) end
      else (m, resp)
  | MBeat n =>
      if go then match n with O => axi_respond req (req_wdata req) | S n => (MBeat n, resp) end
      else (m, resp)
  | MHold => if req_valid req then (MHold, resp) else (MIdle, { resp with resp_valid := false })
  end.

(** The transfers on the channels: the address of a burst with its length field, one of its beats,
    and a single write. *)
Inductive axi_xfer := ReadAddr (addr len : Z) | ReadBeat | WriteBeat (addr data : Z).

(** The transfer that the process is blocked in, which completes at a tick with [go]. *)
Definition master_sends (rst_bar go : bool) (m : axi_master) : list axi_xfer :=
  if rst_bar && go then
    match m with
    | MAddr addr => [ReadAddr addr (Z.of_nat burst_beats_ - 1)]
    | MBeat _ => [ReadBeat]
    | MWrite addr data => [WriteBeat addr data]
    | MIdle | MHold => []
    end
  else [].
End master.

(** ** [AxiContentionTop] *)

Inductive axi_op := Request (addr : Z) (is_write : bool) (wdata : Z) | SetPendingWdata (wdata : Z) | Ack.

(** One manager with its signals: [port_req] is current, [port_next] what was written at this tick. *)
Record axi_port := mkPort {
  port_req : axi_req; port_next : axi_req; port_resp : axi_resp; port_master : axi_master; busy_ : bool }.
Definition port0 : axi_port := mkPort req0 req0 (mkResp false 0) MIdle false.

Definition axi_request (addr : Z) (is_write : bool) (wdata : Z) (p : axi_port) : axi_port :=
  { p with port_next := mkReq true (u32 addr) is_write wdata; busy_ := true }.
Definition set_pending_wdata (wdata : Z) (p : axi_port) : axi_port :=
  { p with port_next := { port_next p with req_wdata := wdata } }.
Definition axi_ack (p : axi_port) : axi_port :=
  { p with port_next := { port_next p with req_valid := false }; busy_ := false }.
Definition axi_done (p : axi_port) : bool := resp_valid (port_resp p).
Definition axi_data (p : axi_port) : Z := resp_data (port_resp p).
Definition axi_busy (p : axi_port) : bool := busy_ p.

Definition axi_do (p : axi_port) (o : axi_op) : axi_port :=
  match o with
  | Request addr w v => axi_request addr w v p
  | SetPendingWdata v => set_pending_wdata v p
  | Ack => axi_ack p
  end.

(** A tick: the manager on the current values, the operations of the core, and the update. *)
Definition port_tick (beats : nat) (rst_bar go : bool) (ops : list axi_op) (p : axi_port) : axi_port :=
  let '(m, resp) := master_tick beats rst_bar go (port_req p) (port_master p) (port_resp p) in
  let p := fold_left axi_do ops p in
  { p with port_req := port_next p; port_resp := resp; port_master := m }.

(** [reset_gen]: low for ten ticks. *)
Definition rst_bar_at (n : nat) : bool := (10 <=? n)%nat.

(** ** [MinimalAxiMemSlave] *)

Definition SZ : Z := 0x10000.
Inductive XRESP := OKAY | SLVERR.
Definition slave_array (c : AxiCfg) : Z -> Z := fun i => i * bytesPerBeat c.
(** A beat of a read and of a write; the burst's addresses come from the library. *)
Definition slave_read_beat (c : AxiCfg) (addr : Z) (array : Z -> Z) : XRESP * option Z :=
  if SZ * bytesPerBeat c <=? addr then (SLVERR, None) else (OKAY, Some (array (addr / bytesPerBeat c))).
Definition slave_write_beat (c : AxiCfg) (addr data : Z) (b : XRESP) (array : Z -> Z) : XRESP * (Z -> Z) :=
  if addr <? SZ * bytesPerBeat c
  then (b, fun i => if i =? addr / bytesPerBeat c then u64 data else array i) else (SLVERR, array).

(** A beat reads back what was written there, as far as it has 64 bits: the data is taken through
    [to_uint64], so the wider configurations lose the upper part of a beat. *)
Theorem slave_read_write c addr addr' data array :
  0 <= addr < SZ * bytesPerBeat c -> 0 <= addr' < SZ * bytesPerBeat c ->
  slave_read_beat c addr' (slave_write_beat c addr data OKAY array).2 =
  (OKAY, Some (if addr' / bytesPerBeat c =? addr / bytesPerBeat c then u64 data else array (addr' / bytesPerBeat c))).
Proof.
  intros Ha Ha'. unfold slave_read_beat, slave_write_beat.
  destruct (Z.leb_spec (SZ * bytesPerBeat c) addr'), (Z.ltb_spec addr (SZ * bytesPerBeat c)); (done || lia).
Qed.
Lemma slave_read_write_witness :
  slave_read_beat wide128 0x25 (slave_write_beat wide128 0x20 (2 ^ 64 + 7) OKAY (slave_array wide128)).2 = (OKAY, Some 7).
Proof. apply (slave_read_write wide128 0x20 0x25); vm_compute; split; congruence. Defined.

(** ** The handshake *)

Section handshake.
Variable beats : nat.
Hypothesis beats_pos : (0 < beats)%nat.





(** The transfers that a request stands for: the burst of a refill, or a write of the value. *)
Definition xfers_of (r : Z * bool * Z) : list axi_xfer :=
  let '(a, w, v) := r in
  if (w : bool) then [WriteBeat (u32 a) v]
  else ReadAddr (u32 a) (Z.of_nat beats - 1) :: replicate beats ReadBeat.












End handshake.

(** The operations outside of the protocol.  A request at the tick of the acknowledgement: the
    manager never sees the request fall, and answers the new one with the old value.  A value set
    at the tick the transaction ends, before [axi_done] was ever true: the response has the old
    one.  A request withdrawn and another posted: the transfer of the first answers the second. *)
Definition port_run (l : list (bool * list axi_op)) : axi_port :=
  fold_left (fun p '(go, ops) => port_tick 2 true go ops p) l port0.

Example axi_ack_and_request :
  let p := port_run [(true, [Request 0x40 false 7]); (true, []); (true, []); (true, []); (true, []);
                     (true, [Ack; Request 0x80 false 9])] in
  axi_busy p = true /\ axi_done p = true /\ axi_data p = 7.
Proof. by vm_compute. Qed.
Example axi_set_pending_late :
  let p := port_run [(true, [Request 0x40 false 7]); (true, []); (true, []); (true, [])] in
  let p' := port_tick 2 true true [SetPendingWdata 9] p in
  axi_done p = false /\ axi_done p' = true /\ axi_data p' = 7.
Proof. by vm_compute. Qed.
Example axi_aborted_answers :
  let p := port_run [(true, [Request 0x40 false 7]); (true, []); (true, []); (true, [Ack]); (false, [Request 0x80 false 9])] in
  let p' := port_tick 2 true true [] p in
  port_master p = MBeat 0 /\ axi_done p' = true /\ axi_data p' = 9.
Proof. by vm_compute. Qed.

(** ** [axi_external_demo] *)

Definition expected_value (addr : Z) : Z := addr .^ 0x5A5A5A5A5A5A5A5A.

(** Where [Driver::run] waits: after [req_valid] was withdrawn, for a response, or not any more. *)
Inductive driver_at := DGap (trace : list Z) | DWait (expect : Z) (trace : list Z) | DStopped.

Record demo_state := mkDemo {
  d_cache : Cache; d_hits : Z; d_misses : Z; d_mismatches : Z; d_at : driver_at;
  d_req : axi_req; d_resp : axi_resp; d_master : axi_master }.

(** The turns of the loop up to the next miss. *)
Fixpoint driver_scan (trace : list Z) (c : Cache) (hits : Z) : Cache * Z * option (Z * list Z) :=
  match trace with
  | [] => (c, hits, None)
  | addr :: trace =>
      let '(hit, c) := access 256 8 16 addr c in
      if hit then driver_scan trace c (u64 (hits + 1)) else (c, hits, Some (addr, trace))
  end.

Definition driver_tick (s : demo_state) : demo_state :=
  match d_at s with
  | DGap trace =>
      let '(c, hits, next) := driver_scan trace (d_cache s) (d_hits s) in
      match next with
      | Some (addr, trace) =>
          { s with d_cache := c; d_hits := hits; d_misses := u64 (d_misses s + 1);
                   d_req := mkReq true (u32 addr) false (expected_value addr); d_at := DWait (expected_value addr) trace }
      | None => { s with d_cache := c; d_hits := hits; d_at := DStopped }
      end
  | DWait expect trace =>
      if resp_valid (d_resp s) then
        { s with d_mismatches := if resp_data (d_resp s) =? expect then d_mismatches s else u64 (d_mismatches s + 1);
                 d_req := { d_req s with req_valid := false }; d_at := DGap trace }
      else s
  | DStopped => s
  end.

(** A tick of the module: driver and manager on the current signals. *)
Definition demo_tick (rst_bar go : bool) (s : demo_state) : demo_state :=
  let '(m, resp) := master_tick 1 rst_bar go (d_req s) (d_master s) (d_resp s) in
  { driver_tick s with d_resp := resp; d_master := m }.

Definition demo_start (trace : list Z) : demo_state :=
  mkDemo (cache_new 256 8) 0 0 0 (DGap trace) req0 (mkResp false 0) MIdle.

Fixpoint demo_ticks (go : nat -> bool) (trace : list Z) (n : nat) : demo_state :=
  match n with
  | O => demo_start trace
  | S n => demo_tick (rst_bar_at n) (go n) (demo_ticks go trace n)
  end.

(** What the manager sent over the channels. *)
Fixpoint demo_log (go : nat -> bool) (trace : list Z) (n : nat) : list axi_xfer :=
  match n with
  | O => []
  | S n => demo_log go trace n ++ master_sends 1 (rst_bar_at n) (go n) (d_master (demo_ticks go trace n))
  end.

(** The accesses of a trace that miss in the production cache. *)
Fixpoint missed (trace : list Z) (c : Cache) : list Z :=
  match trace with
  | [] => []
  | addr :: trace =>
      let '(hit, c) := access 256 8 16 addr c in
      if hit then missed trace c else addr :: missed trace c
  end.

Lemma count_hits_missed trace : forall c,
  count_hits (access_all 256 8 16 trace c).1 + Z.of_nat (length (missed trace c)) = Z.of_nat (length trace).
Proof.
  induction trace as [|a trace IH]; intros c; simpl; [done|].
  destruct (access 256 8 16 a c) as [hit c1]. specialize (IH c1).
  destruct (access_all 256 8 16 trace c1) as [hs c2]. unfold count_hits in *. simpl in *.
  destruct hit; [rewrite filter_cons_True by done|rewrite filter_cons_False by done]; simpl; lia.
Qed.

Lemma driver_scan_spec trace : forall c hits,
  0 <= hits -> hits + Z.of_nat (length trace) < 2 ^ 64 ->
  let '(c', hits', next) := driver_scan trace c hits in
  match next with
  | None => missed trace c = [] /\ hits' = hits + Z.of_nat (length trace)
  | Some (addr, rest) =>
      missed trace c = addr :: missed rest c' /\ hits <= hits' /\
      hits' + 1 + Z.of_nat (length rest) = hits + Z.of_nat (length trace)
  end.
Proof.
  induction trace as [|a trace IH]; intros c hits H0 Hb; simpl in *; [split; [done|lia]|].
  destruct (access 256 8 16 a c) as [[|] c1]; [|split_and!; (done || lia)].
  rewrite (wrap_small 64) by (unfold fits; lia). specialize (IH c1 (hits + 1) ltac:(lia) ltac:(lia)).
  destruct (driver_scan trace c1 (hits + 1)) as [[c' hits'] [[addr rest]|]]; destruct IH as (-> & ?); split_and!; (done || lia).
Qed.

Section demo_ticks.
Variable go : nat -> bool.
Hypothesis go_on : forall n, exists m, (n <= m)%nat /\ go m = true.
Variable trace : list Z.
Notation run := (demo_ticks go trace).
Notation log := (demo_log go trace).

(** The phases of a round trip. *)
Definition at_gap (rest : list Z) (s : demo_state) : Prop :=
  d_at s = DGap rest /\ req_valid (d_req s) = false /\
  (d_master s = MIdle /\ resp_valid (d_resp s) = false \/ d_master s = MHold).
Definition in_wait (addr : Z) (rest : list Z) (m : axi_master) (s : demo_state) : Prop :=
  d_at s = DWait (expected_value addr) rest /\ d_req s = mkReq true (u32 addr) false (expected_value addr) /\
  resp_valid (d_resp s) = false /\ d_master s = m.
Definition at_done (addr : Z) (rest : list Z) (s : demo_state) : Prop :=
  d_at s = DWait (expected_value addr) rest /\ req_valid (d_req s) = true /\ d_master s = MHold /\
  d_resp s = mkResp true (expected_value addr).

(** The counters and the cache, which the phases of a transfer keep. *)
Definition tally (s : demo_state) : Cache * Z * Z * Z := (d_cache s, d_hits s, d_misses s, d_mismatches s).

(** A tick in which the driver waits. *)
Lemma wait_step n addr rest m :
  in_wait addr rest m (run n) ->
  let '(m', resp) := master_tick 1 (rst_bar_at n) (go n) (mkReq true (u32 addr) false (expected_value addr)) m (d_resp (run n)) in
  tally (run (S n)) = tally (run n) /\ log (S n) = log n ++ master_sends 1 (rst_bar_at n) (go n) m /\
  (resp_valid resp = false -> in_wait addr rest m' (run (S n))) /\
  (m' = MHold -> resp = mkResp true (expected_value addr) -> at_done addr rest (run (S n))).
Proof.
  intros (Ha & Hq & Hr & Hm). simpl. unfold demo_tick, driver_tick. rewrite Ha, Hr, Hq, Hm.
  destruct (master_tick _ _ _ _ _ _) as [m' resp]. split_and!; try done; unfold in_wait, at_done; simpl; rewrite Ha, Hq; by intros **; split_and!.
Qed.

Lemma gap_step n rest :
  at_gap rest (run n) -> 0 <= d_hits (run n) -> d_hits (run n) + Z.of_nat (length rest) < 2 ^ 64 ->
  let s := run n in let s' := run (S n) in
  d_mismatches s' = d_mismatches s /\ log (S n) = log n /\
  (d_at s' = DStopped /\ missed rest (d_cache s) = [] /\ d_misses s' = d_misses s /\
     d_hits s' = d_hits s + Z.of_nat (length rest) \/
   exists addr rest', in_wait addr rest' MIdle s' /\ missed rest (d_cache s) = addr :: missed rest' (d_cache s') /\
     d_misses s' = u64 (d_misses s + 1) /\ d_hits s <= d_hits s' /\
     d_hits s' + 1 + Z.of_nat (length rest') = d_hits s + Z.of_nat (length rest)).
Proof.
  intros (Ha & Hq & Hm) H0 Hb. simpl. pose proof (driver_scan_spec rest (d_cache (run n)) (d_hits (run n)) H0 Hb) as Hs.
  assert (let '(m, resp) := master_tick 1 (rst_bar_at n) (go n) (d_req (run n)) (d_master (run n)) (d_resp (run n)) in
          m = MIdle /\ resp_valid resp = false) as Hmt.
  { unfold master_tick. rewrite Hq. destruct (rst_bar_at n); simpl; [|done]. by destruct Hm as [[-> ->]| ->]. }
  assert (master_sends 1 (rst_bar_at n) (go n) (d_master (run n)) = []) as ->.
  { unfold master_sends. destruct (_ && _); [|done]. by destruct Hm as [[-> _]| ->]. }
  rewrite app_nil_r.
  unfold demo_tick, driver_tick. rewrite Ha. destruct (master_tick _ _ _ _ _ _) as [m resp].
  destruct (driver_scan rest _ _) as [[c' hits'] [[addr rest']|]]; simpl; (split; [done|split; [done|]]).
  - right. exists addr, rest'. destruct Hmt as [-> ?]. destruct Hs as (? & ? & ?). by split_and!.
  - left. destruct Hs as (? & ?). by split_and!.
Qed.

(** From the request to the response. *)
#[local] Arguments demo_ticks : simpl never.
#[local] Arguments demo_log : simpl never.

(** What a phase of a transfer keeps from tick [n] to tick [n']. *)
Definition kept (n n' : nat) : Prop := (n <= n')%nat /\ tally (run n') = tally (run n).

Lemma kept_trans n1 n2 n3 : kept n1 n2 -> kept n2 n3 -> kept n1 n3.
Proof. intros [? E1] [? E2]. split; [lia|congruence]. Qed.

Lemma idle_to_addr n addr rest :
  in_wait addr rest MIdle (run n) ->
  exists n', kept n n' /\ (10 <= n')%nat /\ log n' = log n /\ in_wait addr rest (MAddr (u32 addr)) (run n').
Proof.
  remember (10 - n)%nat as d eqn:Ed. revert n Ed. induction d as [|d IH]; intros n Ed Hw.
  all: pose proof (wait_step n addr rest _ Hw) as Hs; unfold rst_bar_at, master_tick, master_sends in Hs.
  all: destruct (Nat.leb_spec 10 n); try lia; simpl in Hs; destruct Hs as (Ht & Hl & Hs & _).
  - exists (S n). split_and!; [split; [lia|done]|lia| |apply Hs, Hw].
    rewrite Hl. by destruct (go n); rewrite app_nil_r.
  - destruct (IH (S n)) as (n' & Hk & H10 & Hl' & Hw'); [lia|by apply Hs|]. exists n'.
    split_and!; [eapply kept_trans; [|exact Hk]; split; [lia|done]|done|by rewrite Hl', Hl, app_nil_r|done].
Qed.

(** The interconnect lets the pending transfer through at some tick. *)
Lemma blocked_until_go n addr rest m :
  (10 <= n)%nat -> in_wait addr rest m (run n) -> (exists a, m = MAddr a) \/ (exists i, m = MBeat i) ->
  exists n', kept n n' /\ go n' = true /\ log n' = log n /\ in_wait addr rest m (run n').
Proof.
  intros Hn Hw Hm. destruct (go_on n) as (j & Hj & Hgj). remember (j - n)%nat as d eqn:Ed. revert n Hn Hw Hj Ed.
  induction d as [|d IH]; intros n Hn Hw Hj Ed.
  - replace j with n in Hgj by lia. exists n. by split_and!.
  - destruct (go n) eqn:Eg; [exists n; by split_and!|].
    pose proof (wait_step n addr rest _ Hw) as Hs. unfold rst_bar_at, master_tick, master_sends in Hs.
    destruct (Nat.leb_spec 10 n); [|lia]. rewrite Eg in Hs. cbn [negb andb] in Hs.
    assert (in_wait addr rest m (run (S n)) /\ tally (run (S n)) = tally (run n) /\ log (S n) = log n) as (Hw' & Ht & Hl).
    { destruct Hm as [[a ->]|[i ->]]; destruct Hs as (Ht & Hl & Hs & _); (split; [apply Hs, Hw|]); by rewrite Hl, app_nil_r. }
    destruct (IH (S n)) as (n' & Hk & Hg & Hl' & Hw''); [lia|done|lia|lia|]. exists n'.
    split_and!; [eapply kept_trans; [|exact Hk]; split; [lia|done]|done|congruence|done].
Qed.

Lemma round_trip n addr rest :
  in_wait addr rest MIdle (run n) ->
  exists n', kept n n' /\ (10 <= n')%nat /\ at_done addr rest (run n') /\
    log n' = log n ++ xfers_of 1 (addr, false, expected_value addr).
Proof.
  intros Hw. destruct (idle_to_addr n addr rest Hw) as (n1 & K1 & H10 & L1 & W1).
  destruct (blocked_until_go n1 addr rest _ H10 W1) as (n2 & K2 & G2 & L2 & W2); [left; by eexists|].
  pose proof (wait_step n2 addr rest _ W2) as Hs. unfold rst_bar_at, master_tick, master_sends in Hs.
  destruct K2 as [K2 T2]. destruct (Nat.leb_spec 10 n2); [|lia]. rewrite G2 in Hs. simpl in Hs.
  destruct Hs as (T3 & L3 & W3 & _). specialize (W3 (proj1 (proj2 (proj2 W2)))).
  destruct (blocked_until_go (S n2) addr rest _ ltac:(lia) W3) as (n4 & [K4 T4] & G4 & L4 & W4); [right; by eexists|].
  pose proof (wait_step n4 addr rest _ W4) as Hs. unfold rst_bar_at, master_tick, master_sends in Hs.
  destruct (Nat.leb_spec 10 n4); [|lia]. rewrite G4 in Hs. simpl in Hs. destruct Hs as (T5 & L5 & _ & D5).
  destruct K1 as [K1 T1]. exists (S n4). split_and!; [split; [lia|congruence]|lia|by apply D5|].
  rewrite L5, L4, L3, L2, L1, <-app_assoc. done.
Qed.

Lemma done_step n addr rest :
  (10 <= n)%nat -> at_done addr rest (run n) ->
  at_gap rest (run (S n)) /\ tally (run (S n)) = tally (run n) /\ log (S n) = log n.
Proof.
  intros Hn (Ha & Hq & Hm & Hr). change (run (S n)) with (demo_tick (rst_bar_at n) (go n) (run n)).
  change (log (S n)) with (log n ++ master_sends 1 (rst_bar_at n) (go n) (d_master (run n))).
  unfold demo_tick, driver_tick, rst_bar_at, tally, master_tick, master_sends. rewrite Ha, Hr, Hm.
  destruct (Nat.leb_spec 10 n); [|lia]. simpl. rewrite Hq, Z.eqb_refl.
  split; [unfold at_gap; simpl; split_and!; try done; by right|split; [done|]]. by destruct (go n); rewrite app_nil_r.
Qed.

(** The rest of the trace, from a gap. *)
Lemma gap_leads_to_stop l : forall n rest, (length rest <= l)%nat ->
  at_gap rest (run n) -> 0 <= d_hits (run n) -> 0 <= d_misses (run n) ->
  d_hits (run n) + d_misses (run n) + Z.of_nat (length rest) < 2 ^ 64 ->
  let ms := missed rest (d_cache (run n)) in
  exists n', d_at (run n') = DStopped /\ d_mismatches (run n') = d_mismatches (run n) /\
    d_misses (run n') = d_misses (run n) + Z.of_nat (length ms) /\
    d_hits (run n') + d_misses (run n') = d_hits (run n) + d_misses (run n) + Z.of_nat (length rest) /\
    log n' = log n ++ concat (map (fun a => xfers_of 1 (a, false, expected_value a)) ms).
Proof.
  induction l as [|l IH]; intros n rest Hl Hg H0 H1 Hb; cbv zeta.
  all: destruct (gap_step n rest Hg H0 ltac:(lia)) as (Hmm & Lg & [(Ha & Hc & Hmi & Hh)|(addr & rest' & Hw & Hc & Hmi & Hle & Hrest)]).
  1,3: exists (S n); rewrite Hc, Lg; simpl; rewrite app_nil_r; split_and!; (done || lia).
  all: rewrite Hc; simpl length; simpl map; simpl concat.
  1: lia.
  destruct (round_trip (S n) addr rest' Hw) as (n2 & [_ T2] & H10 & Hd2 & L2).
  destruct (done_step n2 addr rest' H10 Hd2) as (Hg3 & T3 & L3).
  assert (tally (run (S n2)) = tally (run (S n))) as T by congruence. unfold tally in T.
  injection T as Tc Th Tm Tx. rewrite (wrap_small 64) in Hmi by (unfold fits; lia).
  specialize (IH (S n2) rest' ltac:(lia) Hg3 ltac:(lia) ltac:(lia) ltac:(lia)). cbv zeta in IH.
  rewrite Tc in IH. destruct IH as (n' & ? & ? & ? & ? & Hlog). exists n'. split_and!; try (done || lia).
  rewrite Hlog, L3, L2, Lg, <-app_assoc. done.
Qed.
End demo_ticks.

(** C34: The demonstration ends well on every trace of fewer than 2^64 accesses: whatever the
    interconnect makes of the transfers, as long as it lets them through again and again, the
    driver stops; the accesses that miss in the production cache, and no others, were counted as
    misses and went out over the port, each as one refill of its address, in the order of the
    trace; and every value that came back was the one expected. *)
Theorem demo_all_correct go trace :
  (forall n, exists m, (n <= m)%nat /\ go m = true) -> Z.of_nat (length trace) < 2 ^ 64 ->
  let ms := missed trace (cache_new 256 8) in
  exists n, let s := demo_ticks go trace n in
    d_at s = DStopped /\ d_mismatches s = 0 /\
    demo_log go trace n = concat (map (fun a => [ReadAddr (u32 a) 0; ReadBeat]) ms) /\
    d_misses s = Z.of_nat (length ms) /\
    d_hits s = count_hits (access_all 256 8 16 trace (cache_new 256 8)).1.
Proof.
  intros Hgo Hl ms. pose proof (gap_leads_to_stop go Hgo trace (length trace) 0 trace) as H. cbn [demo_ticks] in H.
  specialize (H ltac:(done) ltac:(split_and!; try done; by left) ltac:(done) ltac:(done) ltac:(simpl; lia)).
  cbn [demo_start d_cache d_hits d_misses d_mismatches demo_log app] in H. cbv zeta in H. fold ms in H.
  pose proof (count_hits_missed trace (cache_new 256 8)) as Hc. fold ms in Hc.
  destruct H as (n & ? & ? & ? & ? & ?). exists n. split_and!; (done || lia).
Qed.


Lemma demo_all_correct_witness :
  exists n, let s := demo_ticks (fun n => bool_decide (n mod 3 = 0)%nat) [0x40; 0x44; 0x1040; 0x40] n in
    d_at s = DStopped /\ d_mismatches s = 0 /\ d_hits s = 2 /\
    demo_log (fun n => bool_decide (n mod 3 = 0)%nat) [0x40; 0x44; 0x1040; 0x40] n =
      [ReadAddr 0x40 0; ReadBeat; ReadAddr 0x1040 0; ReadBeat].
Proof.
  destruct (demo_all_correct (fun n => bool_decide (n mod 3 = 0)%nat) [0x40; 0x44; 0x1040; 0x40])
    as (n & H1 & H2 & H3 & _ & H4).
  - intros n. exists (3 * n)%nat. split; [lia|]. apply bool_decide_true. rewrite Nat.mul_comm. apply Nat.Div0.mod_mul.
  - simpl. lia.
  - exists n. split_and!; [exact H1|exact H2|exact H4|exact H3].
Defined.
