(* ===== verification/CSR.v ===== *)
(** [inc/CSR_File.h]: the control and status registers of the RV64 M+S+U hart: the
    privilege and read-only checks, the WARL masks of each register, trap entry and
    return, interrupt arbitration and the PMP check.  [PrivMode] is a [uint8_t]
    enumeration into which [mret] casts any two-bit value, hence a [Z]. *)
From S2P Require Import Prelude.

Definition PRIV_U : Z := 0.
Definition PRIV_S : Z := 1.
Definition PRIV_M : Z := 3.

Definition CSR_MVENDORID : Z := 0xF11.
Definition CSR_MARCHID : Z := 0xF12.
Definition CSR_MIMPID : Z := 0xF13.
Definition CSR_MHARTID : Z := 0xF14.
Definition CSR_MSTATUS : Z := 0x300.
Definition CSR_MISA : Z := 0x301.
Definition CSR_MEDELEG : Z := 0x302.
Definition CSR_MIDELEG : Z := 0x303.
Definition CSR_MIE : Z := 0x304.
Definition CSR_MTVEC : Z := 0x305.
Definition CSR_MCOUNTEREN : Z := 0x306.
Definition CSR_MSCRATCH : Z := 0x340.
Definition CSR_MEPC : Z := 0x341.
Definition CSR_MCAUSE : Z := 0x342.
Definition CSR_MTVAL : Z := 0x343.
Definition CSR_MIP : Z := 0x344.
Definition CSR_MCYCLE : Z := 0xB00.
Definition CSR_MINSTRET : Z := 0xB02.
Definition CSR_MCYCLEH : Z := 0xB80.
Definition CSR_MINSTRETH : Z := 0xB82.
Definition CSR_SSTATUS : Z := 0x100.
Definition CSR_SIE : Z := 0x104.
Definition CSR_STVEC : Z := 0x105.
Definition CSR_SCOUNTEREN : Z := 0x106.
Definition CSR_SSCRATCH : Z := 0x140.
Definition CSR_SEPC : Z := 0x141.
Definition CSR_SCAUSE : Z := 0x142.
Definition CSR_STVAL : Z := 0x143.
Definition CSR_SIP : Z := 0x144.
Definition CSR_SATP : Z := 0x180.
Definition CSR_CYCLE : Z := 0xC00.
Definition CSR_TIME : Z := 0xC01.
Definition CSR_INSTRET : Z := 0xC02.

Definition MSTATUS_UIE : Z := 1 .<< 0.
Definition MSTATUS_SIE : Z := 1 .<< 1.
Definition MSTATUS_MIE : Z := 1 .<< 3.
Definition MSTATUS_UPIE : Z := 1 .<< 4.
Definition MSTATUS_SPIE : Z := 1 .<< 5.
Definition MSTATUS_MPIE : Z := 1 .<< 7.
Definition MSTATUS_SPP : Z := 1 .<< 8.
Definition MSTATUS_MPP : Z := 3 .<< 11.
Definition MSTATUS_FS : Z := 3 .<< 13.
Definition MSTATUS_XS : Z := 3 .<< 15.
Definition MSTATUS_MPRV : Z := 1 .<< 17.
Definition MSTATUS_SUM : Z := 1 .<< 18.
Definition MSTATUS_MXR : Z := 1 .<< 19.
Definition MSTATUS_TVM : Z := 1 .<< 20.
Definition MSTATUS_TW : Z := 1 .<< 21.
Definition MSTATUS_TSR : Z := 1 .<< 22.
Definition MSTATUS_UXL : Z := 3 .<< 32.
Definition MSTATUS_SXL : Z := 3 .<< 34.
Definition MSTATUS_SD : Z := 1 .<< 63.
Definition MSTATUS_WRITE_MASK : Z := Eval compute in
  MSTATUS_SIE .| MSTATUS_MIE .| MSTATUS_SPIE .| MSTATUS_MPIE .| MSTATUS_SPP .| MSTATUS_MPP .|
  MSTATUS_FS .| MSTATUS_MPRV .| MSTATUS_SUM .| MSTATUS_MXR .| MSTATUS_TVM .| MSTATUS_TW .|
  MSTATUS_TSR.
Definition SSTATUS_MASK : Z := Eval compute in
  MSTATUS_UIE .| MSTATUS_SIE .| MSTATUS_UPIE .| MSTATUS_SPIE .| MSTATUS_SPP .| MSTATUS_FS .|
  MSTATUS_XS .| MSTATUS_SUM .| MSTATUS_MXR .| MSTATUS_SD .| MSTATUS_UXL.
Definition MEDELEG_MASK : Z := 0xB3FF.
Definition MIDELEG_MASK : Z := 0x0222.
Definition MIE_MASK : Z := 0x0AAA.
Definition MIP_SW_MASK : Z := 0x0222.

Definition CAUSE_INSTR_MISALIGN : Z := 0.
Definition CAUSE_INSTR_ACCESS : Z := 1.
Definition CAUSE_ILLEGAL_INSTR : Z := 2.
Definition CAUSE_BREAKPOINT : Z := 3.
Definition CAUSE_LOAD_MISALIGN : Z := 4.
Definition CAUSE_LOAD_ACCESS : Z := 5.
Definition CAUSE_STORE_MISALIGN : Z := 6.
Definition CAUSE_STORE_ACCESS : Z := 7.
Definition CAUSE_ECALL_U : Z := 8.
Definition CAUSE_ECALL_S : Z := 9.
Definition CAUSE_ECALL_M : Z := 11.
Definition CAUSE_INSTR_PAGE_FAULT : Z := 12.
Definition CAUSE_LOAD_PAGE_FAULT : Z := 13.
Definition CAUSE_STORE_PAGE_FAULT : Z := 15.
Definition CAUSE_INTERRUPT : Z := 1 .<< 63.

Record CSR_File := mkCSR {
  priv : Z;
  mstatus : Z;
  misa : Z;
  medeleg : Z;
  mideleg : Z;
  mie : Z;
  mip : Z;
  mtvec : Z;
  mcounteren : Z;
  menvcfg : Z;
  mscratch : Z;
  mepc : Z;
  mcause : Z;
  mtval : Z;
  stvec : Z;
  scounteren : Z;
  sscratch : Z;
  sepc : Z;
  scause : Z;
  stval : Z;
  satp : Z;
  mcycle : Z;
  minstret : Z;
  fcsr : Z;
  pmpcfg : list Z;    (* std::array<uint64_t, 4> *)
  pmpaddr : list Z;   (* std::array<uint64_t, 16> *)
}.

Definition csr_new : CSR_File :=
  mkCSR PRIV_M ((2 .<< 32) .| (2 .<< 34))
    (u64 (2 .<< 62) .| (1 .<< 0) .| (1 .<< 2) .| (1 .<< 3) .| (1 .<< 5) .| (1 .<< 8) .| (1 .<< 12)
       .| (1 .<< 18) .| (1 .<< 20))
    0 0 0 0 0 0 0 0 0 0 0 0 0 0 0 0 0 0 0 0 0 (replicate 4 0) (replicate 16 0).

Definition in_range (a lo hi : Z) : bool := (lo <=? a) && (a <=? hi).

Definition pmpaddr_at (c : CSR_File) (i : Z) : Z := default 0 (pmpaddr c !! Z.to_nat i).
Definition pmpcfg_at (c : CSR_File) (i : Z) : Z := default 0 (pmpcfg c !! Z.to_nat i).

(** The switch of [read]; [None] is [access_ok = false]. *)
Definition csr_read_reg (addr : Z) (c : CSR_File) : option Z :=
  if addr =? CSR_MVENDORID then Some (0)
  else if addr =? CSR_MARCHID then Some (0)
  else if addr =? CSR_MIMPID then Some (0)
  else if addr =? CSR_MHARTID then Some (0)
  else if addr =? CSR_MSTATUS then Some (mstatus c)
  else if addr =? CSR_MISA then Some (misa c)
  else if addr =? CSR_MEDELEG then Some (medeleg c)
  else if addr =? CSR_MIDELEG then Some (mideleg c)
  else if addr =? CSR_MIE then Some (mie c)
  else if addr =? CSR_MTVEC then Some (mtvec c)
  else if addr =? CSR_MCOUNTEREN then Some (mcounteren c)
  else if addr =? 0x30A then Some (menvcfg c)
  else if addr =? 0x320 then Some (0)
  else if in_range addr 0x323 0x33F then Some (0)
  else if addr =? 0x747 then Some (0)
  else if addr =? CSR_MSCRATCH then Some (mscratch c)
  else if addr =? CSR_MEPC then Some (mepc c .&~ 1)
  else if addr =? CSR_MCAUSE then Some (mcause c)
  else if addr =? CSR_MTVAL then Some (mtval c)
  else if addr =? CSR_MIP then Some (mip c)
  else if addr =? CSR_MCYCLE then Some (mcycle c)
  else if addr =? CSR_MINSTRET then Some (minstret c)
  else if in_range addr 0xB03 0xB1F then Some (0)
  else if addr =? CSR_SSTATUS then Some (mstatus c .& SSTATUS_MASK)
  else if addr =? CSR_SIE then Some (mie c .& mideleg c)
  else if addr =? CSR_STVEC then Some (stvec c)
  else if addr =? CSR_SCOUNTEREN then Some (scounteren c)
  else if addr =? CSR_SSCRATCH then Some (sscratch c)
  else if addr =? CSR_SEPC then Some (sepc c .&~ 1)
  else if addr =? CSR_SCAUSE then Some (scause c)
  else if addr =? CSR_STVAL then Some (stval c)
  else if addr =? CSR_SIP then Some (mip c .& mideleg c)
  else if addr =? CSR_SATP then Some (satp c)
  else if addr =? CSR_CYCLE then Some (mcycle c)
  else if addr =? CSR_TIME then Some (mcycle c)
  else if addr =? CSR_INSTRET then Some (minstret c)
  else if addr =? 0x3A0 then Some (pmpcfg_at c 0)
  else if addr =? 0x3A1 then Some (pmpcfg_at c 1)
  else if addr =? 0x3A2 then Some (pmpcfg_at c 2)
  else if addr =? 0x3A3 then Some (pmpcfg_at c 3)
  else if in_range addr 0x3B0 0x3BF then Some (pmpaddr_at c (addr - 0x3B0))
  else if addr =? 0x001 then Some (fcsr c .& 0x1F)
  else if addr =? 0x002 then Some ((fcsr c .>> 5) .& 0x7)
  else if addr =? 0x003 then Some (fcsr c .& 0xFF)
  else None.

Definition csr_read (addr : Z) (c : CSR_File) : option Z :=
  let req_priv := (addr .>> 8) .& 0x3 in
  if priv c <? req_priv then None else csr_read_reg addr c.

(** The switch of [write]; [None] is the [default] of the switch. *)
Definition csr_write_reg (addr val : Z) (c : CSR_File) : option CSR_File :=
  if addr =? CSR_MSTATUS then
    Some { c with mstatus := (mstatus c .&~ MSTATUS_WRITE_MASK) .| (val .& MSTATUS_WRITE_MASK) }
  else if addr =? CSR_MISA then
    Some c
  else if addr =? CSR_MEDELEG then
    Some { c with medeleg := val .& MEDELEG_MASK }
  else if addr =? CSR_MIDELEG then
    Some { c with mideleg := val .& MIDELEG_MASK }
  else if addr =? CSR_MIE then
    Some { c with mie := val .& MIE_MASK }
  else if addr =? CSR_MTVEC then
    Some { c with mtvec := val .&~ 2 }
  else if addr =? CSR_MCOUNTEREN then
    Some { c with mcounteren := val .& 0xFFFFFFFF }
  else if addr =? 0x30A then
    Some { c with menvcfg := val }
  else if addr =? 0x320 then
    Some c
  else if in_range addr 0x323 0x33F then
    Some c
  else if in_range addr 0xB03 0xB1F then
    Some c
  else if addr =? 0x747 then
    Some c
  else if addr =? CSR_MSCRATCH then
    Some { c with mscratch := val }
  else if addr =? CSR_MEPC then
    Some { c with mepc := val .&~ 1 }
  else if addr =? CSR_MCAUSE then
    Some { c with mcause := val }
  else if addr =? CSR_MTVAL then
    Some { c with mtval := val }
  else if addr =? CSR_MIP then
    Some { c with mip := (mip c .&~ MIP_SW_MASK) .| (val .& MIP_SW_MASK) }
  else if addr =? CSR_SSTATUS then
    Some { c with mstatus := (mstatus c .&~ SSTATUS_MASK) .| (val .& SSTATUS_MASK) }
  else if addr =? CSR_SIE then
    Some { c with mie := (mie c .&~ mideleg c) .| (val .& mideleg c) }
  else if addr =? CSR_STVEC then
    Some { c with stvec := val .&~ 2 }
  else if addr =? CSR_SCOUNTEREN then
    Some { c with scounteren := val .& 0x7 }
  else if addr =? CSR_SSCRATCH then
    Some { c with sscratch := val }
  else if addr =? CSR_SEPC then
    Some { c with sepc := val .&~ 1 }
  else if addr =? CSR_SCAUSE then
    Some { c with scause := val }
  else if addr =? CSR_STVAL then
    Some { c with stval := val }
  else if addr =? CSR_SIP then
    Some { c with mip := (mip c .&~ (mideleg c .& MIP_SW_MASK)) .| (val .& mideleg c .& MIP_SW_MASK) }
  else if addr =? CSR_SATP then
    Some (let mode := val .>> 60 in
      if (mode =? 0) || (mode =? 8) then { c with satp := val } else c)
  else if addr =? CSR_MCYCLE then
    Some { c with mcycle := val }
  else if addr =? CSR_MINSTRET then
    Some { c with minstret := val }
  else if addr =? 0x3A0 then
    Some { c with pmpcfg := <[0%nat := val]> (pmpcfg c) }
  else if addr =? 0x3A1 then
    Some { c with pmpcfg := <[1%nat := val]> (pmpcfg c) }
  else if addr =? 0x3A2 then
    Some { c with pmpcfg := <[2%nat := val]> (pmpcfg c) }
  else if addr =? 0x3A3 then
    Some { c with pmpcfg := <[3%nat := val]> (pmpcfg c) }
  else if in_range addr 0x3B0 0x3BF then
    Some { c with pmpaddr := <[Z.to_nat (addr - 0x3B0) := val]> (pmpaddr c) }
  else if addr =? 0x001 then
    Some { c with fcsr := (fcsr c .&~ 0x1F) .| (val .& 0x1F) }
  else if addr =? 0x002 then
    Some { c with fcsr := (fcsr c .&~ 0xE0) .| ((val .& 0x7) .<< 5) }
  else if addr =? 0x003 then
    Some { c with fcsr := val .& 0xFF }
  else None.

(** [write]: the success flag and the new state. *)
Definition csr_write (addr val : Z) (c : CSR_File) : bool * CSR_File :=
  let req_priv := (addr .>> 8) .& 0x3 in
  if priv c <? req_priv then (false, c)
  else if (addr .>> 10) =? 0x3 then (false, c)
  else match csr_write_reg addr val c with Some c' => (true, c') | None => (false, c) end.

Definition tick_counters (num_retired : Z) (c : CSR_File) : CSR_File :=
  { c with mcycle := u64 (mcycle c + 1); minstret := u64 (minstret c + num_retired) }.

Definition trap_vector (tvec cause : Z) : Z :=
  let mode := tvec .& 0x3 in
  let base := tvec .&~ 0x3 in
  if (mode =? 1) && negb ((cause .>> 63) =? 0) then u64 (base + 4 * (cause .& 0x7FF)) else base.

(** [if (r & from) r |= to; else r &= ~to;], the save and restore of an enable bit. *)
Definition copy_bit (from to r : Z) : Z :=
  if negb ((r .& from) =? 0) then r .| to else r .&~ to.

(** The S-mode and the M-mode halves, common to exceptions and interrupts. *)
Definition trap_to_S (cause epc tval : Z) (c : CSR_File) : Z * CSR_File :=
  let spp_bit := if priv c =? PRIV_S then MSTATUS_SPP else 0 in
  let ms := copy_bit MSTATUS_SIE MSTATUS_SPIE (mstatus c) in
  let ms := ms .&~ MSTATUS_SIE in
  let ms := (ms .&~ MSTATUS_SPP) .| spp_bit in
  (trap_vector (stvec c) cause,
   { c with scause := cause; sepc := epc; stval := tval; mstatus := ms; priv := PRIV_S }).

Definition trap_to_M (cause epc tval : Z) (c : CSR_File) : Z * CSR_File :=
  let mpp := priv c .<< 11 in
  let ms := copy_bit MSTATUS_MIE MSTATUS_MPIE (mstatus c) in
  let ms := ms .&~ MSTATUS_MIE in
  let ms := (ms .&~ MSTATUS_MPP) .| mpp in
  (trap_vector (mtvec c) cause,
   { c with mcause := cause; mepc := epc; mtval := tval; mstatus := ms; priv := PRIV_M }).

Definition take_exception (cause epc tval : Z) (c : CSR_File) : Z * CSR_File :=
  let delegated := (cause <? 64) && Z.odd (medeleg c .>> cause) in
  if delegated && negb (priv c =? PRIV_M) then trap_to_S cause epc tval c
  else trap_to_M cause epc tval c.

Definition take_interrupt (cause epc : Z) (c : CSR_File) : Z * CSR_File :=
  let int_cause := cause .| (1 .<< 63) in
  let delegated := Z.odd (mideleg c .>> cause) && negb (priv c =? PRIV_M) in
  if delegated then trap_to_S int_cause epc 0 c else trap_to_M int_cause epc 0 c.

Definition m_enabled (c : CSR_File) : bool :=
  negb (priv c =? PRIV_M) || negb ((mstatus c .& MSTATUS_MIE) =? 0).
Definition s_enabled (c : CSR_File) : bool :=
  (priv c =? PRIV_U) || ((priv c =? PRIV_S) && negb ((mstatus c .& MSTATUS_SIE) =? 0)).
Definition check_m (c : CSR_File) (bit : Z) : bool :=
  m_enabled c && Z.odd ((mip c .& mie c) .>> bit) && negb (Z.odd (mideleg c .>> bit)).
Definition check_s (c : CSR_File) (bit : Z) : bool :=
  s_enabled c && Z.odd ((mip c .& mie c) .>> bit) && Z.odd (mideleg c .>> bit).

Definition pending_interrupt (c : CSR_File) : Z :=
  if (mip c .& mie c) =? 0 then -1
  else if check_m c 11 then 11
  else if check_m c 3 then 3
  else if check_m c 7 then 7
  else if check_s c 9 then 9
  else if check_s c 1 then 1
  else if check_s c 5 then 5
  else -1.

Definition set_fflags (flags : Z) (c : CSR_File) : CSR_File :=
  { c with fcsr := fcsr c .| (flags .& 0x1F) }.

Definition pmp_cfg (c : CSR_File) (i : Z) : Z :=
  if i <? 8 then (pmpcfg_at c 0 .>> (i * 8)) .& 0xFF
  else (pmpcfg_at c 2 .>> ((i - 8) * 8)) .& 0xFF.
Definition pmp_a (cfg : Z) : Z := (cfg .>> 3) .& 0x3.

(** The NAPOT size loop: [log2sz] grows while the address has low ones; at most 61 turns. *)
Fixpoint napot_log2sz (fuel : nat) (addr_val log2sz : Z) : Z :=
  match fuel with
  | O => log2sz
  | S fuel =>
    if ((addr_val .& 1) =? 1) && (log2sz <? 64)
    then napot_log2sz fuel (addr_val .>> 1) (log2sz + 1) else log2sz
  end.

Definition UINT64_MAX : Z := 2 ^ 64 - 1.

(** The range [base, top) of an active entry. *)
Definition pmp_range (c : CSR_File) (i a : Z) : Z * Z :=
  if a =? 1 then
    ((if 0 <? i then u64 (pmpaddr_at c (i - 1) .<< 2) else 0), u64 (pmpaddr_at c i .<< 2))
  else if a =? 2 then
    let base := u64 (pmpaddr_at c i .<< 2) in (base, u64 (base + 4))
  else if a =? 3 then
    let log2sz := napot_log2sz 64 (pmpaddr_at c i) 3 in
    if 64 <=? log2sz then (0, UINT64_MAX)
    else
      let size := 1 .<< log2sz in
      let base := u64 (pmpaddr_at c i .<< 2) .&~ (size - 1) in
      (base, u64 (base + size))
  else (0, 0).

(** [Some allowed] when entry [i] decides the access. *)
Definition pmp_entry (c : CSR_File) (paddr access_size : Z) (is_write is_exec : bool) (i : Z) :
    option bool :=
  let cfg := pmp_cfg c i in
  let a := pmp_a cfg in
  if a =? 0 then None else
  let '(base, top) := pmp_range c i a in
  if (paddr <? top) && ((top =? UINT64_MAX) || (base <? u64 (paddr + access_size))) &&
     (base <=? paddr)
  then
    let locked := Z.testbit cfg 7 in
    Some (if (priv c =? PRIV_M) && negb locked then true
          else if is_exec then Z.testbit cfg 2
          else if is_write then Z.testbit cfg 1
          else Z.testbit cfg 0)
  else None.

Definition pmp_indices : list Z := [0;1;2;3;4;5;6;7;8;9;10;11;12;13;14;15].

Fixpoint pmp_scan (c : CSR_File) (paddr access_size : Z) (is_write is_exec : bool)
    (l : list Z) : bool :=
  match l with
  | [] => priv c =? PRIV_M
  | i :: l => match pmp_entry c paddr access_size is_write is_exec i with
              | Some b => b
              | None => pmp_scan c paddr access_size is_write is_exec l
              end
  end.

Definition pmp_check (paddr access_size : Z) (is_write is_exec : bool) (c : CSR_File) : bool :=
  let any_active := existsb (fun i => negb (pmp_a (pmp_cfg c i) =? 0)) pmp_indices in
  if negb any_active then true
  else pmp_scan c paddr access_size is_write is_exec pmp_indices.

Definition mret (c : CSR_File) : Z * CSR_File :=
  let ms := copy_bit MSTATUS_MPIE MSTATUS_MIE (mstatus c) in
  let ms := ms .| MSTATUS_MPIE in
  let new_priv := (ms .& MSTATUS_MPP) .>> 11 in
  (mepc c, { c with mstatus := ms .&~ MSTATUS_MPP; priv := new_priv }).

Definition sret (c : CSR_File) : Z * CSR_File :=
  let ms := copy_bit MSTATUS_SPIE MSTATUS_SIE (mstatus c) in
  let ms := ms .| MSTATUS_SPIE in
  let new_priv := if negb ((ms .& MSTATUS_SPP) =? 0) then PRIV_S else PRIV_U in
  (sepc c, { c with mstatus := ms .&~ MSTATUS_SPP; priv := new_priv }).

(** ** Well-formed states *)

Record csr_wf (c : CSR_File) : Prop := {
  cwf_priv : fits 2 (priv c);
  cwf_mstatus : fits 64 (mstatus c);
  cwf_sxl : (mstatus c .& MSTATUS_SXL) = (2 .<< 34);
  cwf_medeleg : medeleg c .&~ MEDELEG_MASK = 0;
  cwf_mideleg : mideleg c .&~ MIDELEG_MASK = 0;
  cwf_mie : mie c .&~ MIE_MASK = 0;
  cwf_mcounteren : mcounteren c .&~ 0xFFFFFFFF = 0;
  cwf_scounteren : scounteren c .&~ 0x7 = 0;
  cwf_fcsr : fcsr c .&~ 0xFF = 0;
  cwf_mtvec : Z.testbit (mtvec c) 1 = false;
  cwf_stvec : Z.testbit (stvec c) 1 = false;
  cwf_mepc : fits 64 (mepc c);
  cwf_sepc : fits 64 (sepc c);
  cwf_satp : satp c .>> 60 = 0 \/ satp c .>> 60 = 8;
  cwf_mcycle : fits 64 (mcycle c);
  cwf_minstret : fits 64 (minstret c);
  cwf_pmpcfg : length (pmpcfg c) = 4%nat;
  cwf_pmpaddr : length (pmpaddr c) = 16%nat;
}.

(** [sstatus] is a restricted view of [mstatus]: the bits of the view that the mask of
    [mstatus] does not list as writable (UXL, SD, XS, UIE, UPIE). *)
Definition SSTATUS_FIXED : Z := Eval compute in SSTATUS_MASK .&~ MSTATUS_WRITE_MASK.

(** The writable bits of each register: the specification of [write].  It follows the comments
    of the code: what is read-only in [mstatus] is read-only in its view [sstatus]. *)
Definition csr_wmask (addr val : Z) (c : CSR_File) : Z :=
  if addr =? CSR_MSTATUS then MSTATUS_WRITE_MASK
  else if addr =? CSR_SSTATUS then SSTATUS_MASK .& MSTATUS_WRITE_MASK
  else if addr =? CSR_MISA then 0
  else if addr =? CSR_MEDELEG then MEDELEG_MASK
  else if addr =? CSR_MIDELEG then MIDELEG_MASK
  else if addr =? CSR_MIE then MIE_MASK
  else if addr =? CSR_SIE then mideleg c
  else if addr =? CSR_MIP then MIP_SW_MASK
  else if addr =? CSR_SIP then mideleg c .& MIP_SW_MASK
  else if (addr =? CSR_MTVEC) || (addr =? CSR_STVEC) then Z.lnot 2
  else if (addr =? CSR_MEPC) || (addr =? CSR_SEPC) then Z.lnot 1
  else if addr =? CSR_MCOUNTEREN then 0xFFFFFFFF
  else if addr =? CSR_SCOUNTEREN then 0x7
  else if (addr =? 0x320) || in_range addr 0x323 0x33F || in_range addr 0xB03 0xB1F ||
          (addr =? 0x747) then 0
  else if addr =? CSR_SATP then
    (if (val .>> 60 =? 0) || (val .>> 60 =? 8) then -1 else 0)
  else if addr =? 0x001 then 0x1F
  else if addr =? 0x002 then 0x7
  else if addr =? 0x003 then 0xFF
  else -1.

(** The addresses whose value a write to [addr] may change. *)
Definition csr_aliases (addr : Z) : list Z :=
  if (addr =? CSR_MSTATUS) || (addr =? CSR_SSTATUS) then [CSR_MSTATUS; CSR_SSTATUS]
  else if (addr =? CSR_MIE) || (addr =? CSR_SIE) then [CSR_MIE; CSR_SIE]
  else if (addr =? CSR_MIP) || (addr =? CSR_SIP) then [CSR_MIP; CSR_SIP]
  else if addr =? CSR_MIDELEG then [CSR_MIDELEG; CSR_SIE; CSR_SIP]
  else if addr =? CSR_MCYCLE then [CSR_MCYCLE; CSR_CYCLE; CSR_TIME]
  else if addr =? CSR_MINSTRET then [CSR_MINSTRET; CSR_INSTRET]
  else if (addr =? 0x001) || (addr =? 0x002) || (addr =? 0x003) then [0x001; 0x002; 0x003]
  else [addr].

(** [if]-chains on the address: take the branch of a known address, or walk on. *)
Ltac addr_case H :=
  lazymatch type of H with
  | (if ?a =? ?k then _ else _) = _ =>
      destruct (Z.eqb_spec a k) as [?E|?N]; cbv beta iota in H; [subst a|]
  | (if in_range ?a ?lo ?hi then _ else _) = _ =>
      let E := fresh "R" in destruct (in_range a lo hi) eqn:E; cbv beta iota in H
  end.

Lemma in_range_spec a lo hi : in_range a lo hi = true <-> lo <= a <= hi.
Proof. unfold in_range. rewrite andb_true_iff, !Z.leb_le. done. Qed.

(** Every way a register write can succeed, one goal per register. *)
Ltac csr_branches H c' :=
  unfold csr_write_reg in H; repeat (addr_case H; [apply (inj Some) in H; subst c'|]);
  [.. | discriminate H].

Lemma csr_write_reg_priv addr val c c' :
  csr_write_reg addr val c = Some c' -> priv c' = priv c.
Proof. intros H. csr_branches H c'; cbv zeta; try destruct (_ || _); reflexivity. Qed.

Lemma csr_write_inv addr val c c' :
  csr_write addr val c = (true, c') ->
  ((addr .>> 8) .& 0x3) <= priv c /\ addr .>> 10 <> 3 /\ csr_write_reg addr val c = Some c'.
Proof.
  unfold csr_write. intros H.
  destruct (Z.ltb_spec (priv c) ((addr .>> 8) .& 0x3)); [done|].
  destruct (Z.eqb_spec (addr .>> 10) 0x3); [done|].
  destruct (csr_write_reg addr val c); by simplify_eq.
Qed.

(** Masked updates, bit by bit. *)
Lemma mask_absorb r v m : r .&~ m = 0 -> v .& m = (r .&~ m) .| (v .& m).
Proof. intros ->. by rewrite Z.lor_0_l. Qed.

Lemma mask_full r v : v = (r .&~ -1) .| (v .& -1).
Proof. by rewrite Z.land_m1_r, Z.ldiff_m1_r, Z.lor_0_l. Qed.

Lemma mask_none r v : r = (r .&~ 0) .| (v .& 0).
Proof. by rewrite Z.ldiff_0_r, Z.land_0_r, Z.lor_0_r. Qed.

Lemma mask_lnot r v m : r .& m = 0 -> v .&~ m = (r .&~ Z.lnot m) .| (v .& Z.lnot m).
Proof. intros Hr. by rewrite !Z.ldiff_land, Z.lnot_involutive, Hr, Z.lor_0_l. Qed.

(** An update under a mask, seen through a second mask that contains it. *)
Lemma mask_view r v m w :
  ((r .&~ m) .| (v .& m)) .& w = ((r .& w) .&~ (m .& w)) .| (v .& (m .& w)).
Proof.
  bits_ext i. by destruct (Z.testbit r i), (Z.testbit v i), (Z.testbit m i), (Z.testbit w i).
Qed.

Lemma land_2_0 x : Z.testbit x 1 = false -> x .& 2 = 0.
Proof.
  intros Hx. bits_ext i. change 2 with (Z.b2z true .<< 1).
  rewrite Z.shiftl_spec by done. rewrite testbit_bit0.
  destruct (Z.eqb_spec (i - 1) 0); [|by rewrite !andb_false_r].
  replace i with 1 by lia. by rewrite Hx.
Qed.

Lemma lsb_clear x : (x .&~ 1) .& 1 = 0.
Proof. bits_ext i. by destruct (Z.testbit x i), (Z.testbit 1 i). Qed.

Lemma fcsr_frm f v :
  (((f .&~ 0xE0) .| ((v .& 0x7) .<< 5)) .>> 5) .& 0x7 =
    ((f .>> 5) .& 0x7 .&~ 0x7) .| (v .& 0x7).
Proof.
  bits_ext i. change 7 with (Z.ones 3). change 0xE0 with (Z.ones 3 .<< 5).
  rewrite !Z.shiftl_spec by lia. replace (i + 5 - 5) with i by lia.
  by destruct (Z.testbit f (i + 5)), (Z.testbit v i), (Z.testbit (Z.ones 3) i).
Qed.

Lemma mask_self r v m : ((r .&~ m) .| (v .& m)) .& m = ((r .& m) .&~ m) .| (v .& m).
Proof. bits_ext i. by destruct (Z.testbit r i), (Z.testbit v i), (Z.testbit m i). Qed.

Lemma mask_own r v m : (v .& m) .& m = ((r .& m) .&~ m) .| (v .& m).
Proof. bits_ext i. by destruct (Z.testbit r i), (Z.testbit v i), (Z.testbit m i). Qed.

Lemma mask_sip r v d w :
  ((r .&~ (d .& w)) .| (v .& d .& w)) .& d = ((r .& d) .&~ (d .& w)) .| (v .& (d .& w)).
Proof.
  bits_ext i. by destruct (Z.testbit r i), (Z.testbit v i), (Z.testbit d i), (Z.testbit w i).
Qed.

Lemma mask_lsb r v : (v .&~ 1) .&~ 1 = ((r .&~ 1) .&~ Z.lnot 1) .| (v .& Z.lnot 1).
Proof. bits_ext i. by destruct (Z.testbit r i), (Z.testbit v i), (Z.testbit 1 i). Qed.

Lemma pmpcfg_at_insert c (i : nat) v :
  length (pmpcfg c) = 4%nat -> (i <? 4)%nat = true ->
  pmpcfg_at { c with pmpcfg := <[i := v]> (pmpcfg c) } (Z.of_nat i) = v.
Proof.
  intros Hl Hi%Nat.ltb_lt. rewrite <-Hl in Hi. unfold pmpcfg_at; simpl. by rewrite Nat2Z.id, list_lookup_insert_eq.
Qed.

(** The ranges of counters and PMP addresses. *)
Lemma in_range_ind (P : Z -> Prop) lo hi a :
  in_range a lo hi = true -> (forall i, (i < Z.to_nat (hi - lo + 1))%nat -> P (lo + Z.of_nat i)) -> P a.
Proof.
  intros Ha%in_range_spec H. replace a with (lo + Z.of_nat (Z.to_nat (a - lo))) by lia.
  apply H. lia.
Qed.

Tactic Notation "range_cases" ident(a) ident(Ha) integer(n) :=
  pattern a; apply (in_range_ind _ _ _ a Ha);
  let i := fresh "i" in let Hi := fresh "Hi" in
  intros i Hi; vm_compute in Hi; do n (destruct i as [|i]; [reflexivity|]); lia.

Lemma csr_read_hpmevent a c : in_range a 0x323 0x33F = true -> csr_read_reg a c = Some 0.
Proof. intros Ha. range_cases a Ha 29. Qed.

Lemma csr_read_hpmcounter a c : in_range a 0xB03 0xB1F = true -> csr_read_reg a c = Some 0.
Proof. intros Ha. range_cases a Ha 29. Qed.

Lemma csr_read_pmpaddr a c :
  in_range a 0x3B0 0x3BF = true -> csr_read_reg a c = Some (pmpaddr_at c (a - 0x3B0)).
Proof. intros Ha. range_cases a Ha 16. Qed.

Lemma csr_wmask_ranges a v c :
  (in_range a 0x323 0x33F = true -> csr_wmask a v c = 0) /\
  (in_range a 0xB03 0xB1F = true -> csr_wmask a v c = 0) /\
  (in_range a 0x3B0 0x3BF = true -> csr_wmask a v c = -1).
Proof.
  split_and!; intros Ha; [range_cases a Ha 29|range_cases a Ha 29|range_cases a Ha 16].
Qed.

Lemma csr_read_pmpaddr_written a v c :
  in_range a 0x3B0 0x3BF = true -> length (pmpaddr c) = 16%nat ->
  csr_read_reg a { c with pmpaddr := <[Z.to_nat (a - 0x3B0) := v]> (pmpaddr c) } = Some v.
Proof.
  intros Ha Hl. rewrite csr_read_pmpaddr by done. apply in_range_spec in Ha. f_equal.
  unfold pmpaddr_at; simpl. by rewrite list_lookup_insert_eq by lia.
Qed.

(** The mask of a known register. *)
Ltac wmask_simpl :=
  lazymatch goal with
  | |- context [csr_wmask CSR_SATP ?v ?c] =>
      change (csr_wmask CSR_SATP v c) with
        (if (v .>> 60 =? 0) || (v .>> 60 =? 8) then -1 else 0)
  | |- context [csr_wmask ?a ?v ?c] =>
      let m := eval cbv -[MSTATUS_WRITE_MASK SSTATUS_MASK MEDELEG_MASK MIDELEG_MASK MIE_MASK
        MIP_SW_MASK mideleg Z.land Z.lnot Z.shiftr] in (csr_wmask a v c) in
      change (csr_wmask a v c) with m
  end.

(** A write of [sstatus] that keeps the fixed bits, read through the view. *)
Lemma mask_sstatus r v :
  v .& SSTATUS_FIXED = r .& SSTATUS_FIXED ->
  ((r .&~ SSTATUS_MASK) .| (v .& SSTATUS_MASK)) .& SSTATUS_MASK =
    ((r .& SSTATUS_MASK) .&~ (SSTATUS_MASK .& MSTATUS_WRITE_MASK)) .|
      (v .& (SSTATUS_MASK .& MSTATUS_WRITE_MASK)).
Proof.
  intros E. apply Z.bits_inj'. intros n Hn. apply (f_equal (fun x => Z.testbit x n)) in E.
  change SSTATUS_FIXED with (SSTATUS_MASK .&~ MSTATUS_WRITE_MASK) in E.
  revert E. repeat rewrite ?Z.ldiff_spec, ?Z.land_spec, ?Z.lor_spec.
  destruct (Z.testbit r n), (Z.testbit v n), (Z.testbit SSTATUS_MASK n), (Z.testbit MSTATUS_WRITE_MASK n);
    simpl; congruence.
Qed.

(** C30: every CSR write that succeeds reads back as the old value with exactly the writable bits
    of the register replaced ([csr_wmask]: WARL fields and restricted views).  For [sstatus] this
    is so when the written value repeats the bits of its view that a write of [mstatus] can not
    change either ([SSTATUS_FIXED]: UXL, which a comment says is fixed, SD, XS, UPIE and UIE), as
    a read-modify-write of the other fields does; a write that does not changes them
    ([sstatus_write_changes_uxl]). *)
Theorem csr_write_read addr val c c' :
  csr_wf c -> (addr = CSR_SSTATUS -> val .& SSTATUS_FIXED = mstatus c .& SSTATUS_FIXED) ->
  csr_write addr val c = (true, c') ->
  exists r r', csr_read addr c = Some r /\ csr_read addr c' = Some r' /\
    r' = (r .&~ csr_wmask addr val c) .| (val .& csr_wmask addr val c).
Proof.
  intros Hwf Hfix (Hp & _ & H)%csr_write_inv. unfold csr_read.
  rewrite (csr_write_reg_priv _ _ _ _ H), (proj2 (Z.ltb_ge _ _)) by done. clear Hp.
  destruct Hwf. csr_branches H c'.
  all: try lazymatch goal with
    | R : in_range _ 0x323 0x33F = true |- _ =>
        rewrite !(csr_read_hpmevent _ _ R), (proj1 (csr_wmask_ranges _ _ _) R);
        exists 0, 0; split; [reflexivity|split; [reflexivity|apply mask_none]]
    | R : in_range _ 0xB03 0xB1F = true |- _ =>
        rewrite !(csr_read_hpmcounter _ _ R), (proj1 (proj2 (csr_wmask_ranges _ _ _)) R);
        exists 0, 0; split; [reflexivity|split; [reflexivity|apply mask_none]]
    | R : in_range _ 0x3B0 0x3BF = true |- _ =>
        rewrite (proj2 (proj2 (csr_wmask_ranges _ _ _)) R);
        eexists; eexists; split; [exact (csr_read_pmpaddr _ _ R)|];
        split; [apply (csr_read_pmpaddr_written _ _ _ R); assumption|apply mask_full]
    end.
  all: eexists; eexists; split; [reflexivity|split; [reflexivity|]].
  all: wmask_simpl; cbn [mstatus mie mip].
  all: [> exact eq_refl | apply mask_none | by apply mask_absorb | by apply mask_absorb
    | by apply mask_absorb | by apply mask_lnot, land_2_0 | by apply mask_absorb
    | apply mask_full | apply mask_none | apply mask_none | apply mask_full | apply mask_lsb
    | apply mask_full | apply mask_full | exact eq_refl | by apply mask_sstatus, Hfix | apply mask_self
    | by apply mask_lnot, land_2_0 | by apply mask_absorb | apply mask_full | apply mask_lsb
    | apply mask_full | apply mask_full | apply mask_sip
    | destruct (_ || _); [apply mask_full | apply mask_none]
    | apply mask_full | apply mask_full
    | rewrite <-mask_full; by apply (pmpcfg_at_insert c 0%nat)
    | rewrite <-mask_full; by apply (pmpcfg_at_insert c 1%nat)
    | rewrite <-mask_full; by apply (pmpcfg_at_insert c 2%nat)
    | rewrite <-mask_full; by apply (pmpcfg_at_insert c 3%nat)
    | apply mask_self | apply fcsr_frm | apply mask_own ].
Qed.

Lemma csr_aliases_ranges a :
  in_range a 0x323 0x33F = true \/ in_range a 0xB03 0xB1F = true \/ in_range a 0x3B0 0x3BF = true ->
  csr_aliases a = [a].
Proof.
  intros [Ha|[Ha|Ha]]; [range_cases a Ha 29|range_cases a Ha 29|range_cases a Ha 16].
Qed.

Lemma pmp_index_ne a b :
  in_range a 0x3B0 0x3BF = true -> in_range b 0x3B0 0x3BF = true -> a <> b ->
  Z.to_nat (a - 0x3B0) <> Z.to_nat (b - 0x3B0).
Proof. intros ?%in_range_spec ?%in_range_spec ?. lia. Qed.

Lemma if_branch {A} (b : bool) (x x' y y' : A) :
  (b = true -> x = x') -> y = y' -> (if b then x else y) = (if b then x' else y').
Proof. destruct b; auto. Qed.

(** Walk the switch of [read]: registers other than the written one agree, and the
    aliases are excluded by [Hb]. *)
Ltac frame_step b Hb :=
  apply if_branch;
  [ lazymatch goal with
    | |- _ -> ?x = ?x => intros _; exact eq_refl
    | |- (b =? ?k) = true -> _ =>
        intros E; apply Z.eqb_eq in E;
        first [ rewrite list_lookup_insert_ne by discriminate; exact eq_refl
              | exfalso; apply Hb; rewrite E; vm_compute; tauto ]
    | |- _ => intros ?
    end | ].

Ltac read_fields :=
  unfold csr_read_reg, pmpcfg_at, pmpaddr_at;
  cbn [tset set gafu_getter gafu_field_updater RecordSettersUsingExistingGetters.const
       pmpcfg pmpaddr priv mstatus misa medeleg mideleg mie mip mtvec mcounteren menvcfg mscratch mepc mcause
       mtval stvec scounteren sscratch sepc scause stval satp mcycle minstret fcsr].

Lemma csr_read_reg_frame a v b c c' :
  csr_write_reg a v c = Some c' -> ~ In b (csr_aliases a) ->
  csr_read_reg b c' = csr_read_reg b c.
Proof.
  intros H Hb. csr_branches H c'.
  all: cbv zeta; try (destruct (_ || _); [|exact eq_refl]).
  all: lazymatch goal with |- ?x = ?x => exact eq_refl | _ => read_fields end.
  all: repeat frame_step b Hb.
  all: lazymatch goal with |- ?x = ?x => exact eq_refl | _ => idtac end.
  rewrite list_lookup_insert_ne; [exact eq_refl|].
  rewrite csr_aliases_ranges in Hb by (right; right; assumption).
  apply pmp_index_ne; [assumption..|]. intros ->. apply Hb. by left.
Qed.

(** A CSR write changes no register but the written one and its architectural
    aliases (sstatus/mstatus, sie/mie, sip/mip, the counters' mirrors, fcsr's
    fields). *)
Theorem csr_write_frame a v b c c' :
  csr_write a v c = (true, c') -> ~ In b (csr_aliases a) -> csr_read b c' = csr_read b c.
Proof.
  intros (_ & _ & H)%csr_write_inv Hb. unfold csr_read.
  rewrite (csr_write_reg_priv _ _ _ _ H). case_match; [done|]. by apply (csr_read_reg_frame a v).
Qed.

(** C31: access control: below the privilege in address bits 9:8 a CSR can be neither
    read nor written, one with bits 11:10 = 3 cannot be written, and a refused
    write leaves the state as it was. *)
Theorem csr_access_checks a v c :
  (priv c < (a .>> 8) .& 0x3 -> csr_read a c = None /\ csr_write a v c = (false, c)) /\
  (a .>> 10 = 3 -> csr_write a v c = (false, c)) /\
  ((csr_write a v c).1 = false -> (csr_write a v c).2 = c) /\
  ((csr_write a v c).1 = true -> is_Some (csr_read_reg a c)).
Proof.
  unfold csr_write, csr_read. split_and!.
  - intros H. by rewrite (proj2 (Z.ltb_lt _ _)).
  - intros ->. by case_match.
  - repeat case_match; done.
  - case_match; [done|]. case_match; [done|].
    destruct (csr_write_reg a v c) as [c'|] eqn:E; [|done]. intros _. csr_branches E c'.
    all: lazymatch goal with
    | R : in_range _ 0x323 0x33F = true |- _ => rewrite (csr_read_hpmevent _ _ R)
    | R : in_range _ 0xB03 0xB1F = true |- _ => rewrite (csr_read_hpmcounter _ _ R)
    | R : in_range _ 0x3B0 0x3BF = true |- _ => rewrite (csr_read_pmpaddr _ _ R)
    | _ => idtac
    end; eexists; exact eq_refl.
Qed.

(** ** Traps *)

Lemma land_bit_zero r k : 0 <= k -> ((r .& (1 .<< k)) =? 0) = negb (Z.testbit r k).
Proof.
  intros Hk. destruct (Z.testbit r k) eqn:Er; simpl.
  - apply Z.eqb_neq. intros E. assert (Z.testbit (r .& (1 .<< k)) k = false) as H
      by (rewrite E; apply Z.bits_0).
    rewrite Z.land_spec, testbit_one, Z.eqb_refl, Er in H by lia. done.
  - apply Z.eqb_eq. apply Z.bits_inj'; intros i Hi.
    rewrite Z.land_spec, Z.bits_0, testbit_one by lia. destruct (Z.eqb_spec i k) as [->|]; [by rewrite Er|by rewrite andb_false_r].
Qed.

Lemma testbit_copy_bit f t r i :
  0 <= f -> 0 <= t -> 0 <= i ->
  Z.testbit (copy_bit (1 .<< f) (1 .<< t) r) i = if i =? t then Z.testbit r f else Z.testbit r i.
Proof.
  intros. unfold copy_bit. rewrite land_bit_zero, negb_involutive by lia.
  destruct (Z.testbit r f) eqn:E; rewrite ?Z.lor_spec, ?Z.ldiff_spec, testbit_one by lia;
    destruct (Z.eqb_spec i t); simpl; by rewrite ?orb_true_r, ?orb_false_r, ?andb_true_r, ?andb_false_r.
Qed.

Lemma testbit_priv p i : fits 2 p -> 0 <= i ->
  Z.testbit (p .<< 11) i = ((i =? 11) || (i =? 12)) && Z.testbit p (i - 11).
Proof.
  intros Hp Hi. rewrite Z.shiftl_spec by done.
  destruct (Z.eqb_spec i 11), (Z.eqb_spec i 12); simpl; try done.
  destruct (Z.lt_ge_cases i 11); [by rewrite Z.testbit_neg_r by lia|].
  apply (fits_testbit 2); [lia|done|lia].
Qed.

(** mstatus after a trap to M and to S, bit by bit. *)
Lemma trap_to_M_mstatus cause epc tval c i :
  fits 2 (priv c) -> 0 <= i ->
  Z.testbit (mstatus (trap_to_M cause epc tval c).2) i =
    if (i =? 11) || (i =? 12) then Z.testbit (priv c) (i - 11)
    else if i =? 3 then false
    else if i =? 7 then Z.testbit (mstatus c) 3
    else Z.testbit (mstatus c) i.
Proof.
  intros Hp Hi. unfold trap_to_M; cbn [snd mstatus tset set gafu_getter gafu_field_updater
    RecordSettersUsingExistingGetters.const].
  unfold MSTATUS_MPP, MSTATUS_MIE, MSTATUS_MPIE.
  rewrite Z.lor_spec, !Z.ldiff_spec, testbit_copy_bit, testbit_three, testbit_one, testbit_priv
    by (done || lia). change (11 + 1) with 12.
    destruct ((i =? 11) || (i =? 12)); simpl; [by rewrite andb_false_r|].
  destruct (Z.eqb_spec i 3) as [->|]; simpl; [by rewrite andb_false_r|].
  by rewrite !andb_true_r, orb_false_r.
Qed.

Lemma trap_to_S_mstatus cause epc tval c i :
  0 <= i ->
  Z.testbit (mstatus (trap_to_S cause epc tval c).2) i =
    if i =? 8 then priv c =? PRIV_S
    else if i =? 1 then false
    else if i =? 5 then Z.testbit (mstatus c) 1
    else Z.testbit (mstatus c) i.
Proof.
  intros Hi. unfold trap_to_S; cbn [snd mstatus tset set gafu_getter gafu_field_updater
    RecordSettersUsingExistingGetters.const].
  unfold MSTATUS_SPP, MSTATUS_SIE, MSTATUS_SPIE.
  rewrite Z.lor_spec, !Z.ldiff_spec, testbit_copy_bit, !testbit_one by lia.
  destruct (priv c =? PRIV_S); rewrite ?testbit_one, ?Z.bits_0 by lia;
    destruct (Z.eqb_spec i 8) as [->|]; simpl; rewrite ?andb_false_r, ?orb_true_r; try done;
    (destruct (Z.eqb_spec i 1) as [->|]; simpl; [by rewrite andb_false_r|]);
    by rewrite !andb_true_r, orb_false_r.
Qed.

Lemma mret_mstatus c i :
  0 <= i ->
  Z.testbit (mstatus (mret c).2) i =
    if (i =? 11) || (i =? 12) then false
    else if i =? 7 then true
    else if i =? 3 then Z.testbit (mstatus c) 7
    else Z.testbit (mstatus c) i.
Proof.
  intros Hi. unfold mret; cbn [snd mstatus tset set gafu_getter gafu_field_updater
    RecordSettersUsingExistingGetters.const].
  unfold MSTATUS_MPP, MSTATUS_MIE, MSTATUS_MPIE.
  rewrite Z.ldiff_spec, Z.lor_spec, testbit_copy_bit, testbit_three, testbit_one by lia.
  change (11 + 1) with 12. destruct ((i =? 11) || (i =? 12)); simpl; [by rewrite andb_false_r|].
  rewrite andb_true_r. destruct (Z.eqb_spec i 7) as [->|]; simpl; [by rewrite orb_true_r|]. apply orb_false_r.
Qed.

Lemma sret_mstatus c i :
  0 <= i ->
  Z.testbit (mstatus (sret c).2) i =
    if i =? 8 then false
    else if i =? 5 then true
    else if i =? 1 then Z.testbit (mstatus c) 5
    else Z.testbit (mstatus c) i.
Proof.
  intros Hi. unfold sret; cbn [snd mstatus tset set gafu_getter gafu_field_updater
    RecordSettersUsingExistingGetters.const].
  unfold MSTATUS_SPP, MSTATUS_SIE, MSTATUS_SPIE.
  rewrite Z.ldiff_spec, Z.lor_spec, testbit_copy_bit, !testbit_one by lia.
  destruct (Z.eqb_spec i 8) as [->|]; simpl; [by rewrite andb_false_r|].
  rewrite andb_true_r. destruct (Z.eqb_spec i 5) as [->|]; simpl; [by rewrite orb_true_r|].
  apply orb_false_r.
Qed.

Lemma mret_priv c :
  (forall i, (i = 0 \/ i = 1) ->
     Z.testbit (priv (mret c).2) i = Z.testbit (mstatus c) (i + 11)) /\ fits 2 (priv (mret c).2).
Proof.
  unfold mret; cbn [snd priv tset set gafu_getter gafu_field_updater
    RecordSettersUsingExistingGetters.const]. unfold MSTATUS_MPP, MSTATUS_MIE, MSTATUS_MPIE. split.
  - intros i Hi. rewrite Z.shiftr_spec, Z.land_spec, Z.lor_spec, testbit_copy_bit, testbit_three,
      testbit_one by lia. destruct Hi as [->| ->]; simpl; by rewrite orb_false_r, andb_true_r.
  - apply fits_intro_testbit; [lia| |].
    + apply Z.shiftr_nonneg, Z.land_nonneg. right. done.
    + intros i Hi. rewrite Z.shiftr_spec, Z.land_spec, testbit_three by lia.
      destruct (Z.eqb_spec (i + 11) 11), (Z.eqb_spec (i + 11) (11 + 1)); lia.
Qed.

(** A trap to M-mode disables interrupts, saves the interrupted state, and [mret]
    restores it: pc, privilege and every mstatus bit except MPIE (set) and MPP
    (cleared). *)
Theorem trap_M_mret cause epc tval c :
  fits 2 (priv c) ->
  let c1 := (trap_to_M cause epc tval c).2 in
  let c2 := (mret c1).2 in
  priv c1 = PRIV_M /\ Z.testbit (mstatus c1) 3 = false /\ mcause c1 = cause /\ mtval c1 = tval /\
  (mret c1).1 = epc /\ priv c2 = priv c /\
  (forall i, 0 <= i -> i <> 7 -> i <> 11 -> i <> 12 ->
     Z.testbit (mstatus c2) i = Z.testbit (mstatus c) i) /\
  (mstatus c2 .& MSTATUS_MPP) = 0 /\ Z.testbit (mstatus c2) 7 = true.
Proof.
  intros Hp c1 c2. split_and!; try reflexivity.
  - unfold c1. by rewrite trap_to_M_mstatus.
  - destruct (mret_priv c1) as [Hb Hf].
    apply (bits_inj_fits 2); [lia|exact Hf|exact Hp|]. intros i Hi.
    unfold c2. rewrite Hb by lia. unfold c1. rewrite trap_to_M_mstatus by (done || lia).
    assert ((i + 11 =? 11) || (i + 11 =? 12) = true) as -> by (apply orb_true_iff; lia).
    f_equal. lia.
  - intros i Hi N7 N11 N12. unfold c2. rewrite mret_mstatus by done. unfold c1.
    rewrite !trap_to_M_mstatus by done.
    rewrite (proj2 (Z.eqb_neq i 11)), (proj2 (Z.eqb_neq i 12)), (proj2 (Z.eqb_neq i 7)) by done.
    simpl. by destruct (Z.eqb_spec i 3) as [->|].
  - unfold MSTATUS_MPP. apply Z.bits_inj'; intros i Hi.
    rewrite Z.land_spec, Z.bits_0, testbit_three by lia. unfold c2.
    rewrite mret_mstatus by done. change (11 + 1) with 12. by destruct ((i =? 11) || (i =? 12)); rewrite ?andb_false_r.
  - unfold c2. by rewrite mret_mstatus.
Qed.

(** A trap delegated to S-mode and [sret]: pc, privilege (U or S) and every
    mstatus bit except SPIE (set) and SPP (cleared) come back. *)
Theorem trap_S_sret cause epc tval c :
  priv c = PRIV_U \/ priv c = PRIV_S ->
  let c1 := (trap_to_S cause epc tval c).2 in
  let c2 := (sret c1).2 in
  priv c1 = PRIV_S /\ Z.testbit (mstatus c1) 1 = false /\ scause c1 = cause /\ stval c1 = tval /\
  (sret c1).1 = epc /\ priv c2 = priv c /\
  (forall i, 0 <= i -> i <> 5 -> i <> 8 -> Z.testbit (mstatus c2) i = Z.testbit (mstatus c) i) /\
  Z.testbit (mstatus c2) 8 = false /\ Z.testbit (mstatus c2) 5 = true.
Proof.
  intros Hp c1 c2. split_and!; try reflexivity.
  - unfold c1. by rewrite trap_to_S_mstatus.
  - unfold c2, sret; cbn [snd priv tset set gafu_getter gafu_field_updater
      RecordSettersUsingExistingGetters.const]. unfold MSTATUS_SPP, MSTATUS_SPIE, MSTATUS_SIE.
    rewrite land_bit_zero, negb_involutive, Z.lor_spec, testbit_copy_bit, testbit_one by lia.
    change (8 =? 1) with false. change (8 =? 5) with false. cbv iota. unfold c1.
    rewrite trap_to_S_mstatus by lia. change (8 =? 8) with true. cbv iota.
    by destruct Hp as [-> | ->].
  - intros i Hi N5 N8. unfold c2. rewrite sret_mstatus by done. unfold c1.
    rewrite !trap_to_S_mstatus by done.
    rewrite (proj2 (Z.eqb_neq i 8)), (proj2 (Z.eqb_neq i 5)) by done.
    by destruct (Z.eqb_spec i 1) as [->|].
  - unfold c2. by rewrite sret_mstatus.
  - unfold c2. by rewrite sret_mstatus.
Qed.

(** Trap entry: the handler's mode is S exactly for a delegated cause taken below
    M, privilege never drops, synchronous causes enter at the base of the vector and
    interrupts in vectored mode at base + 4 * code. *)
Theorem take_trap_target cause epc tval c :
  0 <= cause < 2 ^ 63 -> (priv c = PRIV_U \/ priv c = PRIV_S \/ priv c = PRIV_M) ->
  let '(pc, c1) := take_exception cause epc tval c in
  let '(pci, c2) := take_interrupt cause epc c in
  priv c1 = (if (cause <? 64) && Z.testbit (medeleg c) cause && negb (priv c =? PRIV_M)
             then PRIV_S else PRIV_M) /\
  pc = (if priv c1 =? PRIV_S then stvec c else mtvec c) .&~ 3 /\
  priv c2 = (if Z.testbit (mideleg c) cause && negb (priv c =? PRIV_M) then PRIV_S else PRIV_M) /\
  (let tvec := if priv c2 =? PRIV_S then stvec c else mtvec c in
   pci = if (tvec .& 3) =? 1 then u64 ((tvec .&~ 3) + 4 * (cause .& 0x7FF)) else tvec .&~ 3) /\
  priv c <= priv c1 /\ priv c <= priv c2.
Proof.
  intros Hc Hp.
  assert (Ho : forall r, Z.odd (r .>> cause) = Z.testbit r cause).
  { intros r. rewrite <-Z.bit0_odd, Z.shiftr_spec by done. done. }
  assert (Hsync : forall tvec, trap_vector tvec cause = tvec .&~ 3).
  { intros tvec. unfold trap_vector. rewrite Z.shiftr_div_pow2, Z.div_small by lia.
    by rewrite andb_false_r. }
  assert (Hint : forall tvec, trap_vector tvec (cause .| (1 .<< 63)) =
            if (tvec .& 3) =? 1 then u64 ((tvec .&~ 3) + 4 * (cause .& 0x7FF)) else tvec .&~ 3).
  { intros tvec. unfold trap_vector.
    assert ((cause .| (1 .<< 63)) .>> 63 = 1) as ->.
    { rewrite Z.shiftr_lor, (Z.shiftr_div_pow2 cause), Z.div_small by lia. done. }
    assert ((cause .| (1 .<< 63)) .& 0x7FF = cause .& 0x7FF) as ->.
    { apply Z.bits_inj'; intros i Hi. rewrite !Z.land_spec, Z.lor_spec, testbit_one by lia.
      destruct (Z.eqb_spec i 63) as [->|]; [by rewrite !andb_false_r|by rewrite orb_false_r]. }
    by rewrite andb_true_r. }
  unfold take_exception, take_interrupt. rewrite !Ho.
  destruct ((cause <? 64) && Z.testbit (medeleg c) cause), (Z.testbit (mideleg c) cause),
    Hp as [->|[->| ->]]; simpl; rewrite ?Hsync, ?Hint; split_and!;
    first [reflexivity | unfold PRIV_U, PRIV_S, PRIV_M; lia].
Qed.

(** ** Interrupt arbitration *)

(** The order of [pending_interrupt], and when an interrupt may be taken. *)
Definition interrupt_order : list Z := [11; 3; 7; 9; 1; 5].

Definition takeable (c : CSR_File) (b : Z) : Prop :=
  Z.testbit (mip c) b = true /\ Z.testbit (mie c) b = true /\
  if (b =? 11) || (b =? 3) || (b =? 7)
  then Z.testbit (mideleg c) b = false /\ (priv c <> PRIV_M \/ Z.testbit (mstatus c) 3 = true)
  else Z.testbit (mideleg c) b = true /\
       (priv c = PRIV_U \/ (priv c = PRIV_S /\ Z.testbit (mstatus c) 1 = true)).

Lemma odd_shiftr r b : 0 <= b -> Z.odd (r .>> b) = Z.testbit r b.
Proof. intros. by rewrite <-Z.bit0_odd, Z.shiftr_spec by done. Qed.

Lemma check_m_takeable c b : b = 11 \/ b = 3 \/ b = 7 -> check_m c b = true <-> takeable c b.
Proof.
  intros Hb. unfold check_m, takeable, m_enabled, MSTATUS_MIE.
  rewrite !odd_shiftr, Z.land_spec, land_bit_zero, negb_involutive by lia.
  assert ((b =? 11) || (b =? 3) || (b =? 7) = true) as -> by lia.
  rewrite !andb_true_iff, orb_true_iff, !negb_true_iff, Z.eqb_neq. tauto.
Qed.

Lemma check_s_takeable c b : b = 9 \/ b = 1 \/ b = 5 -> check_s c b = true <-> takeable c b.
Proof.
  intros Hb. unfold check_s, takeable, s_enabled, MSTATUS_SIE.
  rewrite !odd_shiftr, Z.land_spec, land_bit_zero, negb_involutive by lia.
  assert ((b =? 11) || (b =? 3) || (b =? 7) = false) as -> by lia.
  rewrite !andb_true_iff, orb_true_iff, andb_true_iff, !Z.eqb_eq. tauto.
Qed.

Lemma takeable_pending c b : 0 <= b -> takeable c b -> (mip c .& mie c) <> 0.
Proof.
  intros Hb (H1 & H2 & _) E. assert (Z.testbit (mip c .& mie c) b = false) as H
    by (rewrite E; apply Z.bits_0).
  by rewrite Z.land_spec, H1, H2 in H.
Qed.

Lemma not_check_m c b : b = 11 \/ b = 3 \/ b = 7 -> check_m c b = false -> ~ takeable c b.
Proof. intros Hb E Ht. apply (check_m_takeable c b Hb) in Ht. congruence. Qed.

Lemma not_check_s c b : b = 9 \/ b = 1 \/ b = 5 -> check_s c b = false -> ~ takeable c b.
Proof. intros Hb E Ht. apply (check_s_takeable c b Hb) in Ht. congruence. Qed.

Ltac not_takeable :=
  repeat constructor;
  first [apply not_check_m; [lia|assumption] | apply not_check_s; [lia|assumption]].

(** C0: [pending_interrupt] returns the first takeable interrupt in the order MEI, MSI,
    MTI, SEI, SSI, STI, and -1 exactly when there is none; an S-level interrupt is
    never taken in M-mode. *)
Theorem pending_interrupt_correct c :
  let r := pending_interrupt c in
  (r = -1 /\ Forall (fun b => ~ takeable c b) interrupt_order \/
   exists l1 l2, interrupt_order = l1 ++ r :: l2 /\ takeable c r /\
     Forall (fun b => ~ takeable c b) l1) /\
  (priv c = PRIV_M -> r <> 9 /\ r <> 1 /\ r <> 5).
Proof.
  intros r.
  split.
  - unfold r, pending_interrupt. destruct (Z.eqb_spec (mip c .& mie c) 0) as [E|E].
    { left. split; [done|]. repeat constructor; intros Ht;
        (eapply takeable_pending; [|exact Ht|exact E]; lia). }
    destruct (check_m c 11) eqn:E1;
      [right; exists [], [3;7;9;1;5]; split_and!; [done|apply check_m_takeable; [lia|done]|not_takeable]|].
    destruct (check_m c 3) eqn:E2;
      [right; exists [11], [7;9;1;5]; split_and!; [done|apply check_m_takeable; [lia|done]|not_takeable]|].
    destruct (check_m c 7) eqn:E3;
      [right; exists [11;3], [9;1;5]; split_and!; [done|apply check_m_takeable; [lia|done]|not_takeable]|].
    destruct (check_s c 9) eqn:E4;
      [right; exists [11;3;7], [1;5]; split_and!; [done|apply check_s_takeable; [lia|done]|not_takeable]|].
    destruct (check_s c 1) eqn:E5;
      [right; exists [11;3;7;9], [5]; split_and!; [done|apply check_s_takeable; [lia|done]|not_takeable]|].
    destruct (check_s c 5) eqn:E6;
      [right; exists [11;3;7;9;1], []; split_and!; [done|apply check_s_takeable; [lia|done]|not_takeable]|].
    left. split; [done|]. not_takeable.
  - intros HM. unfold r, pending_interrupt.
    assert (Hn : forall b, check_s c b = false).
    { intros b. unfold check_s, s_enabled. by rewrite HM. }
    rewrite !Hn. repeat case_match; done.
Qed.

(** ** PMP *)

Lemma land_1_testbit v : ((v .& 1) =? 1) = Z.testbit v 0.
Proof.
  replace (v .& 1) with (v mod 2) by (symmetry; apply (Z.land_ones v 1); lia).
  rewrite Z.bit0_odd, Zmod_odd. by destruct (Z.odd v).
Qed.

(** The size loop counts the low ones of the address. *)
Lemma napot_log2sz_count (k fuel : nat) v l :
  (forall i, 0 <= i < Z.of_nat k -> Z.testbit v i = true) -> Z.testbit v (Z.of_nat k) = false ->
  (k < fuel)%nat -> l + Z.of_nat k <= 64 -> napot_log2sz fuel v l = l + Z.of_nat k.
Proof.
  revert fuel v l. induction k as [|k IH]; intros fuel v l H1 H0 Hf Hl;
    (destruct fuel as [|fuel]; [lia|]); cbn [napot_log2sz]; rewrite land_1_testbit.
  - change (Z.of_nat 0) with 0 in H0. rewrite H0. cbn [andb]. lia.
  - rewrite H1 by lia. cbn [andb]. rewrite (proj2 (Z.ltb_lt _ _)) by lia.
    rewrite IH; [lia|..|lia|lia].
    + intros i Hi. rewrite Z.shiftr_spec by lia. apply H1. lia.
    + rewrite Z.shiftr_spec by lia. rewrite <-H0. f_equal. lia.
Qed.

(** The NAPOT encoding of the naturally aligned region of 2^n bytes at [base]. *)
Definition napot_encode (base n : Z) : Z := (base .>> 2) .| Z.ones (n - 3).

Lemma testbit_napot base n i :
  3 <= n -> 0 <= i ->
  Z.testbit (napot_encode base n) i = Z.testbit base (i + 2) || (i <? n - 3).
Proof.
  intros Hn Hi. unfold napot_encode. rewrite Z.lor_spec, Z.shiftr_spec by lia. f_equal.
  destruct (Z.ltb_spec i (n - 3)); [by apply Z.ones_spec_low|by apply Z.ones_spec_high; lia].
Qed.

(** NAPOT decoding: a PMP entry whose address register encodes the naturally
    aligned 2^n-byte region at [base] covers exactly [base, base + 2^n). *)
Theorem pmp_napot_range c i base n :
  3 <= n <= 56 -> 0 <= base -> base + 2 ^ n <= 2 ^ 56 -> (forall j, 0 <= j < n -> Z.testbit base j = false) ->
  pmpaddr_at c i = napot_encode base n ->
  pmp_range c i 3 = (base, base + 2 ^ n).
Proof.
  intros Hn Hb Hf Hal He. unfold pmp_range. cbn [Z.eqb Pos.eqb].
  assert (Hpos : 0 < 2 ^ n) by (apply pow2_pos; lia).
  assert (Hbf : fits 56 base) by (unfold fits; lia).
  assert (Hsz : napot_log2sz 64 (pmpaddr_at c i) 3 = n).
  { rewrite He, (napot_log2sz_count (Z.to_nat (n - 3))) by
      first [ lia
            | intros j Hj; rewrite testbit_napot by lia;
              rewrite (proj2 (Z.ltb_lt _ _)) by lia; apply orb_true_r
            | rewrite testbit_napot by lia; rewrite Hal by lia;
              rewrite (proj2 (Z.ltb_ge _ _)) by lia; done ].
    lia. }
  rewrite Hsz. cbv zeta. rewrite (proj2 (Z.leb_gt _ _)) by lia.
  assert (Hbase : u64 (pmpaddr_at c i .<< 2) .&~ ((1 .<< n) - 1) = base).
  { rewrite He. replace ((1 .<< n) - 1) with (Z.ones n)
      by (unfold Z.ones; rewrite Z.sub_1_r; done).
    apply Z.bits_inj'; intros j Hj. rewrite Z.ldiff_spec, testbit_wrap, Z.shiftl_spec by lia.
    destruct (Z.lt_ge_cases j n).
    - rewrite Z.ones_spec_low, Hal by lia. by rewrite andb_false_r.
    - rewrite Z.ones_spec_high, testbit_napot by lia.
      rewrite (proj2 (Z.ltb_ge (j - 2) (n - 3))), orb_false_r, andb_true_r by lia.
      replace (j - 2 + 2) with j by lia. destruct (Z.ltb_spec j 64); simpl; [done|].
      symmetry. apply (fits_testbit 56); [lia|done|lia]. }
  rewrite Hbase. f_equal. rewrite Z.shiftl_mul_pow2, Z.mul_1_l by lia.
  apply wrap_small. unfold fits. lia.
Qed.

(** PMP with no active entry permits everything; M-mode is refused only by a
    locked entry; S and U are refused an address that no active entry covers. *)
Theorem pmp_check_modes paddr size w x c :
  (Forall (fun i => pmp_a (pmp_cfg c i) = 0) pmp_indices -> pmp_check paddr size w x c = true) /\
  (priv c = PRIV_M -> Forall (fun i => Z.testbit (pmp_cfg c i) 7 = false) pmp_indices ->
     pmp_check paddr size w x c = true) /\
  (priv c <> PRIV_M -> Exists (fun i => pmp_a (pmp_cfg c i) <> 0) pmp_indices ->
     Forall (fun i => pmp_entry c paddr size w x i = None) pmp_indices ->
     pmp_check paddr size w x c = false).
Proof.
  unfold pmp_check. split_and!.
  - intros H. assert (existsb (fun i => negb (pmp_a (pmp_cfg c i) =? 0)) pmp_indices = false) as ->.
    { apply not_true_iff_false. intros (i & Hi & Ha)%existsb_exists.
      rewrite Forall_forall in H. by rewrite H in Ha. }
    done.
  - intros HM H. destruct (negb _); [done|].
    induction H as [|i l Hi H IH]; simpl; [by rewrite HM|].
    destruct (pmp_entry c paddr size w x i) as [b|] eqn:E; [|exact IH].
    unfold pmp_entry in E. destruct (pmp_a (pmp_cfg c i) =? 0); [done|].
    destruct (pmp_range _ _ _) as [base top]. case_match; [|done].
    rewrite HM, Hi in E. by injection E as <-.
  - intros HM Ha H.
    assert (existsb (fun i => negb (pmp_a (pmp_cfg c i) =? 0)) pmp_indices = true) as ->.
    { apply existsb_exists. apply Exists_exists in Ha as (i & Hi & Hai). exists i. split; [done|].
      by apply negb_true_iff, Z.eqb_neq. }
    clear Ha. simpl negb. cbv iota. induction H as [|i l Hi H IH]; simpl; [by apply Z.eqb_neq|].
    by rewrite Hi, IH.
Qed.

(** ** Preservation of well-formedness *)

Lemma mask_disjoint r v m w :
  m .& w = 0 -> ((r .&~ m) .| (v .& m)) .& w = r .& w.
Proof.
  intros Hmw. apply Z.bits_inj'; intros i Hi.
  assert (Z.testbit m i && Z.testbit w i = false) as Hi0
    by (rewrite <-Z.land_spec, Hmw; apply Z.bits_0).
  rewrite !Z.land_spec, Z.lor_spec, Z.ldiff_spec, Z.land_spec.
  by destruct (Z.testbit r i), (Z.testbit v i), (Z.testbit m i), (Z.testbit w i).
Qed.

Lemma land_mask_idem v m : (v .& m) .&~ m = 0.
Proof. bits_ext i. by destruct (Z.testbit v i), (Z.testbit m i). Qed.

Lemma mask_sub r v d m : r .&~ m = 0 -> d .&~ m = 0 -> ((r .&~ d) .| (v .& d)) .&~ m = 0.
Proof.
  intros Hr Hd. apply Z.bits_inj'; intros i Hi. rewrite Z.bits_0.
  assert (Z.testbit r i && negb (Z.testbit m i) = false) as H1
    by (rewrite <-Z.ldiff_spec, Hr; apply Z.bits_0).
  assert (Z.testbit d i && negb (Z.testbit m i) = false) as H2
    by (rewrite <-Z.ldiff_spec, Hd; apply Z.bits_0).
  rewrite Z.ldiff_spec, Z.lor_spec, Z.ldiff_spec, Z.land_spec.
  by destruct (Z.testbit r i), (Z.testbit v i), (Z.testbit d i), (Z.testbit m i).
Qed.

Lemma fits_mask_update r v m : fits 64 r -> fits 64 v -> fits 64 ((r .&~ m) .| (v .& m)).
Proof.
  intros Hr Hv. apply fits_lor; [lia|by apply fits_ldiff|].
  apply fits_intro_testbit; [lia|apply Z.land_nonneg; unfold fits in *; lia|].
  intros i Hi. rewrite Z.land_spec, (fits_testbit 64) by (done || lia). done.
Qed.

Lemma mideleg_in_mie d : d .&~ MIDELEG_MASK = 0 -> d .&~ MIE_MASK = 0.
Proof.
  intros Hd. apply Z.bits_inj'; intros i Hi. rewrite Z.bits_0, Z.ldiff_spec.
  assert (Z.testbit d i && negb (Z.testbit MIDELEG_MASK i) = false) as H
    by (rewrite <-Z.ldiff_spec, Hd; apply Z.bits_0).
  assert (Z.testbit MIDELEG_MASK i && negb (Z.testbit MIE_MASK i) = false) as H2
    by (rewrite <-Z.ldiff_spec; apply Z.bits_0).
  by destruct (Z.testbit d i), (Z.testbit MIDELEG_MASK i), (Z.testbit MIE_MASK i).
Qed.

Lemma clear_bit1 v : Z.testbit (v .&~ 2) 1 = false.
Proof. rewrite Z.ldiff_spec. apply andb_false_r. Qed.

Lemma frm_in_fcsr f v :
  f .&~ 0xFF = 0 -> (((f .&~ 0xE0) .| ((v .& 0x7) .<< 5)) .&~ 0xFF) = 0.
Proof.
  intros Hf. apply Z.bits_inj'; intros i Hi.
  assert (Z.testbit f i && negb (Z.testbit 0xFF i) = false) as H1
    by (rewrite <-Z.ldiff_spec, Hf; apply Z.bits_0).
  rewrite Z.bits_0, Z.ldiff_spec, Z.lor_spec, Z.ldiff_spec, Z.shiftl_spec, Z.land_spec by lia.
  assert (Z.testbit 7 (i - 5) && negb (Z.testbit 0xFF i) = false) as H2.
  { rewrite <-(Z.shiftl_spec 7 5), <-Z.ldiff_spec by lia. apply Z.bits_0. }
  by destruct (Z.testbit f i), (Z.testbit 0xE0 i), (Z.testbit v (i - 5)), (Z.testbit 7 (i - 5)),
    (Z.testbit 0xFF i).
Qed.

Lemma csr_write_wf a v c : fits 64 v -> csr_wf c -> csr_wf (csr_write a v c).2.
Proof.
  intros Hv Hwf. destruct (csr_write a v c) as [ok c'] eqn:E. destruct ok.
  - apply csr_write_inv in E as (_ & _ & H). destruct Hwf.
    csr_branches H c'; cbv zeta; try (destruct (_ || _) eqn:Emode).
    all: split; cbn [snd tset set gafu_getter gafu_field_updater
       RecordSettersUsingExistingGetters.const
       pmpcfg pmpaddr priv mstatus misa medeleg mideleg mie mip mtvec mcounteren menvcfg mscratch
       mepc mcause mtval stvec scounteren sscratch sepc scause stval satp mcycle minstret fcsr].
    all: try assumption.
    all: try (rewrite length_insert; assumption).
    all: try apply land_mask_idem.
    all: try apply clear_bit1.
    all: try (apply fits_mask_update; assumption).
    all: try (apply fits_ldiff; [lia|assumption]).
    all: try (rewrite mask_disjoint by reflexivity; assumption).
    all: try (apply mask_sub; [assumption|]; first [reflexivity | by apply mideleg_in_mie]).
    + apply orb_true_iff in Emode. by rewrite !Z.eqb_eq in Emode.
    + by apply frm_in_fcsr.
  - unfold csr_write in E. repeat case_match; by simplify_eq.
Qed.

Lemma copy_bit_fits f t r :
  0 <= f < 64 -> 0 <= t < 64 -> fits 64 r -> fits 64 (copy_bit (1 .<< f) (1 .<< t) r).
Proof.
  intros Hf Ht Hr. unfold copy_bit. case_match; [|by apply fits_ldiff].
  apply fits_lor; [lia|done|]. rewrite Z.shiftl_mul_pow2, Z.mul_1_l by lia.
  split; [apply Z.pow_nonneg; lia|]. apply Z.pow_lt_mono_r; lia.
Qed.

(** The SXL field only depends on bits 34 and 35. *)
Lemma sxl_ext m m' :
  Z.testbit m' 34 = Z.testbit m 34 -> Z.testbit m' 35 = Z.testbit m 35 ->
  m' .& MSTATUS_SXL = m .& MSTATUS_SXL.
Proof.
  intros H1 H2. apply Z.bits_inj'; intros i Hi. unfold MSTATUS_SXL.
  rewrite !Z.land_spec, testbit_three by lia.
  destruct (Z.eqb_spec i 34) as [->|]; [by rewrite H1|].
  destruct (Z.eqb_spec i (34 + 1)) as [->|]; [|by rewrite !andb_false_r].
  change (34 + 1) with 35. by rewrite H2.
Qed.

Lemma priv_shift_fits p : fits 2 p -> fits 64 (p .<< 11).
Proof. intros Hp. unfold fits in *. rewrite Z.shiftl_mul_pow2 by lia. lia. Qed.

Lemma trap_to_M_wf cause epc tval c :
  fits 64 epc -> csr_wf c -> csr_wf (trap_to_M cause epc tval c).2.
Proof.
  intros He Hwf. pose proof Hwf as [].
  split; try assumption.
  - cbn. unfold PRIV_M, fits. lia.
  - unfold trap_to_M, MSTATUS_MIE, MSTATUS_MPIE. cbn [snd mstatus tset set gafu_getter
      gafu_field_updater RecordSettersUsingExistingGetters.const].
    apply fits_lor; [lia| |by apply priv_shift_fits].
    apply fits_ldiff; [lia|]. apply fits_ldiff; [lia|]. apply copy_bit_fits; (lia || done).
  - rewrite <-cwf_sxl0. apply sxl_ext; by rewrite trap_to_M_mstatus.
Qed.

Lemma trap_to_S_wf cause epc tval c :
  fits 64 epc -> csr_wf c -> csr_wf (trap_to_S cause epc tval c).2.
Proof.
  intros He Hwf. pose proof Hwf as [].
  split; try assumption.
  - cbn. unfold PRIV_S, fits. lia.
  - unfold trap_to_S, MSTATUS_SIE, MSTATUS_SPIE. cbn [snd mstatus tset set gafu_getter
      gafu_field_updater RecordSettersUsingExistingGetters.const].
    apply fits_lor; [lia| |case_match; fits_const].
    apply fits_ldiff; [lia|]. apply fits_ldiff; [lia|]. apply copy_bit_fits; (lia || done).
  - rewrite <-cwf_sxl0. apply sxl_ext; by rewrite trap_to_S_mstatus.
Qed.

Lemma mret_wf c : csr_wf c -> csr_wf (mret c).2.
Proof.
  intros Hwf. pose proof Hwf as []. split; try assumption.
  - apply mret_priv.
  - unfold mret, MSTATUS_MIE, MSTATUS_MPIE. cbn [snd mstatus tset set gafu_getter
      gafu_field_updater RecordSettersUsingExistingGetters.const].
    apply fits_ldiff; [lia|]. apply fits_lor; [lia|apply copy_bit_fits; (lia || done)|].
    fits_const.
  - rewrite <-cwf_sxl0. apply sxl_ext; by rewrite mret_mstatus.
Qed.

Lemma sret_wf c : csr_wf c -> csr_wf (sret c).2.
Proof.
  intros Hwf. pose proof Hwf as []. split; try assumption.
  - unfold sret. cbn [snd priv tset set gafu_getter gafu_field_updater
      RecordSettersUsingExistingGetters.const]. case_match; unfold fits, PRIV_S, PRIV_U; lia.
  - unfold sret, MSTATUS_SIE, MSTATUS_SPIE. cbn [snd mstatus tset set gafu_getter
      gafu_field_updater RecordSettersUsingExistingGetters.const].
    apply fits_ldiff; [lia|]. apply fits_lor; [lia|apply copy_bit_fits; (lia || done)|].
    fits_const.
  - rewrite <-cwf_sxl0. apply sxl_ext; by rewrite sret_mstatus.
Qed.

Lemma set_fflags_wf f c : csr_wf c -> csr_wf (set_fflags f c).
Proof.
  intros Hwf. pose proof Hwf as []. split; try assumption. cbn.
  apply Z.bits_inj'; intros i Hi.
  assert (Z.testbit (fcsr c) i && negb (Z.testbit 0xFF i) = false) as H1
    by (rewrite <-Z.ldiff_spec, cwf_fcsr0; apply Z.bits_0).
  assert (Z.testbit 0x1F i && negb (Z.testbit 0xFF i) = false) as H2
    by (rewrite <-Z.ldiff_spec; apply Z.bits_0).
  rewrite Z.bits_0, Z.ldiff_spec, Z.lor_spec, Z.land_spec.
  by destruct (Z.testbit (fcsr c) i), (Z.testbit f i), (Z.testbit 0x1F i), (Z.testbit 0xFF i).
Qed.

Lemma csr_new_wf : csr_wf csr_new.
Proof.
  split; try reflexivity; try fits_const. by left.
Qed.

(** The operations of the hart on its CSRs. *)
Inductive csr_step : CSR_File -> CSR_File -> Prop :=
  | cs_write a v c : fits 64 v -> csr_step c (csr_write a v c).2
  | cs_exception cause epc tval c : fits 64 epc -> csr_step c (take_exception cause epc tval c).2
  | cs_interrupt cause epc c : fits 64 epc -> csr_step c (take_interrupt cause epc c).2
  | cs_mret c : csr_step c (mret c).2
  | cs_sret c : csr_step c (sret c).2
  | cs_tick n c : csr_step c (tick_counters n c)
  | cs_fflags f c : csr_step c (set_fflags f c).

(** From reset, no sequence of writes, traps, returns and ticks leaves the
    well-formed states: reserved and read-only fields (SXL, the delegation, enable
    and counter masks, vector modes, satp modes) keep their legal values. *)
Theorem csr_reachable_wf c : rtc csr_step csr_new c -> csr_wf c.
Proof.
  intros H. assert (Hind : forall c0, rtc csr_step c0 c -> csr_wf c0 -> csr_wf c).
  { clear H. intros c0 H. induction H as [c0|c0 c1 c2 Hst _ IH]; intros Hwf; [done|]. apply IH.
    destruct Hst; [by apply csr_write_wf|..|by apply mret_wf|by apply sret_wf| |by apply set_fflags_wf].
    - unfold take_exception. case_match; [by apply trap_to_S_wf|by apply trap_to_M_wf].
    - unfold take_interrupt. case_match; [by apply trap_to_S_wf|by apply trap_to_M_wf].
    - destruct Hwf. split; try assumption; cbn; apply wrap_fits; lia. }
  apply (Hind _ H csr_new_wf).
Qed.

(** ** Witnesses and findings *)

Example csr_write_read_witness :
  exists r r', csr_read CSR_SSTATUS csr_new = Some r /\
    csr_read CSR_SSTATUS (csr_write CSR_SSTATUS (mstatus csr_new .| 0xC0122) csr_new).2 = Some r' /\
    r' = (r .&~ 0xC6122) .| (0xC0122 .& 0xC6122).
Proof.
  destruct (csr_write_read CSR_SSTATUS (mstatus csr_new .| 0xC0122) csr_new
    (csr_write CSR_SSTATUS (mstatus csr_new .| 0xC0122) csr_new).2 csr_new_wf)
    as (r & r' & E1 & E2 & E3); [reflexivity..|]. exists r, r'. split_and!; [exact E1|exact E2|].
  rewrite E3. vm_compute in E1. injection E1 as <-. reflexivity.
Defined.

Example csr_write_frame_witness :
  csr_read CSR_MEPC (csr_write CSR_MTVEC 0x80000001 csr_new).2 = csr_read CSR_MEPC csr_new.
Proof.
  apply (csr_write_frame CSR_MTVEC 0x80000001 CSR_MEPC).
  - reflexivity.
  - vm_compute. intros [H|[]]. discriminate H.
Defined.

Example csr_access_checks_witness :
  csr_write CSR_MSTATUS 8 { csr_new with priv := PRIV_U } = (false, { csr_new with priv := PRIV_U }).
Proof.
  destruct (csr_access_checks CSR_MSTATUS 8 { csr_new with priv := PRIV_U }) as [H _].
  apply H. reflexivity.
Defined.

(** A user-mode hart with interrupts enabled, and a trap vector in vectored mode. *)
Definition csr_user : CSR_File :=
  { csr_new with priv := PRIV_U; mstatus := 0xA00000008; mtvec := 0x80000001; stvec := 0x80400001;
                 medeleg := 0xB100; mideleg := 0x222; mie := 0xAAA; mip := 0x220 }.

Example trap_M_mret_witness :
  (mret (trap_to_M CAUSE_ECALL_U 0x80000123 7 csr_user).2).1 = 0x80000123 /\
  priv (mret (trap_to_M CAUSE_ECALL_U 0x80000123 7 csr_user).2).2 = PRIV_U.
Proof.
  pose proof (trap_M_mret CAUSE_ECALL_U 0x80000123 7 csr_user ltac:(fits_const)) as H.
  split; apply H.
Defined.

Example trap_S_sret_witness :
  priv (sret (trap_to_S CAUSE_ECALL_U 0x80000123 7 csr_user).2).2 = PRIV_U.
Proof. apply (trap_S_sret CAUSE_ECALL_U 0x80000123 7 csr_user). left. reflexivity. Defined.

Example take_trap_target_witness :
  (take_interrupt 9 0x1000 csr_user).1 = 0x80400024 /\
  (take_exception CAUSE_LOAD_PAGE_FAULT 0x1000 0 csr_user).1 = 0x80400000.
Proof.
  pose proof (take_trap_target 9 0x1000 0 csr_user ltac:(lia) ltac:(left; reflexivity)) as H9.
  pose proof (take_trap_target CAUSE_LOAD_PAGE_FAULT 0x1000 0 csr_user
    ltac:(vm_compute; split; [discriminate|reflexivity]) ltac:(left; reflexivity)) as H13.
  destruct (take_interrupt 9 0x1000 csr_user) as [pc9 c9] eqn:E9.
  destruct (take_exception CAUSE_LOAD_PAGE_FAULT 0x1000 0 csr_user) as [pc13 c13] eqn:E13.
  split; revert E9 E13; vm_compute; congruence.
Defined.

Example pmp_napot_range_witness :
  pmp_range { csr_new with pmpaddr := <[0%nat := napot_encode 0x80000000 16]> (pmpaddr csr_new) } 0 3
    = (0x80000000, 0x80010000).
Proof.
  apply (pmp_napot_range _ 0 0x80000000 16); [lia|lia|lia| |reflexivity].
  intros j Hj. assert (H : forallb (fun k => negb (Z.testbit 0x80000000 (Z.of_nat k))) (seq 0 16) = true)
    by (vm_compute; reflexivity).
  rewrite forallb_forall in H. specialize (H (Z.to_nat j)). rewrite Z2Nat.id in H by lia.
  apply negb_true_iff, H, in_seq. lia.
Defined.

Example pmp_check_modes_witness : pmp_check 0x80000000 8 true false csr_user = true.
Proof.
  destruct (pmp_check_modes 0x80000000 8 true false csr_user) as [H _].
  apply H. repeat constructor.
Defined.

Example csr_reachable_wf_witness : csr_wf (mret (csr_write CSR_MSTATUS 0x1800 csr_new).2).2.
Proof.
  apply csr_reachable_wf.
  eapply rtc_l; [apply (cs_write CSR_MSTATUS 0x1800); unfold fits; lia|].
  apply rtc_once, cs_mret.
Defined.

(** The UXL field is read-only for mstatus but an sstatus write changes it. *)
Example sstatus_write_changes_uxl :
  (mstatus csr_new .& MSTATUS_UXL) .>> 32 = 2 /\
  (mstatus (csr_write CSR_SSTATUS 0 csr_new).2 .& MSTATUS_UXL) .>> 32 = 0.
Proof. vm_compute. done. Qed.

(** MPP accepts the reserved value 2, and [mret] then enters privilege mode 2. *)
Example mret_reserved_privilege :
  priv (mret (csr_write CSR_MSTATUS (2 .<< 11) csr_new).2).2 = 2.
Proof. reflexivity. Qed.

(** A supervisor interrupt that is pending, enabled and {e not} delegated is never
    taken, in any mode. *)
Example undelegated_supervisor_interrupt_lost :
  pending_interrupt { csr_user with mideleg := 0 } = -1.
Proof. reflexivity. Qed.

(** An access that starts in an entry and runs past its end is allowed. *)
Example pmp_check_ignores_the_end :
  let c := { csr_user with priv := PRIV_S; pmpcfg := [0x11; 0; 0; 0];
             pmpaddr := <[0%nat := 0x400]> (pmpaddr csr_new) } in
  pmp_range c 0 2 = (0x1000, 0x1004) /\ pmp_check 0x1000 8 false false c = true /\
  pmp_check 0x1004 4 false false c = false.
Proof. vm_compute. done. Qed.
