(* ===== verification/CSRWidth.v ===== *)
(** The registers of [CSR.v] at their width: every register holds a 64-bit value, whatever is
    read is one, and no operation leaves the range. *)
From S2P Require Import Prelude CSR.

Record csr_fits (c : CSR_File) : Prop := {
  cf_mstatus : fits 64 (mstatus c);
  cf_misa : fits 64 (misa c);
  cf_medeleg : fits 64 (medeleg c);
  cf_mideleg : fits 64 (mideleg c);
  cf_mie : fits 64 (mie c);
  cf_mip : fits 64 (mip c);
  cf_mtvec : fits 64 (mtvec c);
  cf_mcounteren : fits 64 (mcounteren c);
  cf_menvcfg : fits 64 (menvcfg c);
  cf_mscratch : fits 64 (mscratch c);
  cf_mepc : fits 64 (mepc c);
  cf_mcause : fits 64 (mcause c);
  cf_mtval : fits 64 (mtval c);
  cf_stvec : fits 64 (stvec c);
  cf_scounteren : fits 64 (scounteren c);
  cf_sscratch : fits 64 (sscratch c);
  cf_sepc : fits 64 (sepc c);
  cf_scause : fits 64 (scause c);
  cf_stval : fits 64 (stval c);
  cf_satp : fits 64 (satp c);
  cf_mcycle : fits 64 (mcycle c);
  cf_minstret : fits 64 (minstret c);
  cf_fcsr : fits 64 (fcsr c);
  cf_pmpcfg : Forall (fits 64) (pmpcfg c);
  cf_pmpaddr : Forall (fits 64) (pmpaddr c)
}.

Ltac csr_cbn := cbn [snd fst tset set gafu_getter gafu_field_updater
  RecordSettersUsingExistingGetters.const
  pmpcfg pmpaddr priv mstatus misa medeleg mideleg mie mip mtvec mcounteren menvcfg mscratch
  mepc mcause mtval stvec scounteren sscratch sepc scause stval satp mcycle minstret fcsr].

Lemma fits_masked v m : fits 64 v -> fits 64 (v .& m).
Proof.
  intros Hv. apply fits_intro_testbit; [lia|apply Z.land_nonneg; unfold fits in *; lia|].
  intros i Hi. by rewrite Z.land_spec, (fits_testbit 64) by (done || lia).
Qed.

Lemma fits_low_field v k n : 0 <= k -> 0 <= n -> k + n <= 64 -> fits 64 ((v .& Z.ones k) .<< n).
Proof.
  intros Hk Hn Hs. rewrite Z.shiftl_mul_pow2, land_ones_mod by lia.
  pose proof (Z.mod_pos_bound v (2 ^ k) (pow2_pos k Hk)). pose proof (pow2_pos n Hn).
  assert (2 ^ k * 2 ^ n <= 2 ^ 64) by (rewrite <-Z.pow_add_r by lia; apply Z.pow_le_mono_r; lia).
  unfold fits. nia.
Qed.

Lemma fits_land_low v : fits 64 (v .& 0x1F).
Proof. rewrite <-(Z.shiftl_0_r (v .& 0x1F)). apply (fits_low_field v 5 0); lia. Qed.

Lemma default_fits (l : list Z) i : Forall (fits 64) l -> fits 64 (default 0 (l !! i)).
Proof.
  intros Hl. destruct (l !! i) as [x|] eqn:E; [by eapply Forall_lookup_1|]. fits_const.
Qed.

Definition value_fits (r : option Z) : Prop := match r with Some v => fits 64 v | None => True end.

Lemma value_fits_if (b : bool) v r : fits 64 v -> value_fits r -> value_fits (if b then Some v else r).
Proof. by destruct b. Qed.

Lemma csr_read_fits a c : csr_fits c -> value_fits (csr_read a c).
Proof.
  intros []. unfold csr_read. destruct (priv c <? _); [exact I|]. unfold csr_read_reg.
  repeat (apply value_fits_if;
    [first [ assumption | by apply default_fits | apply fits_masked; assumption
           | apply fits_ldiff; [lia|assumption] | apply fits_masked, fits_shiftr; [lia|lia|assumption]
           | fits_const ] |]).
  exact I.
Qed.

Lemma csr_write_fits a v c : fits 64 v -> csr_fits c -> csr_fits (csr_write a v c).2.
Proof.
  intros Hv Hc. destruct (csr_write a v c) as [ok c'] eqn:E. destruct ok.
  - apply csr_write_inv in E as (_ & _ & H). destruct Hc.
    csr_branches H c'; cbv zeta; try (destruct (_ || _) eqn:Emode).
    all: split; csr_cbn.
    all: try assumption.
    all: try (by apply Forall_insert).
    all: try (apply fits_mask_update; assumption).
    all: try (apply fits_masked; assumption).
    all: try (apply fits_ldiff; [lia|assumption]).
    + rewrite <-Z.land_assoc. by apply fits_mask_update.
    + apply fits_lor; [lia|apply fits_ldiff; [lia|assumption]|apply (fits_low_field v 3 5); lia].
  - unfold csr_write in E. repeat case_match; by simplify_eq.
Qed.

Lemma trap_vector_fits tvec cause : fits 64 tvec -> fits 64 (trap_vector tvec cause).
Proof.
  intros Ht. unfold trap_vector. case_match; [apply wrap_fits; lia|by apply fits_ldiff].
Qed.

Lemma trap_to_M_fits cause epc tval c :
  fits 64 cause -> fits 64 epc -> fits 64 tval -> csr_wf c -> csr_fits c ->
  fits 64 (trap_to_M cause epc tval c).1 /\ csr_fits (trap_to_M cause epc tval c).2.
Proof.
  intros Hc He Hv Hwf Hf. pose proof (trap_to_M_wf cause epc tval c He Hwf) as Hw. destruct Hf.
  split; [by apply trap_vector_fits|]. split; try assumption. apply Hw.
Qed.

Lemma trap_to_S_fits cause epc tval c :
  fits 64 cause -> fits 64 epc -> fits 64 tval -> csr_wf c -> csr_fits c ->
  fits 64 (trap_to_S cause epc tval c).1 /\ csr_fits (trap_to_S cause epc tval c).2.
Proof.
  intros Hc He Hv Hwf Hf. pose proof (trap_to_S_wf cause epc tval c He Hwf) as Hw. destruct Hf.
  split; [by apply trap_vector_fits|]. split; try assumption. apply Hw.
Qed.

(** A CSR file in range and with its legal values. *)
Definition csr_ok (c : CSR_File) : Prop := csr_wf c /\ csr_fits c.

Lemma take_exception_ok cause epc tval c :
  fits 64 cause -> fits 64 epc -> fits 64 tval -> csr_ok c ->
  fits 64 (take_exception cause epc tval c).1 /\ csr_ok (take_exception cause epc tval c).2.
Proof.
  intros Hc He Hv [Hw Hf]. unfold take_exception. cbv zeta. case_match.
  - destruct (trap_to_S_fits cause epc tval c) as [? ?]; [done..|].
    split; [done|]. split; [by apply trap_to_S_wf|done].
  - destruct (trap_to_M_fits cause epc tval c) as [? ?]; [done..|].
    split; [done|]. split; [by apply trap_to_M_wf|done].
Qed.

Lemma take_interrupt_ok cause epc c :
  fits 64 cause -> fits 64 epc -> csr_ok c ->
  fits 64 (take_interrupt cause epc c).1 /\ csr_ok (take_interrupt cause epc c).2.
Proof.
  intros Hc He [Hw Hf]. unfold take_interrupt. cbv zeta.
  assert (fits 64 (cause .| (1 .<< 63))) as Hi by (apply fits_lor; [lia|done|fits_const]).
  assert (fits 64 0) as H0 by fits_const. case_match.
  - destruct (trap_to_S_fits (cause .| (1 .<< 63)) epc 0 c) as [? ?]; [done..|].
    split; [done|]. split; [by apply trap_to_S_wf|done].
  - destruct (trap_to_M_fits (cause .| (1 .<< 63)) epc 0 c) as [? ?]; [done..|].
    split; [done|]. split; [by apply trap_to_M_wf|done].
Qed.

Lemma csr_write_ok a v c : fits 64 v -> csr_ok c -> csr_ok (csr_write a v c).2.
Proof. intros Hv [? ?]. split; [by apply csr_write_wf|by apply csr_write_fits]. Qed.

Lemma mret_ok c : csr_ok c -> fits 64 (mret c).1 /\ csr_ok (mret c).2.
Proof.
  intros [Hw Hf]. pose proof (mret_wf c Hw) as Hw'. destruct Hf.
  split; [done|]. split; [done|]. split; try assumption. apply Hw'.
Qed.

Lemma sret_ok c : csr_ok c -> fits 64 (sret c).1 /\ csr_ok (sret c).2.
Proof.
  intros [Hw Hf]. pose proof (sret_wf c Hw) as Hw'. destruct Hf.
  split; [done|]. split; [done|]. split; try assumption. apply Hw'.
Qed.

Lemma set_fflags_ok f c : csr_ok c -> csr_ok (set_fflags f c).
Proof.
  intros [Hw Hf]. split; [by apply set_fflags_wf|]. destruct Hf. split; try assumption.
  unfold set_fflags. csr_cbn. apply fits_lor; [lia|assumption|].
  apply fits_land_low.
Qed.

Lemma tick_counters_ok n c : csr_ok c -> csr_ok (tick_counters n c).
Proof.
  intros [[] []]. split; split; try assumption; unfold tick_counters; csr_cbn; apply wrap_fits; lia.
Qed.

Lemma set_mip_ok v c : fits 64 v -> csr_ok c -> csr_ok { c with mip := v }.
Proof. intros Hv [[] []]. split; split; assumption. Qed.

Lemma csr_new_ok : csr_ok csr_new.
Proof.
  split; [apply csr_new_wf|]. split; try fits_const; apply Forall_replicate; fits_const.
Qed.
