(* ===== verification/MMU.v ===== *)
(** [inc/MMU.h]: the Sv39 memory management unit: instruction and data TLBs of 16
    entries and the three-level page-table walker.  The walker reaches memory through
    the [PhysMem] interface; a [None] result is an error report thrown by the memory
    interface.  [sv39] is the translation of the privileged specification, the check that
    the address is canonical and the page-table walk [sv39_walk], written over the byte array;
    the theorems relate the two. *)
From S2P Require Import Prelude Bytes Memory PhysMem TLB CSR.

Inductive access_t := FETCH | LOAD | STORE.

#[export] Instance access_t_eq_dec : EqDecision access_t.
Proof. solve_decision. Defined.

Record Result := mkResult {
  r_ok : bool;
  r_fault : bool;
  r_fault_cause : Z;
  r_paddr : Z;
  r_stall_cycles : Z;
}.

Record MMU := mkMMU {
  itlb : TLB;
  dtlb : TLB;
  ptw_cycles_per_level : Z;
  sfence_call_count : Z;
  itlb_hits : Z; itlb_misses : Z; dtlb_hits : Z; dtlb_misses : Z; ptw_walks : Z;
}.

Definition TLB_SIZE : nat := 16.

Definition mmu_new (ptw_mem_cycles : Z) : MMU :=
  mkMMU (tlb_new TLB_SIZE) (tlb_new TLB_SIZE) ptw_mem_cycles 0 0 0 0 0 0.

Definition make_paddr (ppn vaddr level : Z) : Z :=
  let offset_bits := 12 + level * 9 in
  let offset_mask := (1 .<< offset_bits) - 1 in
  u64 ((ppn .>> (level * 9)) .<< offset_bits) .| (vaddr .& offset_mask).

(** [perm]: bit 0 R, 1 W, 2 X, 3 U. *)
Definition check_perm (perm : Z) (atype : access_t) (priv mstatus : Z) : bool :=
  let pte_r := Z.testbit perm 0 in
  let pte_w := Z.testbit perm 1 in
  let pte_x := Z.testbit perm 2 in
  let pte_u := Z.testbit perm 3 in
  let sum := Z.testbit mstatus 18 in
  let mxr := Z.testbit mstatus 19 in
  if (priv =? PRIV_U) && negb pte_u then false
  else if (priv =? PRIV_S) && pte_u && (bool_decide (atype = FETCH) || negb sum) then false
  else match atype with
       | FETCH => pte_x
       | LOAD => pte_r || (mxr && pte_x)
       | STORE => pte_w
       end.

Definition fault_cause (atype : access_t) : Z :=
  match atype with
  | FETCH => CAUSE_INSTR_PAGE_FAULT
  | LOAD => CAUSE_LOAD_PAGE_FAULT
  | STORE => CAUSE_STORE_PAGE_FAULT
  end.

(** [vpn[level]], the nine index bits of a level. *)
Definition vpn_field (vaddr level : Z) : Z := (vaddr .>> (12 + 9 * level)) .& 0x1FF.

Inductive ptw_result :=
  | PtwOk (ppn perm level : Z) (global : bool) (cycles : Z)
  | PtwFault (cause cycles : Z).

Section mmu.
Context {S : Type} `{Target S}.

(** One level: read the PTE, then fault, descend or finish.  [n] levels remain, the
    current one is [n - 1]. *)
Fixpoint ptw_loop (cost : Z) (vaddr : Z) (atype : access_t) (priv mstatus : Z)
    (n : nat) (table_ppn cycles : Z) (s : S) : option ptw_result * S :=
  match n with
  | O => (Some (PtwFault (fault_cause atype) cycles), s)
  | Datatypes.S n' =>
    let level := Z.of_nat n' in
    let pte_addr := u64 (table_ppn .<< 12) .| (vpn_field vaddr level .<< 3) in
    match readDataMem64 pte_addr 8 s with
    | (None, s) => (None, s)
    | (Some pte, s) =>
      let cycles := cycles + cost in
      if negb (Z.testbit pte 0) then (Some (PtwFault (fault_cause atype) cycles), s)
      else
      let pte_r := Z.testbit pte 1 in
      let pte_x := Z.testbit pte 3 in
      if negb pte_r && negb pte_x then
        ptw_loop cost vaddr atype priv mstatus n' ((pte .>> 10) .& Z.ones 44) cycles s
      else
      let ppn_low_mask := if level =? 2 then 0x3FFFF else 0x1FF in
      if (0 <? level) && negb (((pte .>> 10) .& ppn_low_mask) =? 0)
      then (Some (PtwFault (fault_cause atype) cycles), s)
      else
      let perm := (pte .>> 1) .& 0xF in
      if negb (check_perm perm atype priv mstatus)
      then (Some (PtwFault (fault_cause atype) cycles), s)
      else
      let new_pte := pte .| (1 .<< 6) in
      let new_pte := match atype with STORE => new_pte .| (1 .<< 7) | _ => new_pte end in
      let res := PtwOk ((pte .>> 10) .& Z.ones 44) perm level (Z.testbit pte 5) cycles in
      if new_pte =? pte then (Some res, s)
      else match writeDataMem64 pte_addr new_pte 8 s with
           | (Some _, s) => (Some res, s)
           | (None, s) => (None, s)
           end
    end
  end.

Definition ptw (cost root_ppn vaddr : Z) (atype : access_t) (priv mstatus : Z) (s : S) :
    option ptw_result * S :=
  ptw_loop cost vaddr atype priv mstatus 3 root_ppn 0 s.

Definition tlb_of (atype : access_t) (m : MMU) : TLB :=
  match atype with FETCH => itlb m | _ => dtlb m end.
Definition set_tlb (atype : access_t) (t : TLB) (m : MMU) : MMU :=
  match atype with FETCH => { m with itlb := t } | _ => { m with dtlb := t } end.
Definition count_hit (atype : access_t) (m : MMU) : MMU :=
  match atype with
  | FETCH => { m with itlb_hits := u64 (itlb_hits m + 1) }
  | _ => { m with dtlb_hits := u64 (dtlb_hits m + 1) }
  end.
Definition count_miss (atype : access_t) (m : MMU) : MMU :=
  match atype with
  | FETCH => { m with itlb_misses := u64 (itlb_misses m + 1) }
  | _ => { m with dtlb_misses := u64 (dtlb_misses m + 1) }
  end.

Definition translate (vaddr : Z) (csr : CSR_File) (atype : access_t) (m : MMU) (s : S) :
    option Result * MMU * S :=
  let vm_active := (satp csr .>> 60) =? 8 in
  if negb vm_active || (priv csr =? PRIV_M)
  then (Some (mkResult true false 0 vaddr 0), m, s)
  else
  let asid := u16 ((satp csr .>> 44) .& 0xFFFF) in
  let '(hit, t) := tlb_lookup vaddr asid (tlb_of atype m) in
  let m := set_tlb atype t m in
  match hit with
  | Some (ppn, perm, level) =>
      let m := count_hit atype m in
      let fault := negb (check_perm perm atype (priv csr) (mstatus csr)) in
      (Some (mkResult true fault (if fault then fault_cause atype else 0)
               (make_paddr ppn vaddr level) 0), m, s)
  | None =>
      let m := count_miss atype m in
      let m := { m with ptw_walks := u64 (ptw_walks m + 1) } in
      let root_ppn := satp csr .& Z.ones 44 in
      match ptw (ptw_cycles_per_level m) root_ppn vaddr atype (priv csr) (mstatus csr) s with
      | (None, s) => (None, m, s)
      | (Some (PtwFault cause cycles), s) => (Some (mkResult false true cause 0 cycles), m, s)
      | (Some (PtwOk ppn perm level global cycles), s) =>
          let t := tlb_insert TLB_SIZE vaddr ppn asid perm level global (tlb_of atype m) in
          (Some (mkResult true false 0 (make_paddr ppn vaddr level) cycles),
           set_tlb atype t m, s)
      end
  end.
End mmu.

Definition sfence_vma (rs1_val rs2_val : Z) (rs1_zero rs2_zero : bool) (m : MMU) : MMU :=
  let asid := u16 (rs2_val .& 0xFFFF) in
  let m := { m with sfence_call_count := sfence_call_count m + 1 } in
  if rs1_zero && rs2_zero then
    { m with itlb := tlb_flush_all (itlb m); dtlb := tlb_flush_all (dtlb m) }
  else if rs1_zero then
    { m with itlb := tlb_flush_asid asid (itlb m); dtlb := tlb_flush_asid asid (dtlb m) }
  else if rs2_zero then
    { m with itlb := tlb_flush_va rs1_val (itlb m); dtlb := tlb_flush_va rs1_val (dtlb m) }
  else
    { m with itlb := tlb_flush_va_asid rs1_val asid (itlb m);
             dtlb := tlb_flush_va_asid rs1_val asid (dtlb m) }.

Definition mmu_flush_all (m : MMU) : MMU :=
  { m with itlb := tlb_invalidate_all (itlb m); dtlb := tlb_invalidate_all (dtlb m) }.

(** ** The specification: Sv39 translation over a byte array *)

Definition pte_V (p : Z) : bool := Z.testbit p 0.
Definition pte_R (p : Z) : bool := Z.testbit p 1.
Definition pte_W (p : Z) : bool := Z.testbit p 2.
Definition pte_X (p : Z) : bool := Z.testbit p 3.
Definition pte_U (p : Z) : bool := Z.testbit p 4.
Definition pte_ppn (p : Z) : Z := (p / 2 ^ 10) mod 2 ^ 44.
Definition pte_leaf (p : Z) : bool := pte_R p || pte_X p.

Definition va_vpn (va i : Z) : Z := (va / 2 ^ (12 + 9 * i)) mod 2 ^ 9.

Inductive walk_outcome := WalkFault | WalkLeaf (level pte pte_addr : Z).

(** The walk from the table at byte address [a], [level] levels below the root; every
    PTE read is an access memory accepts, and the encoding W without R, which the
    specification reserves, does not occur. *)
Inductive sv39_walk (dom : Z -> Z -> Prop) (m : bytemem) (va : Z) :
    nat -> Z -> walk_outcome -> Prop :=
  | walk_invalid i a :
      let at_ := a + va_vpn va (Z.of_nat i) * 8 in
      dom at_ 8 -> pte_V (load m at_ 8) = false -> sv39_walk dom m va i a WalkFault
  | walk_leaf i a :
      let at_ := a + va_vpn va (Z.of_nat i) * 8 in
      let p := load m at_ 8 in
      dom at_ 8 -> pte_V p = true -> pte_leaf p = true -> implb (pte_W p) (pte_R p) = true ->
      sv39_walk dom m va i a (WalkLeaf (Z.of_nat i) p at_)
  | walk_bottom a :
      let at_ := a + va_vpn va 0 * 8 in
      let p := load m at_ 8 in
      dom at_ 8 -> pte_V p = true -> pte_leaf p = false -> implb (pte_W p) (pte_R p) = true ->
      sv39_walk dom m va 0 a WalkFault
  | walk_next i a o :
      let at_ := a + va_vpn va (Z.of_nat (S i)) * 8 in
      let p := load m at_ 8 in
      dom at_ 8 -> pte_V p = true -> pte_leaf p = false -> implb (pte_W p) (pte_R p) = true ->
      sv39_walk dom m va i (pte_ppn p * 2 ^ 12) o -> sv39_walk dom m va (S i) a o.

(** A superpage must be aligned to its size. *)
Definition leaf_aligned (level p : Z) : bool := pte_ppn p mod 2 ^ (9 * level) =? 0.

Definition access_allowed (p : Z) (atype : access_t) (priv mstatus : Z) : Prop :=
  let sum := Z.testbit mstatus 18 in
  let mxr := Z.testbit mstatus 19 in
  (priv = PRIV_U -> pte_U p = true) /\
  (priv = PRIV_S -> pte_U p = true -> atype <> FETCH /\ sum = true) /\
  match atype with
  | FETCH => pte_X p = true
  | LOAD => pte_R p = true \/ (mxr = true /\ pte_X p = true)
  | STORE => pte_W p = true
  end.

Definition leaf_paddr (level p va : Z) : Z :=
  (pte_ppn p / 2 ^ (9 * level)) * 2 ^ (12 + 9 * level) + va mod 2 ^ (12 + 9 * level).

(** The outcome of a translation: [None] is a page fault. *)
Definition outcome_paddr (o : walk_outcome) (va : Z) (atype : access_t) (priv mstatus : Z)
    (res : option Z) : Prop :=
  match o with
  | WalkFault => res = None
  | WalkLeaf l p _ =>
      (leaf_aligned l p = true /\ access_allowed p atype priv mstatus /\
         res = Some (leaf_paddr l p va)) \/
      (~ (leaf_aligned l p = true /\ access_allowed p atype priv mstatus) /\ res = None)
  end.

(** ** Arithmetic of the code's bit operations *)

Definition perm_of (p : Z) : Z := (p .>> 1) .& 0xF.

Lemma testbit_perm p i : 0 <= i < 4 -> Z.testbit (perm_of p) i = Z.testbit p (i + 1).
Proof.
  intros Hi. unfold perm_of. change 0xF with (Z.ones 4).
  rewrite Z.land_spec, Z.shiftr_spec, Z.ones_spec_low by lia. by rewrite andb_true_r.
Qed.

Lemma check_perm_allowed p atype pr ms :
  check_perm (perm_of p) atype pr ms = true <-> access_allowed p atype pr ms.
Proof.
  unfold check_perm, access_allowed, pte_U, pte_R, pte_W, pte_X.
  rewrite !testbit_perm by lia.
  change (0 + 1) with 1. change (1 + 1) with 2. change (2 + 1) with 3. change (3 + 1) with 4.
  destruct (Z.eqb_spec pr PRIV_U), (Z.eqb_spec pr PRIV_S);
    [unfold PRIV_U, PRIV_S in *; lia|..];
    destruct atype, (Z.testbit p 1), (Z.testbit p 2), (Z.testbit p 3), (Z.testbit p 4),
      (Z.testbit ms 18), (Z.testbit ms 19); simpl; intuition congruence.
Qed.

Lemma vpn_field_spec va i : 0 <= i -> vpn_field va i = va_vpn va i.
Proof.
  intros. unfold vpn_field, va_vpn. change 0x1FF with (Z.ones 9).
  by rewrite land_ones_mod, Z.shiftr_div_pow2 by lia.
Qed.

Lemma va_vpn_range va i : 0 <= va_vpn va i < 512.
Proof. unfold va_vpn. apply Z.mod_pos_bound. lia. Qed.

Lemma pte_addr_spec ppn va i :
  0 <= i -> fits 44 ppn ->
  u64 (ppn .<< 12) .| (vpn_field va i .<< 3) = ppn * 2 ^ 12 + va_vpn va i * 8.
Proof.
  intros Hi Hp. rewrite vpn_field_spec by done. pose proof (va_vpn_range va i).
  unfold fits in Hp. rewrite (Z.shiftl_mul_pow2 _ 3) by lia.
  rewrite wrap_small by (unfold fits; rewrite Z.shiftl_mul_pow2 by lia; lia).
  rewrite lor_shiftl_add by (unfold fits; lia). lia.
Qed.

Lemma pte_ppn_code p : (p .>> 10) .& Z.ones 44 = pte_ppn p.
Proof. unfold pte_ppn. by rewrite land_ones_mod, Z.shiftr_div_pow2 by lia. Qed.

Lemma pte_ppn_fits p : fits 44 (pte_ppn p).
Proof. unfold pte_ppn. apply (wrap_fits 44). lia. Qed.

Lemma ppn_low_code p k : 0 <= k <= 44 -> (p .>> 10) .& Z.ones k = pte_ppn p mod 2 ^ k.
Proof.
  intros Hk. unfold pte_ppn. rewrite land_ones_mod, Z.shiftr_div_pow2 by lia.
  symmetry. apply mod_mod_pow2. lia.
Qed.

Lemma make_paddr_spec level p va :
  0 <= level <= 2 -> make_paddr (pte_ppn p) va level = leaf_paddr level p va.
Proof.
  intros Hl. pose proof (pte_ppn_fits p) as Hf. unfold fits in Hf.
  unfold make_paddr, leaf_paddr. rewrite (Z.mul_comm level 9).
  assert (0 <= pte_ppn p / 2 ^ (9 * level) <= pte_ppn p).
  { split; [apply Z.div_pos; [lia|apply pow2_pos; lia]|].
    apply Z.div_le_upper_bound; [apply pow2_pos; lia|].
    assert (1 <= 2 ^ (9 * level)) by (pose proof (pow2_pos (9 * level)); lia). nia. }
  assert (Hb : 2 ^ (12 + 9 * level) <= 2 ^ 30 /\ 0 < 2 ^ (12 + 9 * level)).
  { split; [apply Z.pow_le_mono_r; lia|apply pow2_pos; lia]. }
  assert (Hq : pte_ppn p / 2 ^ (9 * level) * 2 ^ (12 + 9 * level) <= pte_ppn p * 2 ^ 12).
  { rewrite Z.pow_add_r by lia. pose proof (Z.mul_div_le (pte_ppn p) (2 ^ (9 * level))).
    pose proof (pow2_pos (9 * level)). nia. }
  replace ((1 .<< (12 + 9 * level)) - 1) with (Z.ones (12 + 9 * level))
    by (unfold Z.ones; rewrite Z.sub_1_r; done).
  rewrite land_ones_mod, (Z.shiftr_div_pow2 (pte_ppn p)) by lia.
  rewrite wrap_small by (unfold fits; rewrite Z.shiftl_mul_pow2 by lia; nia).
  apply lor_shiftl_add; [lia|]. apply (wrap_fits (12 + 9 * level)). lia.
Qed.

Lemma align_code level p :
  0 < level <= 2 ->
  (((p .>> 10) .& (if level =? 2 then 0x3FFFF else 0x1FF)) =? 0) = leaf_aligned level p.
Proof.
  intros Hl. unfold leaf_aligned. destruct (Z.eqb_spec level 2) as [->|].
  - change 0x3FFFF with (Z.ones (9 * 2)). by rewrite ppn_low_code by lia.
  - replace level with 1 by lia. change 0x1FF with (Z.ones (9 * 1)). by rewrite ppn_low_code by lia.
Qed.

(** ** Accessed/dirty updates do not change a walk *)

(** Two PTEs that agree but for the A and D bits, and byte arrays whose aligned words
    do. *)
Definition pte_ad_eq (p q : Z) : Prop :=
  forall j, 0 <= j -> j <> 6 -> j <> 7 -> Z.testbit p j = Z.testbit q j.

Definition ad_eq (m m' : bytemem) : Prop :=
  forall a, a mod 8 = 0 -> pte_ad_eq (load m a 8) (load m' a 8).

Lemma pte_ad_eq_refl p : pte_ad_eq p p.
Proof. done. Qed.

#[export] Instance ad_eq_equiv : Equivalence ad_eq.
Proof.
  split.
  - intros m a _. apply pte_ad_eq_refl.
  - intros m m' E a Ha j ???. symmetry. by apply E.
  - intros m1 m2 m3 E1 E2 a Ha j ???. rewrite E1 by done. by apply E2.
Qed.

Lemma pte_ad_eq_fields p q :
  pte_ad_eq p q -> pte_V p = pte_V q /\ pte_leaf p = pte_leaf q /\ pte_R p = pte_R q /\
    pte_W p = pte_W q /\ pte_ppn p = pte_ppn q /\ perm_of p = perm_of q /\
    Z.testbit p 5 = Z.testbit q 5.
Proof.
  intros E. unfold pte_V, pte_leaf, pte_R, pte_X, pte_W.
  rewrite !(E 0), !(E 1), !(E 2), !(E 3), (E 5) by lia. split_and!; try done.
  - unfold pte_ppn. apply Z.bits_inj'; intros i Hi. rewrite !Z.testbit_mod_pow2 by lia.
    rewrite <-!Z.shiftr_div_pow2, !Z.shiftr_spec by lia. by rewrite E by lia.
  - unfold perm_of. apply Z.bits_inj'; intros i Hi. change 0xF with (Z.ones 4).
    rewrite !Z.land_spec, !Z.shiftr_spec by lia.
    destruct (Z.lt_ge_cases i 4); [by rewrite E by lia|].
    by rewrite Z.ones_spec_high, !andb_false_r by lia.
Qed.

(** Writing a PTE that differs in A and D only. *)
Lemma store_ad_eq m a q :
  mem_ok m -> a mod 8 = 0 -> fits 64 q -> pte_ad_eq (load m a 8) q -> ad_eq m (store m a 8 q).
Proof.
  intros Hm Ha Hq E b Hb. destruct (Z.eq_dec a b) as [<-|Hne].
  - rewrite load_store_same by (done || lia). by rewrite wrap_small.
  - rewrite load_store_disjoint; [apply pte_ad_eq_refl|].
    pose proof (Z.div_mod a 8). pose proof (Z.div_mod b 8). lia.
Qed.

Lemma ad_eq_ext m m' : (forall x, m x = m' x) -> ad_eq m m'.
Proof. intros E a _. rewrite (load_ext m m'); [apply pte_ad_eq_refl|done]. Qed.

Definition outcome_ad_eq (o o' : walk_outcome) : Prop :=
  match o, o' with
  | WalkFault, WalkFault => True
  | WalkLeaf l p a, WalkLeaf l' p' a' => l = l' /\ a = a' /\ pte_ad_eq p p'
  | _, _ => False
  end.

Lemma table_aligned a v i : a mod 2 ^ 12 = 0 -> (a + va_vpn v i * 8) mod 8 = 0.
Proof.
  intros Ha. pose proof (Z.div_mod a (2 ^ 12) ltac:(lia)) as E. rewrite Ha in E.
  replace (a + va_vpn v i * 8) with ((2 ^ 9 * (a / 2 ^ 12) + va_vpn v i) * 8) by lia.
  apply Z_mod_mult.
Qed.

Lemma pte_table_aligned p : (pte_ppn p * 2 ^ 12) mod 2 ^ 12 = 0.
Proof. apply Z_mod_mult. Qed.

Lemma sv39_walk_ad_eq dom m m' va i a o :
  ad_eq m m' -> a mod 2 ^ 12 = 0 -> sv39_walk dom m va i a o ->
  exists o', sv39_walk dom m' va i a o' /\ outcome_ad_eq o o'.
Proof.
  intros E Ha Hw. induction Hw as [i a at_ Hd Hv|i a at_ p Hd Hv Hl Hr|a at_ p Hd Hv Hl Hr
    |i a o at_ p Hd Hv Hl Hr Hw IH].
  all: pose proof (fun i => pte_ad_eq_fields _ _ (E _ (table_aligned a va i Ha))) as F.
  all: subst at_; try subst p.
  all: lazymatch goal with
       | _ : _ (_ + va_vpn _ ?i * 8) 8 |- _ => destruct (F i) as (EV & EL & ER & EW & EP & _)
       end.
  - exists WalkFault. split; [|done]. apply walk_invalid; [done|by rewrite <-EV].
  - eexists. split; [apply walk_leaf; [done|by rewrite <-EV|by rewrite <-EL|by rewrite <-EW, <-ER]|].
    simpl. split_and!; [done|done|]. apply E, table_aligned, Ha.
  - exists WalkFault. split; [|done].
    apply walk_bottom; [done|by rewrite <-EV|by rewrite <-EL|by rewrite <-EW, <-ER].
  - destruct (IH (pte_table_aligned _)) as (o' & Hw' & Ho). exists o'. split; [|done].
    apply walk_next; [done|by rewrite <-EV|by rewrite <-EL|by rewrite <-EW, <-ER|].
    by rewrite <-EP.
Qed.

(** A walk is a function of the address. *)
Lemma sv39_walk_det dom m va i a o o' :
  sv39_walk dom m va i a o -> sv39_walk dom m va i a o' -> o = o'.
Proof.
  intros Hw. revert o'. induction Hw as [i a at_ Hd Hv|i a at_ p Hd Hv Hl Hr|a at_ p Hd Hv Hl Hr
    |i a o at_ p Hd Hv Hl Hr Hw IH]; intros o' Hw'; subst at_; try subst p;
    inversion Hw'; repeat match goal with x := _ |- _ => subst x end; subst;
    try change (Z.of_nat 0) with 0 in *; try congruence; eauto.
Qed.

(** Two addresses of the same page at the leaf's level walk to the same leaf. *)
Lemma vpn_same_page va va' l i :
  0 <= l <= i -> va' / 2 ^ (12 + 9 * l) = va / 2 ^ (12 + 9 * l) -> va_vpn va' i = va_vpn va i.
Proof.
  intros Hl E. unfold va_vpn. f_equal.
  replace (12 + 9 * i) with ((12 + 9 * l) + 9 * (i - l)) by lia.
  rewrite Z.pow_add_r, <-!Z.div_div by first [lia | apply Z.pow_nonzero; lia | apply pow2_pos; lia].
  by rewrite E.
Qed.

Lemma sv39_walk_level dom m va i a l p pa :
  sv39_walk dom m va i a (WalkLeaf l p pa) -> 0 <= l <= Z.of_nat i.
Proof.
  intros Hw. remember (WalkLeaf l p pa) as o eqn:Eo.
  induction Hw as [| i a at_ q | |i a o at_ q Hd Hv Hl Hr Hw IH]; try discriminate.
  - injection Eo as <- _ _. lia.
  - specialize (IH Eo). lia.
Qed.

Lemma sv39_walk_same_page dom m va va' i a l p pa :
  sv39_walk dom m va i a (WalkLeaf l p pa) -> va' / 2 ^ (12 + 9 * l) = va / 2 ^ (12 + 9 * l) ->
  sv39_walk dom m va' i a (WalkLeaf l p pa).
Proof.
  intros Hw E. remember (WalkLeaf l p pa) as o eqn:Eo.
  induction Hw as [| i a at_ q Hd Hv Hl Hr| |i a o at_ q Hd Hv Hl Hr Hw IH]; try discriminate.
  - injection Eo as <- <- <-. subst at_ q. rewrite <-(vpn_same_page va va' (Z.of_nat i)) in * by (done || lia).
    by apply walk_leaf.
  - pose proof Hw as Hw0. rewrite Eo in Hw0. apply sv39_walk_level in Hw0.
    subst at_ q. rewrite <-(vpn_same_page va va' l) in * by (done || lia). apply walk_next; auto.
Qed.

Lemma vpn_match_page va va' l :
  0 <= l -> vpn_match (va' .>> 12) (va .>> 12) l = true <->
            va' / 2 ^ (12 + 9 * l) = va / 2 ^ (12 + 9 * l).
Proof.
  intros Hl. unfold vpn_match. rewrite Z.eqb_eq, !Z.shiftr_shiftr, !Z.shiftr_div_pow2 by lia.
  by rewrite (Z.mul_comm l 9).
Qed.

(** ** The walker implements the walk *)

(** What the walker may answer for a walk outcome. *)
Definition ptw_answer (atype : access_t) (priv mstatus : Z) (o : walk_outcome) (r : ptw_result) : Prop :=
  match o with
  | WalkLeaf l p _ =>
      (leaf_aligned l p = true /\ access_allowed p atype priv mstatus /\
         exists k, r = PtwOk (pte_ppn p) (perm_of p) l (Z.testbit p 5) k) \/
      (~ (leaf_aligned l p = true /\ access_allowed p atype priv mstatus) /\
         exists k, r = PtwFault (fault_cause atype) k)
  | WalkFault => exists k, r = PtwFault (fault_cause atype) k
  end.

Definition ptw_cycles (r : ptw_result) : Z :=
  match r with PtwOk _ _ _ _ k => k | PtwFault _ k => k end.

(** The leaf PTE in memory once the walk succeeded: accessed, and dirty for a store. *)
Definition ad_updated (atype : access_t) (m' : bytemem) (o : walk_outcome) (r : ptw_result) : Prop :=
  match o, r with
  | WalkLeaf _ _ pa, PtwOk _ _ _ _ _ =>
      Z.testbit (load m' pa 8) 6 = true /\ (atype = STORE -> Z.testbit (load m' pa 8) 7 = true)
  | _, _ => True
  end.

Definition ad_pte (atype : access_t) (p : Z) : Z :=
  match atype with STORE => (p .| (1 .<< 6)) .| (1 .<< 7) | _ => p .| (1 .<< 6) end.

Lemma ad_pte_spec atype p :
  fits 64 p -> fits 64 (ad_pte atype p) /\ pte_ad_eq p (ad_pte atype p) /\
    Z.testbit (ad_pte atype p) 6 = true /\ (atype = STORE -> Z.testbit (ad_pte atype p) 7 = true).
Proof.
  intros Hp. split_and!.
  - unfold ad_pte. destruct atype; repeat (apply fits_lor; [lia| |fits_const]); done.
  - intros j Hj N6 N7. unfold ad_pte.
    destruct atype; rewrite !Z.lor_spec, !testbit_one by lia;
      rewrite (proj2 (Z.eqb_neq j 6)), ?(proj2 (Z.eqb_neq j 7)) by done; by rewrite !orb_false_r.
  - unfold ad_pte. destruct atype; rewrite !Z.lor_spec, !testbit_one by lia; simpl;
      by rewrite ?orb_true_r.
  - intros ->. unfold ad_pte. rewrite !Z.lor_spec, !testbit_one by lia. apply orb_true_r.
Qed.

Lemma align_check level p :
  0 <= level <= 2 ->
  (0 <? level) && negb (((p .>> 10) .& (if level =? 2 then 0x3FFFF else 0x1FF)) =? 0) =
    negb (leaf_aligned level p).
Proof.
  intros Hl. destruct (Z.ltb_spec 0 level).
  - by rewrite align_code by lia.
  - replace level with 0 by lia. unfold leaf_aligned. by rewrite Z.mul_0_r, Z.mod_1_r.
Qed.

Section ptw.
Context {S : Type} `{PhysMem S}.

(** The last step of the walker: the leaf is checked, then marked. *)
Lemma ptw_leaf_step cost atype pr ms level p pa s cycles :
  pm_wf s -> pm_dom pa 8 -> pa mod 8 = 0 -> p = load (pm_bytes s) pa 8 -> 0 <= level <= 2 ->
  exists r s',
    (if (0 <? level) && negb (((p .>> 10) .& (if level =? 2 then 0x3FFFF else 0x1FF)) =? 0)
     then (Some (PtwFault (fault_cause atype) (cycles + cost)), s)
     else if negb (check_perm (perm_of p) atype pr ms)
     then (Some (PtwFault (fault_cause atype) (cycles + cost)), s)
     else
       let res := PtwOk ((p .>> 10) .& Z.ones 44) (perm_of p) level (Z.testbit p 5) (cycles + cost) in
       if ad_pte atype p =? p then (Some res, s)
       else match writeDataMem64 pa (ad_pte atype p) 8 s with
            | (Some _, s) => (Some res, s)
            | (None, s) => (None, s)
            end) = (Some r, s') /\
    pm_wf s' /\ ad_eq (pm_bytes s) (pm_bytes s') /\
    ptw_answer atype pr ms (WalkLeaf level p pa) r /\
    ad_updated atype (pm_bytes s') (WalkLeaf level p pa) r /\ ptw_cycles r = cycles + cost.
Proof.
  intros Hwf Hdom Hpa Hp Hl. rewrite align_check by done.
  destruct (leaf_aligned level p) eqn:Eal; simpl; [|eexists _, s; split_and!; try done;
    right; split; [intros [? _]; congruence|by eexists]].
  destruct (check_perm (perm_of p) atype pr ms) eqn:Epm; simpl.
  2: { eexists _, s; split_and!; try done. right.
       rewrite <-check_perm_allowed. split; [intros [_ ?]; congruence|by eexists]. }
  apply check_perm_allowed in Epm. rewrite pte_ppn_code.
  assert (Hpf : fits 64 p) by (rewrite Hp; apply (load_fits _ _ 8); [by apply pm_bytes_ok|lia]).
  destruct (ad_pte_spec atype p Hpf) as (Hf & Had & H6 & H7).
  destruct (Z.eqb_spec (ad_pte atype p) p) as [E|E].
  - eexists _, s. split_and!; try done; [left; by split_and!; [..|eexists]|].
    simpl. rewrite <-Hp, <-E. by split.
  - destruct (pm_write pa (ad_pte atype p) 8 s Hwf Hdom Hf) as (s' & -> & Hwf' & Hb).
    eexists _, s'. split_and!; try done.
    + rewrite (ad_eq_ext (pm_bytes s') _ Hb).
      apply store_ad_eq; [by apply pm_bytes_ok|done|done|by rewrite <-Hp].
    + left; by split_and!; [..|eexists].
    + simpl. rewrite (load_ext _ _ pa 8 (fun x _ => Hb x)).
      rewrite load_store_same by (by apply pm_bytes_ok || lia).
      rewrite wrap_small by done. by split.
Qed.

Lemma ptw_loop_correct cost va atype pr ms n table s o cycles :
  pm_wf s -> (n < 3)%nat -> fits 44 table -> 0 <= cost ->
  sv39_walk pm_dom (pm_bytes s) va n (table * 2 ^ 12) o ->
  exists r s', ptw_loop cost va atype pr ms (Datatypes.S n) table cycles s = (Some r, s') /\
    pm_wf s' /\ ad_eq (pm_bytes s) (pm_bytes s') /\ ptw_answer atype pr ms o r /\
    ad_updated atype (pm_bytes s') o r /\
    cycles + cost <= ptw_cycles r <= cycles + cost * Z.of_nat (Datatypes.S n).
Proof.
  intros Hwf Hn Ht Hcost Hw. remember (table * 2 ^ 12) as ta eqn:Eta.
  revert table cycles Ht Eta Hn.
  induction Hw as [i a at_ Hd Hv|i a at_ p Hd Hv Hl Hr|a at_ p Hd Hv Hl Hr
    |i a o at_ p Hd Hv Hl Hr Hw IH]; intros table cycles Ht -> Hn;
    cbn [ptw_loop]; rewrite pte_addr_spec by (done || lia);
    try change (Z.of_nat 0) with 0; fold at_; rewrite pm_read by done; try fold p.
  - unfold pte_V in Hv. rewrite Hv. simpl. eexists _, s. split_and!; try done; [by eexists|simpl ptw_cycles; nia].
  - unfold pte_V in Hv. rewrite Hv. change (negb true) with false. cbv beta iota zeta.
    assert (negb (Z.testbit p 1) && negb (Z.testbit p 3) = false) as ->.
    { unfold pte_leaf, pte_R, pte_X in Hl. by rewrite <-negb_orb, Hl. }
    destruct (ptw_leaf_step cost atype pr ms (Z.of_nat i) p at_ s cycles)
      as (r & s' & E & ? & ? & ? & ? & Hk); [done|done| |done|lia|].
    { apply table_aligned, Z_mod_mult. }
    exists r, s'. split; [exact E|]. rewrite Hk. split_and!; (done || nia).
  - unfold pte_V in Hv. rewrite Hv. change (negb true) with false. cbv beta iota zeta.
    assert (negb (Z.testbit p 1) && negb (Z.testbit p 3) = true) as ->.
    { unfold pte_leaf, pte_R, pte_X in Hl. by rewrite <-negb_orb, Hl. }
    eexists _, s. split_and!; try done; [by eexists|simpl ptw_cycles; nia].
  - unfold pte_V in Hv. rewrite Hv. change (negb true) with false. cbv beta iota zeta.
    assert (negb (Z.testbit p 1) && negb (Z.testbit p 3) = true) as ->.
    { unfold pte_leaf, pte_R, pte_X in Hl. by rewrite <-negb_orb, Hl. }
    rewrite pte_ppn_code.
    destruct (IH (pte_ppn p) (cycles + cost) (pte_ppn_fits p) eq_refl ltac:(lia))
      as (r & s' & E & ? & ? & ? & ? & Hk). exists r, s'. split; [exact E|]. split_and!; (done || nia).
Qed.
End ptw.

(** ** Translation *)

Definition satp_root (satp : Z) : Z := satp .& Z.ones 44.
Definition satp_asid (satp : Z) : Z := u16 ((satp .>> 44) .& 0xFFFF).

(** The walk from the root of an address space. *)
Definition walk_from (dom : Z -> Z -> Prop) (m : bytemem) (satp va : Z) (o : walk_outcome) : Prop :=
  sv39_walk dom m va 2 (satp_root satp * 2 ^ 12) o.

(** The addresses Sv39 accepts: bits 63 to 39 repeat bit 38. *)
Definition canonical (va : Z) : Prop := va = u64 (signed 39 va).

Lemma canonical_pos va : canonical va -> 0 <= va.
Proof. intros ->. apply (wrap_fits 64). lia. Qed.

(** Translation by the specification: an address that is not canonical is a page fault. *)
Inductive sv39 (dom : Z -> Z -> Prop) (m : bytemem) (satp va : Z) : walk_outcome -> Prop :=
  | sv39_noncanonical : ~ canonical va -> sv39 dom m satp va WalkFault
  | sv39_tables o : canonical va -> walk_from dom m satp va o -> sv39 dom m satp va o.

(** The tables map the page of [va] at level [l], with its frame, permissions and global bit. *)
Definition maps (dom : Z -> Z -> Prop) (m : bytemem) (satp va l ppn perm : Z) (global : bool) : Prop :=
  exists p pa, walk_from dom m satp va (WalkLeaf l p pa) /\ leaf_aligned l p = true /\
    ppn = pte_ppn p /\ perm = perm_of p /\ global = Z.testbit p 5.

(** A TLB entry caches the aligned leaf every address of its page walks to. *)
Definition entry_coherent (dom : Z -> Z -> Prop) (m : bytemem) (satp : Z) (e : TLBEntry) : Prop :=
  0 <= te_level e <= 2 /\
  forall va, canonical va -> vpn_match (va .>> 12) (te_vpn e) (te_level e) = true ->
    maps dom m satp va (te_level e) (te_ppn e) (te_perm e) (te_global e).

Definition tlb_coherent (dom : Z -> Z -> Prop) (m : bytemem) (satp : Z) (t : TLB) : Prop :=
  forall e, e ∈ live t -> te_global e = true \/ te_asid e = satp_asid satp ->
    entry_coherent dom m satp e.

Lemma entry_coherent_ad_eq dom m m' satp e :
  ad_eq m m' -> entry_coherent dom m satp e -> entry_coherent dom m' satp e.
Proof.
  intros E [Hl He]. split; [done|]. intros va Hva Hm.
  destruct (He va Hva Hm) as (p & pa & Hw & Hal & Hppn & Hperm & Hg).
  destruct (sv39_walk_ad_eq dom m m' va 2 _ _ E (Z_mod_mult _ _) Hw) as (o' & Hw' & Ho).
  destruct o' as [|l' p' pa']; [done|]. destruct Ho as (<- & <- & Hp).
  pose proof (pte_ad_eq_fields _ _ Hp) as (_ & _ & _ & _ & E1 & E2 & E3).
  exists p', pa. split_and!; [done| |congruence..].
  unfold leaf_aligned in *. by rewrite <-E1.
Qed.

Lemma tlb_coherent_ad_eq dom m m' satp t :
  ad_eq m m' -> tlb_coherent dom m satp t -> tlb_coherent dom m' satp t.
Proof. intros E Ht e He Ha. eapply entry_coherent_ad_eq; [exact E|by apply Ht]. Qed.

(** A lookup only moves LRU times. *)
Lemma tlb_lookup_live va asid t e :
  e ∈ live (tlb_lookup va asid t).2 ->
  exists e', e' ∈ live t /\ te_global e' = te_global e /\ te_asid e' = te_asid e /\
    te_level e' = te_level e /\ te_vpn e' = te_vpn e /\ te_ppn e' = te_ppn e /\
    te_perm e' = te_perm e.
Proof.
  rewrite live_elem. unfold tlb_lookup. destruct (tlb_find _ _ _) as [[i e0]|] eqn:E; simpl.
  - intros [Hv [j Hj]%list_elem_of_lookup_1]. apply tlb_find_Some in E as (Hi & _).
    apply list_lookup_insert_Some in Hj as [(<- & <- & _)|[_ Hj]].
    + exists e0. rewrite live_elem. split_and!; try done. by eapply list_elem_of_lookup_2.
    + exists e. rewrite live_elem. split_and!; try done. by eapply list_elem_of_lookup_2.
  - intros [Hv He]. exists e. rewrite live_elem. by split_and!.
Qed.

Lemma tlb_lookup_coherent dom m satp va asid t :
  tlb_coherent dom m satp t -> tlb_coherent dom m satp (tlb_lookup va asid t).2.
Proof.
  intros Ht e He Ha. destruct (tlb_lookup_live va asid t e He) as (e' & He' & E1 & E2 & E3 & E4 & E5 & E6).
  rewrite <-E1, <-E2 in Ha. specialize (Ht e' He' Ha).
  unfold entry_coherent in *. by rewrite <-E1, <-E3, <-E4, <-E5, <-E6.
Qed.

Lemma tlb_insert_live N va ppn asid perm l g t e :
  e ∈ live (tlb_insert N va ppn asid perm l g t) ->
  e ∈ live t \/ e = mkTLBEntry true g perm l asid (va .>> 12) ppn (tlb_lru_clock t).
Proof.
  rewrite !live_elem. unfold tlb_insert; simpl.
  intros [Hv [j Hj]%list_elem_of_lookup_1].
  apply list_lookup_insert_Some in Hj as [(<- & <- & _)|[_ Hj]]; [by right|].
  left. split; [done|]. by eapply list_elem_of_lookup_2.
Qed.

Lemma tlb_insert_coherent N dom m satp va p pa asid l t :
  0 <= va -> walk_from dom m satp va (WalkLeaf l p pa) -> leaf_aligned l p = true ->
  tlb_coherent dom m satp t ->
  tlb_coherent dom m satp (tlb_insert N va (pte_ppn p) asid (perm_of p) l (Z.testbit p 5) t).
Proof.
  intros Hva Hw Hal Ht e He Ha. apply tlb_insert_live in He as [He| ->]; [by apply Ht|].
  pose proof (sv39_walk_level _ _ _ _ _ _ _ _ Hw). split; simpl; [lia|].
  intros va' _ Hm. apply vpn_match_page in Hm; [|lia].
  exists p, pa. split_and!; try done. by apply (sv39_walk_same_page _ _ va).
Qed.

(** A coherent hit answers as the walk does. *)
Lemma coherent_hit dom m satp va t ppn perm l :
  canonical va -> tlb_coherent dom m satp t ->
  (tlb_lookup va (satp_asid satp) t).1 = Some (ppn, perm, l) ->
  exists p pa, walk_from dom m satp va (WalkLeaf l p pa) /\ 0 <= l <= 2 /\
    ppn = pte_ppn p /\ perm = perm_of p /\ leaf_aligned l p = true.
Proof.
  intros Hva Ht E. pose proof (tlb_lookup_spec va (satp_asid satp) t) as Hs. rewrite E in Hs.
  destruct Hs as (e & He & Hm & -> & -> & ->). unfold te_match in Hm.
  apply andb_true_iff in Hm as [[Hv Ha]%andb_true_iff Hm].
  apply orb_true_iff in Ha. rewrite Z.eqb_eq in Ha.
  destruct (Ht e) as [Hl Hc]; [by rewrite live_elem|done|].
  destruct (Hc va Hva Hm) as (p & pa & Hw & E3 & E1 & E2 & _). exists p, pa. split_and!; (done || lia).
Qed.

Section translate.
Context {S : Type} `{PhysMem S}.
Implicit Types (s : S) (csr : CSR_File) (m : MMU).

(** Both TLBs cache the current page tables. *)
Definition mmu_coherent (satp : Z) (m : MMU) (s : S) : Prop :=
  tlb_coherent pm_dom (pm_bytes s) satp (itlb m) /\
  tlb_coherent pm_dom (pm_bytes s) satp (dtlb m).

Lemma mmu_coherent_of satp atype m s :
  mmu_coherent satp m s -> tlb_coherent pm_dom (pm_bytes s) satp (tlb_of atype m).
Proof. intros [? ?]. by destruct atype. Qed.

Lemma mmu_coherent_set satp atype t m s s' :
  ad_eq (pm_bytes s) (pm_bytes s') -> mmu_coherent satp m s ->
  tlb_coherent pm_dom (pm_bytes s') satp t -> mmu_coherent satp (set_tlb atype t m) s'.
Proof.
  intros E [H1 H2] Ht. apply (tlb_coherent_ad_eq _ _ _ _ _ E) in H1, H2.
  by destruct atype; split.
Qed.

Lemma tlb_of_set atype t m : tlb_of atype (set_tlb atype t m) = t.
Proof. by destruct atype. Qed.

Lemma tlbs_count_hit atype m :
  itlb (count_hit atype m) = itlb m /\ dtlb (count_hit atype m) = dtlb m.
Proof. by destruct atype. Qed.

(** C24: Sv39 translation of a canonical address below M-mode: with TLBs that cache the current
    tables, and tables in memory that do not use the reserved encoding W without R, [translate]
    answers exactly what the specification answers (physical address or page fault with the cause
    of the access), on a hit as on a miss, for all page sizes; memory changes in A and D bits
    only, and the TLBs stay coherent. *)
Theorem translate_correct va csr atype m s o :
  pm_wf s -> canonical va -> satp csr .>> 60 = 8 -> priv csr <> PRIV_M ->
  0 <= ptw_cycles_per_level m -> mmu_coherent (satp csr) m s ->
  sv39 pm_dom (pm_bytes s) (satp csr) va o ->
  exists r m' s', translate va csr atype m s = (Some r, m', s') /\
    outcome_paddr o va atype (priv csr) (mstatus csr)
      (if r_fault r then None else Some (r_paddr r)) /\
    (r_fault r = true -> r_fault_cause r = fault_cause atype) /\
    pm_wf s' /\ ad_eq (pm_bytes s) (pm_bytes s') /\ mmu_coherent (satp csr) m' s'.
Proof.
  intros Hwf Hcan Hmode Hpriv Hcost Hcoh [Hnc|o' _ Hw]; [done|]. clear o. rename o' into o.
  pose proof (canonical_pos va Hcan) as Hva.
  unfold translate.
  rewrite Hmode, (proj2 (Z.eqb_neq _ _) Hpriv). simpl (negb _ || _). cbv iota.
  fold (satp_asid (satp csr)). pose proof (mmu_coherent_of _ atype _ _ Hcoh) as Ht.
  pose proof (tlb_lookup_coherent _ _ _ va (satp_asid (satp csr)) _ Ht) as Ht2.
  destruct (tlb_lookup va (satp_asid (satp csr)) (tlb_of atype m)) as [[[[ppn perm] l]|] t] eqn:El.
  - (* hit *)
    destruct (coherent_hit _ _ _ va _ ppn perm l Hcan Ht) as (p & pa & Hwl & Hl & -> & -> & Hal);
      [by rewrite El|].
    assert (o = WalkLeaf l p pa) as -> by (by eapply sv39_walk_det).
    eexists _, _, s. split; [reflexivity|]. simpl r_fault. simpl r_paddr. simpl r_fault_cause.
    split_and!; [|by destruct (check_perm _ _ _ _)|done|reflexivity|].
    + simpl. rewrite make_paddr_spec by done.
      destruct (check_perm (perm_of p) atype (priv csr) (mstatus csr)) eqn:Ep; simpl.
      * left. apply check_perm_allowed in Ep. by split_and!.
      * right. rewrite <-check_perm_allowed. split; [|done]. intros [_ ?]; congruence.
    + unfold mmu_coherent. rewrite (proj1 (tlbs_count_hit _ _)), (proj2 (tlbs_count_hit _ _)).
      by apply (mmu_coherent_set _ _ _ _ s s).
  - (* miss *)
    fold (satp_root (satp csr)).
    set (m1 := { count_miss atype (set_tlb atype t m) with ptw_walks := _ }).
    assert (Hm1 : mmu_coherent (satp csr) m1 s).
    { assert (Hc : mmu_coherent (satp csr) (set_tlb atype t m) s)
        by (by apply (mmu_coherent_set _ _ _ _ s s)).
      unfold mmu_coherent in *. by destruct atype. }
    assert (Hcost1 : ptw_cycles_per_level m1 = ptw_cycles_per_level m) by (by destruct atype).
    unfold ptw. rewrite Hcost1.
    destruct (ptw_loop_correct (ptw_cycles_per_level m) va atype (priv csr) (mstatus csr) 2
      (satp_root (satp csr)) s o 0) as (r & s' & -> & Hwf' & Had & Hans & _); [done|lia| |done|done|].
    { unfold satp_root. rewrite land_ones_mod by lia. apply (wrap_fits 44). lia. }
    destruct r as [ppn perm l g k|c k].
    + destruct o as [|l' p pa]; [by destruct Hans|].
      destruct Hans as [(Hal & Hallow & k' & [= -> -> -> -> _])|(_ & k' & ?)]; [|done].
      pose proof (sv39_walk_level _ _ _ _ _ _ _ _ Hw) as Hl.
      eexists _, _, s'. split; [reflexivity|]. simpl r_fault. simpl r_paddr.
      split_and!; [|done|done|done|].
      * left. rewrite make_paddr_spec by lia. by split_and!.
      * destruct (sv39_walk_ad_eq _ _ _ _ _ _ _ Had (Z_mod_mult _ _) Hw) as (o' & Hw' & Ho).
        destruct o' as [|l2 p2 pa2]; [done|]. destruct Ho as (<- & <- & Hp).
        pose proof (pte_ad_eq_fields _ _ Hp) as (_ & _ & _ & _ & E1 & E2 & E3).
        apply (mmu_coherent_set _ _ _ _ s s'); [done|done|]. rewrite E1, E2. fold (Z.testbit p 5). rewrite E3.
        eapply tlb_insert_coherent; [done|exact Hw'|by unfold leaf_aligned in *; rewrite <-E1|].
        eapply tlb_coherent_ad_eq; [exact Had|by apply mmu_coherent_of].
    + eexists _, _, s'. split; [reflexivity|]. simpl r_fault.
      assert (c = fault_cause atype /\ outcome_paddr o va atype (priv csr) (mstatus csr) None)
        as [-> Ho].
      { destruct o as [|l' p pa]; simpl in Hans |- *.
        - by destruct Hans as [k' [= -> _]].
        - destruct Hans as [(_ & _ & k' & ?)|(Hn & k' & [= -> _])]; [done|]. split; [done|]. by right. }
      split_and!; [done|done|done|done|].
      destruct Hm1 as [H1 H2]. split; eapply tlb_coherent_ad_eq; eauto.
Qed.
Lemma tlb_flushed_coherent dom mem satp t t' :
  (forall e, e ∈ live t' -> e ∈ live t /\ (te_global e = true \/ te_asid e = satp_asid satp ->
     entry_coherent dom mem satp e)) -> tlb_coherent dom mem satp t'.
Proof. intros Hf e He Ha. by apply Hf. Qed.

Lemma live_flush_all t e : ~ e ∈ live (tlb_flush_all t).
Proof. rewrite live_elem. by intros [Hv (e' & -> & _)%list_elem_of_fmap]. Qed.

Lemma live_flush_va va t e :
  e ∈ live (tlb_flush_va va t) -> e ∈ live t /\ vpn_match (va .>> 12) (te_vpn e) (te_level e) = false.
Proof.
  rewrite !live_elem. intros [Hv He]. unfold tlb_flush_va in He; simpl in He.
  apply (flush_fmap_elem _ _ _ Hv) in He as [He HP]. by rewrite Hv in HP.
Qed.

Lemma live_flush_asid a t e :
  e ∈ live (tlb_flush_asid a t) -> e ∈ live t /\ (te_global e = true \/ te_asid e <> a).
Proof.
  rewrite !live_elem. intros [Hv He]. unfold tlb_flush_asid in He; simpl in He.
  apply (flush_fmap_elem _ _ _ Hv) in He as [He HP]. split; [done|]. rewrite Hv in HP.
  destruct (te_global e); [by left|]. right. by apply Z.eqb_neq.
Qed.

Lemma live_flush_va_asid va a t e :
  e ∈ live (tlb_flush_va_asid va a t) ->
  e ∈ live t /\ (te_global e = true \/ te_asid e <> a \/ vpn_match (va .>> 12) (te_vpn e) (te_level e) = false).
Proof. by intros He%tlb_flush_live. Qed.

(** An edit from the tables of [s] to those of [s'] keeps the pages of a kind. *)
Definition keeps_pages (satp : Z) (s s' : S) (P : Z -> Z -> bool -> Prop) : Prop :=
  forall va l ppn perm g, canonical va -> 0 <= l <= 2 -> P va l g ->
    maps pm_dom (pm_bytes s) satp va l ppn perm g -> maps pm_dom (pm_bytes s') satp va l ppn perm g.

(** [va] and [va'] are in the same page of level [l]. *)
Definition same_page (va va' l : Z) : Prop := va / 2 ^ (12 + 9 * l) = va' / 2 ^ (12 + 9 * l).

Lemma entry_coherent_kept satp s s' (P : Z -> Z -> bool -> Prop) e :
  keeps_pages satp s s' P -> entry_coherent pm_dom (pm_bytes s) satp e ->
  (forall va, canonical va -> vpn_match (va .>> 12) (te_vpn e) (te_level e) = true -> P va (te_level e) (te_global e)) ->
  entry_coherent pm_dom (pm_bytes s') satp e.
Proof. intros Hk [Hl He] HP. split; [done|]. intros va Hva Hm. apply Hk; auto. Qed.

(** An entry that does not match [va] is for other pages. *)
Lemma unmatched_page va va' vpn l :
  0 <= l -> vpn_match (va .>> 12) vpn l = false -> vpn_match (va' .>> 12) vpn l = true -> ~ same_page va' va l.
Proof.
  intros Hl H1 H2 E. apply vpn_match_page in E; [|done]. unfold vpn_match in *.
  apply Z.eqb_eq in H2, E. apply Z.eqb_neq in H1. congruence.
Qed.

Lemma satp_asid_u16 satp : u16 (satp_asid satp .& 0xFFFF) = satp_asid satp.
Proof.
  unfold satp_asid. change 0xFFFF with (Z.ones 16). rewrite !land_ones_mod by lia.
  unfold wrap. by rewrite !Zmod_mod.
Qed.

(** C25: SFENCE.VMA after an edit of the tables that the TLBs cached.  It makes them coherent with
    the new tables: with rs1 = rs2 = x0 after any edit; with the address [va] when the edit keeps
    the pages (of any size) that [va] is not in; with the current ASID when it keeps the global
    pages; with both when it keeps the pages that are global or that [va] is not in. *)
Theorem sfence_vma_coherent satp m s s' va v2 :
  mmu_coherent satp m s ->
  let asid := satp_asid satp in
  mmu_coherent satp (sfence_vma va v2 true true m) s' /\
  (keeps_pages satp s s' (fun va' l _ => ~ same_page va' va l) ->
     mmu_coherent satp (sfence_vma va v2 false true m) s') /\
  (keeps_pages satp s s' (fun _ _ g => g = true) ->
     mmu_coherent satp (sfence_vma va asid true false m) s') /\
  (keeps_pages satp s s' (fun va' l g => g = true \/ ~ same_page va' va l) ->
     mmu_coherent satp (sfence_vma va asid false false m) s').
Proof.
  intros [Hi Hd] asid. pose proof (satp_asid_u16 satp) as Ea. fold asid in Ea.
  assert (forall t, tlb_coherent pm_dom (pm_bytes s) satp t ->
    (keeps_pages satp s s' (fun va' l _ => ~ same_page va' va l) ->
       tlb_coherent pm_dom (pm_bytes s') satp (tlb_flush_va va t)) /\
    (keeps_pages satp s s' (fun _ _ g => g = true) ->
       tlb_coherent pm_dom (pm_bytes s') satp (tlb_flush_asid asid t)) /\
    (keeps_pages satp s s' (fun va' l g => g = true \/ ~ same_page va' va l) ->
       tlb_coherent pm_dom (pm_bytes s') satp (tlb_flush_va_asid va asid t))) as Hf.
  { intros t Ht. split_and!; intros Hk e He Ha.
    - apply live_flush_va in He as [He Hm]. pose proof (Ht e He Ha) as [Hl _].
      apply (entry_coherent_kept satp s s' _ e Hk (Ht e He Ha)). intros va' _ Hm'.
      apply (unmatched_page va va' (te_vpn e)); (done || lia).
    - apply live_flush_asid in He as [He Hg].
      apply (entry_coherent_kept satp s s' _ e Hk (Ht e He Ha)). intros va' _ _.
      destruct Hg, Ha; (done || congruence).
    - apply live_flush_va_asid in He as [He Hg]. pose proof (Ht e He Ha) as [Hl _].
      apply (entry_coherent_kept satp s s' _ e Hk (Ht e He Ha)). intros va' _ Hm'.
      destruct Hg as [Hg|[Hg|Hg]]; [by left|left; destruct Ha; (done || congruence)|right].
      apply (unmatched_page va va' (te_vpn e)); (done || lia). }
  destruct (Hf _ Hi) as (I1 & I2 & I3), (Hf _ Hd) as (D1 & D2 & D3).
  unfold sfence_vma, mmu_coherent. simpl. rewrite Ea. split_and!.
  - intros e He _. exact (False_ind _ (live_flush_all _ _ He)).
  - intros e He _. exact (False_ind _ (live_flush_all _ _ He)).
  - intros Hk. split; auto.
  - intros Hk. split; auto.
  - intros Hk. split; auto.
Qed.
End translate.

(** The permission check of the walker and of TLB hits is the access rule of the
    specification: U pages, SUM, MXR and the R/W/X bits. *)
Theorem check_perm_correct p atype pr ms :
  check_perm (perm_of p) atype pr ms = true <-> access_allowed p atype pr ms.
Proof. apply check_perm_allowed. Qed.

(** ** Witnesses: a root table at 0x1000 whose entry 1 is a 1 GB page, read-only
    accessed state, with A and D clear. *)
Definition pt_leaf : Z := (0x40000 .<< 10) .| 0xF.
Definition pt_memory : memory :=
  { memory0 with mem := store (mem memory0) 0x1008 8 pt_leaf }.
Definition pt_csr : CSR_File :=
  { csr_new with priv := PRIV_S; satp := (8 .<< 60) .| 1 }.

Lemma memory0_ok : mem_ok (mem memory0).
Proof. intros x. simpl. unfold fits. lia. Qed.

Lemma pt_memory_wf : pm_wf pt_memory.
Proof. change (mem_ok (store (mem memory0) 0x1008 8 pt_leaf)). apply store_ok, memory0_ok. Qed.

Lemma pt_walk : walk_from pm_dom (pm_bytes pt_memory) (satp pt_csr) 0x40001234 (WalkLeaf 2 pt_leaf 0x1008).
Proof.
  assert (E : load (pm_bytes pt_memory) 0x1008 8 = pt_leaf) by (vm_compute; reflexivity).
  unfold walk_from. change (satp_root (satp pt_csr) * 2 ^ 12) with 0x1000.
  pose proof (walk_leaf pm_dom (pm_bytes pt_memory) 0x40001234 2 0x1000) as Hw. cbv zeta in Hw.
  change (0x1000 + va_vpn 0x40001234 (Z.of_nat 2) * 8) with 0x1008 in Hw.
  rewrite E in Hw. apply Hw; [|reflexivity|reflexivity|reflexivity].
  unfold pm_dom; simpl. unfold SIZE. lia.
Qed.

Lemma mmu_new_coherent {S : Type} `{PhysMem S} k satp (s : S) : mmu_coherent satp (mmu_new k) s.
Proof.
  split; intros e [Hv [He _]%elem_of_replicate]%live_elem _; by subst.
Qed.

Lemma pt_sv39 : sv39 pm_dom (pm_bytes pt_memory) (satp pt_csr) 0x40001234 (WalkLeaf 2 pt_leaf 0x1008).
Proof. apply sv39_tables; [reflexivity|apply pt_walk]. Qed.

Example translate_correct_witness :
  exists r m' s', translate 0x40001234 pt_csr LOAD (mmu_new 2) pt_memory = (Some r, m', s') /\
    r_fault r = false /\ r_paddr r = 0x40001234.
Proof.
  destruct (translate_correct 0x40001234 pt_csr LOAD (mmu_new 2) pt_memory _
    pt_memory_wf eq_refl eq_refl ltac:(discriminate) ltac:(simpl; lia)
    (mmu_new_coherent 2 _ _) pt_sv39) as (r & m' & s' & E & Ho & _).
  exists r, m', s'. split; [exact E|]. destruct Ho as [(_ & _ & Ho)|[Hn _]].
  - destruct (r_fault r); [discriminate Ho|]. split; [reflexivity|]. injection Ho as ->. reflexivity.
  - exfalso. apply Hn. split; [reflexivity|]. apply check_perm_allowed. reflexivity.
Defined.

(** The TLBs with that page cached, and an edit that moves it to another frame. *)
Definition pt_cached : MMU :=
  { mmu_new 2 with dtlb := tlb_insert 16 0x40001234 (pte_ppn pt_leaf) 0 (perm_of pt_leaf) 2 false (dtlb (mmu_new 2)) }.
Definition pt_edited : memory := { pt_memory with mem := store (mem memory0) 0x1008 8 ((0x80000 .<< 10) .| 0xF) }.

Lemma pt_cached_coherent : mmu_coherent (satp pt_csr) pt_cached pt_memory.
Proof.
  destruct (mmu_new_coherent 2 (satp pt_csr) pt_memory) as [Hi Hd]. split; [exact Hi|].
  apply (tlb_insert_coherent 16 pm_dom (pm_bytes pt_memory) (satp pt_csr) 0x40001234 pt_leaf 0x1008 0 2);
    [lia|apply pt_walk|reflexivity|exact Hd].
Qed.

(** The first level of the tables has the entry 1 only. *)
Lemma pt_other_entries q i :
  0 <= i < 512 -> i <> 1 -> pte_V (load (store (mem memory0) 0x1008 8 q) (0x1000 + i * 8) 8) = false.
Proof. intros Hi Hn. by rewrite load_store_disjoint by lia. Qed.

Lemma canonical_first_gb va : canonical va -> va_vpn va 2 = 1 -> va / 2 ^ 30 = 1.
Proof.
  unfold canonical, va_vpn. change (12 + 9 * 2) with 30. intros E H. revert E.
  unfold signed, wrap. change (39 - 1) with 38.
  pose proof (Z.div_mod va (2 ^ 39) ltac:(lia)). pose proof (Z.mod_pos_bound va (2 ^ 39) ltac:(lia)).
  assert (va mod 2 ^ 39 = va mod 2 ^ 30 + 2 ^ 30) as Hm.
  { change (2 ^ 39) with (2 ^ 30 * 2 ^ 9). rewrite Z.rem_mul_r, H by lia. lia. }
  pose proof (Z.mod_pos_bound va (2 ^ 30) ltac:(lia)).
  rewrite (proj2 (Z.ltb_lt _ _)) by lia. rewrite Z.mod_small by lia. intros ->.
  rewrite Hm. rewrite <-(Z.mul_1_l (2 ^ 30)) at 2. by rewrite Z.div_add, Z.div_small by lia.
Qed.

Lemma pt_edit_keeps :
  keeps_pages (satp pt_csr) pt_memory pt_edited (fun va' l _ => ~ same_page va' 0x40001234 l).
Proof.
  intros va l ppn perm g Hcan Hl HP (p & pa & Hw & _). exfalso.
  unfold walk_from in Hw. change (satp_root (satp pt_csr) * 2 ^ 12) with 0x1000 in Hw.
  change (pm_bytes pt_memory) with (store (mem memory0) 0x1008 8 pt_leaf) in Hw.
  pose proof (va_vpn_range va 2) as Hr.
  destruct (decide (va_vpn va 2 = 1)) as [E|E].
  - pose proof (canonical_first_gb va Hcan E) as Eg.
    inversion Hw as [|i a at_ q Hd Hv Hf Hi|i|i a o at_ q Hd Hv Hf]; subst.
    + apply HP. unfold same_page. change (12 + 9 * Z.of_nat 2) with 30. by rewrite Eg.
    + subst at_ q. change (Z.of_nat 2) with 2 in Hf. rewrite E in Hf. discriminate Hf.
  - pose proof (pt_other_entries pt_leaf _ Hr E) as Hz.
    inversion Hw as [|i a at_ q Hd Hv|i|i a o at_ q Hd Hv]; subst; subst at_ q;
      change (Z.of_nat 2) with 2 in Hv; congruence.
Qed.

(** The cached page is stale after the edit, and no longer cached after the fence of an address in it. *)
Example sfence_vma_coherent_witness :
  r_paddr <$> (translate 0x40001234 pt_csr LOAD pt_cached pt_edited).1.1 = Some 0x40001234 /\
  mmu_coherent (satp pt_csr) (sfence_vma 0x40001234 0 false true pt_cached) pt_edited /\
  r_paddr <$> (translate 0x40001234 pt_csr LOAD (sfence_vma 0x40001234 0 false true pt_cached) pt_edited).1.1 =
    Some 0x80001234.
Proof.
  destruct (sfence_vma_coherent (satp pt_csr) pt_cached pt_memory pt_edited 0x40001234 0 pt_cached_coherent)
    as (_ & H & _).
  split; [reflexivity|]. split; [exact (H pt_edit_keeps)|reflexivity].
Defined.

(** Findings.  A non-canonical address translates; a store that hits the TLB leaves
    the dirty bit of its page clear; W without R is taken for a pointer. *)
Example noncanonical_address_accepted :
  bool_decide (0x40001234 + (1 .<< 50) = u64 (signed 39 (0x40001234 + (1 .<< 50)))) = false /\
  let '(r, _, _) := translate (0x40001234 + (1 .<< 50)) pt_csr LOAD (mmu_new 2) pt_memory in
  r = Some (mkResult true false 0 0x40001234 2).
Proof. split; vm_compute; reflexivity. Qed.

Example store_hit_leaves_dirty_clear :
  let '(_, m1, s1) := translate 0x40001234 pt_csr LOAD (mmu_new 2) pt_memory in
  let '(r, _, s2) := translate 0x40001234 pt_csr STORE m1 s1 in
  option_map r_fault r = Some false /\ Z.testbit (load (mem s2) 0x1008 8) 7 = false.
Proof. vm_compute. done. Qed.
