(* ===== verification/Plic.v ===== *)
(** [src/inc/PLIC.h]: the interrupt controller.  The state is the class's registers,
    [m_irq_state], the pending notification of [m_update_irq_event] and the value last
    driven on [irq_out].  [b_transport] answers [None] where the code shifts by 32 or
    more, which C++ leaves undefined. *)
From Stdlib Require Import Sorted.
From S2P Require Import Prelude Bytes Memory.

Definition MAX_SOURCES : Z := 32.

Record PLIC := mkPLIC {
  priorities : list Z;
  pending_bits : Z;
  enabled_bits : Z;
  threshold : Z;
  claim_complete : Z;
  level_bits : Z;
  m_irq_state : bool;
  m_update_irq_event : bool;    (* notified, the process has not run yet *)
  irq_out : bool
}.

Definition PLIC_new : PLIC := mkPLIC (replicate 32 0) 0 0 0 0 0 false false false.

Definition priority (s : PLIC) (i : Z) : Z := priorities s !!! Z.to_nat i.
Definition sources : list Z := seqZ 1 (MAX_SOURCES - 1).

Definition source_active (s : PLIC) (i : Z) : bool :=
  negb ((pending_bits s .& (1 .<< i)) =? 0) && negb ((enabled_bits s .& (1 .<< i)) =? 0).

(** The loop with its [break] is the disjunction over the sources. *)
Definition update_irq_out (s : PLIC) : PLIC :=
  let target_state :=
    existsb (fun i => source_active s i && (threshold s <? priority s i)) sources in
  if bool_decide (target_state = m_irq_state s) then s
  else { s with m_irq_state := target_state; m_update_irq_event := true }.

(** The process the event is sensitive to. *)
Definition update_output_process (s : PLIC) : PLIC :=
  { s with irq_out := m_irq_state s; m_update_irq_event := false }.

(** The scheduler's next delta cycle: the process runs if its event was notified. *)
Definition plic_delta (s : PLIC) : PLIC :=
  if m_update_irq_event s then update_output_process s else s.

Definition plic_raise (id : Z) (s : PLIC) : PLIC :=
  if (0 <? id) && (id <? MAX_SOURCES)
  then update_irq_out { s with pending_bits := pending_bits s .| (1 .<< id) } else s.

Definition set_irq_level (id : Z) (active : bool) (s : PLIC) : PLIC :=
  if (id =? 0) || (MAX_SOURCES <=? id) then s
  else
    update_irq_out
      (if active then { s with level_bits := level_bits s .| (1 .<< id);
                               pending_bits := pending_bits s .| (1 .<< id) }
       else { s with level_bits := level_bits s .&~ (1 .<< id);
                     pending_bits := pending_bits s .&~ (1 .<< id) }).

(** The search of a claim: [best] and [best_prio] over the sources in order. *)
Definition claim_step (s : PLIC) (acc : Z * Z) (i : Z) : Z * Z :=
  let '(best, best_prio) := acc in
  if source_active s i then
    let p := priority s i in
    if (best_prio <? p) && (threshold s <? p) then (i, p) else (best, best_prio)
  else (best, best_prio).
Definition claim_best (s : PLIC) : Z := (fold_left (claim_step s) sources (0, 0)).1.

Definition plic_claim (s : PLIC) : Z * PLIC :=
  let best := claim_best s in
  let s := { s with claim_complete := best } in
  let s := if best =? 0 then s
           else { s with pending_bits := pending_bits s .&~ (1 .<< best) } in
  (best, update_irq_out s).

Definition plic_complete (data : Z) (s : PLIC) : option PLIC :=
  if data <? 32 then
    let s := { s with pending_bits := pending_bits s .&~ (1 .<< data); claim_complete := 0 } in
    let s := if (0 <? data) && (data <? MAX_SOURCES) &&
                negb ((level_bits s .& (1 .<< data)) =? 0)
             then { s with pending_bits := pending_bits s .| (1 .<< data) } else s in
    Some (update_irq_out s)
  else None.

Definition plic_b_transport (p : payload) (delay : Z) (s : PLIC) : option (payload * Z * PLIC) :=
  let cmd := p_cmd p in
  let addr := p_addr p in
  if negb (p_len p =? 4) then Some ({ p with p_status := TLM_BURST_ERROR }, delay, s)
  else
    let write := bool_decide (cmd = TLM_WRITE) in
    let data := if write then le_combine (p_data p) else 0 in
    match
      (if addr <? 0x1000 then
         let idx := addr / 4 in
         if idx <? MAX_SOURCES then
           if write
           then Some (data, { s with priorities := <[Z.to_nat idx := data .& 0x7]> (priorities s) })
           else Some (priority s idx, s)
         else Some (data, s)
       else if addr =? 0x1000 then
         Some (if bool_decide (cmd = TLM_READ) then pending_bits s else data, s)
       else if addr =? 0x2000 then
         if write then Some (data, { s with enabled_bits := data }) else Some (enabled_bits s, s)
       else if addr =? 0x200000 then
         if write then Some (data, { s with threshold := data .& 0x7 }) else Some (threshold s, s)
       else if addr =? 0x200004 then
         if bool_decide (cmd = TLM_READ) then Some (plic_claim s)
         else match plic_complete data s with Some s => Some (data, s) | None => None end
       else Some (data, s))
    with
    | None => None
    | Some (data, s) =>
        let p := if bool_decide (cmd = TLM_READ) then { p with p_data := le_split 4 data } else p in
        Some ({ p with p_status := TLM_OK }, delay, s)
    end.

(** ** The contract *)

(** A source that may interrupt: pending, enabled and above the threshold. *)
Definition eligible (s : PLIC) (i : Z) : Prop :=
  1 <= i < MAX_SOURCES /\ Z.testbit (pending_bits s) i = true /\
  Z.testbit (enabled_bits s) i = true /\ threshold s < priority s i.

(** The line that the next delta cycle drives is up exactly when some source may interrupt. *)
Definition line_ok (s : PLIC) : Prop :=
  irq_out (plic_delta s) = true <-> exists i, eligible s i.

Record plic_wf (s : PLIC) : Prop := {
  pw_length : length (priorities s) = 32%nat;
  pw_prio : Forall (fun p => 0 <= p <= 7) (priorities s);
  pw_pending : fits 32 (pending_bits s);
  pw_source0 : Z.testbit (pending_bits s) 0 = false;
  pw_enabled : fits 32 (enabled_bits s);
  pw_level : fits 32 (level_bits s);
  pw_threshold : 0 <= threshold s <= 7;
  pw_irq : m_update_irq_event s = false -> irq_out s = m_irq_state s
}.

(** ** Lemmas *)

Lemma source_active_spec s i :
  0 <= i ->
  source_active s i = Z.testbit (pending_bits s) i && Z.testbit (enabled_bits s) i.
Proof. intros. unfold source_active. by rewrite !land_bit, !negb_involutive. Qed.

Lemma elem_of_sources i : i ∈ sources <-> 1 <= i < MAX_SOURCES.
Proof. unfold sources. rewrite elem_of_seqZ. unfold MAX_SOURCES. lia. Qed.

Lemma eligible_spec s i :
  eligible s i <-> i ∈ sources /\ source_active s i = true /\ threshold s < priority s i.
Proof.
  unfold eligible. rewrite elem_of_sources. split.
  - intros (Hi & H1 & H2 & H3). rewrite source_active_spec, H1, H2 by lia. done.
  - intros (Hi & Ha & H3). rewrite source_active_spec in Ha by lia.
    apply andb_prop in Ha as [H1 H2]. done.
Qed.

Lemma existsb_eligible s :
  existsb (fun i => source_active s i && (threshold s <? priority s i)) sources = true <->
  exists i, eligible s i.
Proof.
  rewrite existsb_exists. split; intros (i & Hi).
  - exists i. apply eligible_spec. destruct Hi as [Hi Ha]. apply andb_prop in Ha as [Ha Ht].
    split_and!; [by apply list_elem_of_In|done|by apply Z.ltb_lt].
  - exists i. apply eligible_spec in Hi as (Hi & Ha & Ht). split; [by apply list_elem_of_In|].
    by rewrite Ha, (proj2 (Z.ltb_lt _ _) Ht).
Qed.

(** What is driven is what was last decided, unless a notification is due. *)
Definition irq_driven (s : PLIC) : Prop := m_update_irq_event s = false -> irq_out s = m_irq_state s.

Lemma plic_delta_out s : irq_driven s -> irq_out (plic_delta s) = m_irq_state s.
Proof. unfold irq_driven, plic_delta. destruct (m_update_irq_event s); [done|]. intros H. by apply H. Qed.

(** The line follows the sources whenever it is updated; nothing else changes. *)
Lemma update_irq_out_line s : irq_driven s -> line_ok (update_irq_out s).
Proof.
  intros Hd. unfold line_ok. rewrite plic_delta_out.
  - unfold update_irq_out. pose proof (existsb_eligible s) as E. case_bool_decide as D; [by rewrite <-D|exact E].
  - unfold update_irq_out. by case_bool_decide.
Qed.

Lemma update_irq_out_regs s :
  let s' := update_irq_out s in
  priorities s' = priorities s /\ pending_bits s' = pending_bits s /\
  enabled_bits s' = enabled_bits s /\ threshold s' = threshold s /\
  claim_complete s' = claim_complete s /\ level_bits s' = level_bits s /\ irq_out s' = irq_out s.
Proof. unfold update_irq_out. by case_bool_decide. Qed.

Lemma update_irq_out_wf s : plic_wf s -> plic_wf (update_irq_out s).
Proof. intros []. unfold update_irq_out. case_bool_decide; by split. Qed.

(** The fold of the claim keeps the best source so far. *)
Definition best_so_far (s : PLIC) (l : list Z) (acc : Z * Z) : Prop :=
  (acc = (0, 0) /\ forall i, i ∈ l -> ~ eligible s i) \/
  (acc.1 ∈ l /\ eligible s acc.1 /\ acc.2 = priority s acc.1 /\
   forall j, j ∈ l -> eligible s j ->
     priority s j < acc.2 \/ (priority s j = acc.2 /\ acc.1 <= j)).

Lemma claim_step_best s l acc i :
  0 <= threshold s -> i ∈ sources -> (forall j, j ∈ l -> j < i) ->
  best_so_far s l acc -> best_so_far s (l ++ [i]) (claim_step s acc i).
Proof.
  intros Ht Hi Hlt Hb. destruct acc as [best prio]. unfold claim_step.
  assert (eligible s i <-> source_active s i = true /\ threshold s < priority s i) as El
    by (rewrite eligible_spec; tauto).
  assert (forall b p, best_so_far s l (b, p) ->
    (eligible s i -> b <> 0 /\ (priority s i < p \/ priority s i = p /\ b <= i)) ->
    best_so_far s (l ++ [i]) (b, p)) as Keep.
  { intros b p [[[= -> ->] Hn]|(H1 & H2 & H3 & H4)] Hk.
    - left. split; [done|]. intros j. rewrite elem_of_app, list_elem_of_singleton.
      intros [Hj| ->]; [by apply Hn|]. intros He. by destruct (Hk He).
    - right. split_and!; [apply elem_of_app; by left|done|done|].
      intros j. rewrite elem_of_app, list_elem_of_singleton. intros [Hj| ->] He; [by apply H4|].
      simpl in *. by apply Hk. }
  destruct (source_active s i) eqn:Ea.
  - destruct (Z.ltb_spec prio (priority s i)), (Z.ltb_spec (threshold s) (priority s i)); cbn [andb].
    2-4: apply Keep; [done|]; intros He%El; simpl in *;
      destruct Hb as [[[= -> ->] Hn]|(H1 & H2 & H3 & H4)]; [lia|]; simpl in *;
      pose proof (Hlt _ H1); apply eligible_spec in H2 as (H2%elem_of_sources & _); lia.
    right. simpl. split_and!; [apply elem_of_app; right; by apply list_elem_of_singleton|by apply El|done|].
    intros j. rewrite elem_of_app, list_elem_of_singleton. intros [Hj| ->] He; [|lia]. left.
    destruct Hb as [[[= -> ->] Hn]|(H1 & H2 & H3 & H4)]; [by destruct (Hn j Hj)|].
    simpl in *. destruct (H4 j Hj He); lia.
  - apply Keep; [done|]. intros He%El. by destruct He.
Qed.

Lemma claim_fold s l l' acc :
  0 <= threshold s -> l ++ l' = sources -> best_so_far s l acc ->
  best_so_far s sources (fold_left (claim_step s) l' acc).
Proof.
  intros Ht. revert l acc. induction l' as [|i l' IH]; intros l acc E Hb; simpl.
  - by rewrite app_nil_r in E; subst.
  - apply (IH (l ++ [i])); [by rewrite <-app_assoc|]. apply claim_step_best; [done| | |done].
    + rewrite <-E. apply elem_of_app. right. apply elem_of_cons. by left.
    + intros j Hj. assert (StronglySorted Z.lt sources) as Hs
        by (apply Sorted_StronglySorted; [intros ???; lia|]; vm_compute; repeat constructor).
      rewrite <-E in Hs. clear -Hs Hj. induction l as [|k l IH]; [by apply elem_of_nil in Hj|].
      apply StronglySorted_inv in Hs as [Hs Hf].
      apply elem_of_cons in Hj as [->|Hj]; [|by apply IH].
      rewrite List.Forall_forall in Hf. apply Hf. apply in_or_app. right. by left.
Qed.

Lemma claim_best_spec s :
  0 <= threshold s ->
  (claim_best s = 0 /\ forall i, ~ eligible s i) \/
  (eligible s (claim_best s) /\
   forall j, eligible s j ->
     priority s j < priority s (claim_best s) \/
     (priority s j = priority s (claim_best s) /\ claim_best s <= j)).
Proof.
  intros Ht. unfold claim_best.
  assert (best_so_far s sources (fold_left (claim_step s) sources (0, 0))) as H.
  { apply (claim_fold s []); [done|done|]. left. split; [done|]. intros i []%elem_of_nil. }
  destruct H as [[E Hn]|(H1 & H2 & H3 & H4)].
  - left. rewrite E. split; [done|]. intros i Hi. apply (Hn i); [|done]. by apply eligible_spec in Hi as [? _].
  - right. split; [done|]. intros j Hj. rewrite <-H3. apply H4; [|done]. by apply eligible_spec in Hj as [? _].
Qed.

Lemma claim_iff_eligible s : 0 <= threshold s -> (claim_best s <> 0 <-> exists i, eligible s i).
Proof.
  intros Ht. destruct (claim_best_spec s Ht) as [[E Hn]|[He _]].
  - split; [done|]. intros [i Hi]. by destruct (Hn i).
  - split; [intros _; by exists (claim_best s)|]. intros _. destruct He as [[? _] _]. lia.
Qed.

Lemma clear_bit_spec x k i : 0 <= k -> 0 <= i ->
  Z.testbit (x .&~ (1 .<< k)) i = Z.testbit x i && negb (i =? k).
Proof. intros. by rewrite Z.ldiff_spec, testbit_one. Qed.
Lemma set_bit_spec x k i : 0 <= k -> 0 <= i ->
  Z.testbit (x .| (1 .<< k)) i = Z.testbit x i || (i =? k).
Proof. intros. by rewrite Z.lor_spec, testbit_one. Qed.

Lemma fits_bit k : 0 <= k < 32 -> fits 32 (1 .<< k).
Proof.
  intros. rewrite Z.shiftl_mul_pow2 by lia. unfold fits.
  pose proof (Z.pow_lt_mono_r 2 k 32). lia.
Qed.

(** Every operation keeps the state well formed. *)
Lemma plic_pending_wf v s :
  plic_wf s -> fits 32 v -> Z.testbit v 0 = false -> plic_wf { s with pending_bits := v }.
Proof. intros [] ? ?. by split. Qed.
Lemma plic_level_wf v s : plic_wf s -> fits 32 v -> plic_wf { s with level_bits := v }.
Proof. intros [] ?. by split. Qed.

Lemma plic_claim_reg_wf v s : plic_wf s -> plic_wf { s with claim_complete := v }.
Proof. intros []. by split. Qed.

Lemma plic_clear_wf k s :
  0 <= k -> plic_wf s -> plic_wf { s with pending_bits := pending_bits s .&~ (1 .<< k) }.
Proof.
  intros Hk Hwf. apply plic_pending_wf; [done|apply fits_ldiff; [lia|apply Hwf]|].
  by rewrite clear_bit_spec, (pw_source0 s Hwf) by lia.
Qed.

Lemma plic_set_wf k s :
  0 < k < 32 -> plic_wf s -> plic_wf { s with pending_bits := pending_bits s .| (1 .<< k) }.
Proof.
  intros Hk Hwf. apply plic_pending_wf; [done|apply fits_lor; [lia|apply Hwf|apply fits_bit; lia]|].
  rewrite set_bit_spec, (pw_source0 s Hwf) by lia. by rewrite (proj2 (Z.eqb_neq 0 k)) by lia.
Qed.

Lemma plic_raise_wf id s : plic_wf s -> plic_wf (plic_raise id s).
Proof.
  intros Hwf. unfold plic_raise, MAX_SOURCES.
  destruct (Z.ltb_spec 0 id), (Z.ltb_spec id 32); cbn [andb]; try done.
  apply update_irq_out_wf. by apply (plic_set_wf id s).
Qed.

Lemma set_irq_level_wf id b s : 0 <= id -> plic_wf s -> plic_wf (set_irq_level id b s).
Proof.
  intros Hid Hwf. unfold set_irq_level, MAX_SOURCES.
  destruct (Z.eqb_spec id 0), (Z.leb_spec 32 id); cbn [orb]; try done.
  pose proof (pw_source0 s Hwf) as H0. apply update_irq_out_wf.
  assert (fits 32 (1 .<< id)) by (apply fits_bit; lia).
  destruct b; apply plic_pending_wf; try apply plic_level_wf; try done.
  - apply fits_lor; [lia|apply Hwf|done].
  - apply fits_lor; [lia|apply Hwf|done].
  - rewrite set_bit_spec, H0 by lia. by rewrite (proj2 (Z.eqb_neq 0 id)) by lia.
  - apply fits_ldiff; [lia|apply Hwf].
  - apply fits_ldiff; [lia|apply Hwf].
  - by rewrite clear_bit_spec, H0 by lia.
Qed.

Lemma claim_best_range s : 0 <= threshold s -> 0 <= claim_best s < 32.
Proof.
  intros Ht. destruct (claim_best_spec s Ht) as [[-> _]|[[H _] _]]; [lia|]. unfold MAX_SOURCES in H. lia.
Qed.

Lemma plic_claim_wf s : plic_wf s -> plic_wf (plic_claim s).2.
Proof.
  intros Hwf. unfold plic_claim. cbn [snd]. apply update_irq_out_wf.
  pose proof (claim_best_range s ltac:(apply Hwf)).
  pose proof (plic_claim_reg_wf (claim_best s) s Hwf) as Hc.
  destruct (claim_best s =? 0); [done|]. by apply (plic_clear_wf (claim_best s) _ ltac:(lia) Hc).
Qed.

Lemma plic_complete_wf data s s' :
  0 <= data -> plic_wf s -> plic_complete data s = Some s' -> plic_wf s'.
Proof.
  intros Hd Hwf. unfold plic_complete. destruct (Z.ltb_spec data 32); [|done]. intros [= <-].
  apply update_irq_out_wf.
  pose proof (plic_claim_reg_wf 0 _ (plic_clear_wf data s Hd Hwf)) as Hc.
  destruct (Z.ltb_spec 0 data); cbn [andb]; [|done].
  destruct (_ && _); [|done]. apply (plic_set_wf data _ ltac:(lia) Hc).
Qed.

Lemma land_7_range x : 0 <= x .& 7 <= 7.
Proof. change 7 with (Z.ones 3) at 1 2. rewrite Z.land_ones by lia. change (2 ^ 3) with 8. pose proof (Z.mod_pos_bound x 8 ltac:(lia)). lia. Qed.

(** A transaction of the bus: at most eight bytes at a 64-bit address. *)
Definition payload_wf (p : payload) : Prop :=
  is_bytes (p_data p) /\ 0 <= p_addr p.

Lemma plic_data_range p : payload_wf p -> p_len p = 4 -> fits 32 (le_combine (p_data p)).
Proof.
  intros [Hb _] Hl. pose proof (le_combine_fits _ Hb) as H. unfold p_len in Hl. by rewrite Hl in H.
Qed.

#[local] Opaque update_irq_out claim_best.

Lemma plic_b_transport_wf p d p' d' s s' :
  plic_wf s -> payload_wf p -> plic_b_transport p d s = Some (p', d', s') -> plic_wf s'.
Proof.
  intros Hwf Hp. unfold plic_b_transport. destruct (Z.eqb_spec (p_len p) 4) as [El|]; cbn [negb];
    [|by intros [= _ _ <-]].
  pose proof (plic_data_range p Hp El) as Hd.
  set (data := if bool_decide (p_cmd p = TLM_WRITE) then _ else 0).
  assert (fits 32 data) as Hdata by (unfold data; case_match; [done|unfold fits; lia]).
  match goal with |- match ?m with _ => _ end = _ -> _ => destruct m as [[v s1]|] eqn:E; [|done] end.
  intros [= _ _ <-]. revert E.
  destruct (p_addr p <? 0x1000).
  { destruct (p_addr p / 4 <? MAX_SOURCES); [|by intros [= _ <-]].
    case_bool_decide; intros [= _ <-]; [|done]. destruct Hwf; split; simpl; try done.
    - by rewrite length_insert.
    - apply Forall_insert; [done|]. apply land_7_range. }
  destruct (p_addr p =? 0x1000); [by intros [= _ <-]|].
  destruct (p_addr p =? 0x2000).
  { case_bool_decide; intros [= _ <-]; [|done]. destruct Hwf; by split. }
  destruct (p_addr p =? 0x200000).
  { case_bool_decide; intros [= _ <-]; [|done]. destruct Hwf; split; simpl; try done. apply land_7_range. }
  destruct (p_addr p =? 0x200004); [|by intros [= _ <-]].
  destruct (bool_decide (p_cmd p = TLM_READ)).
  { intros E. assert (s1 = (plic_claim s).2) as -> by (apply (inj Some) in E; by rewrite E).
    by apply plic_claim_wf. }
  destruct (plic_complete data s) as [s2|] eqn:Ec; [|done]. intros [= _ <-].
  apply (plic_complete_wf data s); [apply Hdata|done|done].
Qed.

(** The operations of the controller, from the peripherals, the bus and the scheduler. *)
Inductive plic_event : PLIC -> PLIC -> Prop :=
| ev_raise id s : plic_event s (plic_raise id s)
| ev_level id b s : 0 <= id -> plic_event s (set_irq_level id b s)
| ev_bus p d p' d' s s' :
    payload_wf p -> plic_b_transport p d s = Some (p', d', s') -> plic_event s s'
| ev_update s : plic_event s (update_output_process s).

Inductive plic_reachable : PLIC -> Prop :=
| plic_reach_init : plic_reachable PLIC_new
| plic_reach_event s s' : plic_reachable s -> plic_event s s' -> plic_reachable s'.

Lemma PLIC_new_wf : plic_wf PLIC_new.
Proof. split; try done; unfold fits; simpl; try lia. by repeat constructor. Qed.

(** In every reachable state the registers are in range, source 0 is never pending,
    and [irq_out] carries [m_irq_state] whenever no update is due. *)
Theorem plic_reachable_wf s : plic_reachable s -> plic_wf s.
Proof.
  induction 1 as [|s s' _ IH Hev]; [apply PLIC_new_wf|]. destruct Hev as [id s|id b s Hid|p d p' d' s s' Hp E|s].
  - by apply plic_raise_wf.
  - by apply set_irq_level_wf.
  - by apply (plic_b_transport_wf p d p' d' s).
  - destruct IH. by split.
Qed.

Lemma plic_claim_bus s data d :
  length data = 4%nat ->
  plic_b_transport (mkPayload TLM_READ 0x200004 data false TLM_INCOMPLETE false) d s =
    Some (mkPayload TLM_READ 0x200004 (le_split 4 (claim_best s)) false TLM_OK false, d, (plic_claim s).2).
Proof.
  intros Hl. change (claim_best s) with (plic_claim s).1. unfold plic_b_transport, p_len.
  generalize (plic_claim s) as c. intros [id s']. cbn [p_data p_cmd p_addr]. by rewrite Hl.
Qed.

(** C38: reading the claim register answers the eligible source of the highest priority,
    the lowest number among equals, or 0 when there is none; exactly that source stops
    being pending, and the interrupt line is up exactly if another source is eligible. *)
Theorem plic_claim_correct s data d :
  plic_wf s -> length data = 4%nat ->
  exists id s',
    plic_b_transport (mkPayload TLM_READ 0x200004 data false TLM_INCOMPLETE false) d s =
      Some (mkPayload TLM_READ 0x200004 (le_split 4 id) false TLM_OK false, d, s') /\
    ((id = 0 /\ forall i, ~ eligible s i) \/
     (eligible s id /\ forall j, eligible s j ->
        priority s j < priority s id \/ (priority s j = priority s id /\ id <= j))) /\
    (forall i, 0 <= i -> Z.testbit (pending_bits s') i = Z.testbit (pending_bits s) i && negb (i =? id)) /\
    claim_complete s' = id /\ priorities s' = priorities s /\ enabled_bits s' = enabled_bits s /\
    threshold s' = threshold s /\ level_bits s' = level_bits s /\ line_ok s'.
Proof.
  intros Hwf Hl. exists (claim_best s), (plic_claim s).2. split; [by apply plic_claim_bus|].
  assert (0 <= threshold s) as Ht by apply Hwf. split; [by apply claim_best_spec|].
  pose proof (claim_best_range s Ht) as Hr. unfold plic_claim. cbn [snd]. revert Hr.
  generalize (claim_best s) as id. intros id Hr.
  match goal with |- context [update_irq_out ?x] =>
    destruct (update_irq_out_regs x) as (-> & -> & -> & -> & -> & -> & _);
    pose proof (update_irq_out_line x) as Hline end.
  pose proof (pw_irq s Hwf : irq_driven s) as Hd.
  split_and!; try (by case_match); [|by apply Hline; case_match].
  intros i Hi. destruct (Z.eqb_spec id 0) as [->|Hn]; simpl.
  - destruct (Z.eqb_spec i 0) as [->|]; [by rewrite (pw_source0 s Hwf)|by rewrite andb_true_r].
  - by apply clear_bit_spec; lia.
Qed.

(** While the line is up to date, it is up exactly when a claim would return a
    source; and it is up to date after every raise, level change, claim and completion. *)
Theorem plic_line_claim s :
  plic_wf s ->
  (line_ok s -> (irq_out (plic_delta s) = true <-> claim_best s <> 0)) /\
  (forall id, 0 < id < MAX_SOURCES -> line_ok (plic_raise id s)) /\
  (forall id b, 0 < id < MAX_SOURCES -> line_ok (set_irq_level id b s)) /\
  line_ok (plic_claim s).2 /\
  (forall id, 0 <= id < 32 -> exists s', plic_complete id s = Some s' /\ line_ok s').
Proof.
  intros Hwf. assert (0 <= threshold s) as Ht by apply Hwf. pose proof (pw_irq s Hwf) as Hd. split_and!.
  - intros Hl. by rewrite (claim_iff_eligible s Ht).
  - intros id Hid. unfold plic_raise.
    rewrite (proj2 (Z.ltb_lt _ _)), (proj2 (Z.ltb_lt id _)) by lia. by apply update_irq_out_line.
  - intros id b Hid. unfold set_irq_level.
    rewrite (proj2 (Z.eqb_neq _ _)), (proj2 (Z.leb_gt _ _)) by lia. apply update_irq_out_line. by destruct b.
  - apply update_irq_out_line. by destruct (claim_best s =? 0).
  - intros id Hid. unfold plic_complete. rewrite (proj2 (Z.ltb_lt _ _)) by lia.
    eexists. split; [reflexivity|]. apply update_irq_out_line. by destruct (_ && _).
Qed.

(** A level-triggered source that is claimed and completed is pending again exactly
    if it is still asserted; every other source keeps its state. *)
Theorem plic_level_complete s id s' :
  plic_wf s -> 0 < id < MAX_SOURCES -> plic_complete id (plic_claim s).2 = Some s' ->
  claim_best s = id ->
  forall i, 0 <= i ->
    Z.testbit (pending_bits s') i =
      if i =? id then Z.testbit (level_bits s) id else Z.testbit (pending_bits s) i.
Proof.
  unfold MAX_SOURCES. intros Hwf Hid Hc Hb i Hi. revert Hc. unfold plic_complete, MAX_SOURCES.
  rewrite (proj2 (Z.ltb_lt id 32)), (proj2 (Z.ltb_lt 0 id)) by lia. cbn [andb].
  intros Hc%(inj Some). subst s'.
  match goal with |- context [update_irq_out ?x] =>
    destruct (update_irq_out_regs x) as (_ & -> & _) end.
  unfold plic_claim. cbn [snd]. rewrite Hb, (proj2 (Z.eqb_neq id 0)) by lia.
  match goal with |- context [update_irq_out ?x] =>
    destruct (update_irq_out_regs x) as (_ & Ep & _ & _ & _ & El & _) end.
  simpl in Ep, El |- *. rewrite El, land_bit, negb_involutive by lia.
  destruct (Z.testbit (level_bits s) id) eqn:E; simpl; rewrite Ep;
    rewrite ?set_bit_spec, !clear_bit_spec by lia; destruct (Z.eqb_spec i id) as [->|]; simpl;
    rewrite ?andb_true_r, ?andb_false_r, ?orb_true_r, ?orb_false_r; done.
Qed.

#[local] Transparent update_irq_out claim_best.

(** ** Departures *)

(** Enabling a pending source does not raise the line, nor does lowering the threshold
    or raising a priority: the line waits for the next raise, claim or completion. *)
Lemma plic_enable_stale :
  let s := plic_raise 1 { PLIC_new with priorities := <[1%nat := 7]> (priorities PLIC_new) } in
  match plic_b_transport (mkPayload TLM_WRITE 0x2000 (le_split 4 2) false TLM_INCOMPLETE false) 0 s with
  | Some (_, _, s') => eligible s' 1 /\ irq_out (plic_delta s') = false
  | None => False
  end.
Proof. vm_compute. by split_and!. Qed.

(** An edge raised while its source is in service is lost by the completion. *)
Lemma plic_complete_loses_edge :
  let s := { PLIC_new with priorities := <[1%nat := 7]> (priorities PLIC_new); enabled_bits := 2 } in
  match plic_complete 1 (plic_raise 1 (plic_claim (plic_raise 1 s)).2) with
  | Some s' => pending_bits s' = 0
  | None => False
  end.
Proof. by vm_compute. Qed.

(** Completing a number of 32 or more shifts out of range. *)
Lemma plic_complete_undefined s data : 32 <= data -> plic_complete data s = None.
Proof. intros. unfold plic_complete. by rewrite (proj2 (Z.ltb_ge data 32)). Qed.

(** ** Witnesses *)

(** Sources 1 and 5 pending and enabled, 5 of the higher priority, 1 asserted. *)
Definition plic_example : PLIC :=
  plic_raise 5 (set_irq_level 1 true
    { PLIC_new with priorities := <[5%nat := 4]> (<[1%nat := 2]> (priorities PLIC_new));
                    enabled_bits := 34 }).

Lemma plic_example_wf : plic_wf plic_example.
Proof.
  apply plic_raise_wf, set_irq_level_wf; [lia|]. destruct PLIC_new_wf. split; try done.
  all: try (unfold fits; simpl; lia). vm_compute. by repeat constructor.
Qed.

Lemma plic_reachable_wf_witness :
  plic_reachable (set_irq_level 1 true PLIC_new) /\ plic_wf (set_irq_level 1 true PLIC_new).
Proof.
  assert (plic_reachable (set_irq_level 1 true PLIC_new)) as H
    by (eapply plic_reach_event; [apply plic_reach_init|by apply ev_level]).
  split; [exact H|]. by apply plic_reachable_wf.
Defined.

Lemma plic_claim_correct_witness :
  claim_best plic_example = 5 /\
  exists id s', plic_b_transport (mkPayload TLM_READ 0x200004 [0; 0; 0; 0] false TLM_INCOMPLETE false) 0
      plic_example = Some (mkPayload TLM_READ 0x200004 (le_split 4 id) false TLM_OK false, 0, s') /\
    line_ok s'.
Proof.
  split; [by vm_compute|].
  destruct (plic_claim_correct plic_example [0; 0; 0; 0] 0 plic_example_wf eq_refl)
    as (id & s' & E & _ & _ & _ & _ & _ & _ & _ & Hl). exists id, s'. split; [exact E|exact Hl].
Defined.

Lemma plic_line_claim_witness :
  irq_out (plic_delta plic_example) = true /\ line_ok (plic_claim plic_example).2.
Proof.
  split; [by vm_compute|]. by destruct (plic_line_claim plic_example plic_example_wf) as (_ & _ & _ & H & _).
Defined.

Lemma plic_level_complete_witness :
  let s := (plic_claim plic_example).2 in
  match plic_complete 1 (plic_claim s).2 with
  | Some s' => Z.testbit (pending_bits s') 1 = true
  | None => False
  end.
Proof.
  intros s. destruct (plic_complete 1 (plic_claim s).2) as [s'|] eqn:E; [|by vm_compute in E].
  rewrite (plic_level_complete s 1 s' (plic_claim_wf _ plic_example_wf) ltac:(unfold MAX_SOURCES; lia) E
    ltac:(by vm_compute) 1 ltac:(lia)). by vm_compute.
Defined.
