(* ===== verification/Clint.v ===== *)
(** [src/inc/CLINT.h]: the core-local timer and software interrupt; and
    [src/inc/Timer.h], [src/src/Timer.cpp]: the platform timer.  The processes of the
    modules are the functions they run; a flag says that the event a process is
    sensitive to was notified and the process has not run yet. *)
From S2P Require Import Prelude Bytes Memory BusCtrl.

(** ** CLINT *)

Record CLINT := mkCLINT {
  m_mtime : Z;
  m_mtimecmp : Z;
  m_msip : Z;
  m_update_event : bool;
  timer_irq : bool;
  msip_irq : bool
}.

(** The process of the event also runs when the simulation starts. *)
Definition CLINT_new : CLINT := mkCLINT 0 0xFFFFFFFFFFFFFFFF 0 true false false.

Definition fast_forward_to_deadline (s : CLINT) : Z * CLINT :=
  if negb (m_mtimecmp s =? 0xFFFFFFFFFFFFFFFF) && (u64 (m_mtime s + 1) <? m_mtimecmp s) then
    let skip := u64 (m_mtimecmp s - 1 - m_mtime s) in
    (skip, { s with m_mtime := u64 (m_mtimecmp s - 1); m_update_event := true })
  else (0, s).

Definition update_irq_method (s : CLINT) : CLINT :=
  { s with timer_irq := m_mtimecmp s <=? m_mtime s; m_update_event := false }.

(** One turn of the loop of [tick], after its wait. *)
Definition tick (s : CLINT) : CLINT :=
  { s with m_mtime := u64 (m_mtime s + 1); m_update_event := true }.

Definition set_mtimecmp (v : Z) (s : CLINT) : CLINT :=
  { s with m_mtimecmp := v; m_update_event := true }.
Definition set_mtime (v : Z) (s : CLINT) : CLINT :=
  { s with m_mtime := v; m_update_event := true }.

Definition low_word (v value32 : Z) : Z := (v .& 0xFFFFFFFF00000000) .| value32.
Definition high_word (v value32 : Z) : Z := (v .& 0xFFFFFFFF) .| u64 (value32 .<< 32).

Definition clint_b_transport (p : payload) (delay : Z) (s : CLINT) : payload * Z * CLINT :=
  let cmd := p_cmd p in
  let addr := p_addr p in
  let len := p_len p in
  let '(p, s) :=
    if len =? 8 then
      if bool_decide (cmd = TLM_WRITE) then
        let value := le_combine (p_data p) in
        (p, if addr =? 0x4000 then set_mtimecmp value s
            else if addr =? 0xBFF8 then set_mtime value s else s)
      else if bool_decide (cmd = TLM_READ) then
        let value := if addr =? 0x4000 then m_mtimecmp s
                     else if addr =? 0xBFF8 then m_mtime s else 0 in
        ({ p with p_data := le_split 8 value }, s)
      else (p, s)
    else if len =? 4 then
      if bool_decide (cmd = TLM_WRITE) then
        let value32 := le_combine (p_data p) in
        (p, if addr =? 0x0000 then
              let m := value32 .& 1 in { s with m_msip := m; msip_irq := negb (m .& 1 =? 0) }
            else if addr =? 0x4000 then set_mtimecmp (low_word (m_mtimecmp s) value32) s
            else if addr =? 0x4004 then set_mtimecmp (high_word (m_mtimecmp s) value32) s
            else if addr =? 0xBFF8 then set_mtime (low_word (m_mtime s) value32) s
            else if addr =? 0xBFFC then set_mtime (high_word (m_mtime s) value32) s
            else s)
      else if bool_decide (cmd = TLM_READ) then
        let value32 := if addr =? 0x0000 then m_msip s
                       else if addr =? 0x4000 then u32 (m_mtimecmp s .& 0xFFFFFFFF)
                       else if addr =? 0x4004 then u32 (m_mtimecmp s .>> 32)
                       else if addr =? 0xBFF8 then u32 (m_mtime s .& 0xFFFFFFFF)
                       else if addr =? 0xBFFC then u32 (m_mtime s .>> 32)
                       else 0 in
        ({ p with p_data := le_split 4 value32 }, s)
      else (p, s)
    else (p, s) in
  ({ p with p_status := TLM_OK }, delay, s).

#[export] Instance clint_target : Target CLINT := clint_b_transport.

(** The events of the module: the tick, its process, the bus, the fast-forward of a
    core that sleeps in WFI. *)
Inductive clint_event : CLINT -> CLINT -> Prop :=
| cev_tick s : clint_event s (tick s)
| cev_update s : clint_event s (update_irq_method s)
| cev_bus p d s :
    is_bytes (p_data p) -> clint_event s (clint_b_transport p d s).2
| cev_fast s : clint_event s (fast_forward_to_deadline s).2.

Inductive clint_reachable : CLINT -> Prop :=
| clint_reach_init : clint_reachable CLINT_new
| clint_reach_event s s' : clint_reachable s -> clint_event s s' -> clint_reachable s'.

Record clint_wf (s : CLINT) : Prop := {
  cw_mtime : fits 64 (m_mtime s);
  cw_mtimecmp : fits 64 (m_mtimecmp s);
  cw_msip : m_msip s = 0 \/ m_msip s = 1;
  cw_soft : msip_irq s = (m_msip s =? 1);
  (** Unless its update is due, the timer interrupt is the comparison. *)
  cw_timer : m_update_event s = false -> timer_irq s = (m_mtimecmp s <=? m_mtime s)
}.

Lemma low_word_fits v w : fits 64 v -> fits 32 w -> fits 64 (low_word v w).
Proof.
  intros Hv Hw. apply fits_lor; [lia| |by apply (fits_mono 32)].
  apply fits_land_l; [lia|done|done].
Qed.
Lemma high_word_fits v w : fits 64 v -> fits 64 (high_word v w).
Proof.
  intros Hv. apply fits_lor; [lia| |by apply wrap_fits]. by apply fits_land_l.
Qed.

(** The halves of a 64-bit register. *)
Lemma low_word_spec v w : fits 64 v -> fits 32 w -> low_word v w = (v .>> 32) * 2 ^ 32 + w.
Proof.
  intros Hv Hw. rewrite <-lor_shiftl_add by (done || lia). unfold low_word.
  apply Z.bits_inj'. intros i Hi. rewrite !Z.lor_spec, Z.land_spec. f_equal.
  change 0xFFFFFFFF00000000 with (Z.ones 32 .<< 32).
  rewrite !Z.shiftl_spec by done. destruct (Z.ltb_spec i 32).
  - rewrite !(Z.testbit_neg_r _ (i - 32)), andb_false_r by lia. done.
  - rewrite Z.shiftr_spec, Z.testbit_ones_nonneg by lia. replace (i - 32 + 32) with i by lia.
    destruct (Z.ltb_spec (i - 32) 32); [by rewrite andb_true_r|].
    rewrite (fits_testbit 64 v) by (done || lia). done.
Qed.

Lemma high_word_spec v w : fits 32 w -> high_word v w = w * 2 ^ 32 + v mod 2 ^ 32.
Proof.
  intros Hw. unfold high_word. change 0xFFFFFFFF with (Z.ones 32). rewrite land_ones_mod by lia.
  rewrite wrap_small.
  - rewrite Z.lor_comm. apply lor_shiftl_add; [lia|]. apply (wrap_fits 32). lia.
  - rewrite Z.shiftl_mul_pow2 by lia. unfold fits in *. lia.
Qed.

Lemma clint_data_fits p n : is_bytes (p_data p) -> p_len p = n -> fits (8 * n) (le_combine (p_data p)).
Proof. intros Hb Hl. pose proof (le_combine_fits _ Hb) as H. unfold p_len in Hl. by rewrite Hl in H. Qed.

Lemma set_mtimecmp_wf v s : clint_wf s -> fits 64 v -> clint_wf (set_mtimecmp v s).
Proof. intros [] ?. by split. Qed.
Lemma set_mtime_wf v s : clint_wf s -> fits 64 v -> clint_wf (set_mtime v s).
Proof. intros [] ?. by split. Qed.

Lemma clint_b_transport_wf p d s :
  is_bytes (p_data p) -> clint_wf s -> clint_wf (clint_b_transport p d s).2.
Proof.
  intros Hb Hwf. pose proof (cw_mtime s Hwf) as H1. pose proof (cw_mtimecmp s Hwf) as H2.
  unfold clint_b_transport. destruct (Z.eqb_spec (p_len p) 8) as [E|].
  { pose proof (clint_data_fits p 8 Hb E).
    case_bool_decide; [|case_bool_decide; done]. cbn [snd].
    destruct (p_addr p =? 0x4000); [by apply set_mtimecmp_wf|].
    destruct (p_addr p =? 0xBFF8); [by apply set_mtime_wf|done]. }
  destruct (Z.eqb_spec (p_len p) 4) as [E|]; [|done].
  pose proof (clint_data_fits p 4 Hb E) as Hd. change (8 * 4) with 32 in Hd.
  case_bool_decide; [|case_bool_decide; done]. cbn [snd].
  destruct (p_addr p =? 0).
  { destruct Hwf. change 1 with (Z.ones 1). cbv zeta. rewrite !land_ones_mod by lia.
    change (2 ^ 1) with 2. generalize (le_combine (p_data p)) as v. intros v.
    assert (v mod 2 = 0 \/ v mod 2 = 1) as B by (pose proof (Z.mod_pos_bound v 2 ltac:(lia)); lia).
    split; try done. by destruct B as [B|B]; simpl; rewrite !B. }
  destruct (p_addr p =? 0x4000); [by apply set_mtimecmp_wf; [|apply low_word_fits]|].
  destruct (p_addr p =? 0x4004); [by apply set_mtimecmp_wf; [|apply high_word_fits]|].
  destruct (p_addr p =? 0xBFF8); [by apply set_mtime_wf; [|apply low_word_fits]|].
  destruct (p_addr p =? 0xBFFC); [by apply set_mtime_wf; [|apply high_word_fits]|done].
Qed.

(** In every reachable state the timer's interrupt line is the comparison of mtime
    with mtimecmp unless an update is due, and the software interrupt line is MSIP. *)
Theorem clint_reachable_wf s : clint_reachable s -> clint_wf s.
Proof.
  induction 1 as [|s s' _ IH Hev]; [split; try done; [by left]|].
  destruct Hev as [s|s|p d s Hb|s].
  - apply (set_mtime_wf (u64 (m_mtime s + 1)) s IH). by apply wrap_fits.
  - destruct IH. by split.
  - by apply clint_b_transport_wf.
  - unfold fast_forward_to_deadline. destruct (_ && _); [|done]. cbn [snd].
    apply (set_mtime_wf (u64 (m_mtimecmp s - 1)) s IH). by apply wrap_fits.
Qed.

(** A write of [n] bytes, and the value a read of [n] bytes returns. *)
Definition clint_write (addr : Z) (n : nat) (v : Z) (s : CLINT) : CLINT :=
  (clint_b_transport (mkPayload TLM_WRITE addr (le_split n v) false TLM_INCOMPLETE false) 0 s).2.
Definition clint_read (addr : Z) (n : nat) (s : CLINT) : Z :=
  le_combine (p_data (clint_b_transport
    (mkPayload TLM_READ addr (replicate n 0) false TLM_INCOMPLETE false) 0 s).1.1).

(** The two timer registers. *)
Definition clint_reg (base : Z) (s : CLINT) : Z :=
  if base =? 0x4000 then m_mtimecmp s else m_mtime s.

Lemma clint_write_word base v s :
  base = 0x4000 \/ base = 0xBFF8 -> fits 32 v -> clint_wf s ->
  clint_reg base (clint_write base 4 v s) = (clint_reg base s .>> 32) * 2 ^ 32 + v /\
  clint_reg base (clint_write (base + 4) 4 v s) = v * 2 ^ 32 + clint_reg base s mod 2 ^ 32 /\
  clint_wf (clint_write base 4 v s) /\ clint_wf (clint_write (base + 4) 4 v s).
Proof.
  intros Hb Hv Hwf. pose proof (cw_mtime s Hwf) as H1. pose proof (cw_mtimecmp s Hwf) as H2.
  assert (forall a, clint_wf (clint_write a 4 v s)) as W
    by (intros a; apply clint_b_transport_wf; [apply le_split_bytes|done]).
  assert (le_combine (le_split 4 v) = v) as Ev by (rewrite le_combine_split; by apply wrap_small).
  split_and!; try done.
  - destruct Hb as [-> | ->]; unfold clint_write, clint_b_transport, p_len;
      cbn [p_data p_cmd p_addr]; rewrite le_split_length, Ev; by apply low_word_spec.
  - destruct Hb as [-> | ->]; unfold clint_write, clint_b_transport, p_len;
      cbn [p_data p_cmd p_addr]; rewrite le_split_length, Ev; by apply high_word_spec.
Qed.

(** A 64-bit timer register written whole, or as two words in either order, reads
    back whole as the value written, and its words as the halves of it. *)
Theorem clint_register_roundtrip base lo hi s :
  base = 0x4000 \/ base = 0xBFF8 -> fits 32 lo -> fits 32 hi -> clint_wf s ->
  let v := hi * 2 ^ 32 + lo in
  let reads s' := clint_read base 8 s' = v /\ clint_read base 4 s' = lo /\ clint_read (base + 4) 4 s' = hi in
  reads (clint_write base 8 v s) /\
  reads (clint_write (base + 4) 4 hi (clint_write base 4 lo s)) /\
  reads (clint_write base 4 lo (clint_write (base + 4) 4 hi s)).
Proof.
  intros Hb Hlo Hhi Hwf v reads.
  assert (fits 64 v) as Hv by (unfold v, fits in *; lia).
  assert (v mod 2 ^ 32 = lo /\ v .>> 32 = hi) as [Elo Ehi].
  { unfold v, fits in *. rewrite Z.shiftr_div_pow2 by lia.
    split; Z.to_euclidean_division_equations; lia. }
  assert (forall s', clint_reg base s' = v -> reads s') as R.
  { intros s' Es. unfold reads. assert (clint_read base 8 s' = u64 (clint_reg base s') /\
      clint_read base 4 s' = u32 (clint_reg base s' .& 0xFFFFFFFF) /\
      clint_read (base + 4) 4 s' = u32 (clint_reg base s' .>> 32)) as (-> & -> & ->).
    { assert (clint_read base 8 s' = le_combine (le_split 8 (clint_reg base s')) /\
        clint_read base 4 s' = le_combine (le_split 4 (u32 (clint_reg base s' .& 0xFFFFFFFF))) /\
        clint_read (base + 4) 4 s' = le_combine (le_split 4 (u32 (clint_reg base s' .>> 32))))
        as (-> & -> & ->) by (destruct Hb as [-> | ->]; by split_and!).
      rewrite !le_combine_split. change (8 * Z.of_nat 8) with 64. change (8 * Z.of_nat 4) with 32.
      by rewrite !wrap_idemp. }
    rewrite Es. change 0xFFFFFFFF with (Z.ones 32). rewrite land_ones_mod, Elo, Ehi by lia.
    by rewrite !wrap_small. }
  split_and!; apply R.
  - unfold clint_write, clint_b_transport, p_len. cbn [p_data p_cmd p_addr].
    rewrite le_split_length, le_combine_split, wrap_small by done.
    by destruct Hb as [-> | ->].
  - destruct (clint_write_word base lo s Hb Hlo Hwf) as (E1 & _ & W & _).
    destruct (clint_write_word base hi _ Hb Hhi W) as (_ & -> & _). rewrite E1. unfold v, fits in *.
    Z.to_euclidean_division_equations; lia.
  - destruct (clint_write_word base hi s Hb Hhi Hwf) as (_ & E1 & _ & W).
    destruct (clint_write_word base lo _ Hb Hlo W) as (-> & _). rewrite E1. unfold v, fits in *.
    rewrite Z.shiftr_div_pow2 by lia. Z.to_euclidean_division_equations; lia.
Qed.

(** ** Fast-forward *)

Definition ticks (n : nat) (s : CLINT) : CLINT := Nat.iter n tick s.

Lemma ticks_mtime n s : fits 64 (m_mtime s + Z.of_nat n) -> fits 64 (m_mtime s) ->
  m_mtime (ticks n s) = m_mtime s + Z.of_nat n /\ m_mtimecmp (ticks n s) = m_mtimecmp s.
Proof.
  intros Hn H0. induction n as [|n IH]; [split; [simpl; lia|done]|].
  destruct IH as [E1 E2]; [unfold fits in *; lia|]. unfold ticks in *. simpl. rewrite E1.
  split; [|done]. rewrite wrap_small by (unfold fits in *; lia). lia.
Qed.

Lemma ticks_frame n s : exists t e,
  ticks n s = mkCLINT t (m_mtimecmp s) (m_msip s) e (timer_irq s) (msip_irq s).
Proof.
  induction n as [|n (t & e & E)]; [destruct s; by eexists _, _|].
  unfold ticks in *. simpl. rewrite E. by eexists _, _.
Qed.

(** C40: the fast-forward of a sleeping core skips exactly the ticks that can not raise
    the timer interrupt: it ends in the state of that many ticks, the comparison fails
    after each of them, and the next tick raises the interrupt. *)
Theorem fast_forward_correct s skip s' :
  clint_wf s -> m_mtime s < 2 ^ 64 - 1 -> fast_forward_to_deadline s = (skip, s') -> skip <> 0 ->
  s' = { ticks (Z.to_nat skip) s with m_update_event := true } /\
  (forall k, (k <= Z.to_nat skip)%nat -> timer_irq (update_irq_method (ticks k s)) = false) /\
  timer_irq (update_irq_method (tick s')) = true.
Proof.
  intros Hwf Hm E Hs. pose proof (cw_mtime s Hwf) as H1. pose proof (cw_mtimecmp s Hwf) as H2.
  revert E. unfold fast_forward_to_deadline. rewrite (wrap_small 64 (m_mtime s + 1)) by (unfold fits in *; lia).
  destruct (Z.eqb_spec (m_mtimecmp s) 0xFFFFFFFFFFFFFFFF) as [|Hn]; [by intros [= <- _]|].
  destruct (Z.ltb_spec (m_mtime s + 1) (m_mtimecmp s)); [|by intros [= <- _]].
  cbn [negb andb]. rewrite !wrap_small by (unfold fits in *; lia). intros [= <- <-].
  set (n := Z.to_nat (m_mtimecmp s - 1 - m_mtime s)).
  assert (forall k, (k <= n)%nat -> m_mtime (ticks k s) = m_mtime s + Z.of_nat k /\
    m_mtimecmp (ticks k s) = m_mtimecmp s) as T by (intros k Hk; apply ticks_mtime; unfold fits in *; lia).
  split_and!.
  - destruct (T n) as [E _]; [lia|]. replace (m_mtimecmp s - 1) with (m_mtime (ticks n s)) by lia.
    destruct (ticks_frame n s) as (t & e & Et). by rewrite Et.
  - intros k Hk. destruct (T k Hk) as [E1 E2]. simpl. rewrite E1, E2. apply Z.leb_gt. lia.
  - simpl. rewrite wrap_small by (unfold fits in *; lia). apply Z.leb_le. lia.
Qed.


(** ** The platform timer *)

(** [timer_event] lists the relative times of the notifications requested so far, in
    the units of the simulation's time resolution; [now] is [sc_time_stamp().value()]. *)
Record Timer := mkTimer { t_mtime : Z; t_mtimecmp : Z; timer_event : list Z }.

Definition Timer_new : Timer := mkTimer 0 0 [].

Definition set_low (v w : Z) : Z := (v .>> 32 .<< 32) .| (w .& 0xFFFFFFFF).
Definition set_high (v w : Z) : Z := ((w .& 0xFFFFFFFF) .<< 32) .| (v .& 0xFFFFFFFF).

Section timer.

Definition timer_b_transport (now : Z) (p : payload) (s : Timer) : payload * Z * Timer :=
  let addr := p_addr p in
  let copy_len := Nat.min (length (p_data p)) 8 in
  let done (data : list Z) (s : Timer) :=
    ({ p with p_data := data; p_status := TLM_OK }, 0, s) in
  let error := ({ p with p_status := TLM_ADDRESS_ERROR }, 0, s) in
  if bool_decide (p_cmd p = TLM_WRITE) then
    let aux_value := le_combine (take copy_len (p_data p)) in
    if addr =? TIMER_MEMORY_ADDRESS_LO then
      done (p_data p) { s with t_mtime := set_low (t_mtime s) aux_value }
    else if addr =? TIMER_MEMORY_ADDRESS_HI then
      done (p_data p) { s with t_mtime := set_high (t_mtime s) aux_value }
    else if addr =? TIMERCMP_MEMORY_ADDRESS_LO then
      done (p_data p) { s with t_mtimecmp := set_low (t_mtimecmp s) aux_value }
    else if addr =? TIMERCMP_MEMORY_ADDRESS_HI then
      let s := { s with t_mtimecmp := set_high (t_mtimecmp s) aux_value } in
      let notify_time := u64 (t_mtimecmp s - t_mtime s) in
      done (p_data p) { s with timer_event := timer_event s ++ [notify_time] }
    else error
  else
    let answer (aux_value : Z) (s : Timer) :=
      done (le_split copy_len aux_value ++ drop copy_len (p_data p)) s in
    if addr =? TIMER_MEMORY_ADDRESS_LO then
      let s := { s with t_mtime := u64 now } in answer (bits 31 0 (t_mtime s)) s
    else if addr =? TIMER_MEMORY_ADDRESS_HI then answer (bits 63 32 (t_mtime s)) s
    else if addr =? TIMERCMP_MEMORY_ADDRESS_LO then answer (bits 31 0 (t_mtimecmp s)) s
    else if addr =? TIMERCMP_MEMORY_ADDRESS_HI then answer (bits 63 32 (t_mtimecmp s)) s
    else error.

(** What the thread sends on [irq_line] each time the event occurs: the machine timer
    cause. *)
Definition irq_trans : payload := mkPayload TLM_WRITE 0 (le_split 4 0x80000007) false TLM_INCOMPLETE false.

Definition timer_write (addr v : Z) (s : Timer) : Timer :=
  (timer_b_transport 0 (mkPayload TLM_WRITE addr (le_split 4 v) false TLM_INCOMPLETE false) s).2.
Definition timer_read (now addr : Z) (s : Timer) : Z * Timer :=
  let '(p, _, s) := timer_b_transport now (mkPayload TLM_READ addr [0; 0; 0; 0] false TLM_INCOMPLETE false) s in
  (le_combine (p_data p), s).

Lemma set_halves v lo hi : fits 32 lo -> fits 32 hi -> set_high (set_low v lo) hi = hi * 2 ^ 32 + lo.
Proof.
  intros Hl Hh. unfold set_high, set_low. change 0xFFFFFFFF with (Z.ones 32).
  rewrite !land_ones_mod, (Z.mod_small hi), (Z.mod_small lo) by (done || lia).
  rewrite lor_shiftl_add; [|lia|by apply (wrap_fits 32)]. f_equal.
  rewrite lor_shiftl_add by (done || lia). rewrite Z.add_comm, Z.mod_add by lia. by apply Z.mod_small.
Qed.

Lemma timer_write_cmp v s :
  fits 32 v ->
  timer_write TIMERCMP_MEMORY_ADDRESS_LO v s = { s with t_mtimecmp := set_low (t_mtimecmp s) v } /\
  timer_write TIMERCMP_MEMORY_ADDRESS_HI v s =
    (let c := set_high (t_mtimecmp s) v in
     mkTimer (t_mtime s) c (timer_event s ++ [u64 (c - t_mtime s)])).
Proof.
  intros Hv.
  assert (le_combine (take (Nat.min (length (le_split 4 v)) 8) (le_split 4 v)) = v) as L.
  { rewrite le_split_length. change (Nat.min 4 8) with 4%nat.
    rewrite take_ge by (by rewrite le_split_length). rewrite le_combine_split. by apply wrap_small. }
  unfold timer_write, timer_b_transport. cbn [p_cmd p_addr p_data]. rewrite L. by split.
Qed.

(** After the time was read at [now], writing the compare register as two words
    requests the interrupt [cmp - now] later, so at the compare time if no time has
    passed since the read; without the read the stale mtime takes the place of [now]. *)
Theorem timer_schedule now lo hi s :
  fits 64 now -> fits 32 lo -> fits 32 hi ->
  let cmp := hi * 2 ^ 32 + lo in
  let program s := timer_write TIMERCMP_MEMORY_ADDRESS_HI hi
                     (timer_write TIMERCMP_MEMORY_ADDRESS_LO lo s) in
  t_mtimecmp (program s) = cmp /\
  timer_event (program s) = timer_event s ++ [u64 (cmp - t_mtime s)] /\
  (now <= cmp ->
   timer_event (program (timer_read now TIMER_MEMORY_ADDRESS_LO s).2) = timer_event s ++ [cmp - now]).
Proof.
  intros Hn Hl Hh cmp program.
  assert (forall s, program s = mkTimer (t_mtime s) cmp (timer_event s ++ [u64 (cmp - t_mtime s)])) as P.
  { intros s0. unfold program. destruct (timer_write_cmp lo s0 Hl) as [-> _].
    destruct (timer_write_cmp hi { s0 with t_mtimecmp := set_low (t_mtimecmp s0) lo } Hh) as [_ ->].
    cbv zeta. cbn. unfold cmp. by rewrite set_halves. }
  rewrite !P. simpl. split_and!; [done|done|]. intros Hc. f_equal. f_equal.
  rewrite (wrap_small 64 now) by done. apply wrap_small. unfold cmp, fits in *. lia.
Qed.
End timer.

(** The compare register is absolute but the request uses the last value read: with the
    time never read, an interrupt programmed at time 5000 for time 6000 is requested
    6000 later. *)
Lemma timer_request_stale :
  timer_event (timer_write TIMERCMP_MEMORY_ADDRESS_HI 0
    (timer_write TIMERCMP_MEMORY_ADDRESS_LO 6000 Timer_new)) = [6000].
Proof. by vm_compute. Qed.

(** ** Witnesses *)

Lemma clint_reachable_wf_witness :
  clint_reachable (update_irq_method (tick CLINT_new)) /\
  timer_irq (update_irq_method (tick CLINT_new)) = false.
Proof.
  assert (clint_reachable (update_irq_method (tick CLINT_new))) as H.
  { eapply clint_reach_event; [|apply cev_update]. eapply clint_reach_event; [|apply cev_tick].
    apply clint_reach_init. }
  split; [exact H|]. by rewrite (cw_timer _ (clint_reachable_wf _ H) eq_refl).
Defined.

Lemma CLINT_new_wf : clint_wf CLINT_new.
Proof. split; try done. by left. Qed.

Lemma clint_register_roundtrip_witness :
  clint_read 0x4000 8 (clint_write 0x4004 4 1 (clint_write 0x4000 4 5 CLINT_new)) = 0x100000005.
Proof.
  destruct (clint_register_roundtrip 0x4000 5 1 CLINT_new) as (_ & (E & _) & _).
  - by left.
  - done.
  - done.
  - apply CLINT_new_wf.
  - exact E.
Defined.

Lemma fast_forward_correct_witness :
  let s := set_mtimecmp 100 CLINT_new in
  (fast_forward_to_deadline s).1 = 99 /\
  timer_irq (update_irq_method (tick (fast_forward_to_deadline s).2)) = true.
Proof.
  intros s. split; [by vm_compute|].
  destruct (fast_forward_correct s 99 (fast_forward_to_deadline s).2) as (_ & _ & E).
  - apply set_mtimecmp_wf; [apply CLINT_new_wf|done].
  - by vm_compute.
  - by vm_compute.
  - done.
  - exact E.
Defined.

Lemma timer_schedule_witness :
  timer_event (timer_write TIMERCMP_MEMORY_ADDRESS_HI 0 (timer_write TIMERCMP_MEMORY_ADDRESS_LO 6000
    (timer_read 5000 TIMER_MEMORY_ADDRESS_LO Timer_new).2)) = [1000].
Proof.
  destruct (timer_schedule 5000 6000 0 Timer_new) as (_ & _ & E); [done|done|done|].
  apply E. done.
Defined.
