(* ===== verification/Uart.v ===== *)
(** [src/inc/UART.h]: the serial port.  What its interrupt callback is wired to is a
    state [X] and a function on it; [VPTop] wires it to source 1 of the PLIC.  The bytes
    sent to the terminal are the list [tx_out]; the reader thread is the operation
    [stdin_push], which may happen between any two others.  Terminal set-up is not
    modelled. *)
From S2P Require Import Prelude Bytes Memory Plic.

Record UART (X : Type) := mkUART {
  scr : Z;
  dlab : bool;
  m_ier : Z;
  m_thre_ip : bool;
  rx_fifo : list Z;
  tx_out : list Z;
  wire : X
}.
Arguments mkUART {X} _ _ _ _ _ _ _.
Arguments scr {X} _.
Arguments dlab {X} _.
Arguments m_ier {X} _.
Arguments m_thre_ip {X} _.
Arguments rx_fifo {X} _.
Arguments tx_out {X} _.
Arguments wire {X} _.

Definition reg_from_offset (off : Z) : Z :=
  if ((off .& 3) =? 0) && (off <=? 0x1C) then off .>> 2
  else if off <=? 7 then off else 0xFF.

Section uart.
Context {X : Type}.
Variable set_uart_irq : bool -> X -> X.

Definition UART_new (x : X) : UART X := mkUART 0 false 0 true [] [] x.

Definition rx_fifo_empty (s : UART X) : bool := bool_decide (rx_fifo s = []).

Definition thre_active (s : UART X) : bool := negb ((m_ier s .& 0x02) =? 0) && m_thre_ip s.
Definition rda_active (s : UART X) : bool := negb ((m_ier s .& 0x01) =? 0) && negb (rx_fifo_empty s).

Definition update_interrupts (s : UART X) : UART X :=
  { s with wire := set_uart_irq (thre_active s || rda_active s) (wire s) }.

(** The front is popped only when there is one. *)
Definition rx_pop (s : UART X) : Z * UART X :=
  (hd 0 (rx_fifo s), { s with rx_fifo := tl (rx_fifo s) }).

(** One turn of the monitor's loop, after its wait. *)
Definition rx_monitor_process (s : UART X) : UART X :=
  if rda_active s then update_interrupts s else s.

(** One byte read by the reader thread. *)
Definition stdin_push (ch : Z) (s : UART X) : UART X :=
  if (length (rx_fifo s) <? 64)%nat then { s with rx_fifo := rx_fifo s ++ [ch] } else s.

Definition uart_write (reg val : Z) (s : UART X) : UART X :=
  if reg =? 0 then
    if negb (dlab s) then
      let s := { s with tx_out := tx_out s ++ [val] } in
      let s := { s with m_thre_ip := false } in
      let s := { s with m_thre_ip := true } in
      update_interrupts s
    else s
  else if reg =? 1 then
    if negb (dlab s) then
      let old_thri := negb ((m_ier s .& 0x02) =? 0) in
      let new_thri := negb ((val .& 0x02) =? 0) in
      let s := { s with m_ier := val } in
      let s := if new_thri && negb old_thri then { s with m_thre_ip := true }
               else if negb new_thri then { s with m_thre_ip := false } else s in
      update_interrupts s
    else s
  else if reg =? 2 then s
  else if reg =? 3 then { s with dlab := negb (((val .>> 7) .& 1) =? 0) }
  else if reg =? 7 then { s with scr := val }
  else s.

Definition uart_read (reg : Z) (s : UART X) : Z * UART X :=
  if reg =? 0 then
    if negb (dlab s) && negb (rx_fifo_empty s) then
      let '(val, s) := rx_pop s in (val, update_interrupts s)
    else (0, s)
  else if reg =? 1 then (m_ier s, s)
  else if reg =? 2 then
    if rda_active s then (0x04, s)
    else if thre_active s then (0x02, update_interrupts { s with m_thre_ip := false })
    else (0x01, s)
  else if reg =? 3 then (0, s)
  else if reg =? 4 then (0, s)
  else if reg =? 5 then (if negb (rx_fifo_empty s) then 0x60 .| 0x01 else 0x60, s)
  else if reg =? 6 then (0, s)
  else if reg =? 7 then (scr s, s)
  else (0, s).

Definition uart_b_transport (p : payload) (delay : Z) (s : UART X) : payload * Z * UART X :=
  let len := length (p_data p) in
  let reg := reg_from_offset (p_addr p) in
  let '(p, s) :=
    if bool_decide (p_cmd p = TLM_WRITE) && (0 <? len)%nat then
      (p, uart_write reg (hd 0 (p_data p)) s)
    else if bool_decide (p_cmd p = TLM_READ) && (0 <? len)%nat then
      let '(val, s) := uart_read reg s in
      ({ p with p_data := le_split (Nat.min len 4) val ++ drop 4 (p_data p) }, s)
    else (p, s) in
  ({ p with p_status := TLM_OK }, delay, s).

#[export] Instance uart_target : Target (UART X) := uart_b_transport.

Inductive uart_event : UART X -> UART X -> Prop :=
| uev_bus p d s : uart_event s (uart_b_transport p d s).2
| uev_push ch s : uart_event s (stdin_push ch s)
| uev_monitor s : uart_event s (rx_monitor_process s).

Inductive uart_reachable (x : X) : UART X -> Prop :=
| uart_reach_init : uart_reachable x (UART_new x)
| uart_reach_event s s' : uart_reachable x s -> uart_event s s' -> uart_reachable x s'.
End uart.

(** ** The interrupt line *)

(** Wired to a plain line, the callback remembers the level. *)
Definition line_wire (b : bool) (_ : bool) : bool := b.

(** A line that is up has a cause, and a cause the line does not show yet is a byte the
    monitor has not seen. *)
Record uart_inv (s : UART bool) : Prop := {
  ui_up : wire s = true -> thre_active s || rda_active s = true;
  ui_down : wire s = false -> thre_active s = false;
  ui_fifo : (length (rx_fifo s) <= 64)%nat
}.

Lemma update_interrupts_inv (s : UART bool) :
  (length (rx_fifo s) <= 64)%nat -> uart_inv (update_interrupts line_wire s).
Proof.
  intros Hf. split; [done| |done]. unfold update_interrupts, line_wire, thre_active. simpl.
  intros E. by apply orb_false_iff in E as [E _].
Qed.

Lemma uart_write_inv reg v (s : UART bool) : uart_inv s -> uart_inv (uart_write line_wire reg v s).
Proof.
  intros Hi. pose proof (ui_fifo s Hi) as Hf. unfold uart_write.
  destruct (reg =? 0). { destruct (dlab s); [done|]. by apply update_interrupts_inv. }
  destruct (reg =? 1).
  { destruct (dlab s); [done|]. apply update_interrupts_inv. by repeat case_match. }
  destruct (reg =? 2); [done|]. destruct (reg =? 3); [by destruct Hi|].
  destruct (reg =? 7); [by destruct Hi|done].
Qed.

Lemma uart_read_inv reg (s : UART bool) : uart_inv s -> uart_inv (uart_read line_wire reg s).2.
Proof.
  intros Hi. pose proof (ui_fifo s Hi) as Hf. unfold uart_read.
  destruct (reg =? 0).
  { destruct (_ && _); [|done]. simpl. apply update_interrupts_inv. simpl.
    destruct (rx_fifo s); simpl in *; lia. }
  destruct (reg =? 1); [done|]. destruct (reg =? 2).
  { destruct (rda_active s); [done|]. destruct (thre_active s); [|done]. by apply update_interrupts_inv. }
  by repeat case_match.
Qed.

Lemma stdin_push_inv ch (s : UART bool) : uart_inv s -> uart_inv (stdin_push ch s).
Proof.
  intros [Hu Hd Hf]. unfold stdin_push. destruct (Nat.ltb_spec (length (rx_fifo s)) 64); [|done].
  split; simpl; [|done|rewrite length_app; simpl; lia].
  intros E. specialize (Hu E). apply orb_true_iff in Hu as [Hu|Hu]; apply orb_true_iff; [by left|right].
  unfold rda_active, rx_fifo_empty in *. simpl. apply andb_prop in Hu as [-> _]. simpl.
  by rewrite bool_decide_eq_false_2 by (by destruct (rx_fifo s)).
Qed.

(** In every reachable state the line is up only if an interrupt is due; a due
    interrupt is missing from the line only if a received byte has not been seen by the
    monitor, and after the monitor's next turn the line is up exactly if one is due. *)
Theorem uart_line_correct (s : UART bool) :
  uart_reachable line_wire false s ->
  (wire s = true -> thre_active s || rda_active s = true) /\
  (wire s = false -> thre_active s = false) /\ (length (rx_fifo s) <= 64)%nat /\
  wire (rx_monitor_process line_wire s) = thre_active s || rda_active s.
Proof.
  intros Hr. assert (uart_inv s) as [Hu Hd Hf].
  { induction Hr as [|s s' _ IH Hev]; [by split; simpl; [| |lia]|]. destruct Hev as [p d s|ch s|s].
    - unfold uart_b_transport. destruct (_ && _); [by apply uart_write_inv|].
      destruct (_ && _); [|done]. pose proof (uart_read_inv (reg_from_offset (p_addr p)) s IH) as H.
      by destruct (uart_read _ _ s).
    - by apply stdin_push_inv.
    - unfold rx_monitor_process. destruct (rda_active s); [|done].
      apply update_interrupts_inv. apply IH. }
  split_and!; [done..|]. unfold rx_monitor_process. destruct (rda_active s) eqn:E.
  - unfold update_interrupts, line_wire. simpl. by rewrite E.
  - rewrite orb_false_r in *. destruct (wire s); [by symmetry; apply Hu|]. by rewrite Hd.
Qed.

(** ** The data path *)

Section data.
Context {X : Type}.
Variable set_uart_irq : bool -> X -> X.

Definition push_all (l : list Z) (s : UART X) : UART X := fold_left (fun s ch => stdin_push ch s) l s.

(** [n] reads of RBR. *)
Fixpoint read_all (n : nat) (s : UART X) : list Z * UART X :=
  match n with
  | O => ([], s)
  | S n => let '(v, s) := uart_read set_uart_irq 0 s in
           let '(l, s) := read_all n s in (v :: l, s)
  end.

Lemma push_all_fifo l (s : UART X) :
  rx_fifo (push_all l s) = rx_fifo s ++ take (64 - length (rx_fifo s)) l /\
  dlab (push_all l s) = dlab s /\ m_ier (push_all l s) = m_ier s.
Proof.
  revert s. induction l as [|ch l IH]; intros s; simpl; [by rewrite take_nil, app_nil_r|].
  destruct (IH (stdin_push ch s)) as (-> & -> & ->). unfold stdin_push.
  destruct (Nat.ltb_spec (length (rx_fifo s)) 64) as [L|L]; simpl; (split; [|done]).
  - rewrite length_app, <-app_assoc. simpl.
    destruct (64 - length (rx_fifo s))%nat as [|k] eqn:E; [lia|].
    replace (64 - (length (rx_fifo s) + 1))%nat with k by lia. done.
  - replace (64 - length (rx_fifo s))%nat with 0%nat by lia. by rewrite !take_0.
Qed.

Lemma read_all_fifo l (s : UART X) :
  dlab s = false -> rx_fifo s = l ->
  (read_all (length l) s).1 = l /\ rx_fifo (read_all (length l) s).2 = [].
Proof.
  revert s. induction l as [|ch l IH]; intros s Hd Hl; simpl; [done|].
  unfold uart_read, rx_pop, rx_fifo_empty. rewrite Hd, Hl. simpl.
  match goal with |- context [read_all (length l) ?x] =>
    destruct (IH x) as [E1 E2]; [done|done|]; destruct (read_all (length l) x) as [l' s'] end.
  simpl in *. by rewrite E1, E2.
Qed.

(** The bytes typed are read from RBR in order, each once; what arrives while 64 bytes
    wait is lost, and LSR announces data exactly while some byte waits. *)
Theorem uart_rx_fifo l (s : UART X) :
  dlab s = false -> rx_fifo s = [] ->
  let s' := push_all l s in
  (read_all (Nat.min 64 (length l)) s').1 = take 64 l /\
  rx_fifo (read_all (Nat.min 64 (length l)) s').2 = [] /\
  Z.testbit (uart_read set_uart_irq 5 s').1 0 = negb (bool_decide (l = [])).
Proof.
  intros Hd Hl s'. destruct (push_all_fifo l s) as (Ef & Ed & _). fold s' in Ef, Ed.
  rewrite Hl in Ef. simpl app in Ef. change (64 - length [])%nat with 64%nat in Ef.
  rewrite <-(length_take l 64).
  destruct (read_all_fifo (take 64 l) s') as [E1 E2]; [by rewrite Ed|done|].
  split_and!; [done|done|]. unfold uart_read, rx_fifo_empty. rewrite Ef. by destruct l.
Qed.

(** A byte written to THR with DLAB clear is sent, once and in order; with DLAB set
    it is not. *)
Theorem uart_tx v d (s : UART X) :
  tx_out (uart_b_transport set_uart_irq (mkPayload TLM_WRITE 0 [v] false TLM_INCOMPLETE false) d s).2 =
    (if dlab s then tx_out s else tx_out s ++ [v]).
Proof. unfold uart_b_transport, uart_write. simpl. by destruct (dlab s). Qed.
End data.

(** ** The serial port and the interrupt controller *)

(** [VPTop]: the callback drives source 1. *)
Definition uart_plic_wire (b : bool) (plic : PLIC) : PLIC := set_irq_level 1 b plic.

Lemma set_irq_level_spec b s :
  plic_wf s ->
  let s' := set_irq_level 1 b s in
  (forall i, 0 <= i -> Z.testbit (pending_bits s') i =
     if i =? 1 then b else Z.testbit (pending_bits s) i) /\
  priorities s' = priorities s /\ enabled_bits s' = enabled_bits s /\ threshold s' = threshold s /\
  line_ok s' /\ plic_wf s'.
Proof.
  intros Hwf. pose proof (set_irq_level_wf 1 b s ltac:(lia) Hwf) as Hwf'.
  pose proof (pw_irq s Hwf : irq_driven s) as Hd.
  unfold set_irq_level. cbn [Z.eqb orb]. change (MAX_SOURCES <=? 1) with false. cbn [orb]. cbv zeta.
  match goal with |- context [update_irq_out ?x] =>
    destruct (update_irq_out_regs x) as (-> & -> & -> & -> & _);
    pose proof (update_irq_out_line x) as Hl end.
  destruct b; split_and!; try done; try (by apply Hl); intros i Hi; simpl.
  - rewrite set_bit_spec by lia. destruct (i =? 1); by rewrite ?orb_true_r, ?orb_false_r.
  - rewrite clear_bit_spec by lia. destruct (i =? 1); by rewrite ?andb_true_r, ?andb_false_r.
Qed.

(** A level of source 1 that is enabled and above the threshold: it alone decides whether the
    source is eligible, and the other sources keep theirs. *)
Lemma set_irq_level_eligible b s i :
  plic_wf s -> Z.testbit (enabled_bits s) 1 = true -> threshold s < priority s 1 ->
  eligible (set_irq_level 1 b s) i <-> if i =? 1 then b = true else eligible s i.
Proof.
  intros Hwf He Ht. destruct (set_irq_level_spec b s Hwf) as (P1 & P2 & P3 & P4 & _).
  unfold eligible, priority in *. rewrite P2, P3, P4. split.
  - intros (Hi & E & H). rewrite P1 in E by lia. by destruct (i =? 1).
  - destruct (Z.eqb_spec i 1) as [->|Hn]; [intros ->; rewrite P1 by lia; done|].
    intros (Hi & E & H). rewrite P1, (proj2 (Z.eqb_neq i 1)) by lia. done.
Qed.

(** The next delta cycle of the kernel, in which the controller drives its line. *)
Definition uart_delta (s : UART PLIC) : UART PLIC := { s with wire := plic_delta (wire s) }.

Lemma plic_delta_regs s i : eligible (plic_delta s) i <-> eligible s i.
Proof. unfold plic_delta. by destruct (m_update_irq_event s). Qed.

Lemma plic_delta_wf s : plic_wf s -> plic_wf (plic_delta s).
Proof. intros []. unfold plic_delta. destruct (m_update_irq_event s) eqn:E; split; try done. by rewrite E. Qed.

Lemma plic_delta_spec s :
  priorities (plic_delta s) = priorities s /\ enabled_bits (plic_delta s) = enabled_bits s /\
  threshold (plic_delta s) = threshold s.
Proof. unfold plic_delta. by destruct (m_update_irq_event s). Qed.

(** C39: a byte is typed while the receive interrupt is enabled, the transmitter interrupt is not,
    DLAB is clear and the FIFO is empty, and the controller has source 1 enabled with a priority
    above the threshold.  Then at the monitor's next turn source 1 may interrupt, and in the delta
    cycle after it the controller drives [irq_out] high; the core reads the byte from RBR, after
    which source 1 is withdrawn, every other source may interrupt as before, and the next delta
    cycle leaves the line high exactly if one does. *)
Theorem uart_plic_delivery ch (s : UART PLIC) :
  plic_wf (wire s) ->
  Z.testbit (m_ier s) 0 = true -> Z.testbit (m_ier s) 1 = false -> dlab s = false -> rx_fifo s = [] ->
  Z.testbit (enabled_bits (wire s)) 1 = true -> threshold (wire s) < priority (wire s) 1 ->
  let s1 := uart_delta (rx_monitor_process uart_plic_wire (stdin_push ch s)) in
  let '(v, s2) := uart_read uart_plic_wire 0 s1 in
  eligible (wire s1) 1 /\ irq_out (wire s1) = true /\ v = ch /\
  (forall i, eligible (wire s2) i <-> i <> 1 /\ eligible (wire s) i) /\
  (irq_out (wire (uart_delta s2)) = true <-> exists i, i <> 1 /\ eligible (wire s) i).
Proof.
  intros Hwf H0 H1 Hd Hf He Ht s1.
  assert (forall x : UART PLIC, m_ier x = m_ier s ->
    rda_active x = negb (rx_fifo_empty x) /\ thre_active x = false) as A.
  { intros x Ex. unfold rda_active, thre_active. rewrite Ex.
    pose proof (land_bit (m_ier s) 0 ltac:(lia)) as L0. change (1 .<< 0) with 1 in L0.
    pose proof (land_bit (m_ier s) 1 ltac:(lia)) as L1. change (1 .<< 1) with 2 in L1.
    by rewrite L0, L1, H0, H1. }
  set (x1 := set_irq_level 1 true (wire s)).
  assert (s1 = { s with rx_fifo := [ch]; wire := plic_delta x1 }) as Es1.
  { unfold s1, stdin_push. rewrite Hf. simpl. unfold rx_monitor_process, update_interrupts.
    match goal with |- context [rda_active ?x] => destruct (A x) as [E1 E2]; [done|] end.
    by rewrite E1, E2. }
  destruct (set_irq_level_spec true (wire s) Hwf) as (_ & P2 & P3 & P4 & Hl1 & Hwf1). fold x1 in P2, P3, P4, Hl1, Hwf1.
  pose proof (fun i => set_irq_level_eligible true (wire s) i Hwf He Ht) as El1. fold x1 in El1.
  set (x2 := set_irq_level 1 false (plic_delta x1)).
  assert (uart_read uart_plic_wire 0 s1 = (ch, { s with rx_fifo := []; wire := x2 })) as ->.
  { rewrite Es1. unfold uart_read. simpl. rewrite Hd. simpl. unfold update_interrupts.
    match goal with |- context [rda_active ?x] => destruct (A x) as [E1 E2]; [done|] end.
    by rewrite E1, E2. }
  destruct (plic_delta_spec x1) as (Q1 & Q2 & Q3).
  pose proof (plic_delta_wf x1 Hwf1) as Hwf2.
  destruct (set_irq_level_spec false (plic_delta x1) Hwf2) as (_ & _ & _ & _ & Hl2 & _). fold x2 in Hl2.
  assert (forall i, eligible x2 i <-> i <> 1 /\ eligible (wire s) i) as El2.
  { intros i. unfold x2. rewrite set_irq_level_eligible; [|done|by rewrite Q2, P3|unfold priority in *; by rewrite Q1, Q3, P2, P4].
    pose proof (plic_delta_regs x1 i). specialize (El1 i). destruct (Z.eqb_spec i 1); naive_solver. }
  assert (eligible x1 1) by (by apply El1).
  rewrite Es1. split_and!; [by apply plic_delta_regs|apply Hl1; by exists 1|done|exact El2|].
  etransitivity; [exact Hl2|]. split; intros [i Hi]; exists i; by apply El2.
Qed.

(** ** Departures and witnesses *)

(** The two strides the header describes collide: the offset 4 is register 1, so with
    byte stride the modem control register cannot be reached. *)
Lemma uart_byte_stride_mcr : reg_from_offset 4 = 1 /\ reg_from_offset 5 = 5.
Proof. done. Qed.

(** LCR always reads 0, whatever was written. *)
Lemma uart_lcr_reads_zero (s : UART bool) :
  (uart_read line_wire 3 (uart_write line_wire 3 0x83 s)).1 = 0.
Proof. done. Qed.

Definition uart_example : UART bool := uart_write line_wire 1 1 (UART_new false).

Lemma uart_line_correct_witness :
  uart_reachable line_wire false (stdin_push 65 uart_example) /\
  wire (rx_monitor_process line_wire (stdin_push 65 uart_example)) = true.
Proof.
  assert (uart_reachable line_wire false (stdin_push 65 uart_example)) as H.
  { eapply uart_reach_event; [|apply uev_push].
    eapply uart_reach_event; [apply uart_reach_init|].
    exact (uev_bus line_wire (mkPayload TLM_WRITE 1 [1] false TLM_INCOMPLETE false) 0 (UART_new false)). }
  split; [exact H|]. destruct (uart_line_correct _ H) as (_ & _ & _ & ->). by vm_compute.
Defined.

Lemma uart_rx_fifo_witness :
  (read_all line_wire 2 (push_all [72; 105] uart_example)).1 = [72; 105].
Proof. by destruct (uart_rx_fifo line_wire [72; 105] uart_example) as (E & _). Defined.

(** A port with the receive interrupt enabled, wired to a controller with source 1 enabled. *)
Definition uart_plic_example : UART PLIC :=
  mkUART 0 false 1 false [] []
    { PLIC_new with priorities := <[1%nat := 7]> (priorities PLIC_new); enabled_bits := 2 }.

Lemma uart_plic_example_wf : plic_wf (wire uart_plic_example).
Proof.
  split; simpl; try done; try (unfold fits; lia). vm_compute. by repeat constructor.
Qed.

Lemma uart_plic_delivery_witness :
  let s1 := uart_delta (rx_monitor_process uart_plic_wire (stdin_push 65 uart_plic_example)) in
  irq_out (wire s1) = true /\ (uart_read uart_plic_wire 0 s1).1 = 65.
Proof.
  pose proof (uart_plic_delivery 65 uart_plic_example uart_plic_example_wf
    eq_refl eq_refl eq_refl eq_refl eq_refl eq_refl) as H.
  cbv zeta in H |- *. destruct (uart_read _ _ _) as [v s2]. by destruct H as (_ & H1 & H2 & _).
Defined.
