(* ===== verification/Shell.v ===== *)
(** The entry points around the platform: [src/VPMain.cpp], [src/VPTop.cpp],
    [src/Simulator.cpp], [src/Debug.cpp], [src/Instruction.cpp], [src/Performance.cpp] and
    [inc/TimingModel.h].

    The options, the loops that run the simulation in quanta, the detector of the boot banner on
    the console, the images and registers a boot starts from and the signature dump.  What the
    SystemC kernel and the wall clock answer is an argument. *)
From Stdlib Require Import String Ascii.
From S2P Require Import Prelude Bytes Memory HexLoader Regs Uart.

(** ** The detector of the boot banner *)

(** [match_idx] and [boot_detected]. *)
Record boot_watch := mkWatch { match_idx : nat; boot_detected : bool }.
Definition boot_watch0 : boot_watch := mkWatch 0 false.

Section banner.
Variable target : list Z.

Definition boot_tx_callback (s : boot_watch) (ch : Z) : boot_watch :=
  if boot_detected s then s
  else if bool_decide (target !! match_idx s = Some ch) then
    let match_idx := S (match_idx s) in
    if (match_idx =? length target)%nat then mkWatch match_idx true else mkWatch match_idx false
  else mkWatch (if bool_decide (target !! 0%nat = Some ch) then 1 else 0) false.

Definition occurs (out : list Z) : Prop := exists pre post, out = pre ++ target ++ post.

(** The banner has its first character nowhere else. *)
Hypothesis target_long : (1 < length target)%nat.
Hypothesis target_first : forall i, (0 < i)%nat -> target !! i <> target !! 0%nat.

Lemma suffix_snoc_take j out ch :
  (j < length target)%nat ->
  take (S j) target `suffix_of` out ++ [ch] <-> take j target `suffix_of` out /\ target !! j = Some ch.
Proof.
  intros Hj. destruct (lookup_lt_is_Some_2 target j Hj) as [x Hx]. rewrite (take_S_r _ _ x) by done. split.
  - intros [pre Hp]. rewrite app_assoc in Hp. apply app_inj_tail in Hp as [-> ->]. split; [by exists pre|done].
  - intros [[pre ->] Hc]. exists pre. rewrite Hx in Hc. injection Hc as ->. by rewrite app_assoc.
Qed.

Lemma occurs_snoc out ch : occurs (out ++ [ch]) <-> occurs out \/ target `suffix_of` out ++ [ch].
Proof.
  split.
  - intros (pre & post & E). destruct (decide (post = [])) as [->|Hne].
    + right. exists pre. by rewrite app_nil_r in E.
    + left. destruct (exists_last Hne) as (post' & x & ->). rewrite !app_assoc in E.
      apply app_inj_tail in E as [-> ->]. exists pre, post'. by rewrite app_assoc.
  - intros [(pre & post & ->)|[pre ->]]; [exists pre, (post ++ [ch])|exists pre, []].
    + by rewrite !app_assoc.
    + by rewrite app_nil_r.
Qed.

(** Two prefixes of the banner that the output ends with: the shorter one is empty. *)
Lemma suffix_two j k out :
  (j < k)%nat -> (k <= length target)%nat ->
  take j target `suffix_of` out -> take k target `suffix_of` out -> j = 0%nat.
Proof.
  intros Hjk Hk [p Hp] [q Hq]. destruct j as [|j]; [done|exfalso].
  assert (length out = (length p + S j)%nat) as L1 by (rewrite Hp, length_app, length_take; lia).
  assert (length out = (length q + k)%nat) as L2 by (rewrite Hq, length_app, length_take; lia).
  apply (target_first (k - S j)); [lia|].
  transitivity (out !! length p).
  - rewrite Hq, lookup_app_r by lia. rewrite lookup_take_lt by lia. f_equal. lia.
  - rewrite Hp, lookup_app_r by lia. rewrite lookup_take_lt by lia. f_equal. lia.
Qed.

(** While nothing was detected, [match_idx] is the length of the longest prefix of the banner that
    the output ends with. *)
Definition watch_inv (out : list Z) (s : boot_watch) : Prop :=
  if boot_detected s then occurs out
  else ~ occurs out /\ (match_idx s < length target)%nat /\ take (match_idx s) target `suffix_of` out /\
       forall j, (match_idx s < j <= length target)%nat -> ~ take j target `suffix_of` out.

Lemma watch_inv_step out s ch : watch_inv out s -> watch_inv (out ++ [ch]) (boot_tx_callback s ch).
Proof.
  unfold watch_inv, boot_tx_callback. destruct s as [k d]. cbn [boot_detected match_idx]. destruct d; cbn [boot_detected match_idx].
  { intros H. apply occurs_snoc. by left. }
  intros (Hno & Hk & Hs & Hmax). case_bool_decide as Ek.
  - cbv zeta. destruct (Nat.eqb_spec (S k) (length target)) as [El|El]; cbn [boot_detected match_idx].
    + apply occurs_snoc. right. rewrite <-(firstn_all target), <-El. by apply suffix_snoc_take.
    + split_and!; [|lia|by apply suffix_snoc_take|].
      * intros [Ho|Hf]%occurs_snoc; [done|]. rewrite <-(firstn_all target) in Hf.
        destruct (length target) as [|n] eqn:En; [lia|].
        apply suffix_snoc_take in Hf as [Hf _]; [|lia]. apply (Hmax n); [lia|done].
      * intros [|j] Hj Hf; [lia|]. apply suffix_snoc_take in Hf as [Hf _]; [|lia]. apply (Hmax j); [lia|done].
  - assert (forall j, (j < length target)%nat -> take (S j) target `suffix_of` out ++ [ch] ->
              j = 0%nat /\ target !! 0%nat = Some ch) as Hshort.
    { intros j Hj [Hf Hc]%suffix_snoc_take; [|done]. destruct (decide (j = 0%nat)) as [->|Hj0]; [done|].
      destruct (decide (j < k)%nat) as [Hlt|Hge].
      - exfalso. apply Hj0. apply (suffix_two j k out); [done|lia|done|done].
      - destruct (decide (j = k)) as [->|]; [done|]. exfalso. apply (Hmax j); [lia|done]. }
    assert (~ occurs (out ++ [ch])) as Hno'.
    { intros [Ho|Hf]%occurs_snoc; [done|]. rewrite <-(firstn_all target) in Hf.
      destruct (length target) as [|n] eqn:En; [lia|]. apply Hshort in Hf as [? _]; lia. }
    case_bool_decide as E0; simpl; (split_and!; [done|lia| |]).
    + apply suffix_snoc_take; [lia|]. split; [apply suffix_nil|done].
    + intros [|[|j]] Hj Hf; [lia|lia|]. apply Hshort in Hf as [? _]; lia.
    + apply suffix_nil.
    + intros [|j] Hj Hf; [lia|]. by apply Hshort in Hf as [_ ?]; [|lia].
Qed.

Lemma watch_inv_run out : watch_inv out (fold_left boot_tx_callback out boot_watch0).
Proof.
  induction out as [|ch out IH] using rev_ind.
  - unfold watch_inv. simpl. split_and!; [|lia|apply suffix_nil|].
    + intros (pre & post & E). symmetry in E. apply app_eq_nil in E as [_ E].
      apply app_eq_nil in E as [E _]. rewrite E in target_long. simpl in *. lia.
    + intros j Hj [p Hp]. symmetry in Hp. apply app_eq_nil in Hp as [_ Hp].
      apply (f_equal length) in Hp. rewrite length_take in Hp. simpl in Hp. lia.
  - rewrite fold_left_app. simpl. by apply watch_inv_step.
Qed.
End banner.

Definition BOOT_TARGET : list Z := text "Starting interactive shell..."%string.

(** C35: The detector on the console output reports the boot exactly when the banner occurs in what
    was written: its fallback to the first character loses no occurrence. *)
Theorem boot_detected_correct out :
  boot_detected (fold_left (boot_tx_callback BOOT_TARGET) out boot_watch0) = true <-> occurs BOOT_TARGET out.
Proof.
  pose proof (watch_inv_run BOOT_TARGET ltac:(vm_compute; lia)) as H. unfold watch_inv in H.
  specialize (H ltac:(intros i Hi; do 29 (destruct i as [|i]; [first [lia|done]|]); done) out).
  destruct (boot_detected _); [done|]. split; [done|]. by intros Ho; apply H in Ho.
Qed.

(** ** The command line of [VPMain.cpp] *)

Inductive cpu_types_t := RV32 | RV64.

Record Options (D : Type) := mkOptions {
  hex_file : string; bios_file : string; dtb_file : string; kernel_file : string; initrd_file : string;
  debug : bool; cpu_type : cpu_types_t; timeout_sec : option D; max_instructions : Z
}.
Arguments mkOptions {D}. Arguments hex_file {D}. Arguments bios_file {D}. Arguments dtb_file {D}.
Arguments kernel_file {D}. Arguments initrd_file {D}. Arguments debug {D}. Arguments cpu_type {D}.
Arguments timeout_sec {D}. Arguments max_instructions {D}.

(** No timeout is [-1.0]. *)
Definition options0 {D} : Options D := mkOptions "" "" "" "" "" false RV32 None 0.

(** [strtoull(s, &endp, 10)] and what [endp] points at: spaces, a sign, digits; without a digit
    nothing is read. *)
Definition digit10 (c : Z) : option Z := if (48 <=? c) && (c <=? 57) then Some (c - 48) else None.
Fixpoint digits10 (acc : Z) (l : list Z) : Z * list Z :=
  match l with
  | c :: l' => match digit10 c with Some d => digits10 (10 * acc + d) l' | None => (acc, l) end
  | [] => (acc, [])
  end.
Definition ULLONG_MAX : Z := 2 ^ 64 - 1.
Definition strtoull10 (s : list Z) : Z * list Z :=
  let l := skip_space s in
  let '(neg, l) := match l with
                   | c :: r => if c =? 45 then (true, r) else if c =? 43 then (false, r) else (false, l)
                   | [] => (false, []) end in
  match l with
  | c :: _ =>
      match digit10 c with
      | None => (0, s)
      | Some _ =>
          let '(v, endp) := digits10 0 l in
          (if ULLONG_MAX <? v then ULLONG_MAX else if neg : bool then u64 (- v) else v, endp)
      end
  | [] => (0, s)
  end.

Section parse.
Context {D : Type}.
(** [std::stod]; [None] is the exception. *)
Variable stod : string -> option D.

Definition arg_is (a : string) (names : list string) : bool := bool_decide (a ∈ names).

(** [inr c] is [std::exit(c)], the usage printed before. *)
Fixpoint parse_loop (argv : list string) (o : Options D) : Options D + Z :=
  match argv with
  | [] => inl o
  | a :: rest =>
      match rest with
      | v :: rest' =>
          if arg_is a ["-f"; "--file"]%string then parse_loop rest' { o with hex_file := v }
          else if arg_is a ["--bios"]%string then parse_loop rest' { o with bios_file := v }
          else if arg_is a ["--dtb"]%string then parse_loop rest' { o with dtb_file := v }
          else if arg_is a ["--kernel"]%string then parse_loop rest' { o with kernel_file := v }
          else if arg_is a ["--initrd"]%string then parse_loop rest' { o with initrd_file := v }
          else if arg_is a ["-D"; "--debug"]%string then parse_loop rest { o with debug := true }
          else if arg_is a ["-R"; "--arch"]%string then
            parse_loop rest' { o with cpu_type := if bool_decide (v = "64"%string) then RV64 else RV32 }
          else if arg_is a ["-t"; "--timeout"]%string then
            match stod v with Some d => parse_loop rest' { o with timeout_sec := Some d } | None => inr 1 end
          else if arg_is a ["--max-instr"]%string then
            let '(val, endp) := strtoull10 (text v) in
            match endp with [] => parse_loop rest' { o with max_instructions := val } | _ => inr 1 end
          else if arg_is a ["-h"; "--help"]%string then inr 0
          else inr 1
      | [] =>
          if arg_is a ["-D"; "--debug"]%string then inl { o with debug := true }
          else if arg_is a ["-h"; "--help"]%string then inr 0
          else inr 1
      end
  end.

Definition parse (argv : list string) : Options D + Z :=
  match parse_loop argv options0 with
  | inl o => if bool_decide (hex_file o = ""%string) && bool_decide (bios_file o = ""%string) then inr 1 else inl o
  | inr c => inr c
  end.
End parse.

(** *** Writing the options down *)

Definition opt_arg (name : string) (v : string) : list string :=
  if bool_decide (v = ""%string) then [] else [name; v].

(** The decimal digits of a number of at most 20 digits. *)
Fixpoint decimal (fuel : nat) (n : Z) (acc : list Z) : list Z :=
  match fuel with
  | O => acc
  | S fuel => if n <? 10 then (48 + n) :: acc else decimal fuel (n / 10) ((48 + n mod 10) :: acc)
  end.
Definition to_string (l : list Z) : string :=
  String.string_of_list_ascii ((fun c => Ascii.ascii_of_N (Z.to_N c)) <$> l).
Definition print_decimal (n : Z) : string := to_string (decimal 20 n []).

Definition print_options {D} (show : D -> string) (o : Options D) : list string :=
  opt_arg "-f" (hex_file o) ++ opt_arg "--bios" (bios_file o) ++ opt_arg "--dtb" (dtb_file o) ++
  opt_arg "--kernel" (kernel_file o) ++ opt_arg "--initrd" (initrd_file o) ++
  ["-R"; match cpu_type o with RV32 => "32" | RV64 => "64" end]%string ++
  match timeout_sec o with Some d => ["-t"%string; show d] | None => [] end ++
  ["--max-instr"%string; print_decimal (max_instructions o)] ++
  if debug o then ["-D"%string] else [].

Lemma text_to_string l : Forall (fun c => 0 <= c < 256) l -> text (to_string l) = l.
Proof.
  intros Hl. unfold text, to_string. rewrite String.list_ascii_of_string_of_list_ascii.
  induction Hl as [|c l Hc Hl IH]; [done|]. rewrite !fmap_cons, IH. f_equal.
  rewrite Ascii.N_ascii_embedding by lia. lia.
Qed.

Lemma digits10_snoc l rest : forall a, Forall (fun c => 48 <= c <= 57) l ->
  digits10 a (l ++ rest) = digits10 (foldl (fun a c => 10 * a + (c - 48)) a l) rest.
Proof.
  induction l as [|c l IH]; intros a Hl; [done|]. inversion Hl; subst. simpl. unfold digit10.
  destruct (Z.leb_spec 48 c), (Z.leb_spec c 57); try lia. simpl. by rewrite IH.
Qed.

Lemma decimal_value fuel : forall n acc a, 0 <= n < 10 ^ Z.of_nat fuel ->
  exists ds, decimal fuel n acc = ds ++ acc /\ Forall (fun c => 48 <= c <= 57) ds /\
    (0 < fuel -> ds <> [])%nat /\ foldl (fun a c => 10 * a + (c - 48)) a ds = a * 10 ^ Z.of_nat (length ds) + n.
Proof.
  induction fuel as [|fuel IH]; intros n acc a Hn.
  - exists []. change (10 ^ Z.of_nat 0) with 1 in Hn. cbn [length foldl]. change (10 ^ Z.of_nat 0) with 1.
    split_and!; [done|constructor|lia|lia].
  - simpl. destruct (Z.ltb_spec n 10).
    + exists [48 + n]. cbn [length foldl]. change (10 ^ Z.of_nat 1) with 10. split_and!; [done|repeat constructor; lia|done|lia].
    + rewrite Nat2Z.inj_succ, Z.pow_succ_r in Hn by lia.
      destruct (IH (n / 10) ((48 + n mod 10) :: acc) a) as (ds & E & Hd & _ & Hf);
        [split; [apply Z.div_pos; lia|apply Z.div_lt_upper_bound; lia]|].
      exists (ds ++ [48 + n mod 10]). pose proof (Z.mod_pos_bound n 10). pose proof (Z.div_mod n 10).
      split_and!; [by rewrite E, <-app_assoc| |intros; by destruct ds|].
      * apply Forall_app. split; [done|]. repeat constructor; lia.
      * rewrite foldl_app, Hf, length_app. simpl. rewrite Nat.add_1_r, Nat2Z.inj_succ, Z.pow_succ_r by lia. lia.
Qed.

Lemma strtoull10_decimal n : fits 64 n -> strtoull10 (text (print_decimal n)) = (n, []).
Proof.
  intros Hn. unfold fits in Hn. unfold print_decimal.
  destruct (decimal_value 20 n [] 0) as (ds & E & Hd & Hne & Hf); [lia|]. rewrite app_nil_r in E. rewrite E.
  rewrite text_to_string by (eapply list.Forall_impl; [exact Hd|]; simpl; lia).
  specialize (Hne ltac:(lia)). destruct ds as [|c ds]; [done|]. inversion Hd; subst.
  unfold strtoull10. cbn [skip_space]. unfold is_space.
  assert (((9 <=? c) && (c <=? 13) || (c =? 32)) = false) as -> by lia.
  destruct (Z.eqb_spec c 45), (Z.eqb_spec c 43); try lia.
  unfold digit10 at 1. destruct (Z.leb_spec 48 c), (Z.leb_spec c 57); try lia. simpl andb. cbv iota.
  rewrite <-(app_nil_r (c :: ds)), digits10_snoc by done. rewrite Hf, Z.mul_0_l. cbn [digits10].
  unfold ULLONG_MAX. by destruct (Z.ltb_spec (2 ^ 64 - 1) (0 + n)); [lia|].
Qed.

(** Options written on the command line are parsed back: for every record of options that names
    an input, whatever the order of the defaults it leaves out. *)
Theorem parse_print {D} (stod : string -> option D) show (o : Options D) :
  (forall d, stod (show d) = Some d) -> fits 64 (max_instructions o) ->
  hex_file o <> ""%string \/ bios_file o <> ""%string ->
  parse stod (print_options show o) = inl o.
Proof.
  intros Hs Hm Hf. destruct o as [hex bios dtb kernel initrd dbg cpu tmo n]. simpl in *.
  unfold parse, print_options.
  cbn [hex_file bios_file dtb_file kernel_file initrd_file debug cpu_type timeout_sec max_instructions].
  assert (forall name v rest (o o' : Options D),
    (v <> ""%string -> parse_loop stod (name :: v :: rest) o = parse_loop stod rest o') ->
    (v = ""%string -> o' = o) ->
    parse_loop stod (opt_arg name v ++ rest) o = parse_loop stod rest o') as Hopt.
  { intros name v rest o o' H1 H2. unfold opt_arg. case_bool_decide as Ev; [by rewrite H2|]. by apply H1. }
  rewrite (Hopt "-f"%string hex _ _ { options0 with hex_file := hex }) by (done || by intros ->).
  rewrite (Hopt "--bios"%string bios _ _ { { options0 with hex_file := hex } with bios_file := bios }) by (done || by intros ->).
  rewrite (Hopt "--dtb"%string dtb _ _ (mkOptions hex bios dtb "" "" false RV32 None 0)) by (done || by intros ->).
  rewrite (Hopt "--kernel"%string kernel _ _ (mkOptions hex bios dtb kernel "" false RV32 None 0)) by (done || by intros ->).
  rewrite (Hopt "--initrd"%string initrd _ _ (mkOptions hex bios dtb kernel initrd false RV32 None 0)) by (done || by intros ->).
  assert (forall o : Options D, parse_loop stod
    (["--max-instr"%string; print_decimal n] ++ (if dbg then ["-D"%string] else [])) o =
    inl { o with max_instructions := n; debug := dbg || debug o }) as Hend.
  { intros o. simpl. rewrite strtoull10_decimal by done. destruct dbg; [done|].
    by destruct o. }
  set (tl := ["--max-instr"%string; print_decimal n] ++ _) in *. clearbody tl.
  assert (parse_loop stod (["-R"; match cpu with RV32 => "32" | RV64 => "64" end]%string ++
    match tmo with Some d => ["-t"%string; show d] | None => [] end ++ tl)
    (mkOptions hex bios dtb kernel initrd false RV32 None 0) =
    inl (mkOptions hex bios dtb kernel initrd dbg cpu tmo n)) as E.
  { destruct cpu, tmo as [d|]; simpl; rewrite ?Hs, Hend; simpl; by rewrite orb_false_r. }
  rewrite E. simpl. by destruct (bool_decide_reflect (hex = ""%string)), (bool_decide_reflect (bios = ""%string)); naive_solver.
Qed.

Lemma parse_print_witness :
  parse Some (print_options id (mkOptions "" "fw.bin" "vp.dtb" "" "" true RV64 (Some "1.5") 1000)%string) =
  inl (mkOptions "" "fw.bin" "vp.dtb" "" "" true RV64 (Some "1.5") 1000)%string.
Proof. apply (parse_print Some id); [done|unfold fits; simpl; lia|by right]. Defined.

(** The last of an option repeated counts; [-h] ends the program whatever follows. *)
Example parse_cases :
  parse (D := string) Some ["-f"; "a.hex"; "-f"; "b.hex"]%string =
    inl (mkOptions "b.hex" "" "" "" "" false RV32 None 0)%string /\
  parse (D := string) Some ["-h"; "--nonsense"]%string = inr 0 /\ parse (D := string) Some ["-R"; "64"]%string = inr 1 /\
  parse (D := string) Some ["--max-instr"; "12k"; "-f"; "a"]%string = inr 1 /\
  parse (D := string) Some ["-f"]%string = inr 1.
Proof. by vm_compute. Qed.

(** ** The loop that runs the simulation *)

(** What [sc_main] sees after a quantum: the interrupt flag, whether the wall clock has reached the
    timeout, the instruction counter and whether the kernel was stopped. *)
Record quantum_end := mkQuantum {
  q_interrupted : bool; q_late : bool; q_instructions : Z; q_stopped : bool }.

Inductive stop_reason := UserInterrupt | TimedOut | InstrLimit | Stopped.

(** The length of a quantum in ns, and the size of the trace buffer. *)
Definition quantum_ns (max_instructions : Z) : Z := if 0 <? max_instructions then 10000 else 1000000.
Definition trace_limit (max_instructions : Z) : Z := Z.min (u64 (max_instructions * 4)) 1000000.

Definition stop_check (timeout : bool) (max_instructions : Z) (q : quantum_end) : option stop_reason :=
  if q_interrupted q then Some UserInterrupt
  else if timeout && q_late q then Some TimedOut
  else if (0 <? max_instructions) && (max_instructions <=? q_instructions q) then Some InstrLimit
  else if q_stopped q then Some Stopped
  else None.

(** [Simulator.cpp] with a limit: a quantum of 1 ms, and the two conditions in one. *)
Definition sim_stop_check (max_instructions_limit : Z) (q : quantum_end) : bool :=
  (max_instructions_limit <=? q_instructions q) || q_stopped q.

(** The loop from quantum [i] on; [None] when it did not end within [fuel] quanta. *)
Fixpoint run_loop {R} (check : quantum_end -> option R) (fuel : nat) (quanta : nat -> quantum_end) (i : nat)
    : option (R * nat) :=
  match fuel with
  | O => None
  | S fuel => match check (quanta i) with Some r => Some (r, i) | None => run_loop check fuel quanta (S i) end
  end.

Lemma run_loop_first {R} (check : quantum_end -> option R) quanta n r : forall fuel i,
  (i <= n < i + fuel)%nat -> check (quanta n) = Some r ->
  (forall j, (i <= j < n)%nat -> check (quanta j) = None) ->
  run_loop check fuel quanta i = Some (r, n).
Proof.
  induction fuel as [|fuel IH]; intros i Hi Hr Hno; [lia|]. simpl.
  destruct (decide (i = n)) as [->|Hne]; [by rewrite Hr|].
  rewrite Hno by lia. apply IH; [lia|done|]. intros j Hj. apply Hno. lia.
Qed.

Lemma run_loop_some {R} (check : quantum_end -> option R) quanta : forall fuel i,
  (exists n, (i <= n < i + fuel)%nat /\ is_Some (check (quanta n))) ->
  exists r n, run_loop check fuel quanta i = Some (r, n) /\ (i <= n)%nat /\ check (quanta n) = Some r /\
    forall j, (i <= j < n)%nat -> check (quanta j) = None.
Proof.
  induction fuel as [|fuel IH]; intros i (n & Hn & Hs); [lia|]. simpl.
  destruct (check (quanta i)) as [r|] eqn:E.
  - exists r, i. split_and!; [done|lia|done|intros; lia].
  - destruct (IH (S i)) as (r & m & Hr & Hm & Hc & Hno).
    { exists n. split; [|done]. destruct (decide (i = n)) as [->|]; [by rewrite E in Hs; destruct Hs|lia]. }
    exists r, m. split_and!; [done|lia|done|]. intros j Hj.
    destruct (decide (j = i)) as [->|]; [done|]. apply Hno. lia.
Qed.

(** With a limit of [max] instructions and at least one instruction in every quantum, the loop ends
    within [max] quanta, at the first quantum one of the conditions holds after; it ends by the limit
    with fewer instructions over it than the last quantum executed. *)
Theorem run_loop_terminates timeout max quanta :
  0 < max -> 0 <= q_instructions (quanta 0%nat) ->
  (forall i, q_instructions (quanta i) < q_instructions (quanta (S i))) ->
  exists r n, run_loop (stop_check timeout max) (S (Z.to_nat max)) quanta 0 = Some (r, n) /\
    stop_check timeout max (quanta n) = Some r /\
    (r = InstrLimit -> max <= q_instructions (quanta n) /\
       forall m, n = S m -> q_instructions (quanta m) < max).
Proof.
  intros Hmax H0 Hinc.
  assert (forall i, Z.of_nat i <= q_instructions (quanta i)) as Hi.
  { induction i as [|i IH]; [done|]. specialize (Hinc i). lia. }
  destruct (run_loop_some (stop_check timeout max) quanta (S (Z.to_nat max)) 0) as (r & n & Hr & _ & Hc & Hno).
  { exists (Z.to_nat max). split; [lia|]. unfold stop_check. specialize (Hi (Z.to_nat max)).
    repeat case_match; try done. lia. }
  exists r, n. split_and!; [done|done|]. intros ->. unfold stop_check in Hc. split.
  - repeat case_match; try done. lia.
  - intros m ->. specialize (Hno m ltac:(lia)). unfold stop_check in Hno.
    repeat case_match; try done; lia.
Qed.

(** ** The images and the registers of a boot *)

(** A memory as its constructor leaves it, before the file is read: [m] is what the array held. *)
Definition Memory_new (m : bytemem) (latency : Z) (disable_dmi : bool) : memory :=
  mkMemory m latency false 0 disable_dmi.

Section vptop.
(** The contents of a file, or [None] when it can not be opened. *)
Variable files : string -> option (list Z).

Definition load_image (file : string) (phys_offset : Z) (s : memory) : option memory :=
  match files file with Some l => loadBin l phys_offset s | None => None end.

Definition load_if_named (file : string) (phys_offset : Z) (s : memory) : option memory :=
  if bool_decide (file = ""%string) then Some s else load_image file phys_offset s.

(** [VPTop]: the memory and the pc the core starts with. *)
Definition vptop_memory {D} (o : Options D) (s : memory) : option (memory * Z) :=
  if negb (bool_decide (bios_file o = ""%string)) then
    s ← load_image (bios_file o) 0x80000000 s;
    s ← load_if_named (dtb_file o) 0x80100000 s;
    s ← load_if_named (kernel_file o) 0x80200000 s;
    s ← load_if_named (initrd_file o) 0x84000000 s;
    Some (s, 0x80000000)
  else
    s ← readHexFile (files (hex_file o)) s;
    Some (s, getPCfromHEX s).

(** The calling convention of OpenSBI, in the 64-bit cores only. *)
Definition boot_registers {S} : M S unit :=
  _ ← setValue 64 10 0; _ ← setValue 64 11 0x80100000; setValue 64 2 0x9FFFFFF8.

Definition image (file : string) : list Z :=
  if bool_decide (file = ""%string) then [] else default [] (files file).

Lemma load_if_named_image file off s :
  (file = ""%string \/ is_Some (files file)) ->
  0x80000000 <= off -> off + Z.of_nat (length (image file)) <= 0x80000000 + SIZE -> off < 0x80000000 + SIZE ->
  exists s', load_if_named file off s = Some s' /\
    load_bytes (mem s') (off - 0x80000000) (length (image file)) = image file /\
    (forall x, ~ (off - 0x80000000 <= x < off - 0x80000000 + Z.of_nat (length (image file))) -> mem s' x = mem s x) /\
    (dmi_allowed s = false -> dmi_allowed s' = false).
Proof.
  intros Hf Ho Hl Hs. unfold load_if_named, load_image, image in *. case_bool_decide as En.
  - exists s. by split_and!.
  - destruct Hf as [|[l E]]; [done|]. rewrite E in *. simpl in *.
    pose proof (loadBin_spec l off s ltac:(unfold SIZE in *; lia)) as H.
    destruct (loadBin l off s) as [s'|] eqn:El; [|unfold SIZE in *; lia].
    exists s'. split_and!; [done|apply H|apply H|]. intros _. unfold loadBin in El.
    repeat case_match; by simplify_eq.
Qed.

Lemma image_kept m m' a l :
  load_bytes m a (length l) = l -> (forall x, a <= x < a + Z.of_nat (length l) -> m' x = m x) ->
  load_bytes m' a (length l) = l.
Proof.
  intros <- H. rewrite load_bytes_length. unfold load_bytes. apply list_fmap_ext. intros i x Hx.
  apply lookup_seq in Hx as [-> Hx]. apply H. rewrite load_bytes_length. lia.
Qed.

(** The images of a boot are in place, each complete, when they fit between their addresses; the core
    starts at the first and fetches through the bus. *)
Theorem boot_images_loaded {D} (o : Options D) m lat nodmi :
  bios_file o <> ""%string ->
  (forall f, f ∈ [bios_file o; dtb_file o; kernel_file o; initrd_file o] -> f = ""%string \/ is_Some (files f)) ->
  Z.of_nat (length (image (bios_file o))) <= 0x100000 ->
  Z.of_nat (length (image (dtb_file o))) <= 0x100000 ->
  Z.of_nat (length (image (kernel_file o))) <= 0x3E00000 ->
  Z.of_nat (length (image (initrd_file o))) <= 0x1C000000 ->
  exists s, vptop_memory o (Memory_new m lat nodmi) = Some (s, 0x80000000) /\
    load_bytes (mem s) 0 (length (image (bios_file o))) = image (bios_file o) /\
    load_bytes (mem s) 0x100000 (length (image (dtb_file o))) = image (dtb_file o) /\
    load_bytes (mem s) 0x200000 (length (image (kernel_file o))) = image (kernel_file o) /\
    load_bytes (mem s) 0x4000000 (length (image (initrd_file o))) = image (initrd_file o) /\
    mem_get_direct_mem_ptr s = false.
Proof.
  intros Hb Hf L1 L2 L3 L4. unfold vptop_memory. rewrite bool_decide_false by done. simpl negb. cbv iota.
  assert (load_image (bios_file o) = load_if_named (bios_file o)) as ->.
  { unfold load_if_named. by rewrite bool_decide_false. }
  destruct (load_if_named_image (bios_file o) 0x80000000 (Memory_new m lat nodmi)) as (s1 & -> & B1 & _ & D1);
    [apply Hf; set_solver|unfold SIZE; lia..|]. specialize (D1 eq_refl). simpl.
  destruct (load_if_named_image (dtb_file o) 0x80100000 s1) as (s2 & -> & B2 & K2 & D2);
    [apply Hf; set_solver|unfold SIZE; lia..|]. specialize (D2 D1). simpl.
  destruct (load_if_named_image (kernel_file o) 0x80200000 s2) as (s3 & -> & B3 & K3 & D3);
    [apply Hf; set_solver|unfold SIZE; lia..|]. specialize (D3 D2). simpl.
  destruct (load_if_named_image (initrd_file o) 0x84000000 s3) as (s4 & -> & B4 & K4 & D4);
    [apply Hf; set_solver|unfold SIZE; lia..|]. specialize (D4 D3). simpl.
  exists s4. split_and!; [done|..].
  - apply (image_kept (mem s1)); [exact B1|]. intros x Hx. rewrite K4, K3, K2 by lia. done.
  - apply (image_kept (mem s2)); [exact B2|]. intros x Hx. rewrite K4, K3 by lia. done.
  - apply (image_kept (mem s3)); [exact B3|]. intros x Hx. rewrite K4 by lia. done.
  - exact B4.
  - unfold mem_get_direct_mem_ptr. rewrite D4. by destruct (DISABLE_DMI s4).
Qed.
End vptop.

(** ** The signature dump of [Simulator.cpp] *)

(** The lines from address [i] on; [data] is what the buffer holds, which a failed transaction leaves
    there; [None] when the loop has not ended within [fuel] lines. *)
Fixpoint dump_loop (fuel : nat) (i local_dump_addr_end : Z) (data : list Z) (s : memory) : option (list Z) :=
  match fuel with
  | O => None
  | S fuel =>
      if i <? local_dump_addr_end then
        let '(p, _, s) := mem_b_transport (mkPayload TLM_READ i data false TLM_INCOMPLETE false) 0 s in
        l ← dump_loop fuel (u32 (i + 4)) local_dump_addr_end (p_data p) s;
        Some (le_combine (p_data p) :: l)
      else Some []
  end.

(** [t0] and [t1] are what the core answers for the addresses that were not given. *)
Definition MemoryDump (fuel : nat) (dump_addr_st dump_addr_end t0 t1 : Z) (data : list Z) (s : memory) : option (list Z) :=
  let local_dump_addr_st := if dump_addr_st =? 0 then u32 t0 else dump_addr_st in
  let local_dump_addr_end := if dump_addr_end =? 0 then u32 t1 else dump_addr_end in
  dump_loop fuel local_dump_addr_st local_dump_addr_end data s.

Lemma dump_loop_S fuel i e data s :
  dump_loop (S fuel) i e data s =
  if i <? e then
    let '(p, _, s) := mem_b_transport (mkPayload TLM_READ i data false TLM_INCOMPLETE false) 0 s in
    l ← dump_loop fuel (u32 (i + 4)) e (p_data p) s; Some (le_combine (p_data p) :: l)
  else Some [].
Proof. done. Qed.

(** The words of the range, for a range within the array. *)
Lemma dump_loop_words s n : forall i data,
  0 <= i -> i + 4 * Z.of_nat n <= SIZE -> length data = 4%nat ->
  dump_loop (S n) i (i + 4 * Z.of_nat n) data s = Some ((fun k => load (mem s) (i + 4 * Z.of_nat k) 4) <$> seq 0 n).
Proof.
  induction n as [|n IH]; intros i data Hi Hn Hd.
  - rewrite dump_loop_S. destruct (Z.ltb_spec i (i + 4 * Z.of_nat 0)); [lia|done].
  - rewrite dump_loop_S. destruct (Z.ltb_spec i (i + 4 * Z.of_nat (S n))); [|lia].
    rewrite mem_b_transport_read by (rewrite ?Hd; unfold in_bounds, SIZE in *; lia). cbn [p_data]. rewrite Hd.
    rewrite wrap_small by (unfold fits, SIZE in *; lia).
    replace (i + 4 * Z.of_nat (S n)) with ((i + 4) + 4 * Z.of_nat n) by lia.
    rewrite IH by (rewrite ?load_bytes_length; unfold SIZE in *; lia).
    cbn [mbind option_bind]. change (seq 0 (S n)) with (0%nat :: seq 1 n).
    rewrite fmap_cons, <-fmap_S_seq, <-list_fmap_compose. f_equal. f_equal.
    + unfold load. by rewrite Z.mul_0_r, Z.add_0_r.
    + apply list_fmap_ext. intros k x _. simpl. f_equal. lia.
Qed.

(** The dump of a range given on the command line is the range, word by word. *)
Theorem MemoryDump_words s st n t0 t1 data :
  0 < st -> st + 4 * Z.of_nat n <= SIZE -> length data = 4%nat ->
  MemoryDump (S n) st (st + 4 * Z.of_nat n) t0 t1 data s =
  Some ((fun k => load (mem s) (st + 4 * Z.of_nat k) 4) <$> seq 0 n).
Proof.
  intros Hst Hn Hd. unfold MemoryDump. destruct (Z.eqb_spec st 0), (Z.eqb_spec (st + 4 * Z.of_nat n) 0); try lia.
  by apply dump_loop_words; [lia|..].
Qed.

(** The dump asks the memory and not the bus, which alone maps the DRAM window down: for a program
    linked at 0x80000000 every line is what the buffer held before. *)
Theorem MemoryDump_dram_stale s n : forall st data,
  0x80000000 <= st -> st + 4 * Z.of_nat n < 2 ^ 32 ->
  dump_loop (S n) st (st + 4 * Z.of_nat n) data s = Some (replicate n (le_combine data)).
Proof.
  induction n as [|n IH]; intros st data Hst Hn.
  - rewrite dump_loop_S. destruct (Z.ltb_spec st (st + 4 * Z.of_nat 0)); [lia|done].
  - rewrite dump_loop_S. destruct (Z.ltb_spec st (st + 4 * Z.of_nat (S n))); [|lia].
    unfold mem_b_transport. cbn [p_addr]. destruct (Z.leb_spec SIZE st); [|unfold SIZE in *; lia]. cbn [orb p_data].
    rewrite wrap_small by (unfold fits; lia).
    replace (st + 4 * Z.of_nat (S n)) with ((st + 4) + 4 * Z.of_nat n) by lia.
    by rewrite IH by lia.
Qed.

(** The counter has 32 bits: a range that ends above 0xFFFFFFFC is never left. *)
Theorem MemoryDump_endless fuel : forall st e data s,
  0 <= st -> st mod 4 = 0 -> 0xFFFFFFFC < e < 2 ^ 32 -> st < 2 ^ 32 -> dump_loop fuel st e data s = None.
Proof.
  induction fuel as [|fuel IH]; intros st e data s H0 Hm He Hst; [done|]. rewrite dump_loop_S.
  pose proof (Z.div_mod st 4 ltac:(lia)) as Hd. rewrite Hm in Hd.
  destruct (Z.ltb_spec st e); [|lia]. destruct (mem_b_transport _ _ _) as [[p d] s'].
  pose proof (Z.mod_pos_bound (st + 4) (2 ^ 32) ltac:(lia)) as Hb. unfold u32, wrap.
  rewrite IH; [done|lia| |done|lia]. rewrite <-Znumtheory.Zmod_div_mod by (done || by exists (2 ^ 30)).
  rewrite Z.add_mod, Hm by lia. done.
Qed.

(** ** The options of [Simulator.cpp] *)

Inductive log_level := log_info | log_warn | log_debug | log_err.

Record sim_options := mkSim {
  filename : list Z; debug_session : bool; mem_dump : bool; dump_addr_st : Z; dump_addr_end : Z;
  cpu_type_opt : cpu_types_t; max_instructions_limit : Z;
  logger : option log_level
}.

(** [strtoul(s, nullptr, 16)], [strtoull(s, nullptr, 10)] and [strtol(s, nullptr, 10)]. *)
Definition strtoul16 (s : list Z) : Z :=
  match stol16 s with
  | Some v => if ULLONG_MAX <? Z.abs v then ULLONG_MAX else u64 v
  | None => 0
  end.
Definition strtol10 (s : list Z) : Z :=
  let l := skip_space s in
  let clamp v := Z.max (- 2 ^ 63) (Z.min (2 ^ 63 - 1) v) in
  match l with
  | c :: r => if c =? 45 then clamp (- (digits10 0 r).1) else clamp (digits10 0 (if c =? 43 then r else l)).1
  | [] => 0
  end.

(** One option as [getopt_long] returns it, a letter and its argument; [None] is the access through
    a null pointer to the logger. *)
Definition sim_option (o : ascii * list Z) (s : sim_options) : option sim_options :=
  let '(c, optarg) := o in
  if Ascii.eqb c "D" then Some { s with debug_session := true }
  else if Ascii.eqb c "T" then Some { s with mem_dump := true }
  else if Ascii.eqb c "B" then Some { s with dump_addr_st := u32 (strtoul16 optarg) }
  else if Ascii.eqb c "E" then Some { s with dump_addr_end := u32 (strtoul16 optarg) }
  else if Ascii.eqb c "L" then
    let debug_level := strtol10 optarg in
    let s := { s with logger := if 0 <=? debug_level then Some log_info else None } in
    match logger s with
    | None => None
    | Some _ => Some { s with logger := Some (if debug_level =? 3 then log_info
                                              else if debug_level =? 2 then log_warn
                                              else if debug_level =? 1 then log_debug
                                              else if debug_level =? 0 then log_err
                                              else log_info) }
    end
  else if Ascii.eqb c "f" then Some { s with filename := optarg }
  else if Ascii.eqb c "R" then
    Some { s with cpu_type_opt := if bool_decide (optarg = text "32"%string) then RV32 else RV64 }
  else if Ascii.eqb c "M" then Some { s with max_instructions_limit := (strtoull10 optarg).1 }
  else Some s.

Fixpoint sim_options_loop (opts : list (ascii * list Z)) (s : sim_options) : option sim_options :=
  match opts with
  | [] => Some s
  | o :: opts => s ← sim_option o s; sim_options_loop opts s
  end.

Definition sim_options0 : sim_options := mkSim [] false false 0 0 RV32 0 None.

(** [Some (inr _)] is [std::exit(EXIT_FAILURE)]. *)
Definition process_arguments (opts : list (ascii * list Z)) : option (sim_options + Z) :=
  s ← sim_options_loop opts sim_options0;
  Some (if bool_decide (filename s = []) then inr 1 else inl s).

(** A negative debug level clears the logger and then sets its level. *)
Example negative_debug_level :
  process_arguments [("f"%char, text "a.hex"%string); ("L"%char, text "-1"%string)] = None.
Proof. by vm_compute. Qed.

(** An architecture that is neither 32 nor 64 is RV64 here and RV32 in [VPMain.cpp]. *)
Example arch_disagrees :
  (match process_arguments [("f"%char, text "a"%string); ("R"%char, text "128"%string)] with
   | Some (inl s) => Some (cpu_type_opt s) | _ => None end) = Some RV64 /\
  (match parse (D := string) Some ["-f"; "a"; "-R"; "128"]%string with
   | inl o => Some (cpu_type o) | inr _ => None end) = Some RV32.
Proof. by vm_compute. Qed.

(** ** Small classes *)

(** [Instruction::check_extension]. *)
Inductive extension_t :=
  | BASE_EXTENSION | M_EXTENSION | A_EXTENSION | F_EXTENSION | D_EXTENSION | Q_EXTENSION | L_EXTENSION | C_EXTENSION
  | R_EXTENSION | J_EXTENSION | P_EXTENSION | V_EXTENSION | N_EXTENSION | UNKNOWN_EXTENSION.

Definition check_extension (m_instr : Z) : extension_t :=
  if ((m_instr .& 0x7F =? 0x33) || (m_instr .& 0x7F =? 0x3B)) && ((m_instr .& 0x7F000000) .>> 25 =? 1)
  then M_EXTENSION
  else if m_instr .& 0x7F =? 0x2F then A_EXTENSION
  else if m_instr .& 3 =? 0 then C_EXTENSION
  else if m_instr .& 3 =? 1 then C_EXTENSION
  else if m_instr .& 3 =? 2 then C_EXTENSION
  else BASE_EXTENSION.

(** The mask is one bit too low: bit 31 of funct7 is not looked at. *)
Theorem check_extension_M w :
  fits 32 w -> check_extension w = M_EXTENSION <->
  (bits 6 0 w = 0x33 \/ bits 6 0 w = 0x3B) /\ bits 30 25 w = 1.
Proof.
  intros Hw. unfold check_extension.
  assert (w .& 0x7F = bits 6 0 w) as ->.
  { change 0x7F with (Z.ones 7). rewrite land_ones_mod by lia. rewrite bits_div by lia. by rewrite Z.div_1_r. }
  assert ((w .& 0x7F000000) .>> 25 = bits 30 25 w) as ->.
  { change 0x7F000000 with (Z.ones 7 .<< 24). rewrite Z.shiftr_land, Z.shiftr_shiftl_r by lia.
    change (Z.ones 7 .>> (25 - 24)) with (Z.ones 6). rewrite land_ones_mod, Z.shiftr_div_pow2 by lia.
    by rewrite bits_div by lia. }
  split.
  - intros H. repeat case_match; try done. lia.
  - intros [Ho Hf]. repeat case_match; try done; lia.
Qed.

Lemma check_extension_M_witness : check_extension 0x02C58533 = M_EXTENSION.
Proof. apply check_extension_M; [unfold fits; lia|]. split; [left|]; vm_compute; reflexivity. Defined.

(** A word whose funct7 is 1000001. *)
Example check_extension_bit31 : check_extension 0x82C58533 = M_EXTENSION.
Proof. by vm_compute. Qed.

(** [Debug::compute_checksum_string]: the two hexadecimal digits of the sum of the characters. *)
Definition nibble_to_hex (d : Z) : Z := if d <? 10 then 48 + d else 87 + d.
Definition compute_checksum_string (msg : list Z) : list Z :=
  let sum := u32 (foldl (fun s c => s + c) 0 msg) .& 0xFF in
  [nibble_to_hex ((sum .>> 4) .& 0xF); nibble_to_hex (sum .& 0xF)].

(** The checksum reads back as the sum modulo 256. *)
Theorem checksum_reads_back msg :
  stol16 (compute_checksum_string msg) = Some (foldl Z.add 0 msg mod 256).
Proof.
  unfold compute_checksum_string. set (sum := foldl _ 0 msg). change (foldl Z.add 0 msg) with sum.
  change 0xFF with (Z.ones 8). change 0xF with (Z.ones 4). rewrite !land_ones_mod, Z.shiftr_div_pow2 by lia.
  unfold u32, wrap. rewrite mod_mod_pow2 by lia. change (2 ^ 8) with 256. change (2 ^ 4) with 16.
  pose proof (Z.mod_pos_bound sum 256 ltac:(lia)) as Hs. set (b := sum mod 256) in *.
  assert (forallb (fun n => bool_decide (stol16 [nibble_to_hex ((Z.of_nat n / 16) mod 16); nibble_to_hex (Z.of_nat n mod 16)]
            = Some (Z.of_nat n))) (seq 0 256) = true) as H by (vm_compute; reflexivity).
  rewrite forallb_forall in H. specialize (H (Z.to_nat b)). rewrite in_seq, Z2Nat.id in H by lia.
  specialize (H ltac:(lia)). by apply bool_decide_eq_true in H.
Qed.

(** [Performance]: the counters. *)
Record Performance := mkPerf {
  data_memory_read : Z; data_memory_write : Z; code_memory_read : Z; code_memory_write : Z;
  register_read : Z; register_write : Z; instructions_executed : Z }.
Definition Performance_new : Performance := mkPerf 0 0 0 0 0 0 0.
Definition dataMemoryRead (p : Performance) : Performance := { p with data_memory_read := u64 (data_memory_read p + 1) }.
Definition dataMemoryWrite (p : Performance) : Performance := { p with data_memory_write := u64 (data_memory_write p + 1) }.
Definition codeMemoryRead (p : Performance) : Performance := { p with code_memory_read := u64 (code_memory_read p + 1) }.
Definition codeMemoryWrite (p : Performance) : Performance := { p with code_memory_write := u64 (code_memory_write p + 1) }.
Definition registerRead (p : Performance) : Performance := { p with register_read := u64 (register_read p + 1) }.
Definition registerWrite (p : Performance) : Performance := { p with register_write := u64 (register_write p + 1) }.
Definition instructionsInc (p : Performance) : Performance := { p with instructions_executed := u64 (instructions_executed p + 1) }.
Definition getInstructions (p : Performance) : Z := instructions_executed p.

(** The counter the loops test: the number of instructions, until it wraps. *)
Lemma getInstructions_count n :
  Z.of_nat n < 2 ^ 64 -> getInstructions (Nat.iter n instructionsInc Performance_new) = Z.of_nat n.
Proof.
  induction n as [|n IH]; intros Hn; [done|]. simpl. unfold getInstructions in IH. rewrite IH by lia.
  replace (Z.of_nat (S n)) with (Z.of_nat n + 1) by lia. apply wrap_small. unfold fits. lia.
Qed.

(** [TimingModelType] and [VPTop::getTimingModel]; the flags of the build are arguments. *)
Inductive TimingModelType := LT | AT | CYCLE | CYCLE6.
Definition timing_model_name (m : TimingModelType) : string :=
  match m with
  | LT => "LT (Loosely-Timed)" | AT => "AT (Approximately-Timed)"
  | CYCLE => "CYCLE (Cycle-Accurate)" | CYCLE6 => "CYCLE6 (6-Stage Cycle-Accurate)"
  end.
Definition getTimingModel (cycle6 cycle at_ : bool) : TimingModelType :=
  if cycle6 then CYCLE6 else if cycle then CYCLE else if at_ then AT else LT.

(** ** The console *)

(** What the detector makes of the bytes a UART has sent: the callback runs once for each. *)
Definition uart_watch {X} (s : UART X) : boot_watch :=
  fold_left (boot_tx_callback BOOT_TARGET) (tx_out s) boot_watch0.

Lemma uart_write_watch {X} (irq : bool -> X -> X) reg val (s : UART X) :
  uart_watch (uart_write irq reg val s) =
  if (reg =? 0) && negb (dlab s) then boot_tx_callback BOOT_TARGET (uart_watch s) val else uart_watch s.
Proof.
  unfold uart_write, uart_watch. destruct (reg =? 0), (dlab s); simpl; try done.
  - by rewrite fold_left_app.
  - repeat case_match; done.
  - repeat case_match; done.
Qed.
