(* ===== verification/Dma.v ===== *)
(** [src/inc/DMA.h]: the memory-to-memory copier, [src/inc/SyscallIf.h] and the register
    of [src/src/Trace.cpp].  The DMA is a master of whatever its [mem_master] is bound
    to, a [Target] [S]; [VPTop] binds it to the bus. *)
From S2P Require Import Prelude Bytes Memory BusCtrl.

Record DMA := mkDMA { src : Z; dst : Z; dma_len : Z; control : Z }.

Definition DMA_new : DMA := mkDMA 0 0 0 0.

Section dma.
Context {S : Type} `{Target S}.

(** The buffer starts as [len] zero bytes.  The answer of the write is not looked at. *)
Definition start_transfer (d : DMA) (s : S) : DMA * S :=
  if dma_len d =? 0 then (d, s)
  else
    let buffer := replicate (Z.to_nat (dma_len d)) 0 in
    let '(trans, delay, s) :=
      b_transport (mkPayload TLM_READ (src d) buffer false TLM_INCOMPLETE false) 0 s in
    if negb (bool_decide (p_status trans = TLM_OK)) then (d, s)
    else
      let '(_, _, s) :=
        b_transport { trans with p_addr := dst d; p_cmd := TLM_WRITE; p_status := TLM_INCOMPLETE }
          delay s in
      ({ d with control := control d .&~ 1 }, s).

Definition dma_b_transport (p : payload) (delay : Z) (st : DMA * S) : payload * Z * (DMA * S) :=
  let '(d, s) := st in
  let cmd := p_cmd p in
  let addr := p_addr p in
  if negb (p_len p =? 4) then ({ p with p_status := TLM_BURST_ERROR }, delay, (d, s))
  else
    let write := bool_decide (cmd = TLM_WRITE) in
    let val := if write then le_combine (p_data p) else 0 in
    let '(val, (d, s)) :=
      if addr =? 0x00 then if write then (val, ({ d with src := val }, s)) else (src d, (d, s))
      else if addr =? 0x04 then if write then (val, ({ d with dst := val }, s)) else (dst d, (d, s))
      else if addr =? 0x08 then
        if write then (val, ({ d with dma_len := val }, s)) else (dma_len d, (d, s))
      else if addr =? 0x0C then
        if write then
          let d := { d with control := val } in
          (val, if negb ((control d .& 1) =? 0) then start_transfer d s else (d, s))
        else (control d, (d, s))
      else (val, (d, s)) in
    let p := if bool_decide (cmd = TLM_READ) then { p with p_data := le_split 4 val } else p in
    ({ p with p_status := TLM_OK }, delay, (d, s)).

#[export] Instance dma_target : Target (DMA * S) := dma_b_transport.

Definition dma_write (addr v : Z) (st : DMA * S) : DMA * S :=
  (dma_b_transport (mkPayload TLM_WRITE addr (le_split 4 v) false TLM_INCOMPLETE false) 0 st).2.
End dma.

(** ** Block transfers *)

(** A target that is a byte array for transfers of any length on a domain. *)
Class BlockMem (S : Type) `{Target S} := {
  bm_bytes : S -> bytemem;
  bm_dom : Z -> Z -> Prop;
  bm_read a l f d (s : S) :
    bm_dom a (Z.of_nat (length l)) ->
    exists d' f', b_transport (mkPayload TLM_READ a l false TLM_INCOMPLETE f) d s =
      (mkPayload TLM_READ a (load_bytes (bm_bytes s) a (length l)) false TLM_OK f', d', s);
  bm_write a l f d (s : S) :
    bm_dom a (Z.of_nat (length l)) ->
    exists p' d' s', b_transport (mkPayload TLM_WRITE a l false TLM_INCOMPLETE f) d s = (p', d', s') /\
      p_status p' = TLM_OK /\ forall x, bm_bytes s' x = store_bytes (bm_bytes s) a l x
}.

Lemma mem_block_access cmd a l f d s :
  0 <= a -> in_bounds a (Z.of_nat (length l)) -> cmd = TLM_READ \/ cmd = TLM_WRITE ->
  mem_b_transport (mkPayload cmd a l false TLM_INCOMPLETE f) d s =
    (mkPayload cmd a (if bool_decide (cmd = TLM_READ) then load_bytes (mem s) a (length l) else l)
       false TLM_OK (dmi_allowed s), d + m_latency s,
     if bool_decide (cmd = TLM_READ) then s else { s with mem := store_bytes (mem s) a l }).
Proof.
  intros Ha Hb Hc. unfold mem_b_transport, p_len. simpl.
  rewrite (proj2 (mem_range_check a (Z.of_nat (length l)) Ha ltac:(unfold in_bounds, SIZE in Hb; lia)))
    by done. by destruct Hc as [-> | ->].
Qed.

#[export] Program Instance memory_block : BlockMem memory := {
  bm_bytes := mem;
  bm_dom a n := 0 <= a /\ in_bounds a n
}.
Next Obligation.
  intros a l f d s [Ha Hb]. unfold b_transport, memory_target.
  rewrite (mem_block_access TLM_READ) by auto. by eexists _, _.
Qed.
Next Obligation.
  intros a l f d s [Ha Hb]. unfold b_transport, memory_target.
  rewrite (mem_block_access TLM_WRITE) by auto. by eexists _, _, _.
Qed.

(** The DRAM window of the bus, transfers that start at an HTIF word excluded. *)
Section bus_block.
Context {U C P D S T R : Type}
  `{Target U, Target C, Target P, Target D, Target S, Target T, Target R}.

Lemma bus_block_access cmd a l f d (b : bus U C P D S T R) :
  DRAM_BASE_ADDRESS <= a -> in_bounds (a - DRAM_BASE_ADDRESS) (Z.of_nat (length l)) ->
  a <> TO_HOST_ADDRESS -> a <> HTIF_TOHOST_ADDR -> cmd = TLM_READ \/ cmd = TLM_WRITE ->
  bus_b_transport (mkPayload cmd a l false TLM_INCOMPLETE f) d b =
    (mkPayload cmd a (if bool_decide (cmd = TLM_READ)
                      then load_bytes (mem (bus_memory b)) (a - DRAM_BASE_ADDRESS) (length l) else l)
       false TLM_OK (dmi_allowed (bus_memory b)), d + m_latency (bus_memory b),
     if bool_decide (cmd = TLM_READ) then b
     else { b with bus_memory := { bus_memory b with
              mem := store_bytes (mem (bus_memory b)) (a - DRAM_BASE_ADDRESS) l } }).
Proof.
  intros Ha Hb Hn1 Hn2 Hc. unfold bus_b_transport. simpl.
  assert (decode_route a cmd = R_Memory (a - DRAM_BASE_ADDRESS)) as ->.
  { unfold in_bounds, SIZE in Hb.
    apply decode_route_cases; unfold device_region; bus_consts; try done; intros; exfalso; lia. }
  unfold forward. change (b_transport _ d (bus_memory b)) with
    (mem_b_transport (mkPayload cmd (a - DRAM_BASE_ADDRESS) l false TLM_INCOMPLETE f) d (bus_memory b)).
  rewrite mem_block_access by (done || (bus_consts; lia)). simpl.
  destruct Hc as [-> | ->]; by destruct b.
Qed.

#[export] Program Instance bus_block : BlockMem (bus U C P D S T R) := {
  bm_bytes b := fun x => mem (bus_memory b) (x - DRAM_BASE_ADDRESS);
  bm_dom a n := DRAM_BASE_ADDRESS <= a /\ in_bounds (a - DRAM_BASE_ADDRESS) n /\
                a <> TO_HOST_ADDRESS /\ a <> HTIF_TOHOST_ADDR
}.
Next Obligation.
  intros a l f d b (Ha & Hb & Hn1 & Hn2). unfold b_transport, bus_target.
  rewrite (bus_block_access TLM_READ) by auto. eexists _, _. simpl. do 3 f_equal.
  unfold load_bytes. apply list_fmap_ext. intros i k _. f_equal. lia.
Qed.
Next Obligation.
  intros a l f d b (Ha & Hb & Hn1 & Hn2). unfold b_transport, bus_target.
  rewrite (bus_block_access TLM_WRITE) by auto. eexists _, _, _. split_and!; [done|done|].
  intros x. simpl. unfold store_bytes.
  replace (a - DRAM_BASE_ADDRESS <=? x - DRAM_BASE_ADDRESS) with (a <=? x)
    by (bus_consts; destruct (Z.leb_spec a x), (Z.leb_spec (a - 0x80000000) (x - 0x80000000)); lia).
  replace (x - DRAM_BASE_ADDRESS <? a - DRAM_BASE_ADDRESS + Z.of_nat (length l))
    with (x <? a + Z.of_nat (length l))
    by (bus_consts; destruct (Z.ltb_spec x (a + Z.of_nat (length l))),
          (Z.ltb_spec (x - 0x80000000) (a - 0x80000000 + Z.of_nat (length l))); lia).
  case_match; [|done]. do 2 f_equal. lia.
Qed.
End bus_block.

(** ** What the DMA does *)

Section transfer.
Context {S : Type} `{BlockMem S}.

Lemma start_transfer_copies d (s : S) :
  0 < dma_len d -> bm_dom (S := S) (src d) (dma_len d) -> bm_dom (S := S) (dst d) (dma_len d) ->
  exists s', start_transfer d s = ({ d with control := control d .&~ 1 }, s') /\
    forall x, bm_bytes s' x =
      if (dst d <=? x) && (x <? dst d + dma_len d) then bm_bytes s (x - dst d + src d)
      else bm_bytes s x.
Proof.
  intros Hl Hs Hd. unfold start_transfer. rewrite (proj2 (Z.eqb_neq _ _)) by lia.
  set (n := Z.to_nat (dma_len d)). assert (Z.of_nat n = dma_len d) as En by lia.
  destruct (bm_read (src d) (replicate n 0) false 0 s) as (d1 & f1 & ->);
    [by rewrite length_replicate, En|]. rewrite length_replicate. cbn [p_status].
  change (bool_decide (TLM_OK = TLM_OK)) with true. cbn [negb].
  set (buffer := load_bytes (bm_bytes s) (src d) n).
  assert (length buffer = n) as Eb by apply load_bytes_length.
  destruct (bm_write (dst d) buffer f1 d1 s) as (p' & d2 & s' & E & _ & Hx); [by rewrite Eb, En|].
  change (b_transport _ d1 s) with
    (b_transport (mkPayload TLM_WRITE (dst d) buffer false TLM_INCOMPLETE f1) d1 s).
  rewrite E. exists s'. split; [done|]. intros x. rewrite Hx. unfold store_bytes.
  rewrite Eb, En.
  destruct (Z.leb_spec (dst d) x), (Z.ltb_spec x (dst d + dma_len d)); cbn [andb]; try done.
  unfold buffer. rewrite load_bytes_lookup by lia. f_equal. lia.
Qed.

(** Writing the registers and then the start bit. *)
Definition dma_run (source dest len : Z) (st : DMA * S) : DMA * S :=
  dma_write 0x0C 1 (dma_write 0x08 len (dma_write 0x04 dest (dma_write 0x00 source st))).

Lemma dma_run_eq source dest len d (s : S) :
  fits 32 source -> fits 32 dest -> fits 32 len ->
  dma_run source dest len (d, s) = start_transfer (mkDMA source dest len 1) s.
Proof.
  intros Hs Hd Hl. unfold dma_run.
  assert (forall a v (st : DMA * S), fits 32 v -> dma_write a v st =
    (let '(d, s) := st in
     if a =? 0x00 then ({ d with src := v }, s) else if a =? 0x04 then ({ d with dst := v }, s)
     else if a =? 0x08 then ({ d with dma_len := v }, s)
     else if a =? 0x0C then
       if negb ((v .& 1) =? 0) then start_transfer { d with control := v } s
       else ({ d with control := v }, s)
     else (d, s))) as W.
  { intros a v [d0 s0] Hv. unfold dma_write, dma_b_transport. cbn [p_data p_cmd p_addr].
    unfold p_len. cbn [p_data]. rewrite le_split_length, le_combine_split.
    rewrite (wrap_small _ v) by done. change (Z.of_nat 4 =? 4) with true.
    change (bool_decide (TLM_WRITE = TLM_WRITE)) with true.
    change (bool_decide (TLM_WRITE = TLM_READ)) with false. cbn [negb].
    destruct (a =? 0); [done|]. destruct (a =? 4); [done|]. destruct (a =? 8); [done|].
    destruct (a =? 12); [|done]. cbv zeta. change (control { d0 with control := v }) with v.
    destruct (negb ((v .& 1) =? 0)); [|done]. by destruct (start_transfer _ s0). }
  rewrite !W by (done || (unfold fits; lia)). by destruct d.
Qed.
End transfer.

(** C32: a transfer programmed through the registers copies the source block to the
    destination, byte for byte even when they overlap, changes no other byte, and
    clears the start bit. *)
Theorem dma_copies {S} `{BlockMem S} source dest len d (s : S) :
  fits 32 source -> fits 32 dest -> fits 32 len -> 0 < len ->
  bm_dom (S := S) source len -> bm_dom (S := S) dest len ->
  exists s', dma_run source dest len (d, s) = (mkDMA source dest len 0, s') /\
    forall x, bm_bytes s' x =
      if (dest <=? x) && (x <? dest + len) then bm_bytes s (x - dest + source) else bm_bytes s x.
Proof.
  intros Hs Hd Hl Hl0 Ds Dd. rewrite dma_run_eq by done.
  by apply (start_transfer_copies (mkDMA source dest len 1) s).
Qed.

(** A source outside of memory: nothing is copied, and the start bit stays set. *)
Lemma dma_read_error_keeps_start (d : DMA) (s : memory) :
  SIZE <= src d -> dma_len d <> 0 -> start_transfer d s = (d, s).
Proof.
  intros Hs Hl. unfold start_transfer. rewrite (proj2 (Z.eqb_neq _ _)) by done.
  unfold b_transport, memory_target, mem_b_transport. simpl.
  by rewrite (proj2 (Z.leb_le SIZE (src d))).
Qed.

(** A destination outside of memory: nothing is written, and the transfer reports that
    it has completed. *)
Lemma dma_write_error_unnoticed (d : DMA) (s : memory) :
  0 <= src d -> src d + dma_len d <= SIZE -> 0 < dma_len d -> SIZE <= dst d ->
  start_transfer d s = ({ d with control := control d .&~ 1 }, s).
Proof.
  intros Hs Hsl Hl Hd. unfold start_transfer. rewrite (proj2 (Z.eqb_neq _ _)) by lia.
  unfold b_transport, memory_target. rewrite (mem_block_access TLM_READ);
    [|done|unfold in_bounds; rewrite length_replicate; lia|by left].
  cbn. unfold mem_b_transport. cbn. by rewrite (proj2 (Z.leb_le SIZE (dst d))).
Qed.

(** ** The system-call interface and the trace *)

Record SyscallIf := mkSyscallIf { last_syscall : Z; last_arg : Z; sys_out : list Z }.

Definition syscall_b_transport (p : payload) (delay : Z) (s : SyscallIf) : payload * Z * SyscallIf :=
  let cmd := p_cmd p in
  let addr := p_addr p in
  let '(p, s) :=
    if bool_decide (cmd = TLM_WRITE) && (p_len p =? 4) then
      let val := le_combine (p_data p) in
      (p, if addr =? 0x0 then { s with last_syscall := val }
          else if addr =? 0x4 then { s with last_arg := val }
          else if addr =? 0x8 then { s with sys_out := sys_out s ++ [val .& 0xFF] }
          else s)
    else if bool_decide (cmd = TLM_READ) && (p_len p =? 4) then
      let val := if addr =? 0x0 then last_syscall s else if addr =? 0x4 then last_arg s else 0 in
      ({ p with p_data := le_split 4 val }, s)
    else (p, s) in
  ({ p with p_status := TLM_OK }, delay, s).

#[export] Instance syscall_target : Target SyscallIf := syscall_b_transport.

(** The trace sends the first byte of every transaction, reads included, to the terminal;
    its state is what was sent. *)
Definition trace_b_transport (p : payload) (delay : Z) (s : list Z) : payload * Z * list Z :=
  ({ p with p_status := TLM_OK }, 0, s ++ [byte_at (p_data p) 0]).

(** ** Witness *)

(** Two overlapping blocks of memory. *)
Definition dma_memory : memory :=
  { memory0 with mem := store (mem memory0) 0x100 4 0x44332211 }.

Lemma dma_copies_witness :
  mem (dma_run 0x100 0x102 4 (DMA_new, dma_memory)).2 0x105 = 0x44.
Proof.
  destruct (dma_copies 0x100 0x102 4 DMA_new dma_memory) as (s' & E & Hx).
  - done.
  - done.
  - done.
  - done.
  - unfold bm_dom, memory_block, in_bounds, SIZE. lia.
  - unfold bm_dom, memory_block, in_bounds, SIZE. lia.
  - rewrite E. cbn [snd]. change (mem s') with (bm_bytes s'). rewrite Hx. by vm_compute.
Defined.
