(* ===== verification/TotalMem.v ===== *)
(** What a core that never stops needs of its memory system: [DataTarget] is a target whose
    answers have the length of the request and are bytes, [TotalMem] one that answers every
    transaction with OK and grants no direct access.  The bus is a [TotalMem] whatever
    devices are behind it; with it the accessors of the cores, the page walk and the drains
    never throw. *)
From S2P Require Import Prelude Bytes Memory BusCtrl Clint Dma CSR TLB MMU.

Class DataTarget (S : Type) `{Target S} := {
  dt_inv : S -> Prop;
  dt_keeps p d s :
    dt_inv s -> is_bytes (p_data p) ->
    let '(p', _, s') := b_transport p d s in
    dt_inv s' /\ length (p_data p') = length (p_data p) /\ is_bytes (p_data p')
}.

Class TotalMem (S : Type) `{DataTarget S, DirectMem S} := {
  tm_ok p d s : dt_inv s -> p_status (b_transport p d s).1.1 = TLM_OK;
  tm_no_dmi s : dt_inv s -> get_direct_mem_ptr s = false
}.

(** ** Instances *)

Lemma load_bytes_data (m : memory) a n :
  mem_ok (mem m) -> length (load_bytes (mem m) a n) = n /\ is_bytes (load_bytes (mem m) a n).
Proof. intros Hm. split; [apply load_bytes_length|by apply load_bytes_ok]. Qed.

#[export] Program Instance memory_data : DataTarget memory := { dt_inv s := mem_ok (mem s) }.
Next Obligation.
  intros p d s Hs Hp. unfold b_transport, memory_target, mem_b_transport.
  destruct (_ || _); [done|]. destruct (p_byte_enable p); [done|].
  destruct (p_cmd p); simpl; [|by split_and!; [apply store_bytes_ok|..]|done].
  split; [done|]. by apply load_bytes_data.
Qed.

Lemma mem_dmi_kept p d (s : memory) :
  get_direct_mem_ptr (mem_b_transport p d s).2 = get_direct_mem_ptr s.
Proof.
  unfold mem_b_transport. destruct (_ || _); [done|]. destruct (p_byte_enable p); [done|].
  by destruct (p_cmd p).
Qed.

#[export] Program Instance clint_data : DataTarget CLINT := { dt_inv _ := True }.
Next Obligation.
  intros p d s _ Hp. unfold b_transport, clint_target, clint_b_transport. cbv zeta.
  destruct (Z.eqb_spec (p_len p) 8) as [E8|]; [|destruct (Z.eqb_spec (p_len p) 4) as [E4|]; [|done]];
    unfold p_len in *; repeat case_bool_decide; try done; cbn -[le_split];
    (split_and!; [done|rewrite le_split_length; lia|apply le_split_bytes]).
Qed.

#[export] Program Instance syscall_data : DataTarget SyscallIf := { dt_inv _ := True }.
Next Obligation.
  intros p d s _ Hp. unfold b_transport, syscall_target, syscall_b_transport. cbv zeta.
  destruct (Z.eqb_spec (p_len p) 4) as [E4|];
    unfold p_len in *; repeat case_bool_decide; try done; cbn -[le_split];
    (split_and!; [done|rewrite le_split_length; lia|apply le_split_bytes]).
Qed.

Section bus.
Context {U C P D S T R : Type}
  `{DataTarget U, DataTarget C, DataTarget P, DataTarget D, DataTarget S, DataTarget T, DataTarget R}.

Definition opt_inv {X} `{DataTarget X} (x : option X) : Prop :=
  match x with Some x => dt_inv x | None => True end.

Record bus_inv (b : bus U C P D S T R) : Prop := {
  bi_memory : mem_ok (mem (bus_memory b));
  bi_no_dmi : get_direct_mem_ptr (bus_memory b) = false;
  bi_uart : opt_inv (bus_uart b);
  bi_clint : opt_inv (bus_clint b);
  bi_plic : opt_inv (bus_plic b);
  bi_dma : opt_inv (bus_dma b);
  bi_syscall : opt_inv (bus_syscall b);
  bi_timer : dt_inv (bus_timer b);
  bi_trace : dt_inv (bus_trace b)
}.

Lemma forward_keeps {X} `{DataTarget X} a p d (x : X) :
  dt_inv x -> is_bytes (p_data p) ->
  let '(p', _, x') := forward a p d x in
  dt_inv x' /\ length (p_data p') = length (p_data p) /\ is_bytes (p_data p').
Proof.
  intros Hx Hp. unfold forward.
  match goal with |- context [b_transport ?q d x] =>
    pose proof (dt_keeps q d x Hx Hp) as Hk; destruct (b_transport q d x) as [[p1 d1] x1] end.
  exact Hk.
Qed.

Lemma forward_opt_keeps {X} `{DataTarget X} a p d (x : option X) :
  opt_inv x -> is_bytes (p_data p) ->
  let '(p', _, x') := forward_opt a p d x in
  opt_inv x' /\ length (p_data p') = length (p_data p) /\ is_bytes (p_data p').
Proof.
  intros Hx Hp. destruct x as [x|]; [|done]. unfold forward_opt.
  pose proof (forward_keeps a p d x Hx Hp) as Hk. destruct (forward a p d x) as [[p1 d1] x1]. exact Hk.
Qed.

#[export] Program Instance bus_data : DataTarget (bus U C P D S T R) := { dt_inv := bus_inv }.
Next Obligation.
  intros p d b [] Hp. unfold b_transport, bus_target, bus_b_transport.
  destruct (decode_route _ _) as [|a|a|a|a|a|a|a|a]; [done|..].
  { pose proof (forward_keeps a p d (bus_memory b) bi_memory0 Hp) as Hk.
    pose proof (mem_dmi_kept { p with p_addr := a } d (bus_memory b)) as Hg.
    unfold forward, b_transport, memory_target in *.
    destruct (mem_b_transport _ d _) as [[p' d'] x']. destruct Hk as [Hk1 Hk2]. simpl in Hg |- *.
    split; [|done]. split; simpl; try done. simpl in bi_no_dmi0. congruence. }
  all: match goal with
  | |- context [forward_opt ?a ?p ?d ?x] =>
      let Hk := fresh in pose proof (forward_opt_keeps a p d x) as Hk;
      destruct (forward_opt a p d x) as [[? ?] ?]; destruct Hk as [? ?]; [done..|]
  | |- context [forward ?a ?p ?d ?x] =>
      let Hk := fresh in pose proof (forward_keeps a p d x) as Hk;
      destruct (forward a p d x) as [[? ?] ?]; destruct Hk as [? ?]; [done..|]
  end; (split; [by split|done]).
Qed.

#[export] Program Instance bus_total : TotalMem (bus U C P D S T R).
Next Obligation. intros p d b _. apply bus_always_ok. Qed.
Next Obligation. intros b Hb. apply Hb. Qed.
End bus.

(** ** The accessors *)

(** The result of an operation that must not throw. *)
Definition post {A} (P : A -> Prop) (r : option A) : Prop :=
  match r with Some a => P a | None => False end.

Lemma post_bind {A B} (P : A -> Prop) (Q : B -> Prop) (r : option A) (f : A -> option B) :
  post P r -> (forall a, P a -> post Q (f a)) ->
  post Q (match r with Some a => f a | None => None end).
Proof. intros Hr Hf. destruct r; [by apply Hf|done]. Qed.

Lemma post_mono {A} (P Q : A -> Prop) (r : option A) : post P r -> (forall a, P a -> Q a) -> post Q r.
Proof. destruct r; simpl; auto. Qed.

Section accessors.
Context {S : Type} `{TotalMem S}.

(** An access that answers a value in range and keeps the memory system's invariant. *)
Definition answers {A} (P : A -> Prop) (r : option A * S) : Prop := post P r.1 /\ dt_inv r.2.

Lemma zeros_bytes n : is_bytes (replicate n 0).
Proof. apply Forall_replicate. unfold fits. lia. Qed.

Lemma transport_total p d s :
  dt_inv s -> is_bytes (p_data p) ->
  exists p' d' s', b_transport p d s = (p', d', s') /\ is_response_error p' = false /\ dt_inv s' /\
    length (p_data p') = length (p_data p) /\ is_bytes (p_data p').
Proof.
  intros Hs Hp. pose proof (tm_ok p d s Hs) as Ho. pose proof (dt_keeps p d s Hs Hp) as Hk.
  destruct (b_transport p d s) as [[p' d'] s']. simpl in Ho. exists p', d', s'.
  split; [done|]. split; [unfold is_response_error; by rewrite Ho|done].
Qed.

Lemma readDataMem_total a n s : dt_inv s -> answers (fits 32) (readDataMem a n s).
Proof.
  intros Hs. unfold readDataMem.
  edestruct transport_total as (p & d & s' & E & Er & Hs' & _); [done| |rewrite E].
  - apply zeros_bytes.
  - rewrite Er. split; [|done]. apply wrap_fits. lia.
Qed.

Lemma readDataMem64_total a n s : dt_inv s -> answers (fits 64) (readDataMem64 a n s).
Proof.
  intros Hs. unfold readDataMem64.
  edestruct transport_total as (p & d & s' & E & Er & Hs' & _); [done| |rewrite E].
  - apply zeros_bytes.
  - rewrite Er. split; [|done]. apply wrap_fits. lia.
Qed.

Lemma writeDataMem_total a v n s : dt_inv s -> answers (fun _ => True) (writeDataMem a v n s).
Proof.
  intros Hs. unfold writeDataMem.
  edestruct transport_total as (p & d & s' & E & Er & Hs' & _); [done| |rewrite E].
  - apply le_split_bytes.
  - by rewrite Er.
Qed.

Lemma writeDataMem64_total a v n s : dt_inv s -> answers (fun _ => True) (writeDataMem64 a v n s).
Proof.
  intros Hs. unfold writeDataMem64.
  edestruct transport_total as (p & d & s' & E & Er & Hs' & _); [done| |rewrite E].
  - apply le_split_bytes.
  - by rewrite Er.
Qed.

(** The page walk ends with a translation or a fault, after three levels at most. *)
Definition walk_cause (atype : access_t) (r : ptw_result) : Prop :=
  match r with PtwFault cause _ => cause = fault_cause atype | PtwOk _ _ _ _ _ => True end.

Lemma ptw_loop_total cost va atype pr ms n table cycles s :
  dt_inv s -> answers (walk_cause atype) (ptw_loop cost va atype pr ms n table cycles s).
Proof.
  revert table cycles s. induction n as [|n IH]; intros table cycles s Hs; [done|]. cbn [ptw_loop].
  set (a := u64 (table .<< 12) .| _). destruct (readDataMem64_total a 8 s Hs) as [Hr Hs'].
  destruct (readDataMem64 a 8 s) as [[pte|] s']; [|done]. simpl in Hr, Hs'. cbv zeta.
  destruct (negb (Z.testbit pte 0)); [done|].
  destruct (negb (Z.testbit pte 1) && negb (Z.testbit pte 3)); [by apply IH|].
  destruct ((0 <? Z.of_nat n) && _); [done|]. destruct (negb (check_perm _ _ _ _)); [done|].
  destruct (_ =? pte); [done|].
  match goal with |- context [writeDataMem64 a ?v 8 s'] =>
    destruct (writeDataMem64_total a v 8 s' Hs') as [Hw Hs''];
    destruct (writeDataMem64 a v 8 s') as [[[]|] s''] end; [|done]. done.
Qed.

(** The two TLBs keep their sixteen entries. *)
Definition mmu_wf (m : MMU) : Prop := tlb_wf TLB_SIZE (itlb m) /\ tlb_wf TLB_SIZE (dtlb m).

Lemma mmu_wf_tlb atype m : mmu_wf m -> tlb_wf TLB_SIZE (tlb_of atype m).
Proof. intros [? ?]. by destruct atype. Qed.
Lemma mmu_wf_set_tlb atype t m : mmu_wf m -> tlb_wf TLB_SIZE t -> mmu_wf (set_tlb atype t m).
Proof. intros [? ?] ?. by destruct atype. Qed.
Lemma mmu_wf_count atype m : mmu_wf m -> mmu_wf (count_hit atype m) /\ mmu_wf (count_miss atype m).
Proof. intros [? ?]. by destruct atype. Qed.

Lemma translate_total va csr atype m s :
  dt_inv s -> mmu_wf m ->
  let '(r, m', s') := translate va csr atype m s in
  post (fun r => 0 <= r_fault_cause r < 64) r /\ mmu_wf m' /\ dt_inv s'.
Proof.
  assert (0 <= fault_cause atype < 64) as Hf by (destruct atype; split; by vm_compute).
  intros Hs Hm. unfold translate. cbv zeta. destruct (_ || _); [simpl; split; [lia|done]|].
  pose proof (tlb_lookup_wf TLB_SIZE va (u16 ((satp csr .>> 44) .& 0xFFFF)) _ (mmu_wf_tlb atype m Hm)) as Ht.
  destruct (tlb_lookup va _ _) as [hit t]. simpl in Ht. cbv zeta.
  assert (mmu_wf (set_tlb atype t m)) as Hm1 by (by apply mmu_wf_set_tlb).
  destruct hit as [[[ppn perm] level]|]; [split; [simpl; by case_match|split; [by apply mmu_wf_count|done]]|].
  apply (mmu_wf_count atype) in Hm1 as [_ Hm1]. set (m1 := count_miss _ _) in *.
  match goal with |- context [ptw ?k ?r va atype ?p ?ms s] =>
    destruct (ptw_loop_total k va atype p ms 3 r 0 s Hs) as [Hr Hs'];
    change (ptw_loop k va atype p ms 3 r 0 s) with (ptw k r va atype p ms s) in Hr, Hs';
    destruct (ptw k r va atype p ms s) as [[[ppn perm l g cycles|cause cycles]|] s'] end;
    simpl in Hr, Hs'; [|subst cause; by split_and!|done].
  split_and!; [done..| |done]. apply mmu_wf_set_tlb; [done|]. apply tlb_insert_wf.
  by destruct Hm1; destruct atype.
Qed.

Lemma sfence_vma_wf v1 v2 z1 z2 m : mmu_wf m -> mmu_wf (sfence_vma v1 v2 z1 z2 m).
Proof.
  intros [Hi Hd]. unfold sfence_vma, tlb_wf in *. cbv zeta.
  destruct (z1 && z2), z1, z2; split; unfold tlb_wf; simpl; by rewrite length_fmap.
Qed.

Lemma mmu_flush_all_wf m : mmu_wf m -> mmu_wf (mmu_flush_all m).
Proof. intros [Hi Hd]. split; unfold tlb_wf in *; simpl; by rewrite length_fmap. Qed.

Lemma mmu_new_wf k : mmu_wf (mmu_new k).
Proof. split; by vm_compute. Qed.
End accessors.
