(* ===== verification/CpuC6.v ===== *)
(** [inc/CPU_P64_6_Cycle.h] and the front end of [src/CPU_P64_6_Cycle.cpp]: the state of the
    six-stage RV64 core [CPURV64P6_Cycle], its PC generation, fetch and decode.  The back
    end is in [CpuC6Back.v].

    The core is built on the scoreboard, the store buffer, the CSR file, the MMU and the
    caches of their own files.  The build without the AXI contention model is the one
    modelled.  The debug trace, the [diag_] counters and the printed reports are left out.
    [None] is an error report of the memory interface, which throws. *)
From S2P Require Import Prelude Bytes Memory Regs CExt Scoreboard StoreBuffer Cache CSR MMU CpuP6.
Import RegsH.

(** ** Latches *)

Record C6_Fetch_ID_Latch := mkC6FI {
  f6_pc : Z; f6_instr : Z; f6_valid : bool; f6_is_compressed : bool; f6_pred : prediction
}.

Record C6_ID_Issue_Latch := mkC6II {
  i6_pc : Z; i6_instr : Z;
  i6_rd : Z; i6_rs1 : Z; i6_rs2 : Z;
  i6_imm : Z;                      (* int64_t *)
  i6_opcode : Z; i6_funct3 : Z; i6_funct7 : Z;
  i6_valid : bool; i6_is_compressed : bool; i6_is_illegal : bool; i6_pred : prediction
}.

Record C6_Issue_EX_Latch := mkC6IE {
  e6_pc : Z; e6_instr : Z; e6_rs1_val : Z; e6_rs2_val : Z;
  e6_imm : Z; e6_rd : Z; e6_rs1 : Z; e6_rs2 : Z;
  e6_opcode : Z; e6_funct3 : Z; e6_funct7 : Z;
  e6_rob_index : Z; e6_valid : bool; e6_is_compressed : bool; e6_pred : prediction
}.

Record C6_latches := mkC6Latches {
  c6_pf : PCGen_Fetch_Latch;
  c6_fi : C6_Fetch_ID_Latch;
  c6_ii : C6_ID_Issue_Latch;
  c6_ie : C6_Issue_EX_Latch
}.
Definition no_c6_latches : C6_latches := mkC6Latches
  (mkPF 0 false no_prediction) (mkC6FI 0 0 false false no_prediction)
  (mkC6II 0 0 0 0 0 0 0 0 0 false false false no_prediction)
  (mkC6IE 0 0 0 0 0 0 0 0 0 0 0 (-1) false false no_prediction).

Record FetchQueueEntry := mkFQ { fq_pc : Z; fq_instr : Z; fq_is_compressed : bool; fq_pred : prediction }.
Definition FETCH_QUEUE_CAPACITY : nat := 4.

(** ** Control, prediction, units *)

Record C6_control := mkC6Control {
  c6_next_pc : Z;
  c6_stall_pcgen : bool; c6_stall_fetch : bool; c6_stall_issue : bool; c6_stall_ex : bool;
  c6_flush : bool;                (* [flush_pipeline] *)
  c6_redirect_target : Z;
  c6_redirect_valid : bool;
  taken_redirect_bubble : bool;
  trap_pending : bool;
  pending_csr_write : option Z;   (* [PendingCSRWrite], [None] when not valid *)
  wfi_stall : bool;
  pending_priv_switch : option Z; (* the flag with its epc *)
  load_reservation : option Z;    (* [load_reservation_addr] when valid *)
  prev_cycle_flush : bool         (* a local of [cycle_thread] *)
}.

Record C6_BTBEntry := mkC6BTB {
  c6_btb_target : Z; c6_btb_tag : Z; c6_btb_valid : bool; c6_btb_is_return : bool
}.
#[export] Instance C6_BTBEntry_inhabited : Inhabited C6_BTBEntry := populate (mkC6BTB 0 0 false false).

(** The return address stack has its top, the back of the vector, first. *)
Record C6_predictor := mkC6Predictor { c6_btb : list C6_BTBEntry; c6_bht : list Z; c6_ras : list Z }.

Record FunctionalUnitState := mkFU {
  fu_busy : bool; fu_remaining : Z; fu_result : Z; fu_trans_id : Z; fu_rd : Z
}.
Definition fu_idle : FunctionalUnitState := mkFU false 0 0 (-1) 0.

(** [dcache_miss_fu] has its [dcache_miss_slots_active] slots. *)
Record C6_units := mkUnits {
  mul_fu : FunctionalUnitState;
  div_fu : FunctionalUnitState;
  fpu_pipe : list FunctionalUnitState;
  fpu_divsqrt_fu : FunctionalUnitState;
  dcache_miss_fu : list FunctionalUnitState;
  load_hit_fu : FunctionalUnitState
}.
Definition FPU_SLOTS : nat := 8.

Definition unit_free (l : list FunctionalUnitState) : option (nat * FunctionalUnitState) :=
  list_find (fun f => fu_busy f = false) l.
Definition fpu_pipe_full (u : C6_units) : bool := forallb fu_busy (fpu_pipe u).
Definition fpu_any_busy (u : C6_units) : bool :=
  existsb fu_busy (fpu_pipe u) || fu_busy (fpu_divsqrt_fu u).
Definition dcache_miss_fu_full (u : C6_units) : bool := forallb fu_busy (dcache_miss_fu u).
Definition dcache_miss_fu_any_busy (u : C6_units) : bool := existsb fu_busy (dcache_miss_fu u).

(** The slot for a miss: 0 if none is free. *)
Definition dcache_miss_free_slot (u : C6_units) : nat :=
  match unit_free (dcache_miss_fu u) with Some (i, _) => i | None => 0%nat end.

Record C6_config := mkConfig {
  icache_miss_penalty : Z; dcache_miss_penalty : Z;
  store_write_penalty : Z; load_hit_penalty : Z; load_addr_penalty : Z
}.
Definition c6_default : C6_config := mkConfig 7 10 0 1 2.

(** The counters of [Stats]. *)
Inductive C6_counter :=
  | st_cycles | st_instructions | st_stalls | st_branches | st_branch_mispredicts | st_flushes
  | st_forwarded_reads | st_load_store_forwards | st_mul_stall_cycles | st_div_stall_cycles
  | st_icache_misses | st_icache_miss_cycles | st_dcache_misses | st_dcache_miss_cycles
  | st_load_use_stall_cycles | st_itlb_miss_cycles | st_dtlb_miss_cycles
  | st_m_instrs | st_s_instrs | st_u_instrs | st_dual_commits | st_load_addr_events.
#[export] Instance C6_counter_eq_dec : EqDecision C6_counter.
Proof. solve_decision. Defined.

Record C6_cpu (S : Type) := mkC6 {
  c6_core : hart S;               (* [register_bank], [mem_intf] *)
  c6_fp : list Z;                 (* [f_regs] of the register bank *)
  c6_csr : CSR_File;
  c6_mmu : MMU;
  c6_icache : Cache;
  c6_dcache : Cache;
  c6_reg : C6_latches;
  c6_next : C6_latches;
  c6_ctl : C6_control;
  c6_pred : C6_predictor;
  c6_sb : Scoreboard;
  c6_stb : StoreBuffer;
  c6_units : C6_units;
  fetch_queue : list FetchQueueEntry;
  icache_miss_remaining : Z;
  store_drain_remaining : Z;
  reg_load_tainted : Z;           (* uint32_t *)
  load_addr_extra : Z;
  commit_count_this_cycle : Z;
  pc_current : Z;
  c6_stats : C6_counter -> Z;
  c6_cfg : C6_config;
  c6_dmi : option (Z * Z);
  c6_out : list (Z * Z);          (* [fputc]: 1 is stdout, 2 is stderr *)
  c6_interrupt : option Z;        (* [interrupt] with [int_cause] *)
  c6_stopped : bool
}.
Arguments mkC6 {S} _ _ _ _ _ _ _ _ _ _ _ _ _ _ _ _ _ _ _ _ _ _ _ _ _ _.
Arguments c6_core {S} _.
Arguments c6_fp {S} _.
Arguments c6_csr {S} _.
Arguments c6_mmu {S} _.
Arguments c6_icache {S} _.
Arguments c6_dcache {S} _.
Arguments c6_reg {S} _.
Arguments c6_next {S} _.
Arguments c6_ctl {S} _.
Arguments c6_pred {S} _.
Arguments c6_sb {S} _.
Arguments c6_stb {S} _.
Arguments c6_units {S} _.
Arguments fetch_queue {S} _.
Arguments icache_miss_remaining {S} _.
Arguments store_drain_remaining {S} _.
Arguments reg_load_tainted {S} _.
Arguments load_addr_extra {S} _.
Arguments commit_count_this_cycle {S} _.
Arguments pc_current {S} _.
Arguments c6_stats {S} _.
Arguments c6_cfg {S} _.
Arguments c6_dmi {S} _.
Arguments c6_out {S} _.
Arguments c6_interrupt {S} _.
Arguments c6_stopped {S} _.

(** [Scoreboard<32>], [StoreBuffer<4, 4>], [Cache<256, 4, 16>] and [Cache<256, 8, 16>]. *)
Definition C6_SIZE : nat := 32.
Definition C6_SPEC : nat := 4.
Definition C6_COMMIT : nat := 4.
Definition icache_access (addr : Z) (c : Cache) : bool * Cache := access 256 4 16 addr c.
Definition dcache_access (addr : Z) (c : Cache) : bool * Cache := access 256 8 16 addr c.

Definition c6_btb_index (pc : Z) : nat := Z.to_nat ((pc .>> 2) mod 32).
Definition c6_bht_index (pc : Z) : nat := Z.to_nat ((pc .>> 2) mod 128).

(** ** Prediction *)

Definition c6_predict (current_pc : Z) (p : C6_predictor) : bool * Z * C6_predictor :=
  let e := c6_btb p !!! c6_btb_index current_pc in
  if c6_btb_valid e && (c6_btb_tag e =? current_pc) then
    if c6_btb_is_return e then
      match c6_ras p with
      | t :: ras' => (true, t, { p with c6_ras := ras' })
      | [] => (false, 0, p)
      end
    else if 2 <=? c6_bht p !!! c6_bht_index current_pc then (true, c6_btb_target e, p)
    else (false, 0, p)
  else (false, 0, p).

(** ** Decode: the pure part of [ID_stage] *)

(** The fields of a latch that one case of the decoder assigns. *)
Definition i6_set (op f3 rd rs1 rs2 imm : Z) (l : C6_ID_Issue_Latch) : C6_ID_Issue_Latch :=
  { l with i6_opcode := op; i6_funct3 := f3; i6_rd := rd; i6_rs1 := rs1; i6_rs2 := rs2; i6_imm := imm }.
(** The cases that leave [funct3] as it was. *)
Definition i6_set_no_f3 (op rd rs1 rs2 imm : Z) (l : C6_ID_Issue_Latch) : C6_ID_Issue_Latch :=
  { l with i6_opcode := op; i6_rd := rd; i6_rs1 := rs1; i6_rs2 := rs2; i6_imm := imm }.
(** The cases that leave [imm] as it was and set [funct7]. *)
Definition i6_set_r (op f3 f7 rd rs1 rs2 : Z) (l : C6_ID_Issue_Latch) : C6_ID_Issue_Latch :=
  { l with i6_opcode := op; i6_funct3 := f3; i6_funct7 := f7; i6_rd := rd; i6_rs1 := rs1; i6_rs2 := rs2 }.

Definition c6_shamt (ci : Z) : Z := (((ci .>> 12) .& 1) .<< 5) .| ((ci .>> 2) .& 0x1F).

(** The expansion of the compressed instruction [ci]; [None] is an illegal one. *)
Definition c6_expand (ci : Z) (l : C6_ID_Issue_Latch) : option C6_ID_Issue_Latch :=
  let rdp := get_rdp ci in
  let rs1 := c_get_rs1 ci in
  let rs1p := get_rs1p ci in
  let rs2 := c_get_rs2 ci in
  let rs2p := get_rs2p ci in
  match c_decode 64 ci with
  | OP_C_ADDI4SPN =>
      let imm := get_imm_ADDI4SPN ci in
      if imm =? 0 then None else Some (i6_set 0x13 0 rdp 2 0 imm l)
  | OP_C_LW => Some (i6_set 0x03 2 rdp rs1p 0 (get_imm_L ci) l)
  | OP_C_LD => Some (i6_set 0x03 3 rdp rs1p 0 (get_imm_CL ci) l)
  | OP_C_SW => Some (i6_set 0x23 2 0 rs1p rs2p (get_imm_L ci) l)
  | OP_C_SD => Some (i6_set 0x23 3 0 rs1p rs2p (get_imm_CL ci) l)
  | OP_C_FLD => Some (i6_set 0x07 3 rdp rs1p 0 (get_imm_CL ci) l)
  | OP_C_FSD => Some (i6_set 0x27 3 0 rs1p rs2p (get_imm_CL ci) l)
  | OP_C_NOP => Some (i6_set 0x13 0 0 0 0 0 l)
  | OP_C_ADDI => Some (i6_set 0x13 0 rs1 rs1 0 (get_imm_ADDI ci) l)
  | OP_C_ADDIW => Some (i6_set 0x1B 0 rs1 rs1 0 (get_imm_ADDI ci) l)
  | OP_C_LI => Some (i6_set 0x13 0 rs1 0 0 (get_imm_ADDI ci) l)
  | OP_C_ADDI16SP =>
      let rd_f := (ci .>> 7) .& 0x1F in
      if rd_f =? 2 then Some (i6_set 0x13 0 2 2 0 (s32 (get_imm_ADDI16SP ci)) l)
      else Some (i6_set_no_f3 0x37 rd_f 0 0 (get_imm_LUI ci) l)
  | OP_C_SRLI => Some (i6_set 0x13 5 rs1p rs1p 0 (c6_shamt ci) l)
  | OP_C_SRAI => Some (i6_set 0x13 5 rs1p rs1p 0 (c6_shamt ci .| 0x400) l)
  | OP_C_ANDI => Some (i6_set 0x13 7 rs1p rs1p 0 (get_imm_ADDI ci) l)
  | OP_C_SUB => Some (i6_set_r 0x33 0 0x20 rs1p rs1p rs2p l)
  | OP_C_XOR => Some (i6_set_r 0x33 4 0 rs1p rs1p rs2p l)
  | OP_C_OR => Some (i6_set_r 0x33 6 0 rs1p rs1p rs2p l)
  | OP_C_AND => Some (i6_set_r 0x33 7 0 rs1p rs1p rs2p l)
  | OP_C_SUBW => Some (i6_set_r 0x3B 0 0x20 rs1p rs1p rs2p l)
  | OP_C_ADDW => Some (i6_set_r 0x3B 0 0 rs1p rs1p rs2p l)
  | OP_C_J => Some (i6_set_no_f3 0x6F 0 0 0 (c_get_imm_J ci) l)
  | OP_C_BEQZ => Some (i6_set 0x63 0 0 rs1p 0 (s32 (get_imm_CB ci)) l)
  | OP_C_BNEZ => Some (i6_set 0x63 1 0 rs1p 0 (s32 (get_imm_CB ci)) l)
  | OP_C_SLLI => Some (i6_set 0x13 1 rs1 rs1 0 (c6_shamt ci) l)
  | OP_C_LWSP => Some (i6_set 0x03 2 rs1 2 0 (get_imm_LWSP ci) l)
  | OP_C_LDSP => Some (i6_set 0x03 3 rs1 2 0 (get_imm_LDSP ci) l)
  | OP_C_JR => Some (i6_set 0x67 0 0 rs1 0 0 l)
  | OP_C_MV => Some (i6_set_r 0x33 0 0 rs1 0 rs2 l)
  | OP_C_EBREAK => Some (i6_set 0x73 0 0 0 0 1 l)
  | OP_C_JALR => Some (i6_set 0x67 0 1 rs1 0 0 l)
  | OP_C_ADD => Some (i6_set_r 0x33 0 0 rs1 rs1 rs2 l)
  | OP_C_SWSP => Some (i6_set 0x23 2 0 2 rs2 (get_imm_CSS ci) l)
  | OP_C_SDSP => Some (i6_set 0x23 3 0 2 rs2 (get_imm_CSDSP ci) l)
  | OP_C_FLDSP => Some (i6_set 0x07 3 rs1 2 0 (get_imm_LDSP ci) l)
  | OP_C_FSDSP => Some (i6_set 0x27 3 0 2 rs2 (get_imm_CSDSP ci) l)
  | _ => None
  end.

Definition c6_imm (opcode instr : Z) : Z :=
  if (opcode =? 0x13) || (opcode =? 0x1B) || (opcode =? 0x03) || (opcode =? 0x07) || (opcode =? 0x67)
  then s32 instr .>> 20
  else if (opcode =? 0x23) || (opcode =? 0x27) then
    sext 20 (((instr .>> 25) .<< 5) .| ((instr .>> 7) .& 0x1F))
  else if opcode =? 0x63 then
    sext 19 (((instr .>> 31) .<< 12) .| (((instr .>> 7) .& 1) .<< 11) .|
             (((instr .>> 25) .& 0x3F) .<< 5) .| (((instr .>> 8) .& 0xF) .<< 1))
  else if (opcode =? 0x37) || (opcode =? 0x17) then s32 (instr .& 0xFFFFF000)
  else if opcode =? 0x6F then
    sext 11 (((instr .>> 31) .<< 20) .| (((instr .>> 12) .& 0xFF) .<< 12) .|
             (((instr .>> 20) .& 1) .<< 11) .| (((instr .>> 21) .& 0x3FF) .<< 1))
  else if opcode =? 0x73 then s32 instr .>> 20
  else 0.

(** The decode of a 32-bit instruction. *)
Definition c6_decode (instr : Z) (l : C6_ID_Issue_Latch) : C6_ID_Issue_Latch :=
  let opcode := instr .& 0x7F in
  let rs1 := (instr .>> 15) .& 0x1F in
  let rs2 := (instr .>> 20) .& 0x1F in
  let none := (opcode =? 0x37) || (opcode =? 0x17) || (opcode =? 0x6F) in
  let sfence := (((instr .>> 25) .& 0x7F) =? 0x09) && (((instr .>> 12) .& 0x7) =? 0) in
  let one := (opcode =? 0x13) || (opcode =? 0x1B) || (opcode =? 0x03) || (opcode =? 0x07) ||
             (opcode =? 0x67) || ((opcode =? 0x73) && negb sfence) in
  let rs1 := if none then 0 else rs1 in
  let rd := if (opcode =? 0x23) || (opcode =? 0x27) || (opcode =? 0x63) then 0 else (instr .>> 7) .& 0x1F in
  let jump := (opcode =? 0x6F) || (opcode =? 0x67) in
  let is_call := (rd =? 1) || (rd =? 5) in
  let is_ret := (opcode =? 0x67) && ((rs1 =? 1) || (rs1 =? 5)) && negb (rs1 =? rd) in
  { l with i6_is_compressed := false; i6_opcode := opcode; i6_funct3 := (instr .>> 12) .& 0x7;
           i6_rs1 := rs1; i6_rs2 := if none || one then 0 else rs2;
           i6_funct7 := (instr .>> 25) .& 0x7F; i6_rd := rd; i6_imm := c6_imm opcode instr;
           i6_valid := true;
           i6_pred := { i6_pred l with is_ras_call := jump && is_call; is_ras_return := jump && is_ret } }.

(** What the stage assigns before it looks at the instruction. *)
Definition c6_decode_start (fi : C6_Fetch_ID_Latch) (l : C6_ID_Issue_Latch) : C6_ID_Issue_Latch :=
  { l with i6_pc := f6_pc fi; i6_instr := f6_instr fi; i6_funct7 := 0; i6_imm := 0; i6_is_illegal := false;
           i6_pred := {| predicted_taken := predicted_taken (f6_pred fi);
                         predicted_target := predicted_target (f6_pred fi);
                         is_ras_call := false; is_ras_return := false |} }.

(** The latch after [fi], when [l] is what the latch held before. *)
Definition c6_id_decode (fi : C6_Fetch_ID_Latch) (l : C6_ID_Issue_Latch) : C6_ID_Issue_Latch :=
  let l := c6_decode_start fi l in
  if f6_is_compressed fi then
    let l := { l with i6_is_compressed := true } in
    match c6_expand (f6_instr fi .& 0xFFFF) l with
    | Some l => { l with i6_valid := true }
    | None => { l with i6_is_illegal := true; i6_valid := true }
    end
  else c6_decode (f6_instr fi) l.

(** ** The front-end stages *)

Section front.
Context {S : Type} `{Target S, DirectMem S}.
#[local] Abbreviation cpu := (C6_cpu S).

Definition bump (k : C6_counter) (n : Z) (c : cpu) : cpu :=
  { c with c6_stats := fun j => if decide (j = k) then u64 (c6_stats c j + n) else c6_stats c j }.

Definition set_pf (l : PCGen_Fetch_Latch) (c : cpu) : cpu :=
  { c with c6_next := { c6_next c with c6_pf := l } }.
Definition set_fi (l : C6_Fetch_ID_Latch) (c : cpu) : cpu :=
  { c with c6_next := { c6_next c with c6_fi := l } }.
Definition set_ii (l : C6_ID_Issue_Latch) (c : cpu) : cpu :=
  { c with c6_next := { c6_next c with c6_ii := l } }.
Definition set_ie (l : C6_Issue_EX_Latch) (c : cpu) : cpu :=
  { c with c6_next := { c6_next c with c6_ie := l } }.

(** [latch.valid = false]. *)
Definition no_pf (c : cpu) : cpu := set_pf { c6_pf (c6_next c) with pf_valid := false } c.
Definition no_fi (c : cpu) : cpu := set_fi { c6_fi (c6_next c) with f6_valid := false } c.
Definition no_ii (c : cpu) : cpu := set_ii { c6_ii (c6_next c) with i6_valid := false } c.
Definition no_ie (c : cpu) : cpu := set_ie { c6_ie (c6_next c) with e6_valid := false } c.

(** The redirection of the front end. *)
Definition c6_redirect (target : Z) (c : cpu) : cpu :=
  { c with c6_ctl := { c6_ctl c with c6_redirect_target := target; c6_redirect_valid := true;
                                      c6_flush := true } }.

(** An exception: the trap is taken by the CSR file and the front end redirected. *)
Definition c6_exception (cause epc tval : Z) (c : cpu) : cpu :=
  let '(tvec, csr) := take_exception cause epc tval (c6_csr c) in
  c6_redirect tvec { c with c6_csr := csr; c6_ctl := { c6_ctl c with trap_pending := true } }.

Definition C6_PCGen_stage (c : cpu) : cpu :=
  let k := c6_ctl c in
  if c6_flush k then
    no_ie (no_ii (no_fi (no_pf
      { c with fetch_queue := [];
               c6_ctl := { k with c6_next_pc := c6_redirect_target k; c6_flush := false;
                                  c6_redirect_valid := false; trap_pending := false;
                                  taken_redirect_bubble := false } })))
  else if wfi_stall k then
    no_pf { c with c6_ctl := { k with c6_stall_fetch := true; c6_stall_pcgen := true } }
  else if (FETCH_QUEUE_CAPACITY <=? length (fetch_queue c))%nat then
    { c with c6_ctl := { k with c6_stall_pcgen := true } }
  else if c6_stall_pcgen k then c
  else if taken_redirect_bubble k then
    bump st_stalls 1 (no_pf { c with c6_ctl := { k with taken_redirect_bubble := false } })
  else
    let current_pc := c6_next_pc k in
    let '(predict_taken, pt_target, p) := c6_predict current_pc (c6_pred c) in
    set_pf
      {| pf_pc := current_pc; pf_valid := true;
         pf_pred := { pf_pred (c6_pf (c6_next c)) with predicted_taken := predict_taken;
                                                       predicted_target := pt_target } |}
      { c with c6_pred := p;
               c6_ctl := if predict_taken
                         then { k with c6_next_pc := pt_target; taken_redirect_bubble := true }
                         else { k with c6_next_pc := u64 (current_pc + 4) } }.

(** The word, if the bus answers, and the core with the window that was granted. *)
Definition C6_fetch_instruction (addr : Z) (c : cpu) : option (option Z * cpu) :=
  let bus :=
    let '(trans, _, s) :=
      b_transport (mkPayload TLM_READ addr (le_split 4 0) false TLM_INCOMPLETE false) 0
        (mem_intf (c6_core c)) in
    let c := { c with c6_core := { c6_core c with mem_intf := s } } in
    if is_response_error trans then Some (None, c)
    else
      let c := if p_dmi_allowed trans && get_direct_mem_ptr s
               then { c with c6_dmi := Some dmi_window } else c in
      Some (Some (le_combine (p_data trans)), c) in
  match c6_dmi c with
  | Some (dmi_start_addr, dmi_end_addr) =>
      if (dmi_start_addr <=? addr) && (u64 (addr + 4) <=? dmi_end_addr) then
        match direct_read (addr - dmi_start_addr) 4 (mem_intf (c6_core c)) with
        | Some data => Some (Some (le_combine data), c)
        | None => None
        end
      else bus
  | None => bus
  end.

(** [mmu->translate]. *)
Definition c6_translate (vaddr : Z) (atype : access_t) (c : cpu) : option (Result * cpu) :=
  match translate vaddr (c6_csr c) atype (c6_mmu c) (mem_intf (c6_core c)) with
  | (Some r, m, s) => Some (r, { c with c6_mmu := m; c6_core := { c6_core c with mem_intf := s } })
  | (None, _, _) => None
  end.

(** The delivery of the word that was fetched, through the cache. *)
Definition c6_deliver (current_pc instr : Z) (c : cpu) : cpu :=
  let '(hit, ic) := icache_access current_pc (c6_icache c) in
  let c := { c with c6_icache := ic } in
  if negb hit then
    no_fi (bump st_icache_miss_cycles 1 (bump st_icache_misses 1
      { c with icache_miss_remaining := icache_miss_penalty (c6_cfg c) - 1;
               c6_ctl := { c6_ctl c with c6_stall_pcgen := true } }))
  else
    let pf := c6_pf (c6_reg c) in
    let is_c := negb ((instr .& 0x3) =? 0x3) in
    let c := set_fi
      {| f6_pc := current_pc; f6_instr := instr; f6_valid := true; f6_is_compressed := is_c;
         f6_pred := { f6_pred (c6_fi (c6_next c)) with
                        predicted_taken := predicted_taken (pf_pred pf);
                        predicted_target := predicted_target (pf_pred pf) } |} c in
    if is_c && negb (predicted_taken (pf_pred pf))
    then { c with c6_ctl := { c6_ctl c with c6_next_pc := u64 (c6_next_pc (c6_ctl c) - 2) } }
    else c.

Definition C6_Fetch_stage (c : cpu) : option cpu :=
  let pf := c6_pf (c6_reg c) in
  if c6_flush (c6_ctl c) then Some (no_fi { c with icache_miss_remaining := 0 })
  else if (FETCH_QUEUE_CAPACITY <=? length (fetch_queue c))%nat then
    Some { c with c6_ctl := { c6_ctl c with c6_stall_fetch := true } }
  else if c6_stall_fetch (c6_ctl c) then Some c
  else if negb (pf_valid pf) then Some (no_fi c)
  else if 0 <? icache_miss_remaining c then
    Some (no_fi (bump st_icache_miss_cycles 1
      { c with icache_miss_remaining := icache_miss_remaining c - 1;
               c6_ctl := { c6_ctl c with c6_stall_pcgen := true } }))
  else
    let current_pc := pf_pc pf in
    match c6_translate current_pc FETCH c with
    | None => None
    | Some (tr, c) =>
      if r_fault tr then
        Some (no_fi (c6_exception (r_fault_cause tr) current_pc current_pc c))
      else if 0 <? r_stall_cycles tr then
        Some (no_fi (bump st_itlb_miss_cycles (r_stall_cycles tr)
          { c with icache_miss_remaining := icache_miss_remaining c + r_stall_cycles tr;
                   c6_ctl := { c6_ctl c with c6_stall_pcgen := true } }))
      else if negb (pmp_check (r_paddr tr) 4 false true (c6_csr c)) then
        Some (no_fi (c6_exception CAUSE_INSTR_ACCESS current_pc current_pc c))
      else
        match C6_fetch_instruction (r_paddr tr) c with
        | None => None
        | Some (None, c) =>
            Some (set_fi { c6_fi (c6_next c) with f6_valid := false; f6_is_compressed := false } c)
        | Some (Some instr, c) => Some (c6_deliver current_pc instr c)
        end
    end.

Definition C6_ID_stage (c : cpu) : cpu :=
  let fi := c6_fi (c6_reg c) in
  if c6_flush (c6_ctl c) then no_ii c
  else if c6_stall_issue (c6_ctl c) then c
  else if negb (f6_valid fi) then no_ii c
  else
    let l := c6_id_decode fi (c6_ii (c6_next c)) in
    let c := set_ii l c in
    if negb (i6_is_illegal l) && negb (is_branch_op (i6_opcode l)) && predicted_taken (f6_pred fi) then
      bump st_branch_mispredicts 1 (bump st_flushes 1
        (c6_redirect (u64 (f6_pc fi + if f6_is_compressed fi then 2 else 4)) c))
    else c.
End front.
