(* ===== verification/CpuC6Back.v ===== *)
(** [src/CPU_P64_6_Cycle.cpp]: the pure parts of the back end of the six-stage RV64 core,
    what the stages share, and the issue stage.  Execution, commit and the cycle are in
    [CpuC6Ex.v]. *)
From S2P Require Import Prelude Bytes Memory Regs CExt Scoreboard StoreBuffer Cache CSR MMU CpuP6 CpuC6.
Import RegsH.

(** ** Pure parts *)

(** The unit of an instruction. *)
Definition c6_unit (l : C6_ID_Issue_Latch) : FunctionalUnit :=
  let op := i6_opcode l in
  if (op =? 0x03) || (op =? 0x23) || (op =? 0x2F) then FU_LSU
  else if is_branch_op op then FU_BRANCH
  else if op =? 0x73 then FU_CSR
  else if (op =? 0x07) || (op =? 0x27) || (op =? 0x43) || (op =? 0x47) || (op =? 0x4B) ||
          (op =? 0x4F) || (op =? 0x53) then FU_FPU
  else if (i6_funct7 l =? 0x01) && ((op =? 0x33) || (op =? 0x3B)) then
    if 4 <=? i6_funct3 l then FU_DIV else FU_MUL
  else FU_ALU.

Definition is_fpu (u : FunctionalUnit) : bool := bool_decide (u = FU_FPU).

(** [funct7] of the operations that move a result to an integer register, and of those
    that take their operand from one. *)
Definition fp_to_int (f7 : Z) : bool :=
  (f7 =? 0x50) || (f7 =? 0x51) || (f7 =? 0x60) || (f7 =? 0x61) || (f7 =? 0x70) || (f7 =? 0x71).
Definition fp_from_int (f7 : Z) : bool :=
  (f7 =? 0x68) || (f7 =? 0x69) || (f7 =? 0x78) || (f7 =? 0x79).

Definition writes_to_int_reg (l : C6_ID_Issue_Latch) : bool :=
  negb (is_fpu (c6_unit l)) || ((i6_opcode l =? 0x53) && fp_to_int (i6_funct7 l)).
Definition writes_to_fp_reg (l : C6_ID_Issue_Latch) : bool :=
  is_fpu (c6_unit l) && negb (writes_to_int_reg l).
Definition reads_rs1_as_int (l : C6_ID_Issue_Latch) : bool :=
  negb (is_fpu (c6_unit l)) || (i6_opcode l =? 0x07) || (i6_opcode l =? 0x27) ||
  ((i6_opcode l =? 0x53) && fp_from_int (i6_funct7 l)).
Definition reads_rs2_as_int (l : C6_ID_Issue_Latch) : bool := negb (is_fpu (c6_unit l)).
Definition reads_rs3 (l : C6_ID_Issue_Latch) : bool :=
  (i6_opcode l =? 0x43) || (i6_opcode l =? 0x47) || (i6_opcode l =? 0x4B) || (i6_opcode l =? 0x4F).

Definition is_alu_op (op : Z) : bool := (op =? 0x33) || (op =? 0x3B) || (op =? 0x13) || (op =? 0x1B).

(** The shift in EX whose result is one cycle late for all but the logical operations. *)
Definition shift_bubble (ii : C6_ID_Issue_Latch) (ie : C6_Issue_EX_Latch) : bool :=
  let f3 := (e6_instr ie .>> 12) .& 0x7 in
  e6_valid ie && is_alu_op (e6_instr ie .& 0x7F) && ((f3 =? 1) || (f3 =? 5)) &&
  negb (e6_rd ie =? 0) &&
  (((i6_rs1 ii =? e6_rd ie) && reads_rs1_as_int ii) || ((i6_rs2 ii =? e6_rd ie) && reads_rs2_as_int ii)) &&
  negb (is_alu_op (i6_opcode ii) &&
        ((i6_funct3 ii =? 4) || (i6_funct3 ii =? 6) || (i6_funct3 ii =? 7))).

(** [pending_csr_write] against the instruction: its CSR, or an FPU CSR. *)
Definition csr_hazard (ii : C6_ID_Issue_Latch) (pending : option Z) : bool :=
  match pending with
  | None => false
  | Some a =>
      ((i6_opcode ii =? 0x73) && negb (i6_funct3 ii =? 0) && (a =? u16 (i6_instr ii .>> 20))) ||
      (is_fpu (c6_unit ii) && ((a =? 1) || (a =? 2) || (a =? 3)))
  end.

Definition clz64 (val : Z) : Z :=
  let step '(n, v) '(mask, k) := if (v .& mask) =? 0 then (n + k, u64 (v .<< k)) else (n, v) in
  if val =? 0 then 64
  else fst (foldl step (0, val)
    [(0xFFFFFFFF00000000, 32); (0xFFFF000000000000, 16); (0xFF00000000000000, 8);
     (0xF000000000000000, 4); (0xC000000000000000, 2); (0x8000000000000000, 1)]).

(** The cycles of the divider. *)
Definition div_cycles (is_signed : bool) (A B : Z) : Z :=
  let op_a_sign := is_signed && (s64 A <? 0) in
  let op_b_sign := is_signed && (s64 B <? 0) in
  let lzc_a_input := if op_a_sign then u64 (Z.lnot A + 1) else A in
  let lzc_b_input := if op_b_sign then u64 (Z.lnot B) else B in
  let shift_a := if lzc_a_input =? 0 then 64 else clz64 lzc_a_input in
  let div_shift := clz64 lzc_b_input - shift_a in
  let op_b_zero := (lzc_b_input =? 0) && negb op_b_sign in
  let op_b_neg_one := (lzc_b_input =? 0) && op_b_sign in
  if (div_shift <? 0) || op_b_zero || op_b_neg_one then 1 else div_shift + 6.

Definition c6_mul (f3 u1 u2 : Z) : Z :=
  let s1 := s64 u1 in
  let s2 := s64 u2 in
  if f3 =? 0 then u64 (s1 * s2)
  else if f3 =? 1 then u64 ((s1 * s2) .>> 64)
  else if f3 =? 2 then u64 (wrap 128 (s1 * u2) .>> 64)
  else if f3 =? 3 then u64 ((u1 * u2) .>> 64)
  else if f3 =? 4 then
    if s2 =? 0 then u64 (-1) else if (s1 =? - 2 ^ 63) && (s2 =? -1) then u64 s1 else u64 (Z.quot s1 s2)
  else if f3 =? 5 then if u2 =? 0 then 2 ^ 64 - 1 else u1 / u2
  else if f3 =? 6 then
    if s2 =? 0 then u64 s1 else if (s1 =? - 2 ^ 63) && (s2 =? -1) then 0 else u64 (Z.rem s1 s2)
  else if u2 =? 0 then u1 else u1 mod u2.

Definition c6_mulw (f3 a b : Z) : Z :=
  let ws1 := s32 a in
  let ws2 := s32 b in
  let wu1 := u32 a in
  let wu2 := u32 b in
  u64 (if f3 =? 0 then s32 (ws1 * ws2)
       else if f3 =? 4 then
         if ws2 =? 0 then -1 else if (ws1 =? - 2 ^ 31) && (ws2 =? -1) then ws1 else Z.quot ws1 ws2
       else if f3 =? 5 then if wu2 =? 0 then -1 else s32 (wu1 / wu2)
       else if f3 =? 6 then
         if ws2 =? 0 then ws1 else if (ws1 =? - 2 ^ 31) && (ws2 =? -1) then 0 else Z.rem ws1 ws2
       else if f3 =? 7 then if wu2 =? 0 then s32 wu1 else s32 (wu1 mod wu2)
       else 0).

(** The instruction of the M extension in the latch: its result and its cycles. *)
Definition is_m (l : C6_Issue_EX_Latch) : bool :=
  (e6_funct7 l =? 0x01) && ((e6_opcode l =? 0x33) || (e6_opcode l =? 0x3B)).
Definition m_result (l : C6_Issue_EX_Latch) : Z :=
  if e6_opcode l =? 0x33 then c6_mul (e6_funct3 l) (e6_rs1_val l) (e6_rs2_val l)
  else c6_mulw (e6_funct3 l) (e6_rs1_val l) (e6_rs2_val l).
Definition m_cycles (l : C6_Issue_EX_Latch) : Z :=
  let is_signed := (e6_funct3 l =? 4) || (e6_funct3 l =? 6) in
  let A := e6_rs1_val l in
  let B := e6_rs2_val l in
  if e6_opcode l =? 0x33 then div_cycles is_signed A B
  else if is_signed then div_cycles true (u64 (s32 A)) (u64 (s32 B))
  else div_cycles false (u32 A) (u32 B).

Definition c6_op (l : C6_Issue_EX_Latch) : Z :=
  let a := e6_rs1_val l in
  let b := e6_rs2_val l in
  let f3 := e6_funct3 l in
  if f3 =? 0 then if e6_funct7 l =? 0x20 then u64 (a - b) else u64 (a + b)
  else if f3 =? 1 then u64 (a .<< (b .& 0x3F))
  else if f3 =? 2 then Z.b2z (s64 a <? s64 b)
  else if f3 =? 3 then Z.b2z (a <? b)
  else if f3 =? 4 then a .^ b
  else if f3 =? 5 then
    if e6_funct7 l =? 0x20 then u64 (s64 a .>> (b .& 0x3F)) else a .>> (b .& 0x3F)
  else if f3 =? 6 then a .| b
  else if f3 =? 7 then a .& b
  else 0.

Definition c6_op_imm (l : C6_Issue_EX_Latch) : Z :=
  let a := e6_rs1_val l in
  let imm := e6_imm l in
  let f3 := e6_funct3 l in
  if f3 =? 0 then u64 (a + imm)
  else if f3 =? 2 then Z.b2z (s64 a <? imm)
  else if f3 =? 3 then Z.b2z (a <? u64 imm)
  else if f3 =? 4 then a .^ u64 imm
  else if f3 =? 6 then a .| u64 imm
  else if f3 =? 7 then a .& u64 imm
  else if f3 =? 1 then u64 (a .<< (imm .& 0x3F))
  else if f3 =? 5 then
    if negb ((imm .& 0x400) =? 0) then u64 (s64 a .>> (imm .& 0x3F)) else a .>> (imm .& 0x3F)
  else 0.

Definition c6_op_imm_32 (l : C6_Issue_EX_Latch) : Z :=
  let a := e6_rs1_val l in
  let imm := e6_imm l in
  let f3 := e6_funct3 l in
  if f3 =? 0 then u64 (s32 (s32 a + s32 imm))
  else if f3 =? 1 then u64 (s32 (u32 (u32 a .<< (imm .& 0x1F))))
  else if f3 =? 5 then
    if e6_funct7 l =? 0x20 then u64 (s32 a .>> (imm .& 0x1F)) else u64 (s32 (u32 a .>> (imm .& 0x1F)))
  else 0.

Definition c6_op_32 (l : C6_Issue_EX_Latch) : Z :=
  let a := s32 (e6_rs1_val l) in
  let b := s32 (e6_rs2_val l) in
  let ua := u32 (e6_rs1_val l) in
  let shamt := u32 (e6_rs2_val l) .& 0x1F in
  let f3 := e6_funct3 l in
  if f3 =? 0 then u64 (s32 (if e6_funct7 l =? 0x20 then a - b else a + b))
  else if f3 =? 1 then u64 (s32 (u32 (ua .<< shamt)))
  else if f3 =? 5 then if e6_funct7 l =? 0x20 then u64 (a .>> shamt) else u64 (s32 (ua .>> shamt))
  else 0.

Definition c6_branch_taken (l : C6_Issue_EX_Latch) : bool :=
  let a := e6_rs1_val l in
  let b := e6_rs2_val l in
  let f3 := e6_funct3 l in
  if f3 =? 0 then a =? b
  else if f3 =? 1 then negb (a =? b)
  else if f3 =? 4 then s64 a <? s64 b
  else if f3 =? 5 then s64 b <=? s64 a
  else if f3 =? 6 then a <? b
  else if f3 =? 7 then b <=? a
  else false.

Definition e6_len (l : C6_Issue_EX_Latch) : Z := if e6_is_compressed l then 2 else 4.

(** [result], [branch_taken] and [branch_target] after the switch on the opcode. *)
Definition c6_switch (l : C6_Issue_EX_Latch) : Z * bool * Z :=
  let op := e6_opcode l in
  if op =? 0x33 then (if is_m l then 0 else c6_op l, false, 0)
  else if op =? 0x13 then (c6_op_imm l, false, 0)
  else if op =? 0x37 then (u64 (e6_imm l), false, 0)
  else if op =? 0x17 then (u64 (e6_pc l + e6_imm l), false, 0)
  else if op =? 0x1B then (c6_op_imm_32 l, false, 0)
  else if op =? 0x3B then (if is_m l then 0 else c6_op_32 l, false, 0)
  else if op =? 0x6F then (u64 (e6_pc l + e6_len l), true, u64 (e6_pc l + e6_imm l))
  else if op =? 0x67 then (u64 (e6_pc l + e6_len l), true, u64 (e6_rs1_val l + e6_imm l) .&~ 1)
  else if op =? 0x63 then (0, c6_branch_taken l, u64 (e6_pc l + e6_imm l))
  else (0, false, 0).

(** The training of the predictor by a branch or jump. *)
Definition c6_train (l : C6_Issue_EX_Latch) (branch_taken : bool) (branch_target : Z)
    (p : C6_predictor) : C6_predictor :=
  let bi := c6_btb_index (e6_pc l) in
  let hi := c6_bht_index (e6_pc l) in
  let e := c6_btb p !!! bi in
  if e6_opcode l =? 0x63 then
    let current_bht := c6_bht p !!! hi in
    let p := if branch_taken
             then if current_bht <? 3 then { p with c6_bht := <[hi := current_bht + 1]> (c6_bht p) } else p
             else if 0 <? current_bht then { p with c6_bht := <[hi := current_bht - 1]> (c6_bht p) } else p in
    { p with c6_btb := <[bi := mkC6BTB branch_target (e6_pc l) true false]> (c6_btb p) }
  else
    let e := { e with c6_btb_target := branch_target; c6_btb_tag := e6_pc l; c6_btb_valid := true } in
    let p := { p with c6_btb := <[bi := e]> (c6_btb p); c6_bht := <[hi := 3]> (c6_bht p) } in
    let p := if is_ras_call (e6_pred l)
             then { p with c6_ras := take 2 (u64 (e6_pc l + e6_len l) :: c6_ras p) } else p in
    if is_ras_return (e6_pred l)
    then { p with c6_btb := <[bi := { e with c6_btb_is_return := true }]> (c6_btb p) } else p.

Definition load_bytes_of (f3 : Z) : Z :=
  if (f3 =? 0) || (f3 =? 4) then 1 else if (f3 =? 1) || (f3 =? 5) then 2
  else if (f3 =? 2) || (f3 =? 6) then 4 else if f3 =? 3 then 8 else 0.
Definition store_bytes_of (f3 : Z) : Z :=
  if f3 =? 0 then 1 else if f3 =? 1 then 2 else if f3 =? 2 then 4 else if f3 =? 3 then 8 else 0.

Definition load_misaligned (f3 vaddr : Z) : bool :=
  if (f3 =? 1) || (f3 =? 5) then negb ((vaddr .& 1) =? 0)
  else if (f3 =? 2) || (f3 =? 6) then negb ((vaddr .& 3) =? 0)
  else if f3 =? 3 then negb ((vaddr .& 7) =? 0)
  else false.
Definition store_misaligned (f3 vaddr : Z) : bool :=
  if f3 =? 1 then negb ((vaddr .& 1) =? 0)
  else if f3 =? 2 then negb ((vaddr .& 3) =? 0)
  else if f3 =? 3 then negb ((vaddr .& 7) =? 0)
  else false.

(** The extension of the value of a load. *)
Definition load_extend (f3 v : Z) : Z :=
  if f3 =? 0 then u64 (s8 v)
  else if f3 =? 1 then u64 (s16 v)
  else if f3 =? 2 then u64 (s32 v)
  else if f3 =? 3 then v
  else if f3 =? 4 then v .& 0xFF
  else if f3 =? 5 then v .& 0xFFFF
  else if f3 =? 6 then v .& 0xFFFFFFFF
  else 0.

(** The value an AMO writes, at width [w]. *)
Definition amo_new (w funct5 old op : Z) : Z :=
  if funct5 =? 0x1 then op
  else if funct5 =? 0x0 then wrap w (old + op)
  else if funct5 =? 0x4 then old .^ op
  else if funct5 =? 0xC then old .& op
  else if funct5 =? 0x8 then old .| op
  else if funct5 =? 0x10 then if signed w old <? signed w op then old else op
  else if funct5 =? 0x14 then if signed w op <? signed w old then old else op
  else if funct5 =? 0x18 then if old <? op then old else op
  else if funct5 =? 0x1C then if op <? old then old else op
  else old.

Section back.
Context {S : Type} `{Target S, DirectMem S}.
#[local] Abbreviation cpu := (C6_cpu S).

(** ** The memory interface and the buffers *)

Definition c6_mem (op : S -> option Z * S) (c : cpu) : option (Z * cpu) :=
  match op (mem_intf (c6_core c)) with
  | (Some v, s) => Some (v, { c with c6_core := { c6_core c with mem_intf := s } })
  | (None, _) => None
  end.
Definition c6_mem_write (op : S -> option unit * S) (c : cpu) : option cpu :=
  match op (mem_intf (c6_core c)) with
  | (Some _, s) => Some { c with c6_core := { c6_core c with mem_intf := s } }
  | (None, _) => None
  end.
(** [readDataMem] or, for eight bytes, [readDataMem64]. *)
Definition c6_read (addr size : Z) : cpu -> option (Z * cpu) :=
  c6_mem (if size =? 8 then readDataMem64 addr 8 else readDataMem addr size).
Definition c6_write (addr data size : Z) : cpu -> option cpu :=
  c6_mem_write (if size =? 8 then writeDataMem64 addr data 8 else writeDataMem addr (u32 data) size).

(** The write of what [drain_one] gave. *)
Definition c6_drain_one (c : cpu) : option (bool * cpu) :=
  let '(d, b) := drain_one C6_COMMIT (c6_stb c) in
  let c := { c with c6_stb := b } in
  match d with
  | None => Some (false, c)
  | Some (addr, data, size) => match c6_write addr data size c with Some c => Some (true, c) | None => None end
  end.

(** [while (store_buffer.drain_one(...))]: every turn takes an entry of the committed
    queue at least, so its count is enough fuel. *)
Fixpoint c6_drain_loop (fuel : nat) (c : cpu) : option cpu :=
  match fuel with
  | O => None
  | Datatypes.S fuel =>
      match c6_drain_one c with
      | None => None
      | Some (false, c) => Some c
      | Some (true, c) => c6_drain_loop fuel c
      end
  end.
Definition c6_drain_all (c : cpu) : option cpu := c6_drain_loop (Datatypes.S (commit_count (c6_stb c))) c.

Definition c6_complete (idx result rd : Z) (c : cpu) : cpu :=
  { c with c6_sb := sb_complete C6_SIZE idx result rd (c6_sb c) }.
Definition c6_commit_store (c : cpu) : cpu :=
  { c with c6_stb := (commit_store C6_SPEC C6_COMMIT (c6_stb c)).2 }.
Definition c6_retire (c : cpu) : cpu := { c with c6_sb := sb_retire C6_SIZE (c6_sb c) }.
Definition c6_set_reg (rd v : Z) (c : cpu) : cpu := { c with c6_core := write_reg rd (u64 v) (c6_core c) }.

(** [while (scoreboard.head_ready() && head_index != stop)]: the drain of the older
    entries before a trap, at most one turn for each; [keep_fp] is the test of
    [writes_to_fp_reg]. *)
Fixpoint c6_drain_rob (fuel : nat) (keep_fp : bool) (stop : option Z) (c : cpu) : cpu :=
  match fuel with
  | O => c
  | Datatypes.S fuel =>
      if sb_head_ready (c6_sb c) && negb (bool_decide (Some (sb_get_head_index (c6_sb c)) = stop)) then
        let e := sb_get_head (c6_sb c) in
        let c := if negb (sb_rd e =? 0) && negb (keep_fp && sb_writes_to_fp_reg e)
                 then c6_set_reg (sb_rd e) (sb_result e) c else c in
        let c := if sb_is_store e then c6_commit_store c else c in
        c6_drain_rob fuel keep_fp stop (c6_retire c)
      else c
  end.

Definition fu_stop (f : FunctionalUnitState) : FunctionalUnitState := { f with fu_busy := false }.

(** The flush of a trap: the scoreboard, the speculative stores and all units. *)
Definition c6_flush_all (c : cpu) : cpu :=
  let u := c6_units c in
  { c with c6_sb := sb_flush (c6_sb c); c6_stb := stb_flush_speculative (c6_stb c);
           c6_units := {| mul_fu := fu_stop (mul_fu u); div_fu := fu_stop (div_fu u);
                          fpu_pipe := fu_stop <$> fpu_pipe u; fpu_divsqrt_fu := fu_stop (fpu_divsqrt_fu u);
                          dcache_miss_fu := fu_stop <$> dcache_miss_fu u;
                          load_hit_fu := fu_stop (load_hit_fu u) |} }.

(** ** Issue *)

(** An operand: [None] when its producer has not finished; [get_entry] is unchecked, so
    outside of the array there is no answer. *)
Definition int_operand (r : Z) (c : cpu) : option (option Z * bool) :=
  if r =? 0 then Some (Some 0, false)
  else
    let clob := rd_clobber (c6_sb c) !!! Z.to_nat r in
    if cl_busy clob then
      match sb_get_entry (c6_sb c) (cl_trans_id clob) with
      | None => None
      | Some prod => Some (if sb_ready prod then (Some (sb_result prod), true) else (None, false))
      end
    else Some (Some (reg (c6_core c) r), false).
Definition fp_operand (r : Z) (c : cpu) : option (option Z * bool) :=
  let clob := fp_clobber (c6_sb c) !!! Z.to_nat r in
  let v := c6_fp c !!! Z.to_nat r in
  if cl_busy clob then
    match sb_get_entry (c6_sb c) (cl_trans_id clob) with
    | None => None
    | Some prod => Some (if sb_ready prod then Some v else None, false)
    end
  else Some (Some v, false).

(** The stall that most of the tests end in. *)
Definition c6_issue_stalls (c : cpu) : cpu :=
  bump st_stalls 1 (no_ie { c with c6_ctl := { c6_ctl c with c6_stall_issue := true } }).

(** The taint of the registers that hold addresses that derive from loads. *)
Definition tainted (t r : Z) : bool := Z.testbit t r.
Definition taint_after (ii : C6_ID_Issue_Latch) (t : Z) : Z :=
  let op := i6_opcode ii in
  let rd := i6_rd ii in
  if rd =? 0 then t
  else if is_alu_op op && (tainted t (i6_rs1 ii) || tainted t (i6_rs2 ii)) then
    ((t .&~ (1 .<< i6_rs1 ii)) .&~ (1 .<< i6_rs2 ii)) .| (1 .<< rd)
  else if negb (op =? 0x03) && negb (op =? 0x07) then t .&~ (1 .<< rd)
  else t.
Definition is_memory_op (op : Z) : bool :=
  (op =? 0x03) || (op =? 0x23) || (op =? 0x07) || (op =? 0x27) || (op =? 0x2F).

(** The unit of the instruction is occupied. *)
Definition unit_hazard (ii : C6_ID_Issue_Latch) (u : C6_units) : bool :=
  match c6_unit ii with
  | FU_MUL => fu_busy (mul_fu u)
  | FU_DIV => fu_busy (div_fu u)
  | FU_FPU => fpu_pipe_full u || fu_busy (fpu_divsqrt_fu u) ||
              ((i6_opcode ii =? 0x07) && dcache_miss_fu_full u)
  | FU_LSU => ((i6_opcode ii =? 0x03) || (i6_opcode ii =? 0x2F)) &&
              (dcache_miss_fu_full u || fu_busy (load_hit_fu u))
  | _ => false
  end.
Definition multi_cycle_in_flight (u : C6_units) : bool :=
  dcache_miss_fu_any_busy u || fu_busy (mul_fu u) || fu_busy (div_fu u) || fpu_any_busy u ||
  fu_busy (load_hit_fu u).

Definition issue_entry (ii : C6_ID_Issue_Latch) (e : SBEntry) : SBEntry :=
  { e with sb_pc := i6_pc ii;
           sb_is_store := (i6_opcode ii =? 0x23) || (i6_opcode ii =? 0x27);
           sb_is_branch := is_branch_op (i6_opcode ii); sb_fu := c6_unit ii }.

(** The trap of an illegal instruction. *)
Definition issue_illegal (ii : C6_ID_Issue_Latch) (c : cpu) : option cpu :=
  let c := c6_drain_rob (sb_count (c6_sb c)) false None c in
  match c6_drain_all c with
  | None => None
  | Some c =>
      Some (no_ie (c6_exception CAUSE_ILLEGAL_INSTR (i6_pc ii) (i6_instr ii) (c6_flush_all c)))
  end.

Definition c6_dispatch (ii : C6_ID_Issue_Latch) (rs1_val rs2_val rob_idx : Z) : C6_Issue_EX_Latch :=
  {| e6_pc := i6_pc ii; e6_instr := i6_instr ii; e6_rs1_val := rs1_val; e6_rs2_val := rs2_val;
     e6_imm := i6_imm ii; e6_rd := i6_rd ii; e6_rs1 := i6_rs1 ii; e6_rs2 := i6_rs2 ii;
     e6_opcode := i6_opcode ii; e6_funct3 := i6_funct3 ii; e6_funct7 := i6_funct7 ii;
     e6_rob_index := rob_idx; e6_valid := true; e6_is_compressed := i6_is_compressed ii;
     e6_pred := i6_pred ii |}.

(** Allocation and dispatch. *)
Definition issue_allocate (ii : C6_ID_Issue_Latch) (rs1_val rs2_val : Z) (c : cpu) : option cpu :=
  let '(rob_idx, sb) := sb_allocate C6_SIZE (c6_sb c) in
  if rob_idx <? 0 then Some (c6_issue_stalls { c with c6_sb := sb })
  else
    let c := { c with c6_sb := sb_set_entry rob_idx (issue_entry ii) sb } in
    if i6_is_illegal ii then issue_illegal ii c
    else
      let c := set_ie (c6_dispatch ii rs1_val rs2_val rob_idx) c in
      let sb := sb_set_entry rob_idx
                  (fun e => { e with sb_writes_to_fp_reg := writes_to_fp_reg ii }) (c6_sb c) in
      let clob := mkClobber true (c6_unit ii) rob_idx in
      let rd := Z.to_nat (i6_rd ii) in
      Some { c with c6_sb :=
        if negb (i6_rd ii =? 0) && writes_to_int_reg ii
        then { sb with rd_clobber := <[rd := clob]> (rd_clobber sb) }
        else if writes_to_fp_reg ii
        then { sb with fp_clobber := <[rd := clob]> (fp_clobber sb) }
        else sb }.

Definition C6_Issue_stage (c : cpu) : option cpu :=
  let ii := c6_ii (c6_reg c) in
  let k := c6_ctl c in
  if c6_stall_ex k then Some (no_ie { c with c6_ctl := { k with c6_stall_issue := true } })
  else
    let c := { c with c6_ctl := { k with c6_stall_pcgen := false; c6_stall_fetch := false;
                                          c6_stall_issue := false } } in
    if c6_flush k then Some (no_ie c)
    else if negb (i6_valid ii) then Some (no_ie c)
    else if 0 <? load_addr_extra c then
      Some (c6_issue_stalls { c with load_addr_extra := load_addr_extra c - 1 })
    else
      match (if reads_rs1_as_int ii then int_operand (i6_rs1 ii) c else fp_operand (i6_rs1 ii) c),
            (if reads_rs2_as_int ii then int_operand (i6_rs2 ii) c else fp_operand (i6_rs2 ii) c),
            (if reads_rs3 ii then fp_operand ((i6_instr ii .>> 27) .& 0x1F) c else Some (Some 0, false)) with
      | Some (v1, fwd1), Some (v2, fwd2), Some (v3, _) =>
        let c := bump st_forwarded_reads (Z.b2z fwd1 + Z.b2z fwd2) c in
        match v1, v2, v3 with
        | Some rs1_val, Some rs2_val, Some _ =>
          if shift_bubble ii (c6_ie (c6_reg c)) || csr_hazard ii (pending_csr_write (c6_ctl c))
          then Some (c6_issue_stalls c)
          else if (0 <? load_addr_penalty (c6_cfg c)) && is_memory_op (i6_opcode ii) &&
                  negb (i6_rs1 ii =? 0) && tainted (reg_load_tainted c) (i6_rs1 ii) then
            Some (c6_issue_stalls (bump st_load_addr_events 1
              { c with load_addr_extra := load_addr_penalty (c6_cfg c) - 1;
                       reg_load_tainted := reg_load_tainted c .&~ (1 .<< i6_rs1 ii) }))
          else
            let c := { c with reg_load_tainted := taint_after ii (reg_load_tainted c) } in
            if unit_hazard ii (c6_units c) then Some (c6_issue_stalls c)
            else if (i6_opcode ii =? 0x23) && stb_is_full C6_SPEC (c6_stb c) then Some (c6_issue_stalls c)
            else if (i6_opcode ii =? 0x2F) && negb (stb_is_empty (c6_stb c)) then Some (c6_issue_stalls c)
            else if (i6_opcode ii =? 0x73) && multi_cycle_in_flight (c6_units c)
            then Some (c6_issue_stalls c)
            else issue_allocate ii rs1_val rs2_val c
        | _, _, _ => Some (c6_issue_stalls c)
        end
      | _, _, _ => None
      end.
End back.
