(* ===== verification/CpuC6Ex.v ===== *)
(** [src/CPU_P64_6_Cycle.cpp]: execution, commit, interrupts and the cycle of the six-stage
    RV64 core.

    The floating-point unit is an argument: [fpu instr rs1_val rs2_val rd pa h fp] is what
    [F_extension] and [D_extension] decode and execute; [CpuC6Float.v] provides it.  [EX_stage] with its [goto ex_done] is written with [flow]: [Jump] is the
    [goto]. *)
From S2P Require Import Prelude Bytes Memory Regs CExt Scoreboard StoreBuffer Cache CSR MMU CpuP6 CpuC6 CpuC6Back.
Import RegsH.

(** What follows a [goto ex_done] is skipped. *)
Inductive flow (A : Type) := Next (result : Z) (multi_cycle_dispatched : bool) (a : A)
                           | Jump (result : Z) (multi_cycle_dispatched : bool) (a : A).
Arguments Next {A} _ _ _.
Arguments Jump {A} _ _ _.

(** The floating-point unit: the latency and the flags, and what it did to the harts. *)
Inductive fpu_answer (S : Type) :=
  FpuIllegal | FpuThrows | FpuDone (latency fcsr_flags : Z) (h : hart S) (fp : list Z).
Arguments FpuIllegal {S}.
Arguments FpuThrows {S}.
Arguments FpuDone {S} _ _ _ _.

Record irq_lines := mkIrq { timer_irq_in : bool; msip_irq_in : bool; ext_irq_in : bool }.

Section ex.
Context {S : Type} `{Target S, DirectMem S}.
#[local] Abbreviation cpu := (C6_cpu S).

(** ** The multi-cycle units *)

Definition fu_start (remaining result : Z) (l : C6_Issue_EX_Latch) : FunctionalUnitState :=
  mkFU true remaining result (e6_rob_index l) (e6_rd l).

(** A load that completes taints its register. *)
Definition c6_taint (rd : Z) (c : cpu) : cpu :=
  if rd =? 0 then c else { c with reg_load_tainted := reg_load_tainted c .| (1 .<< rd) }.

(** One cycle of a unit. *)
Definition fu_tick (is_load : bool) (f : FunctionalUnitState) (c : cpu) : FunctionalUnitState * cpu :=
  if fu_busy f then
    let r := fu_remaining f - 1 in
    let f := { f with fu_remaining := r } in
    if r =? 0 then
      let c := c6_complete (fu_trans_id f) (fu_result f) (fu_rd f) c in
      (fu_stop f, if is_load then c6_taint (fu_rd f) c else c)
    else (f, c)
  else (f, c).
Definition fu_tick_counted (k : C6_counter) (is_load : bool) (f : FunctionalUnitState) (c : cpu) :
    FunctionalUnitState * cpu :=
  fu_tick is_load f (if fu_busy f then bump k 1 c else c).
Fixpoint fu_tick_all (tick : FunctionalUnitState -> cpu -> FunctionalUnitState * cpu)
    (l : list FunctionalUnitState) (c : cpu) : list FunctionalUnitState * cpu :=
  match l with
  | [] => ([], c)
  | f :: l => let '(f, c) := tick f c in let '(l, c) := fu_tick_all tick l c in (f :: l, c)
  end.

Definition c6_tick_units (c : cpu) : cpu :=
  let u := c6_units c in
  let '(mul, c) := fu_tick_counted st_mul_stall_cycles false (mul_fu u) c in
  let '(div, c) := fu_tick_counted st_div_stall_cycles false (div_fu u) c in
  let '(dms, c) := fu_tick_all (fu_tick_counted st_dcache_miss_cycles true) (dcache_miss_fu u) c in
  let '(hit, c) := fu_tick_counted st_load_use_stall_cycles true (load_hit_fu u) c in
  let '(pipe, c) := fu_tick_all (fu_tick false) (fpu_pipe u) c in
  let '(sqrt, c) := fu_tick false (fpu_divsqrt_fu u) c in
  { c with c6_units := {| mul_fu := mul; div_fu := div; fpu_pipe := pipe; fpu_divsqrt_fu := sqrt;
                          dcache_miss_fu := dms; load_hit_fu := hit |} }.

Definition set_units (f : C6_units -> C6_units) (c : cpu) : cpu := { c with c6_units := f (c6_units c) }.
Definition start_miss (i : nat) (f : FunctionalUnitState) : cpu -> cpu :=
  set_units (fun u => { u with dcache_miss_fu := <[i := f]> (dcache_miss_fu u) }).
Definition miss_result (i : nat) (v : Z) : cpu -> cpu :=
  set_units (fun u => { u with dcache_miss_fu :=
    alter (fun f => { f with fu_result := v }) i (dcache_miss_fu u) }).
Definition start_hit (v : Z) (l : C6_Issue_EX_Latch) (c : cpu) : cpu :=
  if fu_busy (load_hit_fu (c6_units c)) then c
  else set_units (fun u => { u with load_hit_fu := fu_start (load_hit_penalty (c6_cfg c)) v l }) c.

(** The dispatch of an instruction of the M extension. *)
Definition ex_m (l : C6_Issue_EX_Latch) : cpu -> cpu :=
  if 4 <=? e6_funct3 l
  then set_units (fun u => { u with div_fu := fu_start (m_cycles l) (m_result l) l })
  else set_units (fun u => { u with mul_fu := fu_start 1 (m_result l) l }).

(** ** Faults *)

Definition has_unready_older (l : C6_Issue_EX_Latch) (c : cpu) : bool :=
  negb (sb_is_empty (c6_sb c)) && negb (sb_get_head_index (c6_sb c) =? e6_rob_index l).

(** The stall of an instruction whose trap has to wait for the older ones, or which is
    to be tried again. *)
Definition ex_wait (c : cpu) : flow cpu :=
  Jump 0 true { c with c6_ctl := { c6_ctl c with c6_stall_ex := true } }.
Definition ex_fault (cause tval : Z) (l : C6_Issue_EX_Latch) (c : cpu) : flow cpu :=
  if has_unready_older l c then ex_wait c
  else Jump 0 true (c6_complete (e6_rob_index l) 0 0 (c6_exception cause (e6_pc l) tval c)).

(** ** Loads and stores *)

(** [raw |= readDataMem(pa + i, 1) << (8 * i)]. *)
Fixpoint read_bytes (n : nat) (pa i raw : Z) (c : cpu) : option (Z * cpu) :=
  match n with
  | O => Some (raw, c)
  | Datatypes.S n =>
      match c6_read (u64 (pa + i)) 1 c with
      | Some (b, c) => read_bytes n pa (i + 1) (raw .| (b .<< (8 * i))) c
      | None => None
      end
  end.
Fixpoint write_bytes (n : nat) (pa i sval : Z) (c : cpu) : option cpu :=
  match n with
  | O => Some c
  | Datatypes.S n =>
      match c6_write (u64 (pa + i)) ((sval .>> (8 * i)) .& 0xFF) 1 c with
      | Some c => write_bytes n pa (i + 1) sval c
      | None => None
      end
  end.

(** A load that is not aligned is read byte by byte; it completes by itself. *)
Definition ex_load_misaligned (pa : Z) (l : C6_Issue_EX_Latch) (c : cpu) : option (flow cpu) :=
  match read_bytes (Z.to_nat (load_bytes_of (e6_funct3 l))) pa 0 0 c with
  | None => None
  | Some (raw, c) =>
      let result := load_extend (e6_funct3 l) raw in
      Some (Jump result false (c6_complete (e6_rob_index l) result (e6_rd l) c))
  end.

(** The value from the store buffer or, when no buffered store overlaps, from memory.
    [slot] is the slot of the page walk. *)
Definition ex_load_value (addr : Z) (slot : option nat) (l : C6_Issue_EX_Latch) (c : cpu) :
    option (flow cpu) :=
  let f3 := e6_funct3 l in
  match forward_load C6_SPEC C6_COMMIT addr (load_bytes_of f3) (c6_stb c) with
  | FwdPartialOverlap => Some (ex_wait c)
  | FwdHit fwd => Some (Next 0 true (start_hit (load_extend f3 fwd) l (bump st_load_store_forwards 1 c)))
  | FwdMiss =>
      match (if f3 =? 7 then Some (0, c) else c6_read addr (load_bytes_of f3) c) with
      | None => None
      | Some (v, c) =>
          let mem_result := load_extend f3 v in
          match slot with
          | Some i => Some (Next 0 true (miss_result i mem_result c))
          | None =>
              let '(hit, dc) := dcache_access addr (c6_dcache c) in
              let c := { c with c6_dcache := dc } in
              Some (Next 0 true
                (if hit then start_hit mem_result l c
                 else start_miss (dcache_miss_free_slot (c6_units c))
                        (fu_start (dcache_miss_penalty (c6_cfg c) - 1) mem_result l)
                        (bump st_dcache_misses 1 c)))
          end
      end
  end.

(** Both kinds of load begin with the translation. *)
Definition C6_ex_load (l : C6_Issue_EX_Latch) (c : cpu) : option (flow cpu) :=
  let vaddr := u64 (e6_rs1_val l + e6_imm l) in
  match c6_translate vaddr LOAD c with
  | None => None
  | Some (tr, c) =>
    if r_fault tr then Some (ex_fault (r_fault_cause tr) vaddr l c)
    else if load_misaligned (e6_funct3 l) vaddr then ex_load_misaligned (r_paddr tr) l c
    else
      let addr := r_paddr tr in
      let slot := dcache_miss_free_slot (c6_units c) in
      let '(slot, c) :=
        if 0 <? r_stall_cycles tr then
          (Some slot, start_miss slot (fu_start (r_stall_cycles tr + dcache_miss_penalty (c6_cfg c) - 1) 0 l)
                        (bump st_dtlb_miss_cycles (r_stall_cycles tr) c))
        else (None, c) in
      if negb (pmp_check addr (load_bytes_of (e6_funct3 l)) false false (c6_csr c))
      then Some (ex_fault CAUSE_LOAD_ACCESS vaddr l c)
      else ex_load_value addr slot l c
  end.

Definition drop_reservation (c : cpu) : cpu :=
  { c with c6_ctl := { c6_ctl c with load_reservation := None } }.

(** The scoreboard's entry is no longer a store. *)
Definition not_a_store (l : C6_Issue_EX_Latch) (c : cpu) : cpu :=
  { c with c6_sb := sb_set_entry (e6_rob_index l) (fun e => { e with sb_is_store := false }) (c6_sb c) }.

Definition C6_ex_store (result : Z) (l : C6_Issue_EX_Latch) (c : cpu) : option (flow cpu) :=
  let vaddr := u64 (e6_rs1_val l + e6_imm l) in
  let size := store_bytes_of (e6_funct3 l) in
  match c6_translate vaddr STORE c with
  | None => None
  | Some (tr, c) =>
    if r_fault tr then Some (ex_fault (r_fault_cause tr) vaddr l c)
    else if store_misaligned (e6_funct3 l) vaddr then
      match write_bytes (Z.to_nat size) (r_paddr tr) 0 (e6_rs2_val l) c with
      | Some c => Some (Jump result false (c6_complete (e6_rob_index l) 0 0 (not_a_store l c)))
      | None => None
      end
    else
      let store_pa := r_paddr tr in
      if negb (pmp_check store_pa size true false (c6_csr c))
      then Some (ex_fault CAUSE_STORE_ACCESS vaddr l c)
      else
        let c := { c with c6_stb := (add_store C6_SPEC store_pa (e6_rs2_val l) size (e6_rob_index l)
                                       (c6_stb c)).2 } in
        Some (Next result false
          (match load_reservation (c6_ctl c) with
           | Some a => if (store_pa <=? a) && (a <? u64 (store_pa + size)) then drop_reservation c else c
           | None => c
           end))
  end.

(** ** Atomics *)

Definition stb_invalidate (pa size : Z) (c : cpu) : cpu :=
  { c with c6_stb := invalidate_address pa size (c6_stb c) }.

(** [size] is 8 or 4; a word result is sign-extended. *)
Definition amo_result (size v : Z) : Z := if size =? 8 then v else u64 (s32 v).

Definition ex_lr (pa size : Z) (c : cpu) : option (flow cpu) :=
  let reserve c := { c with c6_ctl := { c6_ctl c with load_reservation := Some pa } } in
  match forward_load C6_SPEC C6_COMMIT pa size (c6_stb c) with
  | FwdPartialOverlap => Some (ex_wait c)
  | FwdHit fwd => Some (Next (amo_result size fwd) false (reserve c))
  | FwdMiss =>
      match c6_read pa size c with
      | Some (v, c) => Some (Next (amo_result size v) false (reserve c))
      | None => None
      end
  end.

Definition ex_sc (pa size : Z) (l : C6_Issue_EX_Latch) (c : cpu) : option (flow cpu) :=
  if bool_decide (load_reservation (c6_ctl c) = Some pa) then
    match c6_write pa (e6_rs2_val l) size c with
    | Some c => Some (Next 0 false (drop_reservation (stb_invalidate pa size c)))
    | None => None
    end
  else Some (Next 1 false (drop_reservation c)).

Definition ex_amo_rmw (pa size funct5 : Z) (l : C6_Issue_EX_Latch) (c : cpu) : option (flow cpu) :=
  match c6_read pa size c with
  | None => None
  | Some (old, c) =>
      let op := if size =? 8 then e6_rs2_val l else u32 (e6_rs2_val l) in
      match c6_write pa (amo_new (8 * size) funct5 old op) size c with
      | Some c => Some (Next (amo_result size old) false (drop_reservation (stb_invalidate pa size c)))
      | None => None
      end
  end.

Definition C6_ex_amo (l : C6_Issue_EX_Latch) (c : cpu) : option (flow cpu) :=
  let vaddr := e6_rs1_val l in
  let size := if e6_funct3 l =? 3 then 8 else 4 in
  let funct5 := e6_funct7 l .>> 2 in
  match c6_translate vaddr (if funct5 =? 2 then LOAD else STORE) c with
  | None => None
  | Some (tr, c) =>
      if r_fault tr then Some (ex_fault (r_fault_cause tr) vaddr l c)
      else if funct5 =? 2 then ex_lr (r_paddr tr) size c
      else if funct5 =? 3 then ex_sc (r_paddr tr) size l c
      else ex_amo_rmw (r_paddr tr) size funct5 l c
  end.

(** ** Branches *)

(** The unit works for an entry that was squashed. *)
Definition cancel_if_flushed (sb : Scoreboard) (f : FunctionalUnitState) : FunctionalUnitState :=
  match sb_get_entry sb (fu_trans_id f) with
  | Some e => if fu_busy f && negb (sb_valid e) then fu_stop f else f
  | None => f
  end.

(** The recovery from a misprediction; [None] is a squash that does not end. *)
Definition ex_mispredict (branch_taken : bool) (branch_target : Z) (l : C6_Issue_EX_Latch) (c : cpu) :
    option cpu :=
  let c := bump st_branch_mispredicts 1 (bump st_flushes 1
             (c6_redirect (if branch_taken then branch_target else u64 (e6_pc l + e6_len l)) c)) in
  match sb_flush_speculative C6_SIZE (e6_rob_index l) (c6_sb c) with
  | None => None
  | Some sb =>
      Some (set_units (fun u =>
        {| mul_fu := cancel_if_flushed sb (mul_fu u); div_fu := cancel_if_flushed sb (div_fu u);
           fpu_pipe := cancel_if_flushed sb <$> fpu_pipe u;
           fpu_divsqrt_fu := cancel_if_flushed sb (fpu_divsqrt_fu u);
           dcache_miss_fu := cancel_if_flushed sb <$> dcache_miss_fu u;
           load_hit_fu := cancel_if_flushed sb (load_hit_fu u) |})
        { c with c6_pred := { c6_pred c with c6_ras := [] }; c6_sb := sb;
                 c6_stb := stb_flush_squashed C6_SPEC sb (c6_stb c) })
  end.

Definition C6_ex_branch (branch_taken : bool) (branch_target result : Z) (l : C6_Issue_EX_Latch) (c : cpu) :
    option (flow cpu) :=
  if branch_taken && negb ((branch_target .& 1) =? 0)
  then Some (ex_fault CAUSE_INSTR_MISALIGN branch_target l c)
  else
    let p := e6_pred l in
    let mispredict := negb (Bool.eqb branch_taken (predicted_taken p)) ||
                      (branch_taken && negb (branch_target =? predicted_target p)) in
    let c := { c with c6_pred := c6_train l branch_taken branch_target (c6_pred c) } in
    if mispredict then
      match ex_mispredict branch_taken branch_target l c with
      | Some c => Some (Next result false c)
      | None => None
      end
    else Some (Next result false c).

(** ** System instructions *)

(** [write(fd, buf, count)] of the shim, a byte at a time. *)
Fixpoint c6_ecall_write (count : nat) (out a1 i : Z) (c : cpu) : option cpu :=
  match count with
  | O => Some c
  | Datatypes.S count =>
      match c6_read (u64 (a1 + i)) 1 c with
      | Some (byte, c) => c6_ecall_write count out a1 (i + 1) { c with c6_out := c6_out c ++ [(out, u8 byte)] }
      | None => None
      end
  end.

(** The system calls of a program without an operating system. *)
Definition c6_syscall (c : cpu) : option cpu :=
  let h := c6_core c in
  let syscall_num := reg h 17 in
  let a0 := reg h 10 in
  let a1 := reg h 11 in
  let a2 := reg h 12 in
  if syscall_num =? 64 then
    match (if ((a0 =? 1) || (a0 =? 2)) && (0 <? a2) then c6_ecall_write (Z.to_nat a2) a0 a1 0 c else Some c) with
    | Some c => Some (c6_set_reg 10 a2 c)
    | None => None
    end
  else if (syscall_num =? 1) || (syscall_num =? 93) then Some { c with c6_stopped := true }
  else if syscall_num =? 214 then Some (c6_set_reg 10 0 c)
  else Some (c6_set_reg 10 (-38) c).

(** A trap that does not complete the entry, and one that does not wait either. *)
Definition ex_trap (cause tval : Z) (l : C6_Issue_EX_Latch) (c : cpu) : flow cpu :=
  if has_unready_older l c then ex_wait c else Next 0 false (c6_exception cause (e6_pc l) tval c).
Definition ex_illegal_now (l : C6_Issue_EX_Latch) (c : cpu) : flow cpu :=
  let '(tvec, csr) := take_exception CAUSE_ILLEGAL_INSTR (e6_pc l) (e6_instr l) (c6_csr c) in
  Next 0 false (c6_redirect tvec { c with c6_csr := csr }).

(** [mret] and [sret] once they are permitted. *)
Definition ex_return (ret : Z * CSR_File) (c : cpu) : cpu :=
  let c := drop_reservation (c6_redirect ret.1 { c with c6_csr := ret.2 }) in
  { c with c6_ctl := { c6_ctl c with pending_priv_switch := Some ret.1 } }.

(** [funct3 = 0]: the instruction is told by its immediate. *)
Definition ex_system_0 (l : C6_Issue_EX_Latch) (c : cpu) : option (flow cpu) :=
  let csr := c6_csr c in
  let csr_addr := u16 (e6_imm l .& 0xFFF) in
  if csr_addr =? 0x000 then
    if priv csr =? PRIV_M then
      match c6_syscall c with Some c => Some (Next 0 false c) | None => None end
    else Some (ex_trap (if priv csr =? PRIV_U then CAUSE_ECALL_U
                        else if priv csr =? PRIV_S then CAUSE_ECALL_S else CAUSE_ECALL_M) 0 l c)
  else if csr_addr =? 0x001 then Some (ex_trap CAUSE_BREAKPOINT 0 l c)
  else if csr_addr =? 0x302 then
    Some (if negb (priv csr =? PRIV_M) then ex_illegal_now l c
          else Next 0 false (ex_return (CSR.mret csr) { c with c6_mmu := mmu_flush_all (c6_mmu c) }))
  else if csr_addr =? 0x102 then
    Some (if (priv csr =? PRIV_U) || ((priv csr =? PRIV_S) && negb ((mstatus csr .& MSTATUS_TSR) =? 0))
          then ex_illegal_now l c
          else Next 0 false (ex_return (CSR.sret csr) c))
  else if csr_addr =? 0x105 then
    Some (if negb (priv csr =? PRIV_M) && negb ((mstatus csr .& MSTATUS_TW) =? 0) then ex_illegal_now l c
          else Next 0 false (c6_redirect (u64 (e6_pc l + 4))
                               { c with c6_ctl := { c6_ctl c with wfi_stall := true } }))
  else if u8 (e6_instr l .>> 25) =? 0x09 then
    Some (Next 0 false (c6_redirect (u64 (e6_pc l + 4))
      { c with c6_mmu := sfence_vma (e6_rs1_val l) (e6_rs2_val l) (e6_rs1 l =? 0)
                           (u8 ((e6_instr l .>> 20) .& 0x1F) =? 0) (c6_mmu c) }))
  else Some (Next 0 false c).

(** The value that is written, if one is. *)
Definition csr_new_value (f3 old_val rs1_v : Z) : option Z :=
  let op := f3 .& 0x3 in
  if op =? 1 then Some rs1_v
  else if (op =? 2) && negb (rs1_v =? 0) then Some (old_val .| rs1_v)
  else if (op =? 3) && negb (rs1_v =? 0) then Some (old_val .&~ rs1_v)
  else None.

Definition ex_csr (l : C6_Issue_EX_Latch) (c : cpu) : flow cpu :=
  let f3 := e6_funct3 l in
  let csr_addr := u16 (e6_imm l .& 0xFFF) in
  let rs1_v := if 5 <=? f3 then e6_rs1 l .& 0x1F else e6_rs1_val l in
  match csr_read csr_addr (c6_csr c) with
  | None => ex_trap CAUSE_ILLEGAL_INSTR (e6_instr l) l c
  | Some old_val =>
      let c := match csr_new_value f3 old_val rs1_v with
               | Some v => { c with c6_csr := (csr_write csr_addr v (c6_csr c)).2;
                                    c6_ctl := { c6_ctl c with pending_csr_write := Some csr_addr } }
               | None => c
               end in
      Next old_val false
        (if csr_addr =? CSR.CSR_SATP
         then c6_redirect (u64 (e6_pc l + e6_len l)) { c with c6_mmu := mmu_flush_all (c6_mmu c) }
         else c)
  end.

Definition C6_ex_system (l : C6_Issue_EX_Latch) (c : cpu) : option (flow cpu) :=
  if e6_funct3 l =? 0 then ex_system_0 l c else Some (ex_csr l c).

(** ** Floating point *)

Section fpu.
Variable fpu : Z -> Z -> Z -> Z -> Z -> hart S -> list Z -> fpu_answer S.

Definition fp_misaligned (f3 vaddr : Z) : bool :=
  if f3 =? 2 then negb ((vaddr .& 3) =? 0) else if f3 =? 3 then negb ((vaddr .& 7) =? 0) else false.

(** The address of a load or store of the unit, with whether the cache missed. *)
Definition ex_fp_address (l : C6_Issue_EX_Latch) (c : cpu) : option (flow cpu + Z * bool * cpu) :=
  let store := e6_opcode l =? 0x27 in
  if (e6_opcode l =? 0x07) || store then
    let vaddr := u64 (e6_rs1_val l + e6_imm l) in
    if fp_misaligned (e6_funct3 l) vaddr then
      Some (inl (ex_fault (if store then CAUSE_STORE_MISALIGN else CAUSE_LOAD_MISALIGN) vaddr l c))
    else
      match c6_translate vaddr (if store then STORE else LOAD) c with
      | None => None
      | Some (tr, c) =>
        if r_fault tr then Some (inl (ex_fault (r_fault_cause tr) vaddr l c))
        else
          let pa := r_paddr tr in
          if negb (pmp_check pa (if e6_funct3 l =? 3 then 8 else 4) store false (c6_csr c)) then
            Some (inl (ex_fault (if store then CAUSE_STORE_ACCESS else CAUSE_LOAD_ACCESS) vaddr l c))
          else if store then Some (inr (pa, false, c))
          else
            let '(hit, dc) := dcache_access pa (c6_dcache c) in
            let c := { c with c6_dcache := dc } in
            Some (inr (pa, negb hit, if hit then c else bump st_dcache_misses 1 c))
      end
  else Some (inr (0, false, c)).

(** The word the unit decodes: a compressed load or store is encoded again. *)
Definition fp_instr (l : C6_Issue_EX_Latch) : Z :=
  if e6_is_compressed l && (e6_opcode l =? 0x07) then
    u32 (((e6_imm l .& 0xFFF) .<< 20) .| (e6_rs1 l .<< 15) .| (e6_funct3 l .<< 12) .|
         (e6_rd l .<< 7) .| 0x07)
  else if e6_is_compressed l && (e6_opcode l =? 0x27) then
    let imm := u32 (e6_imm l) in
    u32 ((((imm .>> 5) .& 0x7F) .<< 25) .| (e6_rs2 l .<< 20) .| (e6_rs1 l .<< 15) .|
         (e6_funct3 l .<< 12) .| ((imm .& 0x1F) .<< 7) .| 0x27)
  else e6_instr l.

(** The result goes to its unit by its latency. *)
Definition fp_finish (miss : bool) (latency fpu_result : Z) (l : C6_Issue_EX_Latch) (c : cpu) : cpu :=
  if miss then
    start_miss (dcache_miss_free_slot (c6_units c))
      (fu_start (dcache_miss_penalty (c6_cfg c) - 1) fpu_result l) c
  else if latency <=? 1 then c6_complete (e6_rob_index l) fpu_result (e6_rd l) c
  else
    let f := fu_start (latency - 1) fpu_result l in
    if 5 <? latency then set_units (fun u => { u with fpu_divsqrt_fu := f }) c
    else
      let slot := match unit_free (fpu_pipe (c6_units c)) with Some (i, _) => i | None => 0%nat end in
      set_units (fun u => { u with fpu_pipe := <[slot := f]> (fpu_pipe u) }) c.

Definition C6_ex_fpu (l : C6_Issue_EX_Latch) (c : cpu) : option (flow cpu) :=
  match ex_fp_address l c with
  | None => None
  | Some (inl fl) => Some fl
  | Some (inr (pa, miss, c)) =>
      match fpu (fp_instr l) (e6_rs1_val l) (e6_rs2_val l) (e6_rd l) pa (c6_core c) (c6_fp c) with
      | FpuThrows => None
      | FpuIllegal => Some (ex_fault CAUSE_ILLEGAL_INSTR (e6_instr l) l c)
      | FpuDone latency fcsr_flags h fp =>
          let c := { c with c6_core := h; c6_fp := fp } in
          let fpu_result := if (e6_opcode l =? 0x53) && fp_to_int (e6_funct7 l) then reg h (e6_rd l) else 0 in
          let c := if negb (fcsr_flags =? 0)
                   then { c with c6_csr := set_fflags fcsr_flags (c6_csr c) } else c in
          let c := if e6_opcode l =? 0x27 then not_a_store l c else c in
          Some (Next 0 true (fp_finish miss latency fpu_result l c))
      end
  end.

(** ** The execute stage *)

Definition flow_bind (r : option (flow cpu)) (f : Z -> bool -> cpu -> option (flow cpu)) :
    option (flow cpu) :=
  match r with
  | Some (Next result multi c) => f result multi c
  | r => r
  end.

(** The instruction in the latch, up to [ex_done]. *)
Definition C6_ex_body (l : C6_Issue_EX_Latch) (c : cpu) : option (flow cpu) :=
  let '(result, branch_taken, branch_target) := c6_switch l in
  let c := if is_m l then ex_m l c else c in
  let c := if e6_opcode l =? 0x63 then bump st_branches 1 c else c in
  flow_bind
    (if e6_opcode l =? 0x03 then C6_ex_load l c
     else if e6_opcode l =? 0x23 then C6_ex_store result l c
     else if e6_opcode l =? 0x2F then C6_ex_amo l c
     else Some (Next result (is_m l) c))
  (fun result multi c =>
  flow_bind
    (if is_branch_op (e6_opcode l) then C6_ex_branch branch_taken branch_target result l c
     else if e6_opcode l =? 0x73 then C6_ex_system l c
     else Some (Next result multi c))
  (fun result multi c =>
    match sb_get_entry (c6_sb c) (e6_rob_index l) with
    | None => None
    | Some e => if is_fpu (sb_fu e) then C6_ex_fpu l c else Some (Next result multi c)
    end)).

(** A trap at the end of the stage: the older entries are committed, the stores written,
    and the rest dropped. *)
Definition ex_take_trap (l : C6_Issue_EX_Latch) (c : cpu) : option cpu :=
  let c := c6_drain_rob (sb_count (c6_sb c)) true (Some (e6_rob_index l)) c in
  match c6_drain_all c with
  | Some c => Some (drop_reservation (c6_flush_all c))
  | None => None
  end.

(** [ex_done]. *)
Definition ex_done (l : C6_Issue_EX_Latch) (result : Z) (multi : bool) (c : cpu) : option cpu :=
  let c := if negb multi && (0 <=? e6_rob_index l)
           then c6_complete (e6_rob_index l) result (e6_rd l) c else c in
  if trap_pending (c6_ctl c) then ex_take_trap l c else Some c.

Definition C6_EX_stage (c : cpu) : option cpu :=
  let l := c6_ie (c6_reg c) in
  let c := c6_tick_units { c with c6_ctl := { c6_ctl c with c6_stall_ex := false } } in
  if negb (e6_valid l) then Some c
  else if c6_flush (c6_ctl c) then Some c
  else
    match C6_ex_body l c with
    | None => None
    | Some (Next result multi c) | Some (Jump result multi c) => ex_done l result multi c
    end.
End fpu.

(** ** Commit *)

Definition c6_drain_port (c : cpu) : option cpu :=
  let c := if 0 <? store_drain_remaining c
           then { c with store_drain_remaining := store_drain_remaining c - 1 } else c in
  if store_drain_remaining c =? 0 then
    match c6_drain_one c with
    | None => None
    | Some (drained, c) =>
        Some (if drained then { c with store_drain_remaining := store_write_penalty (c6_cfg c) } else c)
    end
  else Some c.

(** [clob.busy = false; clob.trans_id = -1] if the head is the last writer. *)
Definition clobber_commit (head_idx rd : Z) (clob : list ClobberInfo) : list ClobberInfo :=
  let ci := clob !!! Z.to_nat rd in
  if cl_trans_id ci =? head_idx then <[Z.to_nat rd := clobber_clear ci]> clob else clob.

(** The register of the entry at the head. *)
Definition commit_reg (e : SBEntry) (head_idx : Z) (c : cpu) : cpu :=
  let sb := c6_sb c in
  if sb_rd e =? 0 then c
  else if sb_writes_to_fp_reg e
  then { c with c6_sb := { sb with fp_clobber := clobber_commit head_idx (sb_rd e) (fp_clobber sb) } }
  else { c6_set_reg (sb_rd e) (sb_result e) c
           with c6_sb := { sb with rd_clobber := clobber_commit head_idx (sb_rd e) (rd_clobber sb) } }.

Definition commit_counts (e : SBEntry) (c : cpu) : cpu :=
  let p := priv (c6_csr c) in
  bump (if p =? PRIV_M then st_m_instrs else if p =? PRIV_S then st_s_instrs else st_u_instrs) 1
    (bump st_instructions 1
      { c with c6_ctl := { c6_ctl c with pending_priv_switch := None };
               commit_count_this_cycle := commit_count_this_cycle c + 1;
               pc_current := sb_pc e }).

(** One port; [false] is the [break]. *)
Definition c6_commit_port (c : cpu) : bool * cpu :=
  if negb (sb_head_ready (c6_sb c)) then (false, c)
  else
    let e := sb_get_head (c6_sb c) in
    let head_idx := sb_get_head_index (c6_sb c) in
    if sb_is_store e && commit_is_full C6_COMMIT (c6_stb c) then (false, c)
    else
      let c := if sb_is_store e then c6_commit_store c else c in
      (true, c6_retire (commit_counts e (commit_reg e head_idx c))).

Definition c6_commit_ports (c : cpu) : cpu :=
  let '(more, c) := c6_commit_port c in
  if more then (c6_commit_port c).2 else c.

Definition C6_Commit_stage (c : cpu) : option cpu :=
  match c6_drain_port c with
  | None => None
  | Some c =>
      let c := c6_commit_ports c in
      Some (if commit_count_this_cycle c =? 2 then bump st_dual_commits 1 c else c)
  end.

(** ** Interrupts *)

(** The address of the oldest instruction that has not committed. *)
Definition oldest_pc (c : cpu) : Z :=
  let r := c6_reg c in
  if negb (sb_is_empty (c6_sb c)) then sb_pc (sb_get_head (c6_sb c))
  else if e6_valid (c6_ie r) then e6_pc (c6_ie r)
  else if i6_valid (c6_ii r) then i6_pc (c6_ii r)
  else if f6_valid (c6_fi r) then f6_pc (c6_fi r)
  else if pf_valid (c6_pf r) then pf_pc (c6_pf r)
  else c6_next_pc (c6_ctl c).

Definition C6_process_IRQ (c : cpu) : cpu :=
  let cause := pending_interrupt (c6_csr c) in
  if cause <? 0 then c
  else
    let irq_epc := match pending_priv_switch (c6_ctl c) with Some epc => epc | None => oldest_pc c end in
    let hit := load_hit_fu (c6_units c) in
    let c := set_units (fun u => { u with load_hit_fu := hit }) (c6_flush_all c) in
    let '(tvec, csr) := take_interrupt (u64 cause) irq_epc (c6_csr c) in
    c6_redirect tvec
      { c with c6_csr := csr;
               c6_ctl := { c6_ctl c with pending_priv_switch := None; c6_stall_ex := false;
                           load_reservation := None; trap_pending := true; wfi_stall := false } }.

Definition C6_call_interrupt (m_trans : payload) (c : cpu) : cpu * Z :=
  ({ c with c6_interrupt := Some (le_combine (take 8 (p_data m_trans))) }, 0).

(** ** The cycle *)

Definition set_mip_line (b : Z) (v : bool) (csr : CSR_File) : CSR_File :=
  { csr with mip := if v then mip csr .| (1 .<< b) else mip csr .&~ (1 .<< b) }.
Definition sync_mip (l : irq_lines) (csr : CSR_File) : CSR_File :=
  set_mip_line 9 (ext_irq_in l) (set_mip_line 3 (msip_irq_in l) (set_mip_line 7 (timer_irq_in l) csr)).

(** The head of the loop in [wfi_stall]: the core wakes when an interrupt is pending. *)
Definition wfi_wake (l : irq_lines) (c : cpu) : cpu :=
  let k := c6_ctl c in
  let csr := c6_csr c in
  if wfi_stall k &&
     (negb ((mip csr .& mie csr) =? 0) || timer_irq_in l || msip_irq_in l || ext_irq_in l)
  then { c with c6_ctl := { k with wfi_stall := false } } else c.

Definition fq_of (fi : C6_Fetch_ID_Latch) : FetchQueueEntry :=
  mkFQ (f6_pc fi) (f6_instr fi) (f6_is_compressed fi) (f6_pred fi).
Definition fi_of (e : FetchQueueEntry) : C6_Fetch_ID_Latch :=
  mkC6FI (fq_pc e) (fq_instr e) true (fq_is_compressed e) (fq_pred e).

(** The transfer of the latches at the clock edge. *)
Definition c6_latch (c : cpu) : cpu :=
  let k := c6_ctl c in
  let r := c6_reg c in
  let n := c6_next c in
  if prev_cycle_flush k then
    { c with c6_reg := {| c6_pf := c6_pf n;
                          c6_fi := { c6_fi r with f6_valid := false };
                          c6_ii := { c6_ii r with i6_valid := false };
                          c6_ie := { c6_ie r with e6_valid := false } |} }
  else
    let q := if f6_valid (c6_fi n) && (length (fetch_queue c) <? FETCH_QUEUE_CAPACITY)%nat
             then fetch_queue c ++ [fq_of (c6_fi n)] else fetch_queue c in
    let stall := c6_stall_issue k in
    {c with fetch_queue := if stall then q else tail q;
            c6_next := { n with c6_fi := { c6_fi n with f6_valid := false } };
            c6_reg := {| c6_pf := c6_pf n;
                         c6_fi := if stall then c6_fi r
                                  else match q with
                                       | e :: _ => fi_of e
                                       | [] => { c6_fi r with f6_valid := false }
                                       end;
                         c6_ii := if stall then c6_ii r else c6_ii n;
                         c6_ie := if c6_stall_ex k then c6_ie r else c6_ie n |} }.

(** The pipeline has drained: the end of the simulation. *)
Definition C6_terminates (this_cycle_flush : bool) (c : cpu) : bool :=
  let r := c6_reg c in
  (100 <? c6_stats c st_cycles) && negb this_cycle_flush && negb (wfi_stall (c6_ctl c)) &&
  negb (pf_valid (c6_pf r)) && negb (pf_valid (c6_pf (c6_next c))) && negb (f6_valid (c6_fi r)) &&
  negb (i6_valid (c6_ii r)) && negb (e6_valid (c6_ie r)) && sb_is_empty (c6_sb c).

Section cycle.
Variable fpu : Z -> Z -> Z -> Z -> Z -> hart S -> list Z -> fpu_answer S.

(** The end of the turn. *)
Definition c6_cycle_end (this_cycle_flush : bool) (c : cpu) : cpu :=
  let c := bump st_cycles 1 c in
  let c := { c with c6_csr := tick_counters (commit_count_this_cycle c) (c6_csr c) } in
  if C6_terminates this_cycle_flush c then { c with c6_stopped := true }
  else { c with c6_ctl := { c6_ctl c with prev_cycle_flush := this_cycle_flush } }.

(** The stages, from the last to the first. *)
Definition c6_stages (c : cpu) : option cpu :=
  match C6_Commit_stage c with
  | None => None
  | Some c =>
    match C6_EX_stage fpu c with
    | None => None
    | Some c =>
      let this_cycle_flush := c6_flush (c6_ctl c) in
      match C6_Issue_stage c with
      | None => None
      | Some c =>
        match C6_Fetch_stage (C6_ID_stage c) with
        | None => None
        | Some c => Some (c6_cycle_end this_cycle_flush (C6_PCGen_stage c))
        end
      end
    end
  end.

(** One turn of [cycle_thread]; the interrupt lines are read before the wait for the
    clock edge, [before], and after it, [now]. *)
Definition C6_cycle (before now : irq_lines) (c : cpu) : option cpu :=
  if c6_stopped c then Some c
  else
    let c := wfi_wake before c in
    let c := { c with commit_count_this_cycle := 0;
                      c6_ctl := { c6_ctl c with pending_csr_write := None } } in
    let c := c6_latch c in
    c6_stages (C6_process_IRQ { c with c6_csr := sync_mip now (c6_csr c) }).

(** The lines change from edge to edge. *)
Fixpoint C6_cycles (lines : list irq_lines) (before : irq_lines) (c : cpu) : option cpu :=
  match lines with
  | [] => Some c
  | now :: lines =>
      match C6_cycle before now c with
      | Some c => C6_cycles lines now c
      | None => None
      end
  end.
End cycle.

(** The constructor, with [slots] slots for misses and the replacement policy of the
    caches; [bht0] is what the history table happens to hold. *)
Definition CPU_C6 (PC : Z) (bht0 : list Z) (slots : nat) (policy : Policy) (m : S) : cpu :=
  mkC6 (write_reg 3 0x10FF3 (write_reg 2 (Memory.SIZE - 8) { Registers 64 m with register_PC := PC }))
    (replicate 32 0) csr_new (mmu_new 2)
    (set_policy policy (cache_new 256 4)) (set_policy policy (cache_new 256 8))
    no_c6_latches no_c6_latches
    (mkC6Control PC false false false false false 0 false false false None false None None false)
    (mkC6Predictor (replicate 32 (mkC6BTB 0 0 false false)) bht0 [])
    (sb_new C6_SIZE) (stb_new C6_SPEC C6_COMMIT)
    (mkUnits fu_idle fu_idle (replicate FPU_SLOTS fu_idle) fu_idle (replicate slots fu_idle) fu_idle)
    [] 0 0 0 0 0 0 (fun _ => 0) c6_default None [] None false.
End ex.
