(* ===== verification/CpuC6Exec.v ===== *)
(** Decoding and execution in the six-stage RV64 core: what the decoder makes of an
    assembled instruction of RV64I or the M extension and of a compressed one, that
    [c6_switch] and the multiplier and divider compute what the architecture specifies,
    and the cycles of the divider. *)
From S2P Require Import Prelude Bytes Memory PhysMem Regs BaseISA BaseISAProofs MExt CExt CExtProofs ISASpec.
From S2P Require Import ROB Scoreboard StoreBuffer CpuP6 CpuP6Exec CpuC6 CpuC6Back.
Import RegsH.

(** ** The instructions *)

(** RV64I without FENCE and the system instructions. *)
Definition rv64i (op : opCodes) : bool :=
  match op with
  | OP_FENCE | OP_SFENCE => false
  | _ => match fmt op with Some (FU | FJ | FB | FI | FShift | FS | FR) => true | _ => false end
  end.

Inductive cins := CI (i : asm) | CM (op : op_M_Codes) (rd rs1 rs2 : Z).

Definition cins_ok (x : cins) : Prop :=
  match x with
  | CI i => asm_ok i /\ rv64i (a_op i) = true
  | CM op rd rs1 rs2 => op <> OP_M_ERROR /\ 0 <= rd < 32 /\ 0 <= rs1 < 32 /\ 0 <= rs2 < 32
  end.

Definition cdest (x : cins) : Z := match x with CI i => dest i | CM _ rd _ _ => rd end.
Definition csrc1 (x : cins) : Z := match x with CI i => src1 i | CM _ _ rs1 _ => rs1 end.
Definition csrc2 (x : cins) : Z := match x with CI i => src2 i | CM _ _ _ rs2 => rs2 end.
Definition copcode (x : cins) : Z :=
  match x with CI i => (code_of (a_op i)).1.1 | CM op _ _ _ => (m_code op).1 end.
Definition cimm (x : cins) : Z := match x with CI i => latch_imm i | CM _ _ _ _ => 0 end.

(** The fields the core looks at: [funct3] when there is one, [funct7] of the register
    operations and of the shifts of words. *)
Definition cfunct3 (x : cins) : option Z :=
  match x with
  | CI i => match fmt (a_op i) with Some (FU | FJ) => None | _ => Some (code_of (a_op i)).1.2 end
  | CM op _ _ _ => Some (m_code op).2
  end.
Definition cfunct7 (x : cins) : option Z :=
  match x with
  | CI i =>
      match fmt (a_op i) with
      | Some FR => Some (code_of (a_op i)).2
      | Some FShift => if copcode x =? 0x1B then Some (code_of (a_op i)).2 else None
      | _ => None
      end
  | CM _ _ _ _ => Some 1
  end.
Definition has_field (o : option Z) (v : Z) : Prop := match o with Some u => v = u | None => True end.

(** The word [w] holds the instruction [x] in [len] bytes. *)
Definition word_is (x : cins) (len w : Z) : Prop :=
  match x with
  | CI i => (len = 4 /\ w = encode i) \/
            (len = 2 /\ exists c, c_ok 64 c /\ u16 w = c_encode c /\ i = c_expand c)
  | CM op rd rs1 rs2 => len = 4 /\ w = m_encode op rd rs1 rs2
  end.

Lemma cdest_range x : cins_ok x -> 0 <= cdest x < 32.
Proof. destruct x; simpl; [intros [? _]; by apply dest_range|tauto]. Qed.
Lemma csrc1_range x : cins_ok x -> 0 <= csrc1 x < 32.
Proof. destruct x; simpl; [intros [? _]; by apply src1_range|tauto]. Qed.
Lemma csrc2_range x : cins_ok x -> 0 <= csrc2 x < 32.
Proof. destruct x; simpl; [intros [? _]; by apply src2_range|tauto]. Qed.

(** ** Decoding *)

(** What the latch to Issue holds for the instruction [x] of [len] bytes. *)
Record decoded6 (x : cins) (len pc : Z) (l : C6_ID_Issue_Latch) : Prop := {
  d6_pc : i6_pc l = pc;
  d6_valid : i6_valid l = true;
  d6_legal : i6_is_illegal l = false;
  d6_len : i6_is_compressed l = (len =? 2);
  d6_rd : i6_rd l = cdest x;
  d6_rs1 : i6_rs1 l = csrc1 x;
  d6_rs2 : i6_rs2 l = csrc2 x;
  d6_opcode : i6_opcode l = copcode x;
  d6_funct3 : has_field (cfunct3 x) (i6_funct3 l);
  d6_funct7 : has_field (cfunct7 x) (i6_funct7 l);
  d6_imm : i6_imm l = cimm x
}.

(** A word of 32 bits has its low bits set, a compressed one not. *)
Lemma land_3 w : w .& 3 = bits 1 0 w.
Proof. change 3 with (Z.ones 2). rewrite bits_div, Z.land_ones by lia. by rewrite Z.div_1_r. Qed.

Lemma word_is_length x len w :
  cins_ok x -> word_is x len w -> negb ((w .& 3) =? 3) = (len =? 2) /\ (len = 2 \/ len = 4).
Proof.
  intros Hx Hw. rewrite land_3. destruct x as [i|op rd rs1 rs2]; simpl in *.
  - destruct Hx as [Hi Hr]. destruct Hw as [[-> ->]|[-> (c & Hc & Hw & ->)]]; (split; [|by auto]).
    + destruct (decode_encode_lemma 64 i ltac:(by right) Hi) as (_ & Hd & _).
      by rewrite decode_low by (rewrite Hd; by apply (ao_op i)).
    + destruct (Z.eqb_spec (bits 1 0 w) 3) as [E|]; [|done]. exfalso.
      destruct (c_decode_encode_lemma 64 c w ltac:(by right) Hc Hw) as [Hd _].
      rewrite (c_decode_32 64) in Hd by done. destruct (c_ok_imm 64 c Hc) as (k & Hk & _).
      destruct (c_op c); try discriminate Hd. simpl in Hk. lia.
  - destruct Hw as [-> ->], Hx as (Hop & R0 & R1 & R2). split; [|by auto].
    pose proof (m_encode_word op rd rs1 rs2 R0 R1 R2) as Hw.
    rewrite low_bits. destruct Hw as (-> & ? & ? & ? & ? & ? & ?). rewrite word_opcode by done.
    by destruct op.
Qed.

Lemma c6_decode_fields l w :
  let l' := c6_decode w l in
  i6_pc l' = i6_pc l /\ i6_instr l' = i6_instr l /\ i6_opcode l' = opcode w /\ i6_funct3 l' = get_funct3 w /\
  i6_funct7 l' = get_funct7 w /\ i6_valid l' = true /\ i6_imm l' = c6_imm (opcode w) w /\
  i6_is_compressed l' = false /\ i6_is_illegal l' = i6_is_illegal l /\
  i6_rd l' = (if (opcode w =? 0x23) || (opcode w =? 0x27) || (opcode w =? 0x63) then 0 else get_rd w) /\
  i6_rs1 l' = (if (opcode w =? 0x37) || (opcode w =? 0x17) || (opcode w =? 0x6F) then 0 else get_rs1 w) /\
  i6_rs2 l' = (if (opcode w =? 0x37) || (opcode w =? 0x17) || (opcode w =? 0x6F) ||
                  ((opcode w =? 0x13) || (opcode w =? 0x1B) || (opcode w =? 0x03) || (opcode w =? 0x07) ||
                   (opcode w =? 0x67) ||
                   ((opcode w =? 0x73) && negb ((get_funct7 w =? 0x09) && (get_funct3 w =? 0))))
               then 0 else get_rs2 w).
Proof.
  assert (opcode w = w .& 0x7F) as E by (unfold opcode, bits; by rewrite Z.shiftr_0_r).
  intros l'. subst l'. rewrite E. split_and!; reflexivity.
Qed.

Lemma c6_imm_encode i :
  asm_ok i -> rv64i (a_op i) = true -> c6_imm (code_of (a_op i)).1.1 (encode i) = latch_imm i.
Proof.
  intros Hi Hr. pose proof (encode_codes i Hi) as Hc. pose proof (ao_imm i Hi) as Him.
  destruct (encode_word i Hi) as (f7 & rs2 & rs1 & f3 & rd & opc & Hw & _ & Ho).
  pose proof (is_word_decode _ _ _ _ _ _ _ Hw) as (Hf & _).
  destruct (decode_encode_lemma 32 i ltac:(by left) Hi) as (_ & _ & Hop).
  assert (get_funct7 (encode i) = f7) as E7
    by (destruct Hw as (-> & ? & ? & ? & ? & ? & ?); by apply word_funct7).
  unfold latch_imm, operands, imm_range in *. destruct (a_op i); try discriminate Hr;
    cbn [code_of fmt fst snd] in *; unfold c6_imm; cbn [Z.eqb Pos.eqb orb];
    rewrite ?imm_I, ?imm_S, ?imm_B, ?imm_J, ?imm_U by done; try tauto.
  1,2: by destruct Hop as [_ ->].
  all: rewrite (itype_imm 32 ltac:(by left) f7 rs2 rs1 f3 rd opc) by done.
  all: destruct Ho as (_ & _ & Ho), Hc as (_ & _ & Hc).
  all: destruct Hw as (_ & ? & ? & _).
  all: destruct (Z.leb_spec 64 f7); Z.to_euclidean_division_equations; lia.
Qed.

Lemma decode_base fi l i :
  asm_ok i -> rv64i (a_op i) = true -> f6_instr fi = encode i -> f6_is_compressed fi = false ->
  decoded6 (CI i) 4 (f6_pc fi) (c6_id_decode fi l).
Proof.
  intros Hi Hr Hw Hc. unfold c6_id_decode. rewrite Hc.
  pose proof (c6_decode_fields (c6_decode_start fi l) (f6_instr fi)) as F. cbv zeta in F. rewrite Hw in F |- *.
  destruct F as (F1 & _ & F3 & F4 & F5 & F6 & F7 & F8 & F9 & F10 & F11 & F12).
  pose proof (c6_imm_encode i Hi Hr) as Him. pose proof (encode_codes i Hi) as Hk.
  destruct (decode_encode_lemma 32 i ltac:(by left) Hi) as (_ & _ & Hop).
  destruct (code_of (a_op i)) as [[opc f3] f7] eqn:Ec. simpl in Him. destruct Hk as (Hk1 & Hk2 & Hk3).
  rewrite Hk1 in *. unfold operands, rv64i, imm_range in *. pose proof (ao_imm i Hi) as Hu. unfold imm_range in Hu.
  split; [exact F1|exact F6|by rewrite F9|by rewrite F8|..];
    unfold cdest, csrc1, csrc2, copcode, cimm, cfunct3, cfunct7.
  - rewrite F10. unfold dest. destruct (a_op i); try discriminate Hr; cbn [code_of fmt] in *; injection Ec as <- <- <-;
      cbn [Z.eqb Pos.eqb orb]; try done; tauto.
  - rewrite F11. unfold src1. destruct (a_op i); try discriminate Hr; cbn [code_of fmt] in *; injection Ec as <- <- <-;
      cbn [Z.eqb Pos.eqb orb]; try done; tauto.
  - rewrite F12. unfold src2. destruct (a_op i); try discriminate Hr; cbn [code_of fmt] in *; injection Ec as <- <- <-;
      cbn [Z.eqb Pos.eqb orb andb]; try done; tauto.
  - by rewrite Ec.
  - rewrite Ec, F4. simpl. by destruct (fmt (a_op i)) as [[]|].
  - unfold copcode. rewrite Ec, F5. simpl. destruct (fmt (a_op i)) as [[]|] eqn:Ef; try done.
    destruct (Z.eqb_spec opc 0x1B) as [->|]; [|done]. simpl. rewrite Hk3.
    destruct (a_op i); try discriminate Ec; try discriminate Ef; (rewrite Z.div_small by lia; lia).
  - by rewrite F7.
Qed.

Lemma decode_m fi l op rd rs1 rs2 :
  op <> OP_M_ERROR -> 0 <= rd < 32 -> 0 <= rs1 < 32 -> 0 <= rs2 < 32 ->
  f6_instr fi = m_encode op rd rs1 rs2 -> f6_is_compressed fi = false ->
  decoded6 (CM op rd rs1 rs2) 4 (f6_pc fi) (c6_id_decode fi l).
Proof.
  intros Hop R0 R1 R2 Hw Hc. unfold c6_id_decode. rewrite Hc.
  pose proof (c6_decode_fields (c6_decode_start fi l) (f6_instr fi)) as F. cbv zeta in F. rewrite Hw in F |- *.
  destruct F as (F1 & _ & F3 & F4 & F5 & F6 & F7 & F8 & F9 & F10 & F11 & F12).
  pose proof (m_encode_word op rd rs1 rs2 R0 R1 R2) as Hmw.
  assert (opcode (m_encode op rd rs1 rs2) = (m_code op).1 /\ get_funct3 (m_encode op rd rs1 rs2) = (m_code op).2 /\
          get_funct7 (m_encode op rd rs1 rs2) = 1 /\ get_rd (m_encode op rd rs1 rs2) = rd /\
          get_rs1 (m_encode op rd rs1 rs2) = rs1 /\ get_rs2 (m_encode op rd rs1 rs2) = rs2)
    as (E1 & E2 & E3 & E4 & E5 & E6).
  { destruct Hmw as (-> & ? & ? & ? & ? & ? & ?).
    rewrite word_opcode, word_funct3, word_funct7, word_rd, word_rs1, word_rs2 by done. done. }
  rewrite E1 in F3, F7, F10, F11, F12. rewrite E2 in F4, F12. rewrite E3 in F5, F12. rewrite E4 in F10. rewrite E5 in F11.
  rewrite E6 in F12. clear Hmw Hw E1 E2 E3 E4 E5 E6.
  set (l' := c6_decode _ _) in *. clearbody l'.
  split; simpl; [exact F1|exact F6|by rewrite F9|by rewrite F8|rewrite F10|rewrite F11|rewrite F12|exact F3|exact F4|exact F5|rewrite F7].
  all: by destruct op.
Qed.

(** *** Compressed instructions *)

(** The shift amount, by computation over the operands. *)
Definition check_shamt (op : op_C_Codes) : bool :=
  forallb (fun r1 => forallb (fun k => c6_shamt (c_encode (mkC op r1 0 k)) =? k) (range_list (0, 64%nat)))
    (range_list (c_ranges op).1.1).
Definition is_c_shift (op : op_C_Codes) : bool :=
  match op with OP_C_SRLI | OP_C_SRAI | OP_C_SLLI => true | _ => false end.

Lemma c6_shamt_encode c : c_ok 64 c -> is_c_shift (c_op c) = true -> c6_shamt (c_encode c) = c_imm c.
Proof.
  intros [H1 H2 (k & Hk & Hu) _] Hs. destruct c as [op r1 r2 u]. simpl in *.
  assert (r2 = 0) as -> by (destruct op; try discriminate Hs; unfold in_range in H2; cbn in H2; lia).
  assert (check_shamt op = true) as Hc by (destruct op; try discriminate Hs; by vm_compute).
  unfold check_shamt in Hc. rewrite forallb_forall in Hc. specialize (Hc r1 (elem_range_list _ _ H1)).
  rewrite forallb_forall in Hc. apply Z.eqb_eq, Hc, elem_range_list. unfold in_range.
  destruct op; try discriminate Hs; cbn in Hk, Hu |- *; lia.
Qed.

Lemma lor_srai u : 0 <= u < 64 -> u .| 0x400 = 0x20 * 32 + u.
Proof. intros. rewrite Z.lor_comm. change 0x400 with (1 .<< 10). rewrite (lor_shiftl_add u 1 10) by (unfold fits; lia). lia. Qed.

Lemma decode_compressed fi l c :
  c_ok 64 c -> rv64i (a_op (c_expand c)) = true -> u16 (f6_instr fi) = c_encode c ->
  f6_is_compressed fi = true -> decoded6 (CI (c_expand c)) 2 (f6_pc fi) (c6_id_decode fi l).
Proof.
  intros Hc Hr Hw Hcomp. unfold c6_id_decode. rewrite Hcomp.
  change 0xFFFF with (Z.ones 16). rewrite <-wrap_land, Hw by lia.
  assert (u16 (c_encode c) = c_encode c) as Hw' by (by rewrite <-Hw, wrap_idemp).
  destruct (c_decode_encode_lemma 64 c (c_encode c) ltac:(by right) Hc Hw') as [Hd Ho].
  pose proof (c6_shamt_encode c Hc) as Hsh. unfold c6_expand. rewrite Hd.
  unfold c_operands in Ho. set (w := c_encode c) in *. clearbody w. clear Hw Hw' Hd.
  destruct Hc as [H1 H2 (k & Hk & Hu) Hl]. destruct c as [op r1 r2 u]. unfold in_range in *.
  destruct op; simpl in Hr; try discriminate Hr; try discriminate Hl; simpl in H1, H2, Hk, Hu, Hl, Ho, Hsh |- *.
  10: assert (r1 <> 2) as Hr2. 10: { intros ->. unfold c_legal in Hl. simpl in Hl. by destruct (u =? 0). }
  all: try change (get_rd w) with (c_get_rs1 w) in Ho; try change (w .>> 7 .& 31) with (c_get_rs1 w).
  all: repeat match goal with H : _ /\ _ |- _ => destruct H end.
  all: repeat match goal with H : ?f ?x = _ |- context [?f ?x] => rewrite H; clear H end.
  all: try match goal with H : s32 (get_imm_CB _) = _ |- _ => rewrite H end.
  all: cbn in H1, H2.
  1: destruct (Z.eqb_spec u 0) as [->|]; [discriminate Hl|].

  9: rewrite Z.eqb_refl.
  10: rewrite (proj2 (Z.eqb_neq r1 2)) by done.
  all: try rewrite (Hsh eq_refl).
  all: try (split; reflexivity).
  - split; try reflexivity. simpl. change (s32 u = u). apply signed_id; lia.
  - split; try reflexivity. simpl. unfold latch_imm. simpl.
    rewrite <-(signed_id 32 (u * 2 ^ 12)) by lia. apply signed_mod. unfold wrap. euclid.
  - split; try reflexivity. simpl. unfold latch_imm. simpl. rewrite lor_srai by lia. done.
Qed.

(** Whatever the word holds, the latch to Issue is right. *)
Lemma c6_decoded x len fi l :
  cins_ok x -> word_is x len (f6_instr fi) ->
  f6_is_compressed fi = negb ((f6_instr fi .& 3) =? 3) -> decoded6 x len (f6_pc fi) (c6_id_decode fi l).
Proof.
  intros Hx Hw Hf. destruct (word_is_length x len _ Hx Hw) as [E _]. rewrite E in Hf.
  destruct x as [i|op rd rs1 rs2]; simpl in Hx, Hw.
  - destruct Hx as [Hi Hr], Hw as [[-> Hw]|[-> (c & Hc & Hw & ->)]].
    + by apply decode_base.
    + by apply decode_compressed.
  - destruct Hw as [-> Hw], Hx as (? & ? & ? & ?). by apply decode_m.
Qed.

(** ** Execution *)

(** The latch to EX for the instruction [x] with operands from the registers [r]. *)
Record issued6 (x : cins) (len pc : Z) (r : Z -> Z) (l : C6_Issue_EX_Latch) : Prop := {
  x6_pc : e6_pc l = pc;
  x6_a : e6_rs1_val l = r (csrc1 x);
  x6_b : e6_rs2_val l = r (csrc2 x);
  x6_imm : e6_imm l = cimm x;
  x6_rd : e6_rd l = cdest x;
  x6_opcode : e6_opcode l = copcode x;
  x6_funct3 : has_field (cfunct3 x) (e6_funct3 l);
  x6_funct7 : has_field (cfunct7 x) (e6_funct7 l);
  x6_len : e6_is_compressed l = (len =? 2);
  x6_valid : e6_valid l = true
}.

Lemma c6_dispatch_issued x len pc ii r rob_idx v1 v2 :
  decoded6 x len pc ii -> v1 = r (csrc1 x) -> v2 = r (csrc2 x) ->
  issued6 x len pc r (c6_dispatch ii v1 v2 rob_idx).
Proof. intros [] -> ->. by split. Qed.

Lemma signed_imm64 u : - 2 ^ 11 <= u < 2 ^ 11 -> s64 (u64 u) = u.
Proof. intros. rewrite signed_wrap. apply signed_id; lia. Qed.

Lemma land_ones6 x : x .& 0x3F = x mod 64.
Proof. change 0x3F with (Z.ones 6). by rewrite Z.land_ones. Qed.

Lemma srai_bit64 u : 0 <= u < 64 -> negb (((0x20 * 32 + u) .& 0x400) =? 0) = true.
Proof.
  intros Hu. change 0x400 with (1 .<< 10). rewrite land_bit, negb_involutive by lia.
  assert (bit 10 (0x20 * 32 + u) = 1) as E by (rewrite bit_div by lia; Z.to_euclidean_division_equations; lia).
  unfold bit in E. by destruct (Z.testbit _ 10).
Qed.
Lemma srli_bit64 u : 0 <= u < 64 -> negb ((u .& 0x400) =? 0) = false.
Proof.
  intros Hu. change 0x400 with (1 .<< 10). rewrite land_bit, negb_involutive by lia.
  apply (fits_testbit 6); unfold fits; lia.
Qed.

Lemma u32_mod_32 x : u32 x mod 32 = x mod 32.
Proof. exact (mod_mod_pow2 x 32 5 ltac:(lia)). Qed.

(** Words: the operation on the low half is the operation, cut. *)
Lemma word_shl a n : 0 <= n -> s32 (u32 (u32 a .<< n)) = s32 (a * 2 ^ n).
Proof. intros. by rewrite signed_wrap, Z.shiftl_mul_pow2, signed_mul_wrap_l by lia. Qed.

Section ex.
Variables (i : asm) (len pc : Z) (r : Z -> Z) (l : C6_Issue_EX_Latch).
Hypotheses (Hi : asm_ok i) (Hr : rv64i (a_op i) = true) (Hl : issued6 (CI i) len pc r l).
Hypothesis (Hlen : len = 2 \/ len = 4).

Ltac latch_fields :=
  destruct Hl as [Xpc Xa Xb Xim Xrd Xop Xf3 Xf7 Xlen _];
  pose proof (ao_imm i Hi) as Himm; unfold imm_range in Himm;
  unfold cimm, cfunct3, cfunct7, copcode, csrc1, csrc2, cdest, latch_imm, src1, src2, dest in *.
Ltac latch_case := cbn [code_of fmt fst snd Z.eqb Pos.eqb has_field copcode] in *.

Lemma e6_len_eq : e6_len l = len.
Proof.
  unfold e6_len. rewrite (x6_len _ _ _ _ _ Hl). by destruct Hlen as [-> | ->].
Qed.

Lemma is_m_false : is_m l = false.
Proof.
  latch_fields. unfold is_m. rewrite Xop.
  destruct (a_op i); try discriminate Hr; latch_case; rewrite ?Xf7; by rewrite ?andb_false_r.
Qed.

Lemma ex6_alu c :
  alu_class_of (a_op i) = Some c ->
  c6_switch l = (alu_spec 64 (a_op i) (asm_src1 i pc r) (asm_src2 64 c i r), false, 0).
Proof.
  intros Hc. pose proof is_m_false as Hm. latch_fields.
  unfold c6_switch, asm_src1, asm_src2. rewrite Hm.
  destruct (a_op i); try discriminate Hr; try discriminate Hc; injection Hc as <-; latch_case;
    try (simpl in Xf7);
    rewrite Xop; cbn [Z.eqb Pos.eqb]; cbv iota; unfold c6_op, c6_op_imm, c6_op_32, c6_op_imm_32;
    rewrite ?Xf3, ?Xf7, ?Xa, ?Xb, ?Xim, ?Xpc; cbn [Z.eqb Pos.eqb]; cbv iota;
    rewrite ?srai_bit64, ?srli_bit64 by lia; cbv iota;
    unfold alu_spec; rewrite ?land_ones6, ?land_31, ?Z.mul_0_l, ?Z.add_0_l;
    rewrite ?word_shl by (apply Z.mod_pos_bound; lia);
    rewrite ?Z.shiftl_mul_pow2, ?Z.shiftr_div_pow2 by (apply Z.mod_pos_bound; lia);
    rewrite ?wrap_add_r, ?signed_imm64 by lia; try reflexivity.
  all: rewrite ?signed_add, ?signed_sub, ?signed_add_wrap, ?u32_mod_32 by lia; try reflexivity.
  - by replace ((0x20 * 32 + a_imm i) mod 64) with (a_imm i mod 64)
      by (Z.to_euclidean_division_equations; lia).
  - by replace ((0x20 * 32 + a_imm i) mod 32) with (a_imm i mod 32)
      by (Z.to_euclidean_division_equations; lia).
Qed.

Lemma ex6_jump pc' :
  is_jump_op (a_op i) = true -> asm_next_pc 64 len i pc r = Some pc' ->
  c6_switch l = (u64 (pc + len), true, pc').
Proof.
  intros Hj Hpc. pose proof e6_len_eq as He. latch_fields. unfold asm_next_pc in Hpc. unfold c6_switch.
  rewrite He. destruct (a_op i); try discriminate Hj; latch_case; injection Hpc as <-;
    rewrite Xop; cbn [Z.eqb Pos.eqb]; cbv iota; rewrite ?Xpc, ?Xa, ?Xim; [done|].
  do 2 f_equal. change 1 with (Z.ones 1). rewrite Z.ldiff_ones_r by lia.
  rewrite Z.shiftr_div_pow2, Z.shiftl_mul_pow2 by lia. change (2 ^ 1) with 2. lia.
Qed.

Lemma ex6_cond pc' :
  is_cond_op (a_op i) = true -> asm_next_pc 64 len i pc r = Some pc' ->
  exists t, c6_switch l = (0, t, u64 (pc + a_imm i)) /\
    pc' = if t then u64 (pc + a_imm i) else u64 (pc + len).
Proof.
  intros Hj Hpc. latch_fields. unfold asm_next_pc in Hpc. unfold c6_switch.
  destruct (a_op i); try discriminate Hj; latch_case; injection Hpc as <-;
    rewrite Xop; cbn [Z.eqb Pos.eqb]; cbv iota; unfold c6_branch_taken;
    rewrite Xf3; cbn [Z.eqb Pos.eqb]; cbv iota; rewrite Xpc, Xa, Xb, Xim;
    (eexists; split; [reflexivity|]); by case_match.
Qed.

(** The opcode tests of [EX_stage]. *)
Lemma ex6_opcode_tests :
  (e6_opcode l =? 0x03) = bool_decide (is_Some (load_spec 64 (a_op i))) /\
  (e6_opcode l =? 0x23) = bool_decide (is_Some (store_spec (a_op i))) /\
  (e6_opcode l =? 0x2F) = false /\ (e6_opcode l =? 0x73) = false /\
  (e6_opcode l =? 0x63) = is_cond_op (a_op i) /\
  is_branch_op (e6_opcode l) = is_control_op (a_op i).
Proof.
  rewrite (x6_opcode _ _ _ _ _ Hl). simpl. by destruct (a_op i); try discriminate Hr.
Qed.
End ex.

(** ** The multiplier and the divider *)

Lemma quot_signed w a b :
  0 < w -> signed w b <> 0 ->
  signed w (Z.quot (signed w a) (signed w b)) =
    if (signed w a =? - 2 ^ (w - 1)) && (signed w b =? -1) then - 2 ^ (w - 1)
    else Z.quot (signed w a) (signed w b).
Proof.
  intros Hw Hb. pose proof (signed_range w a Hw) as Ra. pose proof (pow2_pos (w - 1) ltac:(lia)) as Hp.
  assert (2 ^ w = 2 * 2 ^ (w - 1)) as E2 by (rewrite <-Z.pow_succ_r by lia; f_equal; lia).
  destruct (Z.eqb_spec (signed w a) (- 2 ^ (w - 1))) as [Ea|Ea], (Z.eqb_spec (signed w b) (-1)) as [Eb|Eb]; simpl.
  1: { rewrite Ea, Eb. replace (Z.quot (- 2 ^ (w - 1)) (-1)) with (2 ^ (w - 1))
         by (change (-1) with (Z.opp 1); by rewrite Z.quot_opp_opp, Z.quot_1_r).
       unfold signed. rewrite wrap_small by (unfold fits; lia).
       rewrite (proj2 (Z.ltb_ge _ _)) by lia. lia. }
  all: apply signed_id; [lia|]; apply quot_range; (lia || tauto).
Qed.

Lemma rem_overflow w a b :
  0 < w -> (if (signed w a =? - 2 ^ (w - 1)) && (signed w b =? -1) then 0 else Z.rem (signed w a) (signed w b)) =
           Z.rem (signed w a) (signed w b).
Proof.
  intros Hw. destruct (Z.eqb_spec (signed w b) (-1)) as [->|]; [|by rewrite andb_false_r].
  rewrite andb_true_r. case_match; [|done].
  change (-1) with (Z.opp 1). by rewrite Z.rem_opp_r, Z.rem_1_r by lia.
Qed.

Lemma c6_mul_spec op a b :
  (m_code op).1 = 0x33 -> fits 64 a -> fits 64 b -> c6_mul (m_code op).2 a b = m_spec 64 op a b.
Proof.
  intros Hop Ha Hb. unfold c6_mul, m_spec.
  destruct op; try discriminate Hop; cbn [m_code snd Z.eqb Pos.eqb]; cbv iota;
    rewrite ?Z.shiftr_div_pow2 by lia.
  - by rewrite wrap_mul_signed by lia.
  - done.
  - unfold wrap. change (2 ^ 128) with (2 ^ 64 * 2 ^ 64). rewrite Z.rem_mul_r by lia.
    rewrite Z.add_comm, Z.mul_comm, Z.div_add_l by lia.
    rewrite (Z.div_small (_ mod 2 ^ 64)) by (apply Z.mod_pos_bound; lia).
    by rewrite Z.add_0_r, Zmod_mod.
  - apply wrap_small. by apply high_fits.
  - destruct (Z.eqb_spec (s64 b) 0) as [|Hz]; [done|].
    rewrite <-(wrap_signed 64 (Z.quot _ _)), quot_signed by lia. change (64 - 1) with 63.
    case_match eqn:E; [|done]. apply andb_prop in E as [E _]. by rewrite (proj1 (Z.eqb_eq _ _) E).
  - done.
  - destruct (Z.eqb_spec (s64 b) 0) as [|Hz]; [by rewrite wrap_signed, wrap_small by (lia || done)|].
    rewrite <-(rem_overflow 64) by lia. change (64 - 1) with 63. by case_match.
  - done.
Qed.

Lemma c6_mulw_spec op a b :
  (m_code op).1 = 0x3B -> c6_mulw (m_code op).2 a b = m_spec 64 op a b.
Proof.
  intros Hop. unfold c6_mulw, m_spec.
  destruct op; try discriminate Hop; cbn [m_code snd Z.eqb Pos.eqb]; cbv iota.
  - rewrite signed_mul_l by lia. by rewrite (Z.mul_comm a), signed_mul_l, Z.mul_comm by lia.
  - destruct (Z.eqb_spec (s32 b) 0) as [|Hz]; [done|]. rewrite quot_signed by lia. change (32 - 1) with 31.
    case_match eqn:E; [|done]. apply andb_prop in E as [E _]. by rewrite (proj1 (Z.eqb_eq _ _) E).
  - destruct (Z.eqb_spec (u32 b) 0); [done|]. done.
  - destruct (Z.eqb_spec (s32 b) 0) as [|Hz]; [done|].
    rewrite (rem_overflow 32) by lia. rewrite (signed_id 32 (Z.rem _ _)); [done|lia|].
    apply (rem_range (2 ^ 31)); [lia|by apply (signed_range 32)|done].
  - destruct (Z.eqb_spec (u32 b) 0); [by rewrite signed_wrap|done].
Qed.

(** *** The cycles of the divider *)

Lemma top_mask v k :
  0 <= k <= 64 -> fits 64 v -> ((v .& (Z.ones k .<< (64 - k))) =? 0) = (v <? 2 ^ (64 - k)).
Proof.
  intros Hk Hv. destruct (Z.ltb_spec v (2 ^ (64 - k))) as [Hl|Hg].
  - apply Z.eqb_eq, Z.bits_inj'. intros j Hj. rewrite Z.land_spec, Z.bits_0.
    destruct (Z.lt_ge_cases j (64 - k)).
    + by rewrite Z.shiftl_spec_low, andb_false_r by lia.
    + rewrite (fits_testbit (64 - k)); [done|lia|unfold fits in *; lia|lia].
  - apply Z.eqb_neq. intros E. pose proof (pow2_pos (64 - k) ltac:(lia)).
    assert (0 < v) as Hp by lia. pose proof (Z.log2_spec v Hp) as [_ L].
    assert (64 - k <= Z.log2 v) by (rewrite <-(Z.log2_pow2 (64 - k)) by lia; by apply Z.log2_le_mono).
    assert (Z.log2 v < 64) by (apply Z.log2_lt_pow2; [done|apply Hv]).
    assert (Z.testbit (v .& (Z.ones k .<< (64 - k))) (Z.log2 v) = true) as T.
    { rewrite Z.land_spec, Z.bit_log2 by done. simpl.
      rewrite Z.shiftl_spec_high, Z.ones_spec_low by lia. done. }
    by rewrite E, Z.bits_0 in T.
Qed.

(** One step of the search: the [k] top bits. *)
Lemma clz_step L n v k :
  0 < k <= 32 -> 0 < v -> fits 64 v -> Z.log2 v = L + n -> 64 - 2 * k <= Z.log2 v ->
  let '(n', v') := if (v .& (Z.ones k .<< (64 - k))) =? 0 then (n + k, u64 (v .<< k)) else (n, v) in
  0 < v' /\ fits 64 v' /\ Z.log2 v' = L + n' /\ 64 - k <= Z.log2 v'.
Proof.
  intros Hk Hv Hf HL Hlo. rewrite top_mask by (done || lia).
  destruct (Z.ltb_spec v (2 ^ (64 - k))) as [Hl|Hg].
  - assert (Z.log2 v < 64 - k) by (by apply Z.log2_lt_pow2).
    rewrite Z.shiftl_mul_pow2 by lia. pose proof (pow2_pos k ltac:(lia)).
    rewrite wrap_small.
    2: { unfold fits. replace 64 with (64 - k + k) by lia. rewrite Z.pow_add_r by lia. nia. }
    split; [nia|]. split.
    { unfold fits. replace 64 with (64 - k + k) by lia. rewrite Z.pow_add_r by lia. nia. }
    rewrite Z.log2_mul_pow2 by lia. lia.
  - split_and!; try done. rewrite <-(Z.log2_pow2 (64 - k)) by lia. apply Z.log2_le_mono. lia.
Qed.

Lemma clz64_log2 v : 0 < v -> fits 64 v -> clz64 v = 63 - Z.log2 v.
Proof.
  intros Hv Hf. unfold clz64. rewrite (proj2 (Z.eqb_neq v 0)) by lia.
  change 0xFFFFFFFF00000000 with (Z.ones 32 .<< (64 - 32)). change 0xFFFF000000000000 with (Z.ones 16 .<< (64 - 16)).
  change 0xFF00000000000000 with (Z.ones 8 .<< (64 - 8)). change 0xF000000000000000 with (Z.ones 4 .<< (64 - 4)).
  change 0xC000000000000000 with (Z.ones 2 .<< (64 - 2)). change 0x8000000000000000 with (Z.ones 1 .<< (64 - 1)).
  cbn [foldl].
  pose proof (Z.log2_nonneg v).
  pose proof (clz_step (Z.log2 v) 0 v 32 ltac:(lia) Hv Hf ltac:(lia) ltac:(lia)) as S1.
  destruct (if _ .& (Z.ones 32 .<< _) =? 0 then _ else _) as [n1 v1]. destruct S1 as (V1 & F1 & L1 & B1).
  pose proof (clz_step _ n1 v1 16 ltac:(lia) V1 F1 L1 ltac:(lia)) as S2.
  destruct (if _ .& (Z.ones 16 .<< _) =? 0 then _ else _) as [n2 v2]. destruct S2 as (V2 & F2 & L2 & B2).
  pose proof (clz_step _ n2 v2 8 ltac:(lia) V2 F2 L2 ltac:(lia)) as S3.
  destruct (if _ .& (Z.ones 8 .<< _) =? 0 then _ else _) as [n3 v3]. destruct S3 as (V3 & F3 & L3 & B3).
  pose proof (clz_step _ n3 v3 4 ltac:(lia) V3 F3 L3 ltac:(lia)) as S4.
  destruct (if _ .& (Z.ones 4 .<< _) =? 0 then _ else _) as [n4 v4]. destruct S4 as (V4 & F4 & L4 & B4).
  pose proof (clz_step _ n4 v4 2 ltac:(lia) V4 F4 L4 ltac:(lia)) as S5.
  destruct (if _ .& (Z.ones 2 .<< _) =? 0 then _ else _) as [n5 v5]. destruct S5 as (V5 & F5 & L5 & B5).
  pose proof (clz_step _ n5 v5 1 ltac:(lia) V5 F5 L5 ltac:(lia)) as S6.
  destruct (if _ .& (Z.ones 1 .<< _) =? 0 then _ else _) as [n6 v6]. destruct S6 as (V6 & F6 & L6 & B6).
  simpl. assert (Z.log2 v6 < 64) by (apply Z.log2_lt_pow2; [done|apply F6]). lia.
Qed.

Lemma clz64_range v : fits 64 v -> 0 <= clz64 v <= 64.
Proof.
  intros Hv. destruct (decide (v = 0)) as [->|]; [by vm_compute|].
  rewrite clz64_log2 by (unfold fits in *; (done || lia)). pose proof (Z.log2_nonneg v).
  assert (Z.log2 v < 64) by (apply Z.log2_lt_pow2; unfold fits in *; lia). lia.
Qed.

(** What the divider counts: nothing for a quotient that is zero, otherwise the bits of
    the quotient. *)
Lemma div_cycles_unsigned A B :
  fits 64 A -> fits 64 B -> 0 < A -> 0 < B ->
  div_cycles false A B = if Z.log2 A <? Z.log2 B then 1 else Z.log2 A - Z.log2 B + 6.
Proof.
  intros HA HB PA PB. unfold div_cycles. cbn [andb].
  rewrite !(proj2 (Z.eqb_neq _ 0)) by lia. cbn [andb orb]. rewrite !orb_false_r.
  rewrite !clz64_log2 by done.
  destruct (Z.ltb_spec (Z.log2 A) (Z.log2 B)), (Z.ltb_spec (63 - Z.log2 B - (63 - Z.log2 A)) 0); lia.
Qed.

Lemma div_cycles_range s A B : fits 64 A -> fits 64 B -> 1 <= div_cycles s A B <= 69.
Proof.
  intros HA HB. unfold div_cycles.
  set (a := if s && (s64 A <? 0) then u64 (Z.lnot A + 1) else A).
  set (b := if s && (s64 B <? 0) then u64 (Z.lnot B) else B).
  assert (fits 64 a) as Fa by (subst a; case_match; [by apply wrap_fits|done]).
  assert (fits 64 b) as Fb by (subst b; case_match; [by apply wrap_fits|done]).
  pose proof (clz64_range a Fa). pose proof (clz64_range b Fb).
  destruct (Z.eqb_spec b 0) as [|Hb].
  - destruct (s && (s64 B <? 0)); cbn [andb orb negb]; rewrite ?orb_true_r; cbn [orb]; lia.
  - cbn [andb]. rewrite !orb_false_r. rewrite clz64_log2 by (done || (unfold fits in Fb; lia)).
    pose proof (Z.log2_nonneg b).
    destruct (Z.eqb_spec a 0); match goal with |- context [?x <? 0] => destruct (Z.ltb_spec x 0) end. all: lia.
Qed.

Section exm.
Variables (op : op_M_Codes) (rd rs1 rs2 len pc : Z) (r : Z -> Z) (l : C6_Issue_EX_Latch).
Hypotheses (Hx : cins_ok (CM op rd rs1 rs2)) (Hl : issued6 (CM op rd rs1 rs2) len pc r l).
Hypotheses (Ha : fits 64 (r rs1)) (Hb : fits 64 (r rs2)).

Lemma ex6_m :
  is_m l = true /\ c6_switch l = (0, false, 0) /\ m_result l = m_spec 64 op (r rs1) (r rs2) /\
  (4 <=? e6_funct3 l) = (4 <=? (m_code op).2).
Proof.
  destruct Hl as [Xpc Xa Xb Xim Xrd Xop Xf3 Xf7 Xlen _]. cbn [copcode cfunct3 cfunct7 has_field csrc1 csrc2] in *.
  destruct Hx as [Hop _]. unfold is_m, c6_switch, m_result, is_m. rewrite Xop, Xf3, Xf7, Xa, Xb.
  assert ((m_code op).1 = 0x33 \/ (m_code op).1 = 0x3B) as [E|E] by (destruct op; auto; done);
    rewrite E; cbn [Z.eqb Pos.eqb andb orb]; split_and!; try done.
  - by apply c6_mul_spec.
  - by apply c6_mulw_spec.
Qed.

Lemma m_cycles_range : 1 <= m_cycles l <= 69.
Proof.
  destruct Hl as [_ Xa Xb _ _ _ _ _ _ _]. cbn [csrc1 csrc2] in *. unfold m_cycles. rewrite Xa, Xb.
  repeat case_match; apply div_cycles_range; try done; try (by apply wrap_fits).
  all: apply (fits_mono 32); [lia|lia|by apply wrap_fits].
Qed.

Lemma ex6_m_tests :
  (e6_opcode l =? 0x03) = false /\ (e6_opcode l =? 0x23) = false /\ (e6_opcode l =? 0x2F) = false /\
  (e6_opcode l =? 0x73) = false /\ (e6_opcode l =? 0x63) = false /\ is_branch_op (e6_opcode l) = false.
Proof.
  rewrite (x6_opcode _ _ _ _ _ Hl). destruct Hx as [Hop _]. simpl. by destruct op.
Qed.
End exm.

(** ** The properties *)

(** C5: decoding and execution in the six-stage RV64 core are those of the architecture:
    whatever 32-bit or compressed encoding the fetched word holds and whatever the
    decode latch held before, the instruction that Issue dispatches from it computes
    the result, the direction and the target of the specification of RV64I and of the M
    extension, without the departures of the other cores. *)
Theorem c6_executes_isa x len fi l0 (r : Z -> Z) idx :
  cins_ok x -> word_is x len (f6_instr fi) -> f6_is_compressed fi = negb ((f6_instr fi .& 3) =? 3) ->
  (forall n, 0 <= n < 32 -> fits 64 (r n)) ->
  let l := c6_dispatch (c6_id_decode fi l0) (r (csrc1 x)) (r (csrc2 x)) idx in
  match x with
  | CI i =>
      (forall c, alu_class_of (a_op i) = Some c ->
         c6_switch l = (alu_spec 64 (a_op i) (asm_src1 i (f6_pc fi) r) (asm_src2 64 c i r), false, 0)) /\
      (forall pc', asm_next_pc 64 len i (f6_pc fi) r = Some pc' ->
         exists result taken target, c6_switch l = (result, taken, target) /\
           (links (a_op i) = true -> result = u64 (f6_pc fi + len)) /\
           pc' = (if taken then target else u64 (f6_pc fi + len)))
  | CM op rd rs1 rs2 => is_m l = true /\ m_result l = m_spec 64 op (r rs1) (r rs2)
  end.
Proof.
  intros Hx Hw Hf Hr l. destruct (word_is_length x len _ Hx Hw) as [_ Hlen].
  pose proof (c6_dispatch_issued x len (f6_pc fi) _ r idx _ _ (c6_decoded x len fi l0 Hx Hw Hf) eq_refl eq_refl) as Hl.
  fold l in Hl. clearbody l. destruct x as [i|op rd rs1 rs2].
  - destruct Hx as [Hi Hb]. split; [intros c Hc; by apply (ex6_alu i len)|].
    intros pc' Hpc. pose proof Hpc as Hpc'. unfold asm_next_pc in Hpc'.
    destruct (is_jump_op (a_op i)) eqn:Ej.
    + eexists _, _, _. split; [by eapply (ex6_jump i len _ r)|by split].
    + destruct (ex6_cond i len _ r l Hi Hb Hl pc') as (t & -> & ->).
      * by destruct (a_op i).
      * done.
      * eexists _, _, _. split; [done|]. split; [by destruct (a_op i)|by destruct t].
  - destruct (ex6_m op rd rs1 rs2 len _ r l Hx Hl) as (? & _ & ? & _); [apply Hr, Hx..|done].
Qed.

(** C.SRAI of a negative value. *)
Lemma c6_executes_isa_witness :
  let c := mkC OP_C_SRAI 8 0 40 in
  let fi := mkC6FI 0x100 (c_encode c) true true no_prediction in
  let l := c6_dispatch (c6_id_decode fi (c6_ii no_c6_latches)) (2 ^ 64 - 2 ^ 44) 0 3 in
  c6_switch l = (2 ^ 64 - 2 ^ 4, false, 0).
Proof.
  intros c fi l.
  destruct (c6_executes_isa (CI (c_expand c)) 2 fi (c6_ii no_c6_latches)
              (fun n => if n =? 8 then 2 ^ 64 - 2 ^ 44 else 0) 3) as [Ha _].
  - split; [|done]. split; unfold imm_range; simpl; try done; lia.
  - right. split; [done|]. exists c. split; [|by split]. split; try (unfold in_range; simpl; lia); [|done].
    exists 40%nat. simpl. lia.
  - done.
  - intros n Hn. unfold fits. case_match; lia.
  - specialize (Ha ALU_shift eq_refl). vm_compute in Ha |- *. exact Ha.
Defined.

(** The divider of the six-stage RV64 core takes from 1 to 69 cycles, and for
    unsigned operands one cycle when the quotient is zero and otherwise six more than
    the difference of the operands' highest bits. *)
Theorem c6_divider_cycles s A B :
  fits 64 A -> fits 64 B ->
  1 <= div_cycles s A B <= 69 /\
  (0 < A -> 0 < B -> div_cycles false A B = if Z.log2 A <? Z.log2 B then 1 else Z.log2 A - Z.log2 B + 6).
Proof. intros HA HB. split; [by apply div_cycles_range|]. intros. by apply div_cycles_unsigned. Qed.

Lemma c6_divider_cycles_witness : div_cycles false (2 ^ 63) 1 = 69.
Proof. destruct (c6_divider_cycles false (2 ^ 63) 1) as [_ E]; [unfold fits; lia..|]. by rewrite E. Defined.
