(* ===== verification/CpuC6Run.v ===== *)
(** Runs of the six-stage RV64 core from reset: a program, and what the core gets wrong. *)
From S2P Require Import Prelude Ring Bytes Memory PhysMem Regs BaseISA BaseISAProofs.
From S2P Require Import MExt AExt CExt CExtProofs CpuSimple ISASpec Scoreboard StoreBuffer TLB Cache CSR MMU.
From S2P Require Import CpuP6 CpuP6Run CpuC6 CpuC6Back CpuC6Ex.
Import RegsH.

(** ** Reset and observation *)

Definition no_fpu (_ _ _ _ _ : Z) (_ : hart memory) (_ : list Z) : fpu_answer memory := FpuIllegal.
Definition quiet : irq_lines := mkIrq false false false.
Definition c6_boot (l : list Z) : C6_cpu memory :=
  CPU_C6 0x100 (replicate 128 0) 2 LFSR { memory0 with mem := place_words 0x100 l (mem memory0) }.
Definition c6_observe {A} (f : C6_cpu memory -> A) (n : nat) (c : C6_cpu memory) : option A :=
  f <$> C6_cycles no_fpu (replicate n quiet) quiet c.

Definition c6_reg_at (n : Z) (c : C6_cpu memory) : Z := reg (c6_core c) n.
Definition w_addi (rd rs1 imm : Z) : Z := encode (mkAsm OP_ADDI rd rs1 0 imm).
Definition w_ld (rd rs1 imm : Z) : Z := encode (mkAsm OP_LD rd rs1 0 imm).
Definition w_sd (rs2 rs1 imm : Z) : Z := encode (mkAsm OP_SD 0 rs1 rs2 imm).
Definition w_jal (imm : Z) : Z := encode (mkAsm OP_JAL 0 0 0 imm).

(** A store, a load of the same address and a division. *)
Example c6_runs :
  c6_observe (fun c => (c6_reg_at 6 c, c6_reg_at 7 c)) 60
    (c6_boot [w_addi 5 0 0x7FF; w_sd 5 0 0x700; w_ld 6 0 0x700; m_encode OP_M_DIVU 7 6 5; self]) =
  Some (0x7FF, 1).
Proof. by vm_compute. Qed.

(** ** Defects *)

(** EX waits for a store that a load overlaps in part while the fetch of the next line is
    served: the line is delivered more than once, and of twelve additions sixteen are
    executed. *)
Example c6_stall_repeats_fetch :
  c6_observe (c6_reg_at 7) 150
    (c6_boot ([w_addi 5 0 0x700; w_ld 8 5 0x40; encode (mkAsm OP_SB 0 5 5 0); w_ld 6 5 0] ++
              replicate 12 (w_addi 7 7 1) ++ [self])) = Some 16.
Proof. by vm_compute. Qed.

(** A program of up to 16 words in user mode, with the physical memory protection granting
    the memory up to [limit]; the trap handler at 0x140 loops. *)
Definition c6_user (limit : Z) (l : list Z) : C6_cpu memory :=
  let c := c6_boot (take 16 (l ++ replicate 16 (w_addi 0 0 0)) ++ [self]) in
  { c with c6_csr := { c6_csr c with priv := PRIV_U; mtvec := 0x140; pmpcfg := 0x0F :: replicate 15 0;
                                     pmpaddr := (limit / 4) :: replicate 15 0 } }.

(** A loop at the end of the permitted code: the fetch beyond the jump traps although the
    program does not go there, and the instruction that was dispatched in that cycle is
    lost, after which nothing commits any more. *)
Example c6_speculative_fetch_traps :
  (fun n => c6_observe (fun c => (mcause (c6_csr c), mepc (c6_csr c), c6_stats c st_instructions)) n
     (c6_user 0x110 [w_addi 5 5 1; w_addi 0 0 0; w_addi 0 0 0; w_jal (-12)])) <$> [40%nat; 200%nat] =
  [Some (CAUSE_INSTR_ACCESS, 0x110, 2); Some (CAUSE_INSTR_ACCESS, 0x110, 2)].
Proof. by vm_compute. Qed.

(** Outside of the permitted memory a load traps, but a load that is not aligned and an
    atomic operation do not. *)
Example c6_pmp_not_checked :
  (fun w => c6_observe (fun c => mcause (c6_csr c)) 30
     (c6_user 0x400 [w_addi 5 0 0x708; w; self])) <$>
    [w_ld 6 0 0x700; w_ld 6 0 0x701; a_encode OP_A_AMOADD_D 0 6 5 0] =
  [Some CAUSE_LOAD_ACCESS; Some 0; Some 0].
Proof. by vm_compute. Qed.

(** The system call in machine mode reads the registers when it executes: the [li a7, 93]
    before it has not committed, and the program is not stopped. *)
Example c6_syscall_stale_registers :
  (fun l => c6_observe (fun c => (c6_stopped c, c6_reg_at 10 c)) 80 (c6_boot (l ++ [0x73; self]))) <$>
    [[w_ld 8 0 0x700; w_addi 10 0 7; w_addi 17 0 93];
     [w_addi 10 0 7; w_addi 17 0 93] ++ replicate 12 (w_addi 0 0 0)] =
  [Some (false, 2 ^ 64 - 38); Some (true, 7)].
Proof. by vm_compute. Qed.

(** A word with no instruction: x5 is written with 0 and no exception is taken. *)
Example c6_unknown_opcode_writes_zero :
  c6_observe (fun c => (c6_reg_at 5 c, mcause (c6_csr c))) 40
    (c6_boot [w_addi 5 0 7; 0x28B; self]) = Some (0, 0).
Proof. by vm_compute. Qed.

(** An instruction that is known to be illegal when it is issued drops the load before it. *)
Example c6_illegal_drops_older :
  (fun l => c6_observe (c6_reg_at 8) 60 (c6_boot (w_ld 8 0 0x100 :: l))) <$> [[0]; [self]] =
  [Some 0; Some 477009818627].
Proof. by vm_compute. Qed.

(** A load that is not aligned reads the memory below the store buffer. *)
Example c6_misaligned_load_stale :
  c6_observe (c6_reg_at 6) 60 (c6_boot [w_addi 5 0 0x7FF; w_sd 5 0 0x700; w_ld 6 0 0x701; self]) = Some 0.
Proof. by vm_compute. Qed.

(** A penalty of one cycle for a miss: the miss never ends. *)
Example c6_miss_penalty_one :
  let c := c6_boot [w_ld 6 0 0x700; self] in
  (fun n => c6_observe (fun c => c6_stats c st_instructions) n { c with c6_cfg := { c6_cfg c with dcache_miss_penalty := 1 } }) <$>
    [40%nat; 200%nat] = [Some 0; Some 0].
Proof. by vm_compute. Qed.
