(* ===== verification/CpuC6Float.v ===== *)
(** The six-stage RV64 core with its floating-point unit: the unit of [DExt.v] as the argument of
    the stages of [CpuC6Ex.v], and runs from reset. *)
From S2P Require Import Prelude Ring Bytes Memory PhysMem Regs BaseISA BaseISAProofs FloatArith FExt DExt FloatProofs.
From S2P Require Import MExt AExt CExt CExtProofs CpuSimple ISASpec Scoreboard StoreBuffer TLB Cache CSR MMU.
From S2P Require Import CpuP6 CpuP6Run CpuC6 CpuC6Back CpuC6Ex CpuC6Run.
Import RegsH.

(** [f_inst] and [d_inst]. *)
Definition c6_fpu {S} `{Target S} `{host} (m_instr rs1_val rs2_val rd pa : Z) (h : hart S) (fp : list Z) :
    fpu_answer S :=
  match fpu_execute 64 m_instr rs1_val rs2_val rd pa h fp with
  | None => FpuIllegal
  | Some None => FpuThrows
  | Some (Some (latency, fl, h, fp)) => FpuDone latency fl h fp
  end.

(** ** The execution stage *)



Section runs.
#[local] Existing Instance canonical_host.
Definition cf_observe {A} (f : C6_cpu memory -> A) (n : nat) (c : C6_cpu memory) : option A :=
  f <$> C6_cycles c6_fpu (replicate n quiet) quiet c.

Definition csrrwi (a imm : Z) : Z := (a .<< 20) .| (imm .<< 15) .| (5 .<< 12) .| 0x73.



(** 21 converted, added to itself and converted back; 1 / 3, whose bits are moved to x7 after the
    divider has delivered them. *)
Example c6_float_runs :
  cf_observe (fun c => (c6_reg_at 6 c, c6_stats c st_instructions, CSR.fcsr (c6_csr c))) 80
    (c6_boot [w_addi 5 0 21; fp_word 0x69 0 5 0 1; fp_word 0x01 1 1 0 2; fp_word 0x61 0 2 1 6; self]) =
  Some (42, 31, 0) /\
  cf_observe (fun c => (c6_reg_at 7 c, CSR.fcsr (c6_csr c))) 80
    (c6_boot [w_addi 5 0 1; fp_word 0x69 0 5 0 1; w_addi 5 0 3; fp_word 0x69 0 5 0 2; fp_word 0x0D 2 1 0 2;
              fp_word 0x71 0 2 0 7; self]) =
  Some (0x3FD5555555555555, 1).
Proof. by vm_compute. Qed.

(** The rounding mode that a program writes to frm is not the one of the unit: after frm := 3,
    upwards, 1 / 3 is rounded to nearest. *)
Example c6_frm_not_seen :
  cf_observe (fun c => (c6_reg_at 7 c, CSR.fcsr (c6_csr c))) 90
    (c6_boot [csrrwi 0x002 3; w_addi 5 0 1; fp_word 0x69 0 5 0 1; w_addi 5 0 3; fp_word 0x69 0 5 0 2;
              fp_word 0x0D 2 1 7 2; fp_word 0x71 0 2 0 7; self]) =
  Some (0x3FD5555555555555, 0x61).
Proof. by vm_compute. Qed.
End runs.
