(* ===== verification/CpuC6Inv.v ===== *)
(** The state invariant of the six-stage RV64 core [CPURV64P6_Cycle], component by component:
    the predicates and their preservation by the operations of the scoreboard, the store
    buffer, the units, the predictor and the decoder.  [CpuC6Safe.v] carries it through the
    stages. *)
From S2P Require Import Prelude Ring Bytes Memory Regs BaseISA CExt FloatProofs Scoreboard StoreBuffer TLB Cache CSR CSRWidth MMU TotalMem.
From S2P Require Import CpuP6 CpuC6 CpuC6Back CpuC6Ex.
Import RegsH.

(** A register number. *)
Definition reg_ok (r : Z) : Prop := 0 <= r < 32.

(** ** Latches *)

Definition fi_ok (l : C6_Fetch_ID_Latch) : Prop := fits 64 (f6_pc l) /\ fits 32 (f6_instr l).

Record ii_ok (l : C6_ID_Issue_Latch) : Prop := {
  iik_pc : fits 64 (i6_pc l);
  iik_instr : fits 32 (i6_instr l);
  iik_rd : reg_ok (i6_rd l);
  iik_rs1 : reg_ok (i6_rs1 l);
  iik_rs2 : reg_ok (i6_rs2 l)
}.

Record ie_ok (l : C6_Issue_EX_Latch) : Prop := {
  iek_pc : fits 64 (e6_pc l);
  iek_instr : fits 32 (e6_instr l);
  iek_v1 : fits 64 (e6_rs1_val l);
  iek_v2 : fits 64 (e6_rs2_val l);
  iek_rd : reg_ok (e6_rd l);
  iek_rs1 : reg_ok (e6_rs1 l);
  iek_rs2 : reg_ok (e6_rs2 l)
}.

Record latches_ok (l : C6_latches) : Prop := {
  lk_pf : fits 64 (pf_pc (c6_pf l));
  lk_fi : fi_ok (c6_fi l);
  lk_ii : ii_ok (c6_ii l);
  lk_ie : ie_ok (c6_ie l)
}.

Definition queue_ok (q : list FetchQueueEntry) : Prop :=
  (length q <= FETCH_QUEUE_CAPACITY)%nat /\ Forall (fun e => fits 64 (fq_pc e) /\ fits 32 (fq_instr e)) q.

(** The instruction in the latch is the one that was allocated last: the next free entry of
    the scoreboard, [tail], follows its own. *)
Definition newest (l : C6_Issue_EX_Latch) (tail : nat) : Prop :=
  e6_valid l = true ->
  0 <= e6_rob_index l < 32 /\ tail = ((Z.to_nat (e6_rob_index l) + 1) mod 32)%nat.

(** ** Control, prediction, units *)

Record ctl_ok (k : C6_control) : Prop := {
  ck_next_pc : fits 64 (c6_next_pc k);
  ck_target : fits 64 (c6_redirect_target k);
  ck_priv : match pending_priv_switch k with Some epc => fits 64 epc | None => True end;
  ck_trap : trap_pending k = true -> c6_flush k = true
}.

Record predictor_ok (p : C6_predictor) : Prop := {
  pk_btb : length (c6_btb p) = 32%nat;
  pk_bht : length (c6_bht p) = 128%nat;
  pk_target : Forall (fun e => fits 64 (c6_btb_target e)) (c6_btb p);
  pk_ras : (length (c6_ras p) <= 2)%nat /\ Forall (fits 64) (c6_ras p)
}.

(** A busy unit works for an entry of the scoreboard. *)
Definition fu_ok (f : FunctionalUnitState) : Prop :=
  reg_ok (fu_rd f) /\ (fu_busy f = true -> 0 <= fu_trans_id f < 32).

Record units_ok (u : C6_units) : Prop := {
  uk_mul : fu_ok (mul_fu u);
  uk_div : fu_ok (div_fu u);
  uk_pipe : length (fpu_pipe u) = FPU_SLOTS /\ Forall fu_ok (fpu_pipe u);
  uk_sqrt : fu_ok (fpu_divsqrt_fu u);
  uk_miss : (0 < length (dcache_miss_fu u))%nat /\ Forall fu_ok (dcache_miss_fu u);
  uk_hit : fu_ok (load_hit_fu u)
}.

(** ** Scoreboard and store buffer *)

Definition clobbers_ok (l : list ClobberInfo) : Prop :=
  Forall (fun x => cl_busy x = true -> 0 <= cl_trans_id x < 32) l.

Definition entry_fine (e : SBEntry) : Prop :=
  fits 64 (sb_pc e) /\ fits 64 (sb_result e) /\ reg_ok (sb_rd e).

Record sb_ok (s : Scoreboard) : Prop := {
  sk_wf : sb_wf C6_SIZE s;
  sk_entries : Forall entry_fine (sb_entries s);
  sk_rd : clobbers_ok (rd_clobber s);
  sk_fp : clobbers_ok (fp_clobber s)
}.

(** The two queues of the store buffer are rings. *)
Record stb_ok (b : StoreBuffer) : Prop := {
  bk_spec : ring_wf C6_SPEC (stb_spec b) (spec_head b) (spec_tail b) (spec_count b);
  bk_commit : ring_wf C6_COMMIT (stb_committed b) (commit_head b) (commit_tail b) (commit_count b)
}.

(** ** Lists *)

Lemma Forall_alter_keep {A} (P : A -> Prop) (f : A -> A) (l : list A) i :
  (forall x, P x -> P (f x)) -> Forall P l -> Forall P (alter f i l).
Proof. intros Hf Hl. apply Forall_alter; [done|]. intros x _. apply Hf. Qed.

Lemma Forall_lookup_total_lt {A} `{Inhabited A} (P : A -> Prop) (l : list A) i :
  Forall P l -> (i < length l)%nat -> P (l !!! i).
Proof. intros Hl Hi. eapply Forall_lookup_1; [exact Hl|]. by apply list_lookup_lookup_total_lt. Qed.

(** ** The scoreboard *)

Lemma sb_len s : sb_ok s -> length (sb_entries s) = 32%nat.
Proof. intros Hs. apply (ring_len _ _ _ _ _ (sb_wf_ring _ _ (sk_wf _ Hs))). Qed.

Lemma sb_head_lt s : sb_ok s -> (sb_head s < 32)%nat.
Proof. intros Hs. apply (ring_head _ _ _ _ _ (sb_wf_ring _ _ (sk_wf _ Hs))). Qed.

Lemma sb_tail_lt s : sb_ok s -> (sb_tail s < 32)%nat.
Proof.
  intros Hs. pose proof (ring_tail _ _ _ _ _ (sb_wf_ring _ _ (sk_wf _ Hs))) as E. rewrite E.
  apply ring_at_lt. unfold C6_SIZE. lia.
Qed.

Lemma sb_entry_fine s i : sb_ok s -> (i < 32)%nat -> entry_fine (sb_entries s !!! i).
Proof. intros Hs Hi. apply Forall_lookup_total_lt; [apply Hs|by rewrite sb_len]. Qed.

(** [get_entry] of an index in range. *)
Lemma sb_get_entry_ok s idx :
  sb_ok s -> 0 <= idx < 32 -> exists e, sb_get_entry s idx = Some e /\ entry_fine e.
Proof.
  intros Hs Hi. unfold sb_get_entry. rewrite (proj2 (Z.ltb_ge _ _)) by lia.
  destruct (lookup_lt_is_Some_2 (sb_entries s) (Z.to_nat idx)) as [e He]; [rewrite sb_len by done; lia|].
  exists e. split; [done|]. by apply (Forall_lookup_1 _ _ _ _ (sk_entries _ Hs) He).
Qed.

Lemma sb_allocate_ok s :
  sb_ok s -> sb_ok (sb_allocate C6_SIZE s).2 /\
  ((sb_allocate C6_SIZE s).1 < 0 /\ (sb_allocate C6_SIZE s).2 = s \/
   (sb_allocate C6_SIZE s).1 = Z.of_nat (sb_tail s) /\
   sb_tail (sb_allocate C6_SIZE s).2 = ((sb_tail s + 1) mod 32)%nat).
Proof.
  intros Hs. pose proof (sb_allocate_wf C6_SIZE s (sk_wf _ Hs)) as Hwf. revert Hwf.
  unfold sb_allocate. destruct (sb_is_full _ s); simpl; [intros _; split; [done|left; split; [lia|done]]|].
  intros Hwf. split; [|by right]. destruct Hs as [_ He Hr Hf].
  split; simpl; [exact Hwf| |done|done]. apply Forall_insert; [done|].
  split; [fits_const|]. split; [fits_const|]. unfold reg_ok; simpl; lia.
Qed.

Lemma sb_update_ok s i e :
  sb_ok s -> sb_valid e = sb_valid (sb_entries s !!! i) ->
  sb_trans_id e = sb_trans_id (sb_entries s !!! i) -> entry_fine e ->
  sb_ok { s with sb_entries := <[i := e]> (sb_entries s) }.
Proof.
  intros Hs Hv Ht He. split; [apply sb_update_wf; [apply Hs|done|done|apply He]| |apply Hs|apply Hs].
  simpl. apply Forall_insert; [apply Hs|done].
Qed.

(** A write through [operator[]] that keeps what identifies the entry. *)
Definition keeps_entry (f : SBEntry -> SBEntry) : Prop :=
  forall e, sb_valid (f e) = sb_valid e /\ sb_trans_id (f e) = sb_trans_id e /\
    (entry_fine e -> entry_fine (f e)).

Lemma sb_set_entry_ok s idx f : keeps_entry f -> sb_ok s -> sb_ok (sb_set_entry idx f s).
Proof.
  intros Hf Hs. unfold sb_set_entry. set (i := Z.to_nat idx).
  destruct (sb_entries s !! i) as [e|] eqn:Ei.
  - rewrite (list_alter_insert f i e) by done. destruct (Hf e) as (Ev & Et & He).
    pose proof (list_lookup_total_correct _ _ _ Ei) as El.
    apply sb_update_ok; [done|by rewrite El..|]. apply He. by apply (Forall_lookup_1 _ _ _ _ (sk_entries _ Hs) Ei).
  - assert (alter f i (sb_entries s) = sb_entries s) as ->; [|by destruct s].
    apply list_eq. intros j. destruct (decide (i = j)) as [<-|].
    + by rewrite list_lookup_alter_eq, Ei.
    + by rewrite list_lookup_alter_ne.
Qed.

Lemma sb_complete_ok s idx v rd : reg_ok rd -> sb_ok s -> sb_ok (sb_complete C6_SIZE idx v rd s).
Proof.
  intros Hd Hs. unfold sb_complete. destruct (Z.ltb_spec idx 0); [done|].
  destruct (Z.leb_spec (Z.of_nat C6_SIZE) idx) as [|L]; [done|]. simpl.
  apply sb_update_ok; [done..|]. pose proof (sb_entry_fine s (Z.to_nat idx) Hs ltac:(unfold C6_SIZE in L; lia)) as (Hp & _).
  split; [exact Hp|]. simpl. split; [apply wrap_fits; lia|].
  rewrite wrap_small by (unfold reg_ok, fits in *; lia). done.
Qed.

Lemma sb_retire_ok s : sb_ok s -> sb_ok (sb_retire C6_SIZE s).
Proof.
  intros Hs. pose proof (sb_retire_wf C6_SIZE s (sk_wf _ Hs)) as Hwf. revert Hwf.
  pose proof (sb_entry_fine s _ Hs (sb_head_lt s Hs)) as He.
  unfold sb_retire. destruct (sb_is_empty s); [done|]. intros Hwf.
  split; simpl; [exact Hwf| |apply Hs|apply Hs]. apply Forall_insert; [apply Hs|exact He].
Qed.

Lemma clobber_clear_ok x : cl_busy (clobber_clear x) = true -> 0 <= cl_trans_id (clobber_clear x) < 32.
Proof. done. Qed.

Lemma clobbers_clear_ok l : clobbers_ok (clobber_clear <$> l).
Proof. apply Forall_fmap, Forall_true. exact clobber_clear_ok. Qed.

Lemma sb_flush_ok s : sb_ok s -> sb_ok (sb_flush s).
Proof.
  intros Hs. split.
  - apply sb_flush_wf; [unfold C6_SIZE; lia|apply Hs].
  - simpl. apply Forall_fmap. by apply (list.Forall_impl _ _ _ (sk_entries _ Hs)).
  - apply clobbers_clear_ok.
  - apply clobbers_clear_ok.
Qed.

Lemma sb_set_rd_ok s l : length l = 32%nat -> clobbers_ok l -> sb_ok s -> sb_ok { s with rd_clobber := l }.
Proof. intros Hl Hc [[] He Hr Hf]. split; [split|..]; done. Qed.
Lemma sb_set_fp_ok s l : length l = 32%nat -> clobbers_ok l -> sb_ok s -> sb_ok { s with fp_clobber := l }.
Proof. intros Hl Hc [[] He Hr Hf]. split; [split|..]; done. Qed.

Lemma clobber_commit_ok idx rd l :
  clobbers_ok l -> clobbers_ok (clobber_commit idx rd l) /\ length (clobber_commit idx rd l) = length l.
Proof.
  intros Hl. unfold clobber_commit. cbv zeta. case_match; [|done].
  split; [apply Forall_insert; [done|apply clobber_clear_ok]|apply length_insert].
Qed.

(** A branch that was allocated last has nothing younger: the squash is empty. *)
Lemma flush_newest s idx :
  0 <= idx < 32 -> sb_tail s = ((Z.to_nat idx + 1) mod 32)%nat ->
  sb_flush_speculative C6_SIZE idx s = Some s.
Proof.
  intros Hi Ht. unfold sb_flush_speculative. rewrite (proj2 (Z.ltb_ge _ _)) by lia.
  rewrite (proj2 (Z.leb_gt _ _)) by (unfold C6_SIZE; lia). cbn [orb]. cbv zeta.
  change ((Z.to_nat idx + 1) mod C6_SIZE)%nat with ((Z.to_nat idx + 1) mod 32)%nat.
  rewrite <-Ht. cbn [sb_squash_loop]. rewrite Nat.eqb_refl. by destruct s.
Qed.

(** ** The store buffer *)

Lemma add_store_ok a d sz t b : stb_ok b -> stb_ok (add_store C6_SPEC a d sz t b).2.
Proof.
  intros [Hs Hc]. pose proof (ring_count _ _ _ _ _ Hs). unfold add_store.
  case (Nat.eqb_spec (spec_count b) C6_SPEC); [done|]. intros Hn. split; simpl; eauto with ring.
Qed.

Lemma commit_store_ok b : stb_ok b -> stb_ok (commit_store C6_SPEC C6_COMMIT b).2.
Proof.
  intros [Hs Hc]. pose proof (ring_count _ _ _ _ _ Hc). unfold commit_store.
  case (Nat.eqb_spec (spec_count b) 0); [done|]. intros Hn.
  case (Nat.eqb_spec (commit_count b) C6_COMMIT); [done|]. intros Hf. split; rcbn; [|eauto with ring].
  destruct (spec_count b) as [|n]; [done|]. rcbn. eauto with ring.
Qed.

Lemma drain_loop_ok fuel b :
  stb_ok b -> stb_ok (drain_loop C6_COMMIT fuel b).2 /\
  ((drain_loop C6_COMMIT fuel b).1 = None \/ (commit_count (drain_loop C6_COMMIT fuel b).2 < commit_count b)%nat) /\
  (commit_count (drain_loop C6_COMMIT fuel b).2 <= commit_count b)%nat.
Proof.
  revert b. induction fuel as [|fuel IH]; intros b Hb; [simpl; split_and!; [done|by left|lia]|].
  cbn [drain_loop]. destruct (Nat.ltb_spec 0 (commit_count b)) as [Hn|Hn]; [|simpl; split_and!; [done|by left|lia]].
  assert (stb_ok (drain_pop C6_COMMIT b).2) as Hp.
  { destruct Hb as [Hs Hc]. split; unfold drain_pop; rcbn; [done|].
    destruct (commit_count b) as [|n]; [lia|]. rcbn. eauto with ring. }
  assert (commit_count (drain_pop C6_COMMIT b).2 = pred (commit_count b)) as Ec by done.
  destruct (drain_pop C6_COMMIT b) as [e b']. simpl in Hp, Ec.
  destruct (sbe_valid e); [simpl; split_and!; [done|right; lia|lia]|].
  destruct (IH b' Hp) as (H1 & H2 & H3). split_and!; [done| |lia].
  destruct H2; [by left|right; lia].
Qed.

Lemma drain_one_ok b :
  stb_ok b -> stb_ok (drain_one C6_COMMIT b).2 /\
  ((drain_one C6_COMMIT b).1 = None \/ (commit_count (drain_one C6_COMMIT b).2 < commit_count b)%nat).
Proof. intros Hb. by destruct (drain_loop_ok (S (commit_count b)) b Hb) as (? & ? & _). Qed.

Lemma stb_flush_speculative_ok b : stb_ok b -> stb_ok (stb_flush_speculative b).
Proof.
  intros [Hs Hc]. split; simpl; [|done]. destruct Hs. unfold C6_SPEC in *.
  split; [by rewrite length_fmap|lia|lia|]. done.
Qed.

Lemma stb_squash_loop_ok fuel sb b : stb_ok b -> stb_ok (stb_squash_loop C6_SPEC fuel sb b).
Proof.
  revert b. induction fuel as [|fuel IH]; intros b Hb; [done|]. cbn [stb_squash_loop].
  destruct (Nat.ltb_spec 0 (spec_count b)) as [Hn|]; [|done]. cbv zeta. case_match; [|done].
  apply IH. destruct Hb as [Hs Hc]. split; [|done]. rcbn. destruct (spec_count b) as [|n]; [lia|].
  rewrite (ring_newest_0 _ _ _ _ _ Hs). rcbn.
  apply ring_wf_insert. eapply ring_wf_shrink; [exact Hs|lia].
Qed.

Lemma invalidate_address_ok a sz b : stb_ok b -> stb_ok (invalidate_address a sz b).
Proof. intros [Hs Hc]. split; simpl; by apply ring_wf_fmap. Qed.

(** ** Units *)

Lemma fu_stop_ok f : fu_ok f -> fu_ok (fu_stop f).
Proof. intros [Hd _]. by split. Qed.

Lemma fu_start_ok n v l : ie_ok l -> 0 <= e6_rob_index l < 32 -> fu_ok (fu_start n v l).
Proof. intros Hl Hi. split; [apply Hl|done]. Qed.

Lemma cancel_ok sb f : fu_ok f -> fu_ok (cancel_if_flushed sb f).
Proof. intros Hf. unfold cancel_if_flushed. repeat case_match; first [by apply fu_stop_ok|done]. Qed.

Lemma units_map_ok (g : FunctionalUnitState -> FunctionalUnitState) u :
  (forall f, fu_ok f -> fu_ok (g f)) -> units_ok u ->
  units_ok {| mul_fu := g (mul_fu u); div_fu := g (div_fu u); fpu_pipe := g <$> fpu_pipe u;
              fpu_divsqrt_fu := g (fpu_divsqrt_fu u); dcache_miss_fu := g <$> dcache_miss_fu u;
              load_hit_fu := g (load_hit_fu u) |}.
Proof.
  intros Hg [? ? [? Hp] ? [? Hm] ?].
  split; simpl; auto; (split; [by rewrite length_fmap|]); apply Forall_fmap.
  - by eapply list.Forall_impl.
  - by eapply list.Forall_impl.
Qed.

Lemma units_miss_ok u l :
  length l = length (dcache_miss_fu u) -> Forall fu_ok l -> units_ok u ->
  units_ok { u with dcache_miss_fu := l }.
Proof. intros Hl Hf [? ? ? ? [? ?] ?]. split; simpl; try done. by rewrite Hl. Qed.

(** ** The predictor *)

Lemma c6_index_lt pc : (c6_btb_index pc < 32)%nat /\ (c6_bht_index pc < 128)%nat.
Proof.
  unfold c6_btb_index, c6_bht_index. pose proof (Z.mod_pos_bound (pc .>> 2) 32 ltac:(lia)).
  pose proof (Z.mod_pos_bound (pc .>> 2) 128 ltac:(lia)). lia.
Qed.

Lemma c6_predict_ok pc p :
  predictor_ok p -> fits 64 (c6_predict pc p).1.2 /\ predictor_ok (c6_predict pc p).2.
Proof.
  intros Hp. pose proof Hp as [Hb Hh Ht [Hl Hr]]. assert (fits 64 0) as H0 by fits_const.
  pose proof (Forall_lookup_total_lt _ _ (c6_btb_index pc) Ht ltac:(rewrite Hb; apply c6_index_lt)) as He.
  unfold c6_predict. cbv zeta. destruct (_ && _); [|done]. destruct (c6_btb_is_return _).
  - destruct (c6_ras p) as [|t ras'] eqn:Er; [done|]. simpl. inversion Hr; subst. split; [done|].
    split; simpl; try done. simpl in Hl. split; [lia|done].
  - by destruct (2 <=? _).
Qed.

Lemma predictor_btb_ok p l i e :
  l = c6_btb p -> fits 64 (c6_btb_target e) -> predictor_ok p -> predictor_ok { p with c6_btb := <[i := e]> l }.
Proof.
  intros -> He [? ? ? ?]. split; simpl; [by rewrite length_insert|done| |done]. by apply Forall_insert.
Qed.
Lemma predictor_bht_ok p l i v :
  l = c6_bht p -> predictor_ok p -> predictor_ok { p with c6_bht := <[i := v]> l }.
Proof. intros -> [? ? ? ?]. split; simpl; [done|by rewrite length_insert|done..]. Qed.
Lemma predictor_ras_ok p l :
  (length l <= 2)%nat -> Forall (fits 64) l -> predictor_ok p -> predictor_ok { p with c6_ras := l }.
Proof. intros ? ? [? ? ? ?]. by split. Qed.

Lemma c6_train_ok l taken target p :
  fits 64 target -> predictor_ok p -> predictor_ok (c6_train l taken target p).
Proof.
  intros Ht Hp. unfold c6_train. cbv zeta.
  assert (Forall (fits 64) (take 2 (u64 (e6_pc l + e6_len l) :: c6_ras p))) as Hr.
  { apply Forall_take. constructor; [apply wrap_fits; lia|apply Hp]. }
  assert (length (take 2 (u64 (e6_pc l + e6_len l) :: c6_ras p)) <= 2)%nat as Hl
    by (rewrite length_take; lia).
  destruct (e6_opcode l =? 0x63); [destruct taken; case_match|destruct (is_ras_call _), (is_ras_return _)];
    repeat first [ exact Hp | apply predictor_bht_ok; [reflexivity|]
                 | apply predictor_btb_ok; [reflexivity|exact Ht|]
                 | apply predictor_ras_ok; [exact Hl|exact Hr|] ].
Qed.

(** ** The caches *)

Lemma icache_access_ok a x : cache_wf 256 4 x -> cache_wf 256 4 (icache_access a x).2.
Proof. apply access_wf; lia. Qed.
Lemma dcache_access_ok a x : cache_wf 256 8 x -> cache_wf 256 8 (dcache_access a x).2.
Proof. apply access_wf; lia. Qed.

(** ** The decoder *)

Lemma reg_ok_low x : reg_ok (x .& 0x1F).
Proof.
  unfold reg_ok. change 0x1F with (Z.ones 5). rewrite land_ones_mod by lia. apply Z.mod_pos_bound. lia.
Qed.

Lemma reg_ok_bits hi lo x : hi = lo + 4 -> reg_ok (bits hi lo x).
Proof. intros ->. unfold reg_ok. pose proof (bits_range (lo + 4) lo x ltac:(lia)) as Hb.
  replace (lo + 4 - lo + 1) with 5 in Hb by lia. exact Hb. Qed.

Lemma reg_ok_prime hi lo x : hi = lo + 2 -> reg_ok (bits hi lo x + 8).
Proof.
  intros ->. unfold reg_ok. pose proof (bits_range (lo + 2) lo x ltac:(lia)) as Hb.
  replace (lo + 2 - lo + 1) with 3 in Hb by lia. lia.
Qed.

Lemma i6_set_ok op f3 rd rs1 rs2 imm l :
  ii_ok l -> reg_ok rd -> reg_ok rs1 -> reg_ok rs2 -> ii_ok (i6_set op f3 rd rs1 rs2 imm l).
Proof. intros []; by split. Qed.
Lemma i6_set_no_f3_ok op rd rs1 rs2 imm l :
  ii_ok l -> reg_ok rd -> reg_ok rs1 -> reg_ok rs2 -> ii_ok (i6_set_no_f3 op rd rs1 rs2 imm l).
Proof. intros []; by split. Qed.
Lemma i6_set_r_ok op f3 f7 rd rs1 rs2 l :
  ii_ok l -> reg_ok rd -> reg_ok rs1 -> reg_ok rs2 -> ii_ok (i6_set_r op f3 f7 rd rs1 rs2 l).
Proof. intros []; by split. Qed.

Ltac reg_ok :=
  first [ assumption | apply reg_ok_low
        | lazymatch goal with |- reg_ok (Zpos _) => unfold reg_ok; lia | |- reg_ok Z0 => unfold reg_ok; lia end
        | unfold get_rdp, get_rs1p, get_rs2p, c_get_rs1, c_get_rs2;
          first [apply reg_ok_bits; lia | apply reg_ok_prime; lia] ].

Lemma c6_expand_ok ci l : ii_ok l -> match c6_expand ci l with Some l' => ii_ok l' | None => True end.
Proof.
  intros Hl. unfold c6_expand. cbv zeta. destruct (c_decode 64 ci); try exact I;
    repeat match goal with |- context [if ?b then _ else _] => destruct b end; try exact I;
    lazymatch goal with
    | |- ii_ok (i6_set _ _ _ _ _ _ _) => apply i6_set_ok
    | |- ii_ok (i6_set_no_f3 _ _ _ _ _ _) => apply i6_set_no_f3_ok
    | |- ii_ok (i6_set_r _ _ _ _ _ _ _) => apply i6_set_r_ok
    end; reg_ok.
Qed.

Lemma reg_ok_if (b : bool) x : reg_ok x -> reg_ok (if b then 0 else x).
Proof. destruct b; [unfold reg_ok; lia|done]. Qed.

Lemma c6_decode_ok instr l : ii_ok l -> ii_ok (c6_decode instr l).
Proof.
  intros [H1 H2 _ _ _]. split; [exact H1|exact H2|..]; apply reg_ok_if, reg_ok_low.
Qed.

Lemma c6_id_decode_ok fi l : fi_ok fi -> ii_ok l -> ii_ok (c6_id_decode fi l).
Proof.
  intros [Hp Hi] Hl. assert (ii_ok (c6_decode_start fi l)) as Hs by (destruct Hl; split; assumption).
  unfold c6_id_decode. cbv zeta. revert Hs. generalize (c6_decode_start fi l) as l0. intros l0 Hs.
  destruct (f6_is_compressed fi); [|by apply c6_decode_ok].
  match goal with |- context [c6_expand ?ci ?l1] =>
    pose proof (c6_expand_ok ci l1 ltac:(destruct Hs; split; assumption)) as He; destruct (c6_expand ci l1) as [l2|] end.
  - destruct He; split; assumption.
  - destruct Hs; split; assumption.
Qed.
