(* ===== verification/CpuC6Safe.v ===== *)
(** No program, no interrupt and no timing drives the six-stage RV64 core out of its invariant:
    from reset, behind a memory system that answers, every turn of [cycle_thread] ends without
    an error and without an access outside of an array, and leaves the state well formed. *)
From S2P Require Import Prelude Ring Bytes Memory PhysMem Regs BaseISA CExt FloatProofs Scoreboard StoreBuffer TLB Cache CSR CSRWidth MMU TotalMem.
From S2P Require Import CpuP6 CpuC6 CpuC6Back CpuC6Ex CpuC6Inv BusCtrl Clint Dma FloatArith MExt ISASpec FExt DExt BaseISAProofs CpuP6Run CpuC6Run CpuC6Float.
Import RegsH.

Section safe.
Context {S : Type} `{TotalMem S}.
#[local] Abbreviation cpu := (C6_cpu S).

(** The invariant between two operations of a cycle.  [R] are the latches the cycle reads, [E]
    is the latch of the issue stage if it is valid, [W] is what has to hold when the execution
    stage stalls, and [t] is the tail of the scoreboard. *)
Record c6_ok (R : C6_latches) (E : C6_Issue_EX_Latch) (W : Prop) (t : nat) (c : cpu) : Prop := {
  ok_hart : hart_wf 64 (c6_core c);
  ok_mem : dt_inv (mem_intf (c6_core c));
  ok_fp : fp_ok (c6_fp c);
  ok_dmi : c6_dmi c = None;
  ok_csr : csr_ok (c6_csr c);
  ok_mmu : mmu_wf (c6_mmu c);
  ok_icache : cache_wf 256 4 (c6_icache c);
  ok_dcache : cache_wf 256 8 (c6_dcache c);
  ok_next : latches_ok (c6_next c);
  ok_ctl : ctl_ok (c6_ctl c);
  ok_pred : predictor_ok (c6_pred c);
  ok_sb : sb_ok (c6_sb c);
  ok_stb : stb_ok (c6_stb c);
  ok_units : units_ok (c6_units c);
  ok_queue : queue_ok (fetch_queue c);
  ok_reg : c6_reg c = R;
  ok_issued : e6_valid (c6_ie (c6_next c)) = true -> c6_ie (c6_next c) = E;
  ok_stall : c6_stall_ex (c6_ctl c) = true -> W;
  ok_tail : sb_tail (c6_sb c) = t
}.

(** The floating-point unit never throws and keeps the state well formed. *)
Definition fpu_total (fpu : Z -> Z -> Z -> Z -> Z -> hart S -> list Z -> fpu_answer S) : Prop :=
  forall w v1 v2 rd pa h fp,
    fits 32 w -> fits 64 v1 -> reg_ok rd -> hart_wf 64 h -> dt_inv (mem_intf h) -> fp_ok fp ->
    match fpu w v1 v2 rd pa h fp with
    | FpuIllegal => True
    | FpuThrows => False
    | FpuDone _ _ h' fp' => hart_wf 64 h' /\ dt_inv (mem_intf h') /\ fp_ok fp'
    end.

(** ** One field at a time *)

Section step.
Context (R : C6_latches) (E : C6_Issue_EX_Latch) (W : Prop) (t : nat).
#[local] Abbreviation ok := (c6_ok R E W t).
Implicit Types (c : cpu).

Ltac keep := intros []; split; assumption.

Lemma ok_set_core h c : hart_wf 64 h -> dt_inv (mem_intf h) -> ok c -> ok { c with c6_core := h }.
Proof. intros ? ?. keep. Qed.
Lemma ok_set_fp l c : fp_ok l -> ok c -> ok { c with c6_fp := l }.
Proof. intros ?. keep. Qed.
Lemma ok_set_csr x c : csr_ok x -> ok c -> ok { c with c6_csr := x }.
Proof. intros ?. keep. Qed.
Lemma ok_set_mmu m c : mmu_wf m -> ok c -> ok { c with c6_mmu := m }.
Proof. intros ?. keep. Qed.
Lemma ok_set_icache x c : cache_wf 256 4 x -> ok c -> ok { c with c6_icache := x }.
Proof. intros ?. keep. Qed.
Lemma ok_set_dcache x c : cache_wf 256 8 x -> ok c -> ok { c with c6_dcache := x }.
Proof. intros ?. keep. Qed.
Lemma ok_set_ctl k c : ctl_ok k -> (c6_stall_ex k = true -> W) -> ok c -> ok { c with c6_ctl := k }.
Proof. intros ? ?. keep. Qed.
Lemma ok_set_pred p c : predictor_ok p -> ok c -> ok { c with c6_pred := p }.
Proof. intros ?. keep. Qed.
Lemma ok_set_sb s c : sb_ok s -> sb_tail s = t -> ok c -> ok { c with c6_sb := s }.
Proof. intros ? ?. keep. Qed.
Lemma ok_set_stb b c : stb_ok b -> ok c -> ok { c with c6_stb := b }.
Proof. intros ?. keep. Qed.
Lemma ok_set_units u c : units_ok u -> ok c -> ok { c with c6_units := u }.
Proof. intros ?. keep. Qed.
Lemma ok_set_queue q c : queue_ok q -> ok c -> ok { c with fetch_queue := q }.
Proof. intros ?. keep. Qed.
Lemma ok_set_icache_miss n c : ok c -> ok { c with icache_miss_remaining := n }.
Proof. keep. Qed.
Lemma ok_set_drain n c : ok c -> ok { c with store_drain_remaining := n }.
Proof. keep. Qed.
Lemma ok_set_taint n c : ok c -> ok { c with reg_load_tainted := n }.
Proof. keep. Qed.
Lemma ok_set_extra n c : ok c -> ok { c with load_addr_extra := n }.
Proof. keep. Qed.
Lemma ok_set_commits n c : ok c -> ok { c with commit_count_this_cycle := n }.
Proof. keep. Qed.
Lemma ok_set_pc n c : ok c -> ok { c with pc_current := n }.
Proof. keep. Qed.
Lemma ok_set_out l c : ok c -> ok { c with c6_out := l }.
Proof. keep. Qed.
Lemma ok_set_stopped b c : ok c -> ok { c with c6_stopped := b }.
Proof. keep. Qed.
Lemma ok_bump k n c : ok c -> ok (bump k n c).
Proof. keep. Qed.
Lemma ok_mem_intf s c : dt_inv s -> ok c -> ok { c with c6_core := { c6_core c with mem_intf := s } }.
Proof. intros Hs Hc. apply ok_set_core; [|done..]. by destruct (ok_hart _ _ _ _ _ Hc). Qed.

(** ** Redirection, memory, registers *)

Lemma ctl_redirect_ok target k :
  fits 64 target -> ctl_ok k ->
  ctl_ok { k with c6_redirect_target := target; c6_redirect_valid := true; c6_flush := true }.
Proof. intros Ht []. by split. Qed.

Lemma c6_redirect_ok target c : fits 64 target -> ok c -> ok (c6_redirect target c).
Proof.
  intros Ht Hc. apply ok_set_ctl; [|apply Hc|done]. apply ctl_redirect_ok; [done|apply Hc].
Qed.

(** A redirection by a trap: [trap_pending] and [flush_pipeline] are set together. *)
Lemma c6_trap_ok target csr c :
  fits 64 target -> csr_ok csr -> ok c ->
  ok (c6_redirect target { c with c6_csr := csr; c6_ctl := { c6_ctl c with trap_pending := true } }).
Proof. intros Ht Hcsr []. split; try assumption. destruct ok_ctl0. by split. Qed.

Lemma c6_exception_ok cause epc tval c :
  fits 64 cause -> fits 64 epc -> fits 64 tval -> ok c -> ok (c6_exception cause epc tval c).
Proof.
  intros Hca He Hv Hc. unfold c6_exception.
  destruct (take_exception_ok cause epc tval (c6_csr c) Hca He Hv) as [Ht Hcsr]; [apply Hc|].
  destruct (take_exception _ _ _ _) as [tvec csr]. by apply c6_trap_ok.
Qed.

Lemma c6_translate_ok va atype c :
  ok c -> post (fun r => ok r.2 /\ fits 64 (r_fault_cause r.1)) (c6_translate va atype c).
Proof.
  intros Hc. unfold c6_translate.
  pose proof (translate_total va (c6_csr c) atype (c6_mmu c) _ (ok_mem _ _ _ _ _ Hc) (ok_mmu _ _ _ _ _ Hc)) as Ht.
  destruct (translate _ _ _ _ _) as [[[r|] m] s]; destruct Ht as (Hr & Hm & Hs); [|done]. simpl in Hr |- *.
  split; [|unfold fits; lia]. apply ok_set_core; [|done|by apply ok_set_mmu].
  by destruct (ok_hart _ _ _ _ _ Hc).
Qed.

Lemma c6_read_ok a n c : ok c -> post (fun r => ok r.2 /\ fits 64 r.1) (c6_read a n c).
Proof.
  intros Hc. unfold c6_read, c6_mem. destruct (n =? 8).
  - destruct (readDataMem64_total a 8 _ (ok_mem _ _ _ _ _ Hc)) as [Hr Hs].
    destruct (readDataMem64 a 8 _) as [[v|] s]; [|done]. split; [by apply ok_mem_intf|done].
  - destruct (readDataMem_total a n _ (ok_mem _ _ _ _ _ Hc)) as [Hr Hs].
    destruct (readDataMem a n _) as [[v|] s]; [|done]. split; [by apply ok_mem_intf|].
    by apply (fits_mono 32); [lia..|].
Qed.

Lemma c6_write_ok a v n c : ok c -> post (fun c' => ok c' /\ c6_stb c' = c6_stb c) (c6_write a v n c).
Proof.
  intros Hc. unfold c6_write, c6_mem_write. destruct (n =? 8).
  - destruct (writeDataMem64_total a v 8 _ (ok_mem _ _ _ _ _ Hc)) as [Hr Hs].
    destruct (writeDataMem64 a v 8 _) as [[[]|] s]; [|done]. split; [by apply ok_mem_intf|done].
  - destruct (writeDataMem_total a (u32 v) n _ (ok_mem _ _ _ _ _ Hc)) as [Hr Hs].
    destruct (writeDataMem a _ n _) as [[[]|] s]; [|done]. split; [by apply ok_mem_intf|done].
Qed.

(** ** Scoreboard and store buffer *)

Lemma c6_complete_ok idx v rd c : reg_ok rd -> ok c -> ok (c6_complete idx v rd c).
Proof.
  intros Hd Hc. apply ok_set_sb; [apply sb_complete_ok; [done|apply Hc]| |done].
  rewrite <-(ok_tail _ _ _ _ _ Hc). unfold sb_complete. by case_match.
Qed.

Lemma set_entry_ok idx f c :
  keeps_entry f -> ok c -> ok { c with c6_sb := sb_set_entry idx f (c6_sb c) }.
Proof.
  intros Hf Hc. apply ok_set_sb; [by apply sb_set_entry_ok; [|apply Hc]| |done].
  by rewrite <-(ok_tail _ _ _ _ _ Hc).
Qed.

Lemma c6_commit_store_ok c : ok c -> ok (c6_commit_store c).
Proof. intros Hc. apply ok_set_stb; [|done]. apply commit_store_ok, Hc. Qed.

Lemma c6_retire_ok c : ok c -> ok (c6_retire c).
Proof.
  intros Hc. apply ok_set_sb; [apply sb_retire_ok, Hc| |done].
  rewrite <-(ok_tail _ _ _ _ _ Hc). unfold sb_retire. by case_match.
Qed.

Lemma c6_set_reg_ok rd v c : reg_ok rd -> ok c -> ok (c6_set_reg rd v c).
Proof.
  intros Hd Hc. unfold c6_set_reg. apply ok_set_core; [| |done].
  - apply write_reg_wf; [apply Hc|apply Hd|apply wrap_fits; lia].
  - unfold write_reg. case_match; apply Hc.
Qed.

(** Every turn that writes a store takes an entry of the committed queue, so the loop ends. *)
Lemma c6_drain_one_ok c :
  ok c -> post (fun r => ok r.2 /\ (r.1 = true -> (commit_count (c6_stb r.2) < commit_count (c6_stb c))%nat))
            (c6_drain_one c).
Proof.
  intros Hc. unfold c6_drain_one. destruct (drain_one_ok (c6_stb c)) as [Hb Hn]; [apply Hc|].
  destruct (drain_one C6_COMMIT (c6_stb c)) as [d b]. simpl in Hb, Hn.
  apply (ok_set_stb b) in Hc; [|done]. destruct d as [[[a v] n]|]; [|done].
  destruct Hn as [|Hn]; [done|]. pose proof (c6_write_ok a v n _ Hc) as Hw.
  destruct (c6_write a v n _) as [c'|]; [|done]. destruct Hw as [Hw E1]. split; [done|]. simpl. by rewrite E1.
Qed.

Lemma c6_drain_loop_ok fuel c :
  (commit_count (c6_stb c) < fuel)%nat -> ok c -> post ok (c6_drain_loop fuel c).
Proof.
  revert c. induction fuel as [|fuel IH]; intros c Hf Hc; [lia|]. cbn [c6_drain_loop].
  pose proof (c6_drain_one_ok c Hc) as Hd. destruct (c6_drain_one c) as [[[|] c']|]; [|simpl in Hd..].
  - destruct Hd as [Hd Hn]. apply IH; [|done]. specialize (Hn eq_refl). simpl in Hn. lia.
  - apply Hd.
  - done.
Qed.

Lemma c6_drain_all_ok c : ok c -> post ok (c6_drain_all c).
Proof. intros Hc. apply c6_drain_loop_ok; [lia|done]. Qed.

Lemma c6_drain_rob_ok fuel keep_fp stop c : ok c -> ok (c6_drain_rob fuel keep_fp stop c).
Proof.
  revert c. induction fuel as [|fuel IH]; intros c Hc; [done|]. cbn [c6_drain_rob].
  destruct (_ && _); [|done]. cbv zeta.
  pose proof (sb_entry_fine _ _ (ok_sb _ _ _ _ _ Hc) (sb_head_lt _ (ok_sb _ _ _ _ _ Hc))) as (_ & _ & He).
  fold (sb_get_head (c6_sb c)) in He. set (e := sb_get_head (c6_sb c)) in *.
  apply IH, c6_retire_ok. destruct (sb_is_store e); [apply c6_commit_store_ok|];
    (destruct (_ && _); [by apply c6_set_reg_ok|done]).
Qed.

(** ** Units *)

Lemma c6_taint_ok rd c : ok c -> ok (c6_taint rd c).
Proof. intros Hc. unfold c6_taint. case_match; [done|by apply ok_set_taint]. Qed.

Lemma fu_tick_ok b f c : fu_ok f -> ok c -> fu_ok (fu_tick b f c).1 /\ ok (fu_tick b f c).2.
Proof.
  intros Hf Hc. unfold fu_tick. destruct (fu_busy f) eqn:Eb; [|done]. cbv zeta.
  destruct (_ =? 0).
  - split; [apply (fu_stop_ok f Hf)|]. destruct b; [apply c6_taint_ok|]; (apply c6_complete_ok; [apply Hf|done]).
  - split; [|done]. destruct Hf as [Hd Hi]. split; [done|]. intros _. by apply Hi.
Qed.

Lemma fu_tick_counted_ok k b f c :
  fu_ok f -> ok c -> fu_ok (fu_tick_counted k b f c).1 /\ ok (fu_tick_counted k b f c).2.
Proof.
  intros Hf Hc. unfold fu_tick_counted. apply fu_tick_ok; [done|]. case_match; [by apply ok_bump|done].
Qed.

Lemma fu_tick_all_ok tick l c :
  (forall f c, fu_ok f -> ok c -> fu_ok (tick f c).1 /\ ok (tick f c).2) -> Forall fu_ok l -> ok c ->
  Forall fu_ok (fu_tick_all tick l c).1 /\ length (fu_tick_all tick l c).1 = length l /\
  ok (fu_tick_all tick l c).2.
Proof.
  intros Ht Hl. revert c. induction Hl as [|f l Hf Hl IH]; intros c Hc; [done|]. simpl.
  destruct (Ht f c Hf Hc) as [Hf' Hc']. destruct (tick f c) as [f' c'].
  destruct (IH c' Hc') as (Hl' & El & Hc''). destruct (fu_tick_all tick l c') as [l' c''].
  simpl in *. split_and!; [by constructor|by rewrite El|done].
Qed.

Lemma c6_tick_units_ok c : ok c -> ok (c6_tick_units c).
Proof.
  intros Hc. destruct (ok_units _ _ _ _ _ Hc) as [Hm Hd [El Hp] Hq [Ek Hs] Hh]. unfold c6_tick_units. cbv zeta.
  destruct (fu_tick_counted_ok st_mul_stall_cycles false _ _ Hm Hc) as [Hm' Hc1].
  destruct (fu_tick_counted _ _ (mul_fu _) c) as [mul c1].
  destruct (fu_tick_counted_ok st_div_stall_cycles false _ _ Hd Hc1) as [Hd' Hc2].
  destruct (fu_tick_counted _ _ (div_fu _) _) as [div c2].
  destruct (fu_tick_all_ok _ _ c2 (fu_tick_counted_ok st_dcache_miss_cycles true) Hs Hc2) as (Hs' & Es & Hc3).
  destruct (fu_tick_all _ (dcache_miss_fu _) _) as [dms c3].
  destruct (fu_tick_counted_ok st_load_use_stall_cycles true _ _ Hh Hc3) as [Hh' Hc4].
  destruct (fu_tick_counted _ _ (load_hit_fu _) _) as [hit c4].
  destruct (fu_tick_all_ok _ _ c4 (fu_tick_ok false) Hp Hc4) as (Hp' & Ep & Hc5).
  destruct (fu_tick_all _ (fpu_pipe _) _) as [pipe c5].
  destruct (fu_tick_ok false _ _ Hq Hc5) as [Hq' Hc6]. destruct (fu_tick _ (fpu_divsqrt_fu _) _) as [sqrt c6].
  simpl in *. apply ok_set_units; [|done]. split; simpl; try done; (split; [congruence || lia|done]).
Qed.

Lemma set_units_ok f c : (forall u, units_ok u -> units_ok (f u)) -> ok c -> ok (set_units f c).
Proof. intros Hf Hc. apply ok_set_units; [apply Hf, Hc|done]. Qed.

Lemma start_miss_ok i f c : fu_ok f -> ok c -> ok (start_miss i f c).
Proof.
  intros Hf. apply set_units_ok. intros u Hu.
  apply units_miss_ok; [apply length_insert|by apply Forall_insert; [apply Hu|]|done].
Qed.

Lemma miss_result_ok i v c : ok c -> ok (miss_result i v c).
Proof.
  apply set_units_ok. intros u Hu. apply units_miss_ok; [apply length_alter| |done].
  apply Forall_alter_keep; [|apply Hu]. by intros f [].
Qed.

(** ** The execution stage *)

Definition flow_post (P : cpu -> Prop) (fl : flow cpu) : Prop :=
  match fl with Next _ _ c | Jump _ _ c => P c end.

(** The instruction in the latch is the newest of the scoreboard, and the stage may stall. *)
Context (l : C6_Issue_EX_Latch) (Hl : ie_ok l) (Hrob : 0 <= e6_rob_index l < 32)
  (Ht : t = ((Z.to_nat (e6_rob_index l) + 1) mod 32)%nat) (HW : W).

Lemma unit_start_ok n v : fu_ok (fu_start n v l).
Proof. by apply fu_start_ok. Qed.

Lemma start_hit_ok v c : ok c -> ok (start_hit v l c).
Proof.
  intros Hc. unfold start_hit. case_match; [done|]. apply set_units_ok; [|done].
  intros u []. split; simpl; try done. apply unit_start_ok.
Qed.

Lemma ex_m_ok c : ok c -> ok (ex_m l c).
Proof.
  intros Hc. unfold ex_m. case_match; (apply set_units_ok; [|done]);
    intros u []; split; simpl; try done; apply unit_start_ok.
Qed.

Lemma ex_wait_ok c : ok c -> flow_post ok (ex_wait c).
Proof.
  intros Hc. unfold ex_wait, flow_post. apply ok_set_ctl; [|done..]. destruct (ok_ctl _ _ _ _ _ Hc). by split.
Qed.

Lemma ex_fault_ok cause tval c :
  fits 64 cause -> fits 64 tval -> ok c -> flow_post ok (ex_fault cause tval l c).
Proof.
  intros Hca Hv Hc. unfold ex_fault. case_match; [by apply ex_wait_ok|].
  apply c6_complete_ok; [unfold reg_ok; lia|]. apply c6_exception_ok; [done|apply Hl|done..].
Qed.

Lemma ex_trap_ok cause tval c :
  fits 64 cause -> fits 64 tval -> ok c -> flow_post ok (ex_trap cause tval l c).
Proof.
  intros Hca Hv Hc. unfold ex_trap. case_match; [by apply ex_wait_ok|].
  apply c6_exception_ok; [done|apply Hl|done..].
Qed.

Lemma read_bytes_ok n pa i raw c : ok c -> post (fun r => ok r.2) (read_bytes n pa i raw c).
Proof.
  revert i raw c. induction n as [|n IH]; intros i raw c Hc; [done|]. cbn [read_bytes].
  pose proof (c6_read_ok (u64 (pa + i)) 1 c Hc) as Hr.
  destruct (c6_read _ 1 c) as [[b c']|]; [|done]. apply IH, Hr.
Qed.

Lemma write_bytes_ok n pa i v c : ok c -> post ok (write_bytes n pa i v c).
Proof.
  revert i c. induction n as [|n IH]; intros i c Hc; [done|]. cbn [write_bytes].
  eapply post_bind; [by apply c6_write_ok|]. intros c' [Hc' _]. by apply IH.
Qed.

Lemma ex_load_misaligned_ok pa c : ok c -> post (flow_post ok) (ex_load_misaligned pa l c).
Proof.
  intros Hc. unfold ex_load_misaligned.
  pose proof (read_bytes_ok (Z.to_nat (load_bytes_of (e6_funct3 l))) pa 0 0 c Hc) as Hr.
  destruct (read_bytes _ pa 0 0 c) as [[raw c']|]; [|done]. apply c6_complete_ok; [apply Hl|done].
Qed.

Lemma ex_load_value_ok addr slot c : ok c -> post (flow_post ok) (ex_load_value addr slot l c).
Proof.
  intros Hc. unfold ex_load_value. cbv zeta. destruct (forward_load _ _ _ _ _) as [v| |].
  - simpl. by apply start_hit_ok, ok_bump.
  - by apply ex_wait_ok.
  - assert (post (fun r => ok r.2)
      (if e6_funct3 l =? 7 then Some (0, c) else c6_read addr (load_bytes_of (e6_funct3 l)) c)) as Hr.
    { case_match; [done|]. eapply post_mono; [by apply c6_read_ok|]. by intros r []. }
    destruct (if e6_funct3 l =? 7 then _ else _) as [[v c']|]; [|done]. simpl in Hr.
    destruct slot as [i|]; [simpl; by apply miss_result_ok|].
    pose proof (dcache_access_ok addr _ (ok_dcache _ _ _ _ _ Hr)) as Hd.
    destruct (dcache_access addr _) as [hit dc]. simpl in Hd |- *.
    apply (ok_set_dcache dc) in Hr; [|done]. destruct hit; [by apply start_hit_ok|].
    by apply start_miss_ok; [apply unit_start_ok|apply ok_bump].
Qed.

Lemma C6_ex_load_ok c : ok c -> post (flow_post ok) (C6_ex_load l c).
Proof.
  intros Hc. unfold C6_ex_load. cbv zeta. set (va := u64 _).
  assert (fits 64 va) as Hva by (apply wrap_fits; lia).
  pose proof (c6_translate_ok va LOAD c Hc) as Htr. destruct (c6_translate va LOAD c) as [[tr c']|]; [|done].
  destruct Htr as [Hc' Hf]. simpl in Hc', Hf.
  destruct (r_fault tr); [by apply ex_fault_ok|].
  destruct (load_misaligned _ _); [by apply ex_load_misaligned_ok|].
  assert (fits 64 CAUSE_LOAD_ACCESS) as Hcl by fits_const.
  destruct (0 <? r_stall_cycles tr); cbv zeta.
  - assert (ok (start_miss (dcache_miss_free_slot (c6_units c'))
      (fu_start (r_stall_cycles tr + dcache_miss_penalty (c6_cfg c') - 1) 0 l)
      (bump st_dtlb_miss_cycles (r_stall_cycles tr) c'))) as Hs
      by (apply start_miss_ok; [apply unit_start_ok|by apply ok_bump]).
    destruct (negb _); [by apply ex_fault_ok|by apply ex_load_value_ok].
  - destruct (negb _); [by apply ex_fault_ok|by apply ex_load_value_ok].
Qed.

Lemma drop_reservation_ok c : ok c -> ok (drop_reservation c).
Proof. intros Hc. apply ok_set_ctl; [|apply Hc|done]. destruct (ok_ctl _ _ _ _ _ Hc). by split. Qed.

Lemma not_a_store_ok c : ok c -> ok (not_a_store l c).
Proof. intros Hc. apply set_entry_ok; [|done]. by intros e. Qed.

Lemma C6_ex_store_ok result c : ok c -> post (flow_post ok) (C6_ex_store result l c).
Proof.
  intros Hc. unfold C6_ex_store. cbv zeta. set (va := u64 _).
  assert (fits 64 va) as Hva by (apply wrap_fits; lia).
  pose proof (c6_translate_ok va STORE c Hc) as Htr. destruct (c6_translate va STORE c) as [[tr c']|]; [|done].
  destruct Htr as [Hc' Hf]. simpl in Hc', Hf.
  destruct (r_fault tr); [by apply ex_fault_ok|].
  destruct (store_misaligned _ _).
  { eapply post_bind; [by apply write_bytes_ok|]. intros c1 Hc1. simpl.
    apply c6_complete_ok; [unfold reg_ok; lia|by apply not_a_store_ok]. }
  assert (fits 64 CAUSE_STORE_ACCESS) as Hcl by fits_const.
  destruct (negb _); [by apply ex_fault_ok|]. simpl.
  match goal with |- context [add_store ?a ?b ?d ?e ?f ?g] =>
    assert (ok { c' with c6_stb := (add_store a b d e f g).2 }) as Hb
      by (apply ok_set_stb; [apply add_store_ok, Hc'|done]) end.
  case_match; [|done]. case_match; [by apply drop_reservation_ok|done].
Qed.

Lemma stb_invalidate_ok pa n c : ok c -> ok (stb_invalidate pa n c).
Proof. intros Hc. apply ok_set_stb; [apply invalidate_address_ok, Hc|done]. Qed.

Lemma reserve_ok pa c : ok c -> ok { c with c6_ctl := { c6_ctl c with load_reservation := Some pa } }.
Proof. intros Hc. apply ok_set_ctl; [|apply Hc|done]. destruct (ok_ctl _ _ _ _ _ Hc). by split. Qed.

Lemma C6_ex_amo_ok c : ok c -> post (flow_post ok) (C6_ex_amo l c).
Proof.
  intros Hc. unfold C6_ex_amo. cbv zeta. set (n := if _ =? 3 then 8 else 4).
  set (acc := if _ =? 2 then LOAD else STORE). clearbody n acc.
  pose proof (c6_translate_ok (e6_rs1_val l) acc c Hc) as Htr.
  destruct (c6_translate _ acc c) as [[tr c']|]; [|done]. destruct Htr as [Hc' Hf]. simpl in Hc', Hf.
  destruct (r_fault tr); [apply ex_fault_ok; [done|apply Hl|done]|].
  destruct (e6_funct7 l .>> 2 =? 2); [|destruct (e6_funct7 l .>> 2 =? 3)].
  - unfold ex_lr. destruct (forward_load _ _ _ _ _); [by apply reserve_ok|by apply ex_wait_ok|].
    pose proof (c6_read_ok (r_paddr tr) n c' Hc') as Hr.
    destruct (c6_read _ n c') as [[v c1]|]; [|done]. by apply reserve_ok, Hr.
  - unfold ex_sc. case_bool_decide; [|by apply drop_reservation_ok].
    eapply post_bind; [by apply c6_write_ok|]. intros c1 [Hc1 _]. by apply drop_reservation_ok, stb_invalidate_ok.
  - unfold ex_amo_rmw. pose proof (c6_read_ok (r_paddr tr) n c' Hc') as Hr.
    destruct (c6_read _ n c') as [[v c1]|]; [|done]. cbv zeta.
    eapply post_bind; [by apply c6_write_ok, Hr|]. intros c2 [Hc2 _].
    by apply drop_reservation_ok, stb_invalidate_ok.
Qed.

(** A misprediction finds nothing younger than the branch in the scoreboard. *)
Lemma ex_mispredict_ok taken target c :
  fits 64 target -> ok c -> post ok (ex_mispredict taken target l c).
Proof.
  intros Htg Hc. unfold ex_mispredict. cbv zeta. set (tgt := if taken then target else _).
  assert (fits 64 tgt) as Htt by (subst tgt; case_match; [done|apply wrap_fits; lia]).
  apply (c6_redirect_ok tgt) in Hc; [|done]. apply (ok_bump st_flushes 1) in Hc.
  apply (ok_bump st_branch_mispredicts 1) in Hc. set (c1 := bump _ 1 _) in *. clearbody c1.
  rewrite flush_newest by (done || by rewrite (ok_tail _ _ _ _ _ Hc)). simpl.
  apply set_units_ok; [intros u; apply (units_map_ok (cancel_if_flushed (c6_sb c1))); apply cancel_ok|].
  destruct Hc. split; try assumption; [by apply predictor_ras_ok; [simpl; lia|..]|].
  by apply stb_squash_loop_ok.
Qed.

Lemma C6_ex_branch_ok taken target result c :
  fits 64 target -> ok c -> post (flow_post ok) (C6_ex_branch taken target result l c).
Proof.
  intros Htg Hc. unfold C6_ex_branch. case_match; [by apply ex_fault_ok; [fits_const|..]|]. cbv zeta.
  assert (ok { c with c6_pred := c6_train l taken target (c6_pred c) }) as Hc1
    by (apply ok_set_pred; [apply c6_train_ok; [done|apply Hc]|done]).
  destruct (_ || _); [|done]. eapply post_bind; [by apply ex_mispredict_ok|]. by intros c2.
Qed.

(** ** System instructions *)

Lemma c6_ecall_write_ok n out a1 i c : ok c -> post ok (c6_ecall_write n out a1 i c).
Proof.
  revert i c. induction n as [|n IH]; intros i c Hc; [done|]. cbn [c6_ecall_write].
  pose proof (c6_read_ok (u64 (a1 + i)) 1 c Hc) as Hr.
  destruct (c6_read _ 1 c) as [[b c']|]; [|done]. by apply IH, ok_set_out, Hr.
Qed.

Lemma c6_syscall_ok c : ok c -> post ok (c6_syscall c).
Proof.
  intros Hc. assert (reg_ok 10) as H10 by (unfold reg_ok; lia). unfold c6_syscall. cbv zeta.
  destruct (_ =? 64).
  - apply (post_bind ok ok); [case_match; [by apply c6_ecall_write_ok|done]|]. intros c1 Hc1.
    by apply c6_set_reg_ok.
  - destruct (_ || _); [by apply ok_set_stopped|]. case_match; by apply c6_set_reg_ok.
Qed.

Lemma ex_illegal_now_ok c : ok c -> flow_post ok (ex_illegal_now l c).
Proof.
  intros Hc. unfold ex_illegal_now.
  destruct (take_exception_ok CAUSE_ILLEGAL_INSTR (e6_pc l) (e6_instr l) (c6_csr c)) as [Htv Hcsr];
    [fits_const|apply Hl|by apply (fits_mono 32); [lia..|apply Hl]|apply Hc|].
  destruct (take_exception _ _ _ _) as [tvec csr]. simpl in *. by apply c6_redirect_ok, ok_set_csr.
Qed.

Lemma ex_return_ok ret c : fits 64 ret.1 -> csr_ok ret.2 -> ok c -> ok (ex_return ret c).
Proof.
  intros Hr1 Hr2 Hc. unfold ex_return.
  apply (ok_set_csr ret.2) in Hc; [|done].
  apply (c6_redirect_ok ret.1) in Hc; [|done]. apply drop_reservation_ok in Hc.
  apply ok_set_ctl; [|apply Hc|done]. destruct (ok_ctl _ _ _ _ _ Hc). by split.
Qed.

Lemma ex_system_0_ok c : ok c -> post (flow_post ok) (ex_system_0 l c).
Proof.
  intros Hc. pose proof (ok_csr _ _ _ _ _ Hc) as Hcsr. unfold ex_system_0. cbv zeta.
  assert (fits 64 0) as H0' by fits_const.
  destruct (_ =? 0x000).
  { destruct (_ =? PRIV_M).
    - eapply post_bind; [by apply c6_syscall_ok|]. by intros c1.
    - apply ex_trap_ok; [repeat case_match; fits_const|done..]. }
  destruct (_ =? 0x001); [by apply ex_trap_ok; [fits_const|..]|].
  destruct (_ =? 0x302).
  { destruct (negb _); [by apply ex_illegal_now_ok|]. destruct (mret_ok _ Hcsr).
    apply ex_return_ok; [done..|]. apply ok_set_mmu; [apply mmu_flush_all_wf, Hc|done]. }
  destruct (_ =? 0x102).
  { destruct (_ || _); [by apply ex_illegal_now_ok|]. destruct (sret_ok _ Hcsr). by apply ex_return_ok. }
  assert (fits 64 (u64 (e6_pc l + 4))) as Hp by (apply wrap_fits; lia).
  destruct (_ =? 0x105).
  { destruct (_ && _); [by apply ex_illegal_now_ok|]. apply c6_redirect_ok; [done|].
    apply ok_set_ctl; [|apply Hc|done]. destruct (ok_ctl _ _ _ _ _ Hc). by split. }
  destruct (_ =? 0x09); [|done].
  apply c6_redirect_ok; [done|]. apply ok_set_mmu; [apply sfence_vma_wf, Hc|done].
Qed.

Lemma csr_new_value_fits f3 old v x :
  fits 64 old -> fits 64 v -> csr_new_value f3 old v = Some x -> fits 64 x.
Proof.
  intros Ho Hv. unfold csr_new_value. cbv zeta.
  destruct (_ =? 1); [by intros [= <-]|]. destruct (_ && _); [intros [= <-]; by apply fits_lor|].
  destruct (_ && _); [intros [= <-]; by apply fits_ldiff|done].
Qed.

Lemma ex_csr_ok c : ok c -> flow_post ok (ex_csr l c).
Proof.
  intros Hc. unfold ex_csr. cbv zeta. set (a := u16 _). set (v1 := if 5 <=? _ then _ else _).
  assert (fits 64 v1) as Hv1.
  { subst v1. case_match; [apply fits_land_low|apply Hl]. }
  pose proof (csr_read_fits a (c6_csr c) (proj2 (ok_csr _ _ _ _ _ Hc))) as Hr.
  destruct (csr_read a _) as [old|]; simpl in Hr.
  - match goal with |- flow_post _ (Next _ _ (if _ then c6_redirect _ { ?x with c6_mmu := _ } else _)) =>
      set (y := x); assert (ok y) as Hx; [subst y|clearbody y] end.
    { destruct (csr_new_value _ old v1) as [x|] eqn:En; [|done].
      apply csr_new_value_fits in En; [|done..].
      apply ok_set_ctl; [|apply Hc|apply ok_set_csr; [apply csr_write_ok, Hc; done|done]].
      destruct (ok_ctl _ _ _ _ _ Hc). by split. }
    unfold flow_post. case_match; [|done]. apply c6_redirect_ok; [apply wrap_fits; lia|].
    apply ok_set_mmu; [apply mmu_flush_all_wf, Hx|done].
  - apply ex_trap_ok; [fits_const|by apply (fits_mono 32); [lia..|apply Hl]|done].
Qed.

Lemma C6_ex_system_ok c : ok c -> post (flow_post ok) (C6_ex_system l c).
Proof. intros Hc. unfold C6_ex_system. case_match; [by apply ex_system_0_ok|by apply ex_csr_ok]. Qed.

(** ** Floating point *)

Section fpu.
Context (fpu : Z -> Z -> Z -> Z -> Z -> hart S -> list Z -> fpu_answer S) (Hfpu : fpu_total fpu).

Lemma ex_fp_address_ok c :
  ok c -> post (fun r => match r with inl fl => flow_post ok fl | inr (_, _, c') => ok c' end) (ex_fp_address l c).
Proof.
  intros Hc. unfold ex_fp_address. cbv zeta. set (va := u64 _). set (store := _ =? 0x27).
  assert (fits 64 va) as Hva by (apply wrap_fits; lia). destruct (_ || store); [|done].
  destruct (fp_misaligned _ _); [apply ex_fault_ok; [case_match; fits_const|done..]|].
  pose proof (c6_translate_ok va (if store then STORE else LOAD) c Hc) as Htr.
  destruct (c6_translate va _ c) as [[tr c']|]; [|done]. destruct Htr as [Hc' Hf]. simpl in Hc', Hf.
  destruct (r_fault tr); [by apply ex_fault_ok|].
  destruct (negb _); [apply ex_fault_ok; [case_match; fits_const|done..]|].
  destruct store; [done|]. pose proof (dcache_access_ok (r_paddr tr) _ (ok_dcache _ _ _ _ _ Hc')) as Hd.
  destruct (dcache_access _ _) as [hit dc]. simpl in Hd |- *.
  destruct hit; [by apply ok_set_dcache|]. by apply ok_bump, ok_set_dcache.
Qed.

Lemma fp_instr_fits : fits 32 (fp_instr l).
Proof.
  unfold fp_instr. case_match; [apply wrap_fits; lia|]. case_match; [apply wrap_fits; lia|apply Hl].
Qed.

Lemma fp_finish_ok miss latency v c : ok c -> ok (fp_finish miss latency v l c).
Proof.
  intros Hc. unfold fp_finish. destruct miss; [by apply start_miss_ok; [apply unit_start_ok|]|].
  destruct (latency <=? 1); [by apply c6_complete_ok; [apply Hl|]|].
  destruct (5 <? latency); (apply set_units_ok; [|done]); intros u [? ? [Ep Hp] ? ? ?]; split; simpl; try done.
  - apply unit_start_ok.
  - split; [by rewrite length_insert|]. apply Forall_insert; [done|apply unit_start_ok].
Qed.

Lemma C6_ex_fpu_ok c : ok c -> post (flow_post ok) (C6_ex_fpu fpu l c).
Proof.
  intros Hc. unfold C6_ex_fpu. pose proof (ex_fp_address_ok c Hc) as Ha.
  destruct (ex_fp_address l c) as [[fl|[[pa miss] c']]|]; [done| |done]. simpl in Ha.
  pose proof (Hfpu (fp_instr l) (e6_rs1_val l) (e6_rs2_val l) (e6_rd l) pa (c6_core c') (c6_fp c') fp_instr_fits
    (iek_v1 _ Hl) (iek_rd _ Hl) (ok_hart _ _ _ _ _ Ha) (ok_mem _ _ _ _ _ Ha) (ok_fp _ _ _ _ _ Ha)) as Hf.
  destruct (fpu _ _ _ _ _ _ _) as [| |lat fl h fp]; [|done|].
  - apply ex_fault_ok; [fits_const|by apply (fits_mono 32); [lia..|apply Hl]|done].
  - destruct Hf as (Hh & Hm & Hp). cbv zeta. unfold post, flow_post. apply fp_finish_ok.
    assert (ok { c' with c6_core := h; c6_fp := fp }) as Hc1 by (by apply ok_set_fp, ok_set_core).
    set (c1 := { c' with c6_core := h; c6_fp := fp }) in *. clearbody c1.
    assert (ok (if negb (fl =? 0) then { c1 with c6_csr := set_fflags fl (c6_csr c1) } else c1)) as Hc2
      by (case_match; [apply ok_set_csr; [apply set_fflags_ok, Hc1|done]|done]).
    destruct (_ =? 0x27); [by apply not_a_store_ok|done].
Qed.

(** ** The stage *)

Lemma flow_bind_ok r f :
  post (flow_post ok) r -> (forall result multi c, ok c -> post (flow_post ok) (f result multi c)) ->
  post (flow_post ok) (flow_bind r f).
Proof. intros Hr Hf. destruct r as [[]|]; simpl in *; auto. Qed.

Lemma c6_switch_target : fits 64 (c6_switch l).2.
Proof.
  assert (fits 64 0) as H0' by fits_const. unfold c6_switch. cbv zeta.
  repeat lazymatch goal with
    |- fits 64 (if ?b then _ else _).2 =>
      destruct b; [cbn [snd]; first [assumption | apply wrap_fits; lia
                                    | apply fits_ldiff; [lia|apply wrap_fits; lia]]|] end.
  exact H0'.
Qed.

Lemma C6_ex_body_ok c : ok c -> post (flow_post ok) (C6_ex_body fpu l c).
Proof.
  intros Hc. unfold C6_ex_body. pose proof c6_switch_target as Htg.
  destruct (c6_switch l) as [[result taken] target]. simpl in Htg. cbv zeta.
  assert (ok (if is_m l then ex_m l c else c)) as Hc1 by (case_match; [by apply ex_m_ok|done]).
  set (c1 := if is_m l then ex_m l c else c) in *. clearbody c1.
  assert (ok (if e6_opcode l =? 0x63 then bump st_branches 1 c1 else c1)) as Hc2
    by (case_match; [by apply ok_bump|done]).
  set (c2 := if e6_opcode l =? 0x63 then bump st_branches 1 c1 else c1) in *. clearbody c2.
  apply flow_bind_ok.
  { destruct (_ =? 0x03); [by apply C6_ex_load_ok|]. destruct (_ =? 0x23); [by apply C6_ex_store_ok|].
    destruct (_ =? 0x2F); [by apply C6_ex_amo_ok|done]. }
  intros r1 m1 c3 Hc3. apply flow_bind_ok.
  { destruct (is_branch_op _); [by apply C6_ex_branch_ok|]. destruct (_ =? 0x73); [by apply C6_ex_system_ok|done]. }
  intros r2 m2 c4 Hc4. destruct (sb_get_entry_ok (c6_sb c4) (e6_rob_index l)) as (e & -> & _); [apply Hc4|done|].
  case_match; [by apply C6_ex_fpu_ok|done].
Qed.
End fpu.
End step.

(** ** What the operations leave alone *)

Lemma c6_write_ctl a v n c : match c6_write a v n c with Some c' => c6_ctl c' = c6_ctl c | None => True end.
Proof. unfold c6_write, c6_mem_write. by destruct (_ (mem_intf _)) as [[[]|] s]. Qed.

Lemma c6_drain_loop_ctl fuel c :
  match c6_drain_loop fuel c with Some c' => c6_ctl c' = c6_ctl c | None => True end.
Proof.
  revert c. induction fuel as [|fuel IH]; intros c; [done|]. cbn [c6_drain_loop]. unfold c6_drain_one.
  destruct (drain_one _ _) as [[[[a v] n]|] b]; [|done].
  match goal with |- context [c6_write a v n ?c0] =>
    pose proof (c6_write_ctl a v n c0) as Hw; destruct (c6_write a v n c0) as [c'|] end; [|done].
  specialize (IH c'). destruct (c6_drain_loop fuel c'); [|done]. rewrite IH. exact Hw.
Qed.

Lemma c6_drain_rob_ctl fuel keep_fp stop (c : cpu) : c6_ctl (c6_drain_rob fuel keep_fp stop c) = c6_ctl c.
Proof.
  revert c. induction fuel as [|fuel IH]; intros c; [done|]. cbn [c6_drain_rob].
  destruct (_ && _); [|done]. rewrite IH. by destruct (sb_is_store _), (_ && _).
Qed.

Lemma fu_tick_ctl b f (c : cpu) : c6_ctl (fu_tick b f c).2 = c6_ctl c.
Proof. unfold fu_tick, c6_taint. by repeat case_match. Qed.
Lemma fu_tick_counted_ctl k b f (c : cpu) : c6_ctl (fu_tick_counted k b f c).2 = c6_ctl c.
Proof. unfold fu_tick_counted. rewrite fu_tick_ctl. by case_match. Qed.
Lemma fu_tick_all_ctl tick l (c : cpu) :
  (forall f c, c6_ctl (tick f c).2 = c6_ctl c) -> c6_ctl (fu_tick_all tick l c).2 = c6_ctl c.
Proof.
  intros Ht. revert c. induction l as [|f l IH]; intros c; [done|]. simpl.
  pose proof (Ht f c) as Hf. destruct (tick f c) as [f' c']. specialize (IH c').
  destruct (fu_tick_all tick l c') as [l' c'']. simpl in *. congruence.
Qed.
Lemma c6_tick_units_ctl (c : cpu) : c6_ctl (c6_tick_units c) = c6_ctl c.
Proof.
  unfold c6_tick_units. cbv zeta.
  pose proof (fu_tick_counted_ctl st_mul_stall_cycles false (mul_fu (c6_units c)) c) as H3.
  destruct (fu_tick_counted _ _ (mul_fu _) c) as [mul c1].
  pose proof (fu_tick_counted_ctl st_div_stall_cycles false (div_fu (c6_units c)) c1) as H4.
  destruct (fu_tick_counted _ _ (div_fu _) _) as [div c2].
  pose proof (fu_tick_all_ctl _ (dcache_miss_fu (c6_units c)) c2 (fu_tick_counted_ctl st_dcache_miss_cycles true)) as H5.
  destruct (fu_tick_all _ (dcache_miss_fu _) _) as [dms c3].
  pose proof (fu_tick_counted_ctl st_load_use_stall_cycles true (load_hit_fu (c6_units c)) c3) as H6.
  destruct (fu_tick_counted _ _ (load_hit_fu _) _) as [hit c4].
  pose proof (fu_tick_all_ctl _ (fpu_pipe (c6_units c)) c4 (fu_tick_ctl false)) as H7.
  destruct (fu_tick_all _ (fpu_pipe _) _) as [pipe c5].
  pose proof (fu_tick_ctl false (fpu_divsqrt_fu (c6_units c)) c5) as H8.
  destruct (fu_tick _ (fpu_divsqrt_fu _) _) as [sqrt c6]. simpl in *. congruence.
Qed.

(** ** The execution stage *)

Lemma ok_change R E (W W' : Prop) t c :
  (c6_stall_ex (c6_ctl c) = true -> W') -> c6_ok R E W t c -> c6_ok R E W' t c.
Proof. intros HW []. by split. Qed.

Lemma ok_tail_eq R E W t c : c6_ok R E W t c -> c6_ok R E W (sb_tail (c6_sb c)) c.
Proof. intros Hc. by rewrite (ok_tail _ _ _ _ _ Hc). Qed.

(** The flush of a trap empties the scoreboard. *)
Lemma c6_flush_all_ok R E W t c : c6_ok R E W t c -> c6_ok R E W 0 (c6_flush_all c).
Proof.
  intros []. split; try assumption; simpl.
  - by apply sb_flush_ok.
  - by apply stb_flush_speculative_ok.
  - apply (units_map_ok fu_stop); [apply fu_stop_ok|done].
  - done.
Qed.

Lemma ex_take_trap_ok R E W t l c :
  c6_ok R E W t c ->
  post (fun c' => c6_ok R E W 0 c' /\ c6_flush (c6_ctl c') = c6_flush (c6_ctl c)) (ex_take_trap l c).
Proof.
  intros Hc. unfold ex_take_trap. cbv zeta.
  apply (c6_drain_rob_ok _ _ _ _ (sb_count (c6_sb c)) true (Some (e6_rob_index l))) in Hc as Hd.
  pose proof (c6_drain_rob_ctl (sb_count (c6_sb c)) true (Some (e6_rob_index l)) c) as Ek.
  set (c1 := c6_drain_rob _ _ _ c) in *. clearbody c1.
  pose proof (c6_drain_all_ok _ _ _ _ c1 Hd) as Ha. pose proof (c6_drain_loop_ctl (Datatypes.S (commit_count (c6_stb c1))) c1) as Ek'.
  fold (c6_drain_all c1) in Ek'. destruct (c6_drain_all c1) as [c2|]; [|done]. simpl.
  split; [by eapply drop_reservation_ok, c6_flush_all_ok|]. simpl. congruence.
Qed.

Section ex_stage.
Context (fpu : Z -> Z -> Z -> Z -> Z -> hart S -> list Z -> fpu_answer S) (Hfpu : fpu_total fpu).

(** The invariant after the stage: when it has not flushed, its instruction is still the newest. *)
Definition ex_post (R : C6_latches) (E : C6_Issue_EX_Latch) (c : cpu) : Prop :=
  c6_ok R E True (sb_tail (c6_sb c)) c /\
  (c6_flush (c6_ctl c) = false -> newest (c6_ie R) (sb_tail (c6_sb c))).

Lemma ex_done_ok R E t l result multi c :
  reg_ok (e6_rd l) -> (c6_flush (c6_ctl c) = false -> newest (c6_ie R) t) ->
  c6_ok R E True t c -> post (ex_post R E) (ex_done l result multi c).
Proof.
  intros Hd Hn Hc. unfold ex_done. cbv zeta.
  assert (c6_ok R E True t (if negb multi && (0 <=? e6_rob_index l)
    then c6_complete (e6_rob_index l) result (e6_rd l) c else c)) as Hc1
    by (case_match; [by apply c6_complete_ok|done]).
  match type of Hc1 with c6_ok _ _ _ _ ?x =>
    assert (c6_ctl x = c6_ctl c) as Ek by (by case_match); set (c1 := x) in *; clearbody c1 end.
  destruct (trap_pending (c6_ctl c1)) eqn:Et.
  - apply (ck_trap _ (ok_ctl _ _ _ _ _ Hc1)) in Et.
    eapply post_mono; [by apply (ex_take_trap_ok _ _ _ _ l c1 Hc1)|]. intros c2 [Hc2 Ef].
    split; [by eapply ok_tail_eq|]. congruence.
  - simpl. split; [by eapply ok_tail_eq|]. rewrite (ok_tail _ _ _ _ _ Hc1), Ek. done.
Qed.

Lemma C6_EX_stage_ok R E W t c :
  latches_ok R -> (c6_flush (c6_ctl c) = false -> newest (c6_ie R) t) ->
  c6_ok R E W t c -> post (ex_post R E) (C6_EX_stage fpu c).
Proof.
  intros HR Hn Hc. unfold C6_EX_stage. cbv zeta. rewrite (ok_reg _ _ _ _ _ Hc).
  match goal with |- context [c6_tick_units ?x] => set (c0 := x) end.
  assert (c6_ok R E True t (c6_tick_units c0)) as Hc1.
  { apply c6_tick_units_ok, ok_set_ctl; [|done|by apply (ok_change _ _ W)].
    destruct (ok_ctl _ _ _ _ _ Hc). by split. }
  assert (c6_flush (c6_ctl (c6_tick_units c0)) = c6_flush (c6_ctl c)) as Ef by (by rewrite c6_tick_units_ctl).
  set (c1 := c6_tick_units c0) in *. clearbody c1. rewrite <-Ef in Hn.
  destruct (e6_valid (c6_ie R)) eqn:Ev; cbn [negb].
  - destruct (c6_flush (c6_ctl c1)) eqn:Ef1.
    { simpl. split; [by eapply ok_tail_eq|]. by rewrite Ef1. }
    specialize (Hn eq_refl Ev) as [Hi Ht].
    pose proof (C6_ex_body_ok R E True t (c6_ie R) (lk_ie _ HR) Hi Ht I fpu Hfpu c1 Hc1) as Hb.
    assert (newest (c6_ie R) t) as Hn' by (by intros _).
    destruct (C6_ex_body fpu _ c1) as [[res m c2|res m c2]|]; [..|done];
      (eapply ex_done_ok; [apply (lk_ie _ HR)|done|exact Hb]).
  - simpl. split; [by eapply ok_tail_eq|]. intros _. unfold newest. by rewrite Ev.
Qed.
End ex_stage.

(** ** The issue stage *)

Lemma latches_set_pf n l : fits 64 (pf_pc l) -> latches_ok n -> latches_ok { n with c6_pf := l }.
Proof. intros Hl []. by split. Qed.
Lemma latches_set_fi n l : fi_ok l -> latches_ok n -> latches_ok { n with c6_fi := l }.
Proof. intros Hl []. by split. Qed.
Lemma latches_set_ii n l : ii_ok l -> latches_ok n -> latches_ok { n with c6_ii := l }.
Proof. intros Hl []. by split. Qed.
Lemma latches_set_ie n l : ie_ok l -> latches_ok n -> latches_ok { n with c6_ie := l }.
Proof. intros Hl []. by split. Qed.

Section front.
Context (R : C6_latches) (HR : latches_ok R).

Lemma ok_no_ie E E' W t c : c6_ok R E W t c -> c6_ok R E' W t (no_ie c).
Proof.
  intros []. split; try assumption; [|done]. apply latches_set_ie; [|done].
  by destruct (lk_ie _ ok_next0).
Qed.

Lemma ok_set_ie E W t l c : ie_ok l -> c6_ok R E W t c -> c6_ok R l W t (set_ie l c).
Proof. intros Hl []. split; try assumption; [|done]. by apply latches_set_ie. Qed.

(** An operand is a 64-bit value, if it is there, and is always found: a busy clobber names an
    entry of the scoreboard. *)
Definition operand_ok (r : option Z * bool) : Prop :=
  match r.1 with Some v => fits 64 v | None => True end.

Lemma int_operand_ok E W t r c : reg_ok r -> c6_ok R E W t c -> post operand_ok (int_operand r c).
Proof.
  intros Hr Hc. unfold int_operand. cbv zeta. destruct (r =? 0); [fits_const|].
  destruct (ok_sb _ _ _ _ _ Hc) as [Hwf He Hrd Hfp] eqn:Eq. clear Eq.
  pose proof (Forall_lookup_total_lt _ _ (Z.to_nat r) Hrd ltac:(rewrite (sb_wf_rd _ _ Hwf); unfold reg_ok in Hr; lia)) as Hx.
  simpl in Hx. destruct (cl_busy _); [|simpl; apply reg_fits; [apply Hc|done]].
  destruct (sb_get_entry_ok (c6_sb c) _ (ok_sb _ _ _ _ _ Hc) (Hx eq_refl)) as (e & -> & _ & Hv & _).
  simpl. by case_match.
Qed.

Lemma fp_operand_ok E W t r c : reg_ok r -> c6_ok R E W t c -> post operand_ok (fp_operand r c).
Proof.
  intros Hr Hc. unfold fp_operand. cbv zeta.
  destruct (ok_fp _ _ _ _ _ Hc) as [Hl Hf].
  pose proof (Forall_lookup_total_lt _ _ (Z.to_nat r) Hf ltac:(unfold reg_ok in Hr; lia)) as Hv.
  destruct (ok_sb _ _ _ _ _ Hc) as [Hwf He Hrd Hfp] eqn:Eq. clear Eq.
  pose proof (Forall_lookup_total_lt _ _ (Z.to_nat r) Hfp ltac:(rewrite (sb_wf_fp _ _ Hwf); unfold reg_ok in Hr; lia)) as Hx.
  simpl in Hx. destruct (cl_busy _); [|done].
  destruct (sb_get_entry_ok (c6_sb c) _ (ok_sb _ _ _ _ _ Hc) (Hx eq_refl)) as (e & -> & _).
  simpl. by case_match.
Qed.

Lemma ctl_stall_issue_ok k : ctl_ok k -> ctl_ok { k with c6_stall_issue := true }.
Proof. intros []. by split. Qed.

Lemma c6_issue_stalls_ok E E' W t c : c6_ok R E W t c -> c6_ok R E' W t (c6_issue_stalls c).
Proof.
  intros Hc. unfold c6_issue_stalls. apply ok_bump. eapply ok_no_ie.
  apply ok_set_ctl; [apply ctl_stall_issue_ok, Hc|apply Hc|exact Hc].
Qed.

(** The state after the stage: [f] tells whether the execution stage flushed; if not, the
    instruction that was dispatched, or the one that still executes, is the newest. *)
Definition issue_post (f : bool) (c : cpu) : Prop :=
  c6_ok R (c6_ie (c6_next c)) (f = false -> newest (c6_ie R) (sb_tail (c6_sb c))) (sb_tail (c6_sb c)) c /\
  (f = false -> newest (c6_ie (c6_next c)) (sb_tail (c6_sb c))).

Lemma issue_post_none f E t c :
  e6_valid (c6_ie (c6_next c)) = false -> c6_ok R E False t c -> issue_post f c.
Proof.
  intros Hv Hc. split; [|intros _; unfold newest; by rewrite Hv].
  apply ok_tail_eq in Hc. destruct Hc. by split.
Qed.

Lemma issue_illegal_ok f E t ii c : ii_ok ii -> c6_ok R E False t c -> post (issue_post f) (issue_illegal ii c).
Proof.
  intros Hii Hc. unfold issue_illegal. cbv zeta.
  apply (c6_drain_rob_ok _ _ _ _ (sb_count (c6_sb c)) false None) in Hc as Hd.
  pose proof (c6_drain_all_ok _ _ _ _ _ Hd) as Ha. destruct (c6_drain_all _) as [c1|]; [|done]. simpl.
  apply (issue_post_none f E 0); [done|]. apply (ok_no_ie E). apply c6_exception_ok; [fits_const|apply Hii| |].
  - apply (fits_mono 32); [lia..|apply Hii].
  - by apply (c6_flush_all_ok _ _ _ t).
Qed.

Lemma c6_dispatch_ok ii v1 v2 idx : ii_ok ii -> fits 64 v1 -> fits 64 v2 -> ie_ok (c6_dispatch ii v1 v2 idx).
Proof. intros [] ? ?. by split. Qed.

Lemma issue_allocate_ok f E t ii v1 v2 c :
  ii_ok ii -> fits 64 v1 -> fits 64 v2 -> c6_ok R E False t c -> post (issue_post f) (issue_allocate ii v1 v2 c).
Proof.
  intros Hii H1' H2' Hc. unfold issue_allocate.
  destruct (sb_allocate_ok (c6_sb c) (ok_sb _ _ _ _ _ Hc)) as [Hsb Hidx].
  destruct (sb_allocate C6_SIZE (c6_sb c)) as [idx sb]. cbn [fst snd] in Hsb, Hidx.
  destruct (Z.ltb_spec idx 0) as [Hlt|Hge].
  { destruct Hidx as [[_ ->]|[E1 _]]; [|lia]. simpl.
    apply (issue_post_none f E t); [done|]. apply (c6_issue_stalls_ok E).
    apply ok_set_sb; [apply Hc|apply Hc|done]. }
  destruct Hidx as [[? _]|[Ei Et]]; [lia|]. cbv zeta.
  pose proof (sb_tail_lt _ (ok_sb _ _ _ _ _ Hc)) as Hlt.
  assert (0 <= idx < 32) as Hi by lia.
  assert (keeps_entry (issue_entry ii)) as Hk.
  { intros e. split; [done|]. split; [done|]. intros (_ & Hr & Hd). split; [apply Hii|done]. }
  set (sb1 := sb_set_entry idx (issue_entry ii) sb).
  assert (sb_ok sb1) as Hsb1 by (by apply sb_set_entry_ok).
  assert (c6_ok R E False (sb_tail sb) { c with c6_sb := sb1 }) as Hc1.
  { destruct Hc. split; done. }
  destruct (i6_is_illegal ii); [by apply (issue_illegal_ok f E (sb_tail sb))|].
  pose proof (c6_dispatch_ok ii v1 v2 idx Hii H1' H2') as Hie.
  apply (ok_set_ie _ _ _ _ _ Hie) in Hc1.
  set (c1 := set_ie _ _) in *.
  assert (c6_sb c1 = sb1 /\ c6_ie (c6_next c1) = c6_dispatch ii v1 v2 idx) as [Es En] by done. clearbody c1.
  rewrite Es. set (sb2 := sb_set_entry idx _ sb1).
  assert (sb_ok sb2 /\ sb_tail sb2 = sb_tail sb) as [Hsb2 Et2].
  { split; [|done]. apply sb_set_entry_ok; [|done]. by intros e. }
  clearbody sb2. unfold post.
  match goal with |- issue_post f { c1 with c6_sb := ?s } => assert (sb_ok s /\ sb_tail s = sb_tail sb) as [Hs3 Et3] end.
  { pose proof (sk_wf _ Hsb2) as Hwf.
    destruct (_ && _); [|destruct (writes_to_fp_reg ii)]; [| |done]; (split; [|done]).
    - apply sb_set_rd_ok; [rewrite length_insert; apply Hwf| |done]. by apply Forall_insert; [apply Hsb2|].
    - apply sb_set_fp_ok; [rewrite length_insert; apply Hwf| |done]. by apply Forall_insert; [apply Hsb2|]. }
  match goal with |- issue_post f { c1 with c6_sb := ?s } => set (sb3 := s) in *; clearbody sb3 end.
  split.
  - apply (ok_change _ _ False); [intros Hs; by destruct (ok_stall _ _ _ _ _ Hc1 Hs)|].
    change (c6_next { c1 with c6_sb := sb3 }) with (c6_next c1). rewrite En.
    change (sb_tail (c6_sb { c1 with c6_sb := sb3 })) with (sb_tail sb3). rewrite Et3. by apply ok_set_sb.
  - intros _ _. simpl. rewrite En, Et3, Et. simpl. split; [done|]. by rewrite Ei, Nat2Z.id.
Qed.

Lemma C6_Issue_stage_ok E c :
  ex_post R E c -> post (issue_post (c6_flush (c6_ctl c))) (C6_Issue_stage c).
Proof.
  intros [Hc Hn]. unfold C6_Issue_stage. cbv zeta. rewrite (ok_reg _ _ _ _ _ Hc).
  set (ii := c6_ii R). assert (ii_ok ii) as Hii by apply HR.
  set (f := c6_flush (c6_ctl c)) in *. set (t := sb_tail (c6_sb c)) in *.
  destruct (c6_stall_ex (c6_ctl c)) eqn:Es.
  { simpl. split; [|intros _; by unfold newest]. simpl. eapply ok_no_ie.
    apply (ok_change R E True); [done|]. fold t.
    apply ok_set_ctl; [apply ctl_stall_issue_ok, Hc|done|exact Hc]. }
  match goal with |- context [if f then Some (no_ie ?x) else _] => set (c1 := x) end.
  assert (c6_ok R E False t c1) as Hc1.
  { apply ok_set_ctl; [destruct (ok_ctl _ _ _ _ _ Hc); by split|simpl; by rewrite Es|].
    apply (ok_change R E True); [by rewrite Es|exact Hc]. }
  clearbody c1 f. clear Hc Hn Es. clearbody t. clear c.
  assert (forall c', c6_ok R E False t c' -> issue_post f (no_ie c')) as Hno.
  { intros c' Hc'. apply (issue_post_none f E t); [done|]. by eapply ok_no_ie. }
  assert (forall c', c6_ok R E False t c' -> issue_post f (c6_issue_stalls c')) as Hst.
  { intros c' Hc'. apply (issue_post_none f E t); [done|]. by eapply c6_issue_stalls_ok. }
  destruct f; [by apply Hno|]. destruct (negb _); [by apply Hno|].
  destruct (0 <? _); [by apply Hst, ok_set_extra|].
  pose proof (iik_rs1 _ Hii) as R1. pose proof (iik_rs2 _ Hii) as R2.
  assert (post operand_ok (if reads_rs1_as_int ii then int_operand (i6_rs1 ii) c1 else fp_operand (i6_rs1 ii) c1)) as P1
    by (destruct (reads_rs1_as_int ii); [by eapply int_operand_ok|by eapply fp_operand_ok]).
  assert (post operand_ok (if reads_rs2_as_int ii then int_operand (i6_rs2 ii) c1 else fp_operand (i6_rs2 ii) c1)) as P2
    by (destruct (reads_rs2_as_int ii); [by eapply int_operand_ok|by eapply fp_operand_ok]).
  assert (post operand_ok (if reads_rs3 ii then fp_operand ((i6_instr ii .>> 27) .& 0x1F) c1 else Some (Some 0, false))) as P3
    by (destruct (reads_rs3 ii); [by eapply fp_operand_ok; [apply reg_ok_low|]|fits_const]).
  destruct (if reads_rs1_as_int ii then _ else _) as [[v1 fwd1]|]; [|done].
  destruct (if reads_rs2_as_int ii then _ else _) as [[v2 fwd2]|]; [|done].
  destruct (if reads_rs3 ii then _ else _) as [[v3 fwd3]|]; [|done].
  unfold post, operand_ok in P1, P2, P3. simpl in P1, P2.
  apply (ok_bump _ _ _ _ st_forwarded_reads (Z.b2z fwd1 + Z.b2z fwd2)) in Hc1.
  set (c2 := bump _ _ c1) in *. clearbody c2.
  destruct v1 as [v1|]; [|by apply Hst]. destruct v2 as [v2|]; [|by apply Hst].
  destruct v3 as [v3|]; [|by apply Hst].
  destruct (_ || _); [by apply Hst|].
  destruct (_ && _); [by apply Hst, ok_bump; destruct Hc1|].
  apply (ok_set_taint _ _ _ _ (taint_after ii (reg_load_tainted c2))) in Hc1.
  set (c3 := { c2 with reg_load_tainted := _ }) in *. clearbody c3.
  destruct (unit_hazard _ _); [by apply Hst|].
  repeat (destruct (_ && _); [by apply Hst|]).
  by apply (issue_allocate_ok _ E t).
Qed.

(** ** Decode, fetch, PC generation *)

(** What the stages after issue leave alone. *)
Context (E : C6_Issue_EX_Latch) (W : Prop) (t : nat).
#[local] Abbreviation okf := (c6_ok R E W t).

Lemma ok_set_pf l c : fits 64 (pf_pc l) -> okf c -> okf (set_pf l c).
Proof. intros Hl []. split; try assumption. by apply latches_set_pf. Qed.
Lemma ok_set_fi l c : fi_ok l -> okf c -> okf (set_fi l c).
Proof. intros Hl []. split; try assumption. by apply latches_set_fi. Qed.
Lemma ok_set_ii l c : ii_ok l -> okf c -> okf (set_ii l c).
Proof. intros Hl []. split; try assumption. by apply latches_set_ii. Qed.
Lemma ok_no_pf c : okf c -> okf (no_pf c).
Proof. intros Hc. apply ok_set_pf; [apply (ok_next _ _ _ _ _ Hc)|done]. Qed.
Lemma ok_no_fi c : okf c -> okf (no_fi c).
Proof. intros Hc. apply ok_set_fi; [apply (ok_next _ _ _ _ _ Hc)|done]. Qed.
Lemma ok_no_ii c : okf c -> okf (no_ii c).
Proof. intros Hc. apply ok_set_ii; [by destruct (lk_ii _ (ok_next _ _ _ _ _ Hc))|done]. Qed.

Lemma C6_ID_stage_ok c : okf c -> okf (C6_ID_stage c).
Proof.
  intros Hc. unfold C6_ID_stage. cbv zeta. rewrite (ok_reg _ _ _ _ _ Hc).
  destruct (c6_flush _); [by apply ok_no_ii|]. destruct (c6_stall_issue _); [done|].
  destruct (negb (f6_valid _)); [by apply ok_no_ii|].
  assert (okf (set_ii (c6_id_decode (c6_fi R) (c6_ii (c6_next c))) c)) as Hc1.
  { apply ok_set_ii; [|done]. apply c6_id_decode_ok; [apply HR|apply (ok_next _ _ _ _ _ Hc)]. }
  set (c1 := set_ii _ c) in *. clearbody c1.
  destruct (_ && _); [|done]. apply ok_bump, ok_bump, c6_redirect_ok; [apply wrap_fits; lia|done].
Qed.

(** No window is ever granted, so the word comes from the bus. *)
Lemma C6_fetch_instruction_ok a c :
  okf c -> post (fun r => okf r.2 /\ match r.1 with Some w => fits 32 w | None => True end) (C6_fetch_instruction a c).
Proof.
  intros Hc. unfold C6_fetch_instruction. cbv zeta. rewrite (ok_dmi _ _ _ _ _ Hc).
  destruct (transport_total (mkPayload TLM_READ a (le_split 4 0) false TLM_INCOMPLETE false) 0 _ (ok_mem _ _ _ _ _ Hc))
    as (p & d & s & E1 & Er & Hs & Hl & Hb); [apply le_split_bytes|].
  rewrite E1, Er. rewrite (tm_no_dmi s Hs), andb_false_r. simpl. split; [by apply ok_mem_intf|].
  apply le_combine_fits in Hb. rewrite Hl in Hb. exact Hb.
Qed.

Lemma ctl_next_pc_ok v k : fits 64 v -> ctl_ok k -> ctl_ok { k with c6_next_pc := v }.
Proof. intros ? []. by split. Qed.
Lemma ctl_stall_pcgen_ok k : ctl_ok k -> ctl_ok { k with c6_stall_pcgen := true }.
Proof. intros []. by split. Qed.

Lemma c6_deliver_ok pc w c : fits 64 pc -> fits 32 w -> okf c -> okf (c6_deliver pc w c).
Proof.
  intros Hp Hw Hc. unfold c6_deliver. pose proof (icache_access_ok pc _ (ok_icache _ _ _ _ _ Hc)) as Hi.
  destruct (icache_access pc _) as [hit ic]. simpl in Hi. cbv zeta. apply (ok_set_icache _ _ _ _ ic) in Hc; [|done].
  set (c1 := { c with c6_icache := ic }) in *. clearbody c1.
  destruct (negb hit).
  - apply ok_no_fi, ok_bump, ok_bump, ok_set_ctl; [apply ctl_stall_pcgen_ok, Hc|apply Hc|by apply ok_set_icache_miss].
  - match goal with |- okf (if _ then { set_fi ?x _ with c6_ctl := _ } else _) =>
      apply (ok_set_fi x) in Hc; [|done]; set (c2 := set_fi x c1) in *; clearbody c2 end.
    destruct (_ && _); [|done]. apply ok_set_ctl; [|apply Hc|done].
    apply ctl_next_pc_ok; [apply wrap_fits; lia|apply Hc].
Qed.

Lemma C6_Fetch_stage_ok c : okf c -> post okf (C6_Fetch_stage c).
Proof.
  intros Hc. unfold C6_Fetch_stage. cbv zeta. rewrite (ok_reg _ _ _ _ _ Hc).
  set (pc := pf_pc (c6_pf R)). assert (fits 64 pc) as Hp by apply HR.
  destruct (c6_flush _); [by apply ok_no_fi, ok_set_icache_miss|].
  destruct (_ <=? _)%nat; [apply ok_set_ctl; [destruct (ok_ctl _ _ _ _ _ Hc); by split|apply Hc|done]|].
  destruct (c6_stall_fetch _); [done|]. destruct (negb _); [by apply ok_no_fi|].
  destruct (0 <? icache_miss_remaining c).
  { apply ok_no_fi, ok_bump, ok_set_ctl; [apply ctl_stall_pcgen_ok, Hc|apply Hc|by apply ok_set_icache_miss]. }
  pose proof (c6_translate_ok _ _ _ _ pc FETCH c Hc) as Htr.
  destruct (c6_translate pc FETCH c) as [[tr c1]|]; [|done]. destruct Htr as [Hc1 Hf]. simpl in Hc1, Hf.
  destruct (r_fault tr); [by apply ok_no_fi, c6_exception_ok|].
  destruct (0 <? r_stall_cycles tr).
  { apply ok_no_fi, ok_bump, ok_set_ctl; [apply ctl_stall_pcgen_ok, Hc1|apply Hc1|by apply ok_set_icache_miss]. }
  destruct (negb _); [by apply ok_no_fi, c6_exception_ok; [fits_const|..]|].
  pose proof (C6_fetch_instruction_ok (r_paddr tr) c1 Hc1) as Hi.
  destruct (C6_fetch_instruction _ c1) as [[[w|] c2]|]; [| |done]; destruct Hi as [Hc2 Hw]; simpl in Hc2, Hw.
  - by apply c6_deliver_ok.
  - apply ok_set_fi; [apply (ok_next _ _ _ _ _ Hc2)|done].
Qed.

Lemma C6_PCGen_stage_ok c : okf c -> okf (C6_PCGen_stage c).
Proof.
  intros Hc. unfold C6_PCGen_stage. cbv zeta.
  pose proof (ok_ctl _ _ _ _ _ Hc) as [Hn Hr Hs Ht]. destruct (c6_flush (c6_ctl c)) eqn:Ef.
  { apply (ok_no_ie E), ok_no_ii, ok_no_fi, ok_no_pf, ok_set_ctl; [by split|apply Hc|].
    apply ok_set_queue; [|done]. split; [simpl; lia|by constructor]. }
  assert (trap_pending (c6_ctl c) = false) as Et by (destruct (trap_pending _); [by specialize (Ht eq_refl)|done]).
  destruct (wfi_stall _).
  { apply ok_no_pf, ok_set_ctl; [|apply Hc|done]. split; simpl; try done. by rewrite Et. }
  destruct (_ <=? _)%nat; [apply ok_set_ctl; [apply ctl_stall_pcgen_ok, Hc|apply Hc|done]|].
  destruct (c6_stall_pcgen _); [done|].
  destruct (taken_redirect_bubble _).
  { apply ok_bump, ok_no_pf, ok_set_ctl; [|apply Hc|done]. split; simpl; try done. by rewrite Et. }
  destruct (c6_predict_ok (c6_next_pc (c6_ctl c)) (c6_pred c)) as [Hpt Hpp]; [apply Hc|].
  destruct (c6_predict _ _) as [[taken target] p]. simpl in Hpt, Hpp.
  apply ok_set_pf; [done|].
  apply ok_set_ctl; [|destruct taken; apply Hc|by apply ok_set_pred].
  destruct taken; split; simpl; try done; try (by rewrite Et). apply wrap_fits. lia.
Qed.
End front.

(** ** The commit stage *)

Section commit.
Context (R : C6_latches) (E : C6_Issue_EX_Latch) (W : Prop) (t : nat).
#[local] Abbreviation okc := (c6_ok R E W t).

Lemma c6_drain_port_ok c : okc c -> post okc (c6_drain_port c).
Proof.
  intros Hc. unfold c6_drain_port. cbv zeta.
  assert (okc (if 0 <? store_drain_remaining c then { c with store_drain_remaining := store_drain_remaining c - 1 } else c))
    as Hc1 by (case_match; [by apply ok_set_drain|done]).
  match type of Hc1 with c6_ok _ _ _ _ ?x => set (c1 := x) in *; clearbody c1 end.
  destruct (_ =? 0); [|done]. pose proof (c6_drain_one_ok _ _ _ _ c1 Hc1) as Hd.
  destruct (c6_drain_one c1) as [[b c2]|]; [|done]. destruct Hd as [Hd _]. simpl in Hd |- *.
  destruct b; [by apply ok_set_drain|done].
Qed.

Lemma commit_reg_ok e idx c : reg_ok (sb_rd e) -> okc c -> okc (commit_reg e idx c).
Proof.
  intros Hd Hc. unfold commit_reg. cbv zeta. destruct (_ =? 0); [done|].
  pose proof (ok_sb _ _ _ _ _ Hc) as Hs. pose proof (sk_wf _ Hs) as Hwf.
  destruct (sb_writes_to_fp_reg e).
  - destruct (clobber_commit_ok idx (sb_rd e) _ (sk_fp _ Hs)) as [H3 H4].
    apply ok_set_sb; [apply sb_set_fp_ok; [rewrite H4; apply Hwf|done|done]|apply Hc|done].
  - destruct (clobber_commit_ok idx (sb_rd e) _ (sk_rd _ Hs)) as [H3 H4].
    apply ok_set_sb; [apply sb_set_rd_ok; [rewrite H4; apply Hwf|done|done]|apply Hc|by apply c6_set_reg_ok].
Qed.

Lemma c6_commit_port_ok c : okc c -> okc (c6_commit_port c).2.
Proof.
  intros Hc. unfold c6_commit_port. cbv zeta. destruct (negb _); [done|]. destruct (_ && _); [done|]. cbn [snd].
  pose proof (sb_entry_fine _ _ (ok_sb _ _ _ _ _ Hc) (sb_head_lt _ (ok_sb _ _ _ _ _ Hc))) as (_ & _ & He).
  fold (sb_get_head (c6_sb c)) in He. set (e := sb_get_head (c6_sb c)) in *.
  assert (okc (if sb_is_store e then c6_commit_store c else c)) as Hc1
    by (case_match; [by apply c6_commit_store_ok|done]).
  apply c6_retire_ok. unfold commit_counts. cbv zeta. apply ok_bump, ok_bump.
  match goal with |- context [commit_reg e ?i ?x] =>
    apply (commit_reg_ok e i) in Hc1; [|done]; set (c2 := commit_reg e i x) in *; clearbody c2 end.
  apply ok_set_pc, ok_set_commits, ok_set_ctl; [|apply Hc1|done].
  destruct (ok_ctl _ _ _ _ _ Hc1). by split.
Qed.

Lemma C6_Commit_stage_ok c :
  okc c -> post okc (C6_Commit_stage c).
Proof.
  intros Hc. unfold C6_Commit_stage. eapply post_bind; [by apply c6_drain_port_ok|]. intros c1 Hc1.
  assert (okc (c6_commit_ports c1)) as Hc2.
  { unfold c6_commit_ports. pose proof (c6_commit_port_ok c1 Hc1) as Hp.
    destruct (c6_commit_port c1) as [[|] c2]; [by apply c6_commit_port_ok|done]. }
  simpl. case_match; [by apply ok_bump|done].
Qed.
End commit.

(** The stage does not flush. *)
Lemma C6_Commit_stage_flush (c : cpu) :
  match C6_Commit_stage c with Some c' => c6_flush (c6_ctl c') = c6_flush (c6_ctl c) | None => True end.
Proof.
  assert (forall c0, match c6_drain_port c0 with Some c' => c6_ctl c' = c6_ctl c0 | None => True end) as Hd.
  { intros c0. unfold c6_drain_port. cbv zeta.
    set (c1 := if 0 <? store_drain_remaining c0 then _ else c0).
    assert (c6_ctl c1 = c6_ctl c0) as <- by (subst c1; by case_match). clearbody c1.
    destruct (_ =? 0); [|done]. unfold c6_drain_one.
    destruct (drain_one _ _) as [[[[a v] n]|] b]; [|done].
    match goal with |- context [c6_write a v n ?x] =>
      pose proof (c6_write_ctl a v n x) as Hw; destruct (c6_write a v n x) as [c'|] end; [exact Hw|done]. }
  assert (forall c0 : cpu, c6_flush (c6_ctl (c6_commit_port c0).2) = c6_flush (c6_ctl c0)) as Hp.
  { intros c0. unfold c6_commit_port, commit_reg. cbv zeta. destruct (negb _); [done|].
    destruct (_ && _); [done|]. cbn [snd]. destruct (sb_is_store _); by repeat case_match. }
  unfold C6_Commit_stage. specialize (Hd c). destruct (c6_drain_port c) as [c1|]; [|done].
  assert (c6_flush (c6_ctl (c6_commit_ports c1)) = c6_flush (c6_ctl c1)) as Hq.
  { unfold c6_commit_ports. pose proof (Hp c1) as H3. destruct (c6_commit_port c1) as [[|] c2]; [|done].
    rewrite Hp. exact H3. }
  rewrite <-Hd, <-Hq. by case_match.
Qed.

(** ** Interrupts, and the clock edge *)

Lemma oldest_pc_ok R E W t c : latches_ok R -> c6_ok R E W t c -> fits 64 (oldest_pc c).
Proof.
  intros HR Hc. unfold oldest_pc. cbv zeta. rewrite (ok_reg _ _ _ _ _ Hc).
  pose proof (sb_entry_fine _ _ (ok_sb _ _ _ _ _ Hc) (sb_head_lt _ (ok_sb _ _ _ _ _ Hc))) as (He & _).
  destruct (negb _); [exact He|]. repeat (case_match; [apply HR|]). apply Hc.
Qed.

Lemma C6_process_IRQ_ok R E t c :
  latches_ok R -> c6_ok R E True t c -> newest (c6_ie R) t ->
  let c' := C6_process_IRQ c in
  let t' := sb_tail (c6_sb c') in
  c6_ok R E True t' c' /\ (c6_flush (c6_ctl c') = false -> newest (c6_ie R) t').
Proof.
  intros HR Hc Hn. unfold C6_process_IRQ. cbv zeta. destruct (Z.ltb_spec (pending_interrupt (c6_csr c)) 0) as [|Hp].
  { split; [by eapply ok_tail_eq|]. by rewrite (ok_tail _ _ _ _ _ Hc). }
  set (epc := match pending_priv_switch _ with Some e => e | None => _ end).
  assert (fits 64 epc) as He.
  { subst epc. pose proof (ck_priv _ (ok_ctl _ _ _ _ _ Hc)) as Hs.
    destruct (pending_priv_switch _); [done|by eapply oldest_pc_ok]. }
  pose proof (c6_flush_all_ok _ _ _ _ _ Hc) as Hf.
  apply (set_units_ok _ _ _ _ (fun u => { u with load_hit_fu := load_hit_fu (c6_units c) })) in Hf.
  2: { intros u []. split; simpl; try done. apply (ok_units _ _ _ _ _ Hc). }
  set (c1 := set_units _ _) in *. clearbody c1. clearbody epc.
  destruct (take_interrupt_ok (u64 (pending_interrupt (c6_csr c))) epc (c6_csr c1)) as [Htv Hcsr];
    [apply wrap_fits; lia|done|apply Hf|].
  destruct (take_interrupt _ epc _) as [tvec csr]. simpl in Htv, Hcsr. split; [|done].
  eapply ok_tail_eq. destruct Hf. split; try assumption; try done. destruct ok_ctl0. by split.
Qed.

(** ** The invariant at the end of a cycle *)

(** Every component is well formed ([c6_ok]); the instruction that waits in the latch of the
    execution stage, or in the one before it, is the newest of the scoreboard unless the cycle
    flushed. *)
Record c6_wf (c : cpu) : Prop := {
  wf_latches : latches_ok (c6_reg c);
  wf_state : c6_ok (c6_reg c) (c6_ie (c6_next c))
               (prev_cycle_flush (c6_ctl c) = false -> newest (c6_ie (c6_reg c)) (sb_tail (c6_sb c)))
               (sb_tail (c6_sb c)) c;
  wf_issued : prev_cycle_flush (c6_ctl c) = false -> newest (c6_ie (c6_next c)) (sb_tail (c6_sb c))
}.

Lemma wfi_wake_wf l c : c6_wf c -> c6_wf (wfi_wake l c).
Proof.
  intros [Hl Hc Hi]. unfold wfi_wake. cbv zeta. destruct (_ && _); [|done].
  split; [done| |done]. apply ok_set_ctl; [|apply Hc|done]. destruct (ok_ctl _ _ _ _ _ Hc). by split.
Qed.

Lemma cycle_start_wf c :
  c6_wf c -> c6_wf { c with commit_count_this_cycle := 0;
                            c6_ctl := { c6_ctl c with pending_csr_write := None } }.
Proof.
  intros [Hl Hc Hi]. split; [done| |done]. apply ok_set_ctl; [|apply Hc|by apply ok_set_commits].
  destruct (ok_ctl _ _ _ _ _ Hc). by split.
Qed.

Lemma queue_push_ok q fi : fi_ok fi -> queue_ok q ->
  queue_ok (if f6_valid fi && (length q <? FETCH_QUEUE_CAPACITY)%nat then q ++ [fq_of fi] else q).
Proof.
  intros Hf [Hl Hq]. destruct (f6_valid fi); [|done]. simpl. destruct (Nat.ltb_spec (length q) FETCH_QUEUE_CAPACITY); [|done].
  split; [rewrite length_app; simpl; lia|]. apply Forall_app. split; [done|]. by constructor.
Qed.

Lemma queue_tail_ok q : queue_ok q -> queue_ok (tail q).
Proof. intros [Hl Hq]. destruct q; [done|]. inversion Hq; subst. split; [simpl in *; lia|done]. Qed.

(** What follows the clock edge: the latches the cycle reads are in range, and what the
    execution stage will see is the newest instruction. *)
Lemma c6_latch_ok c :
  c6_wf c ->
  let c' := c6_latch c in
  let t := sb_tail (c6_sb c) in
  latches_ok (c6_reg c') /\ c6_ok (c6_reg c') (c6_ie (c6_next c')) True t c' /\ newest (c6_ie (c6_reg c')) t.
Proof.
  intros [HR Hc Hi]. pose proof (ok_next _ _ _ _ _ Hc) as HN. pose proof (ok_stall _ _ _ _ _ Hc) as Hst.
  unfold c6_latch. cbv zeta. destruct (prev_cycle_flush (c6_ctl c)) eqn:Ep.
  - split_and!; [|by destruct Hc|done]. destruct HR as [? [? ?] [] []], HN. by split; [|split..].
  - specialize (Hi eq_refl).
    pose proof (queue_push_ok (fetch_queue c) (c6_fi (c6_next c)) (lk_fi _ HN) (ok_queue _ _ _ _ _ Hc)) as Hq.
    set (q := if _ && _ then _ else fetch_queue c) in *. clearbody q.
    assert (fi_ok (match q with e :: _ => fi_of e | [] => { c6_fi (c6_reg c) with f6_valid := false } end)) as Hfi.
    { destruct Hq as [_ Hq]. destruct q as [|e q]; [apply HR|]. by inversion Hq. }
    split_and!.
    + split; simpl; [apply HN|destruct (c6_stall_issue _); [apply HR|exact Hfi]
                    |destruct (c6_stall_issue _); [apply HR|apply HN]|destruct (c6_stall_ex _); [apply HR|apply HN]].
    + destruct Hc. split; simpl; try done; [|destruct (c6_stall_issue _); [done|by apply queue_tail_ok]].
      by apply (latches_set_fi (c6_next c)); [apply HN|].
    + simpl. destruct (c6_stall_ex _); [by apply Hst|done].
Qed.

Lemma set_mip_line_ok b v csr : 0 <= b < 64 -> csr_ok csr -> csr_ok (set_mip_line b v csr).
Proof.
  intros Hb Hc. pose proof (cf_mip _ (proj2 Hc)) as Hm. apply set_mip_ok; [|done]. case_match; [|by apply fits_ldiff].
  apply fits_lor; [lia|done|]. rewrite Z.shiftl_1_l. split; [lia|]. apply Z.pow_lt_mono_r; lia.
Qed.

Lemma sync_mip_ok l csr : csr_ok csr -> csr_ok (sync_mip l csr).
Proof. intros Hc. by repeat (apply set_mip_line_ok; [lia|]). Qed.

Section cycle.
Context (fpu : Z -> Z -> Z -> Z -> Z -> hart S -> list Z -> fpu_answer S) (Hfpu : fpu_total fpu).

Lemma c6_cycle_end_wf R E t f c :
  latches_ok R -> c6_ok R E (f = false -> newest (c6_ie R) t) t c -> (f = false -> newest E t) ->
  c6_wf (c6_cycle_end f c).
Proof.
  intros HR Hc Hn. unfold c6_cycle_end. cbv zeta. apply (ok_bump _ _ _ _ st_cycles 1) in Hc.
  set (c0 := bump st_cycles 1 c) in *. clearbody c0.
  pose proof (tick_counters_ok (commit_count_this_cycle c0) _ (ok_csr _ _ _ _ _ Hc)) as Hk.
  apply (ok_set_csr _ _ _ _ _ c0 Hk) in Hc. clear Hk.
  set (c1 := { c0 with c6_csr := _ }) in *. clearbody c1. clear c0.
  pose proof (ok_reg _ _ _ _ _ Hc) as Er. pose proof (ok_tail _ _ _ _ _ Hc) as Et.
  assert (newest E t -> newest (c6_ie (c6_next c1)) t) as Hne.
  { intros Hx Hv. rewrite (ok_issued _ _ _ _ _ Hc Hv) in Hv |- *. by apply Hx. }
  destruct (C6_terminates f c1) eqn:Etm.
  - assert (f = false) as ->.
    { unfold C6_terminates in Etm. destruct f; [|done]. by rewrite andb_false_r in Etm. }
    split; simpl; rewrite ?Er, ?Et; [done| |auto].
    destruct Hc. split; try done. intros Hs _. by apply ok_stall0.
  - split; simpl; rewrite ?Er, ?Et; [done| |auto].
    destruct Hc. split; try done. destruct ok_ctl0. by split.
Qed.

Lemma c6_stages_wf R E t c :
  latches_ok R -> c6_ok R E True t c -> (c6_flush (c6_ctl c) = false -> newest (c6_ie R) t) ->
  post c6_wf (c6_stages fpu c).
Proof.
  intros HR Hc Hn. unfold c6_stages.
  pose proof (C6_Commit_stage_ok _ _ _ _ c Hc) as H3. pose proof (C6_Commit_stage_flush c) as Ef.
  destruct (C6_Commit_stage c) as [c1|]; [|done]. simpl in H3. rewrite <-Ef in Hn.
  pose proof (C6_EX_stage_ok fpu Hfpu R E True t c1 HR Hn H3) as H4.
  destruct (C6_EX_stage fpu c1) as [c2|]; [|done]. cbv zeta. set (f := c6_flush (c6_ctl c2)).
  pose proof (C6_Issue_stage_ok R HR E c2 H4) as H5. fold f in H5.
  destruct (C6_Issue_stage c2) as [c3|]; [|done]. destruct H5 as [H5 H6].
  apply (C6_ID_stage_ok R HR) in H5. pose proof (C6_Fetch_stage_ok R HR _ _ _ _ H5) as H7.
  destruct (C6_Fetch_stage (C6_ID_stage c3)) as [c4|]; [|done]. simpl in H7 |- *.
  apply C6_PCGen_stage_ok in H7. by eapply c6_cycle_end_wf.
Qed.

Lemma C6_cycle_wf before now c : c6_wf c -> post c6_wf (C6_cycle fpu before now c).
Proof.
  intros Hc. unfold C6_cycle. destruct (c6_stopped c); [done|]. cbv zeta.
  apply (wfi_wake_wf before), cycle_start_wf in Hc.
  match goal with |- context [c6_latch ?x] => set (c0 := x) in * end. clearbody c0.
  destruct (c6_latch_ok c0 Hc) as (HR & H3 & H4). set (c1 := c6_latch c0) in *.
  assert (c6_ok (c6_reg c1) (c6_ie (c6_next c1)) True (sb_tail (c6_sb c0)) { c1 with c6_csr := sync_mip now (c6_csr c1) }) as H5
    by (apply ok_set_csr; [apply sync_mip_ok, H3|done]).
  destruct (C6_process_IRQ_ok _ _ _ _ HR H5 H4) as [H6 H7]. by eapply c6_stages_wf.
Qed.

Lemma C6_cycles_wf lines before c : c6_wf c -> post c6_wf (C6_cycles fpu lines before c).
Proof.
  revert before c. induction lines as [|now lines IH]; intros before c Hc; [done|]. cbn [C6_cycles].
  eapply post_bind; [by apply C6_cycle_wf|]. intros c' Hc'. by apply IH.
Qed.
End cycle.

End safe.

(** ** From reset *)

Section reset.
Context {S : Type} `{TotalMem S}.
#[local] Abbreviation cpu := (C6_cpu S).

Lemma fits_zero : fits 64 0.
Proof. fits_const. Qed.

Lemma no_c6_latches_ok : latches_ok no_c6_latches.
Proof. pose proof fits_zero. split; simpl; [done|by split|..]; split; simpl; try done; unfold reg_ok; lia. Qed.

Lemma fu_idle_ok : fu_ok fu_idle.
Proof. split; [unfold reg_ok; simpl; lia|done]. Qed.

Lemma stb_new_ok : stb_ok (stb_new C6_SPEC C6_COMMIT).
Proof. destruct (stb_new_wf C6_SPEC C6_COMMIT); [unfold C6_SPEC; lia|unfold C6_COMMIT; lia|]. by split. Qed.

Lemma sb_new_ok : sb_ok (sb_new C6_SIZE).
Proof.
  pose proof fits_zero. split.
  - apply sb_new_wf. unfold C6_SIZE. lia.
  - apply Forall_replicate. split; [done|]. split; [done|]. unfold reg_ok; simpl; lia.
  - by apply Forall_replicate.
  - by apply Forall_replicate.
Qed.

Lemma set_policy_wf n k p x : cache_wf n k x -> cache_wf n k (set_policy p x).
Proof. by intros []. Qed.

Lemma CPU_C6_wf PC bht0 slots policy cfg (m : S) :
  fits 64 PC -> length bht0 = 128%nat -> (0 < slots)%nat -> dt_inv m ->
  c6_wf { CPU_C6 PC bht0 slots policy m with c6_cfg := cfg }.
Proof.
  intros HPC Hb Hs Hm. pose proof fits_zero as H0'. pose proof fu_idle_ok as Hfu. pose proof no_c6_latches_ok as Hl.
  split; [exact Hl| |done]. split; try done.
  - apply write_reg_wf; [|lia|fits_const]. apply write_reg_wf; [|lia|by vm_compute].
    destruct (Registers_wf 64 ltac:(lia) m); [by right|]. by split.
  - split; [done|]. exact (Forall_replicate (fits 64) 32 0 H0').
  - exact csr_new_ok.
  - apply (set_policy_wf 256 4), cache_new_wf; lia.
  - apply (set_policy_wf 256 8), cache_new_wf; lia.
  - split; [done|exact Hb|by apply (Forall_replicate _ 32)|]. split; [simpl; lia|by constructor].
  - exact sb_new_ok.
  - exact stb_new_ok.
  - split; try done; [split; [done|by apply (Forall_replicate _ FPU_SLOTS)]|].
    split; [simpl; by rewrite length_replicate|by apply (Forall_replicate _ slots)].
  - split; [simpl; lia|by constructor].
Qed.

(** The states of the core: a reset with any program in the memory, any start address, any
    contents of the history table, number of slots, replacement policy and latencies; a turn of
    [cycle_thread] with any interrupt lines; a call of [call_interrupt]. *)
Inductive c6_reachable (fpu : Z -> Z -> Z -> Z -> Z -> hart S -> list Z -> fpu_answer S) : cpu -> Prop :=
  | c6r_reset PC bht0 slots policy cfg m :
      fits 64 PC -> length bht0 = 128%nat -> (0 < slots)%nat -> dt_inv m ->
      c6_reachable fpu { CPU_C6 PC bht0 slots policy m with c6_cfg := cfg }
  | c6r_cycle before now c c' :
      c6_reachable fpu c -> C6_cycle fpu before now c = Some c' -> c6_reachable fpu c'
  | c6r_interrupt trans c : c6_reachable fpu c -> c6_reachable fpu (C6_call_interrupt trans c).1.

Lemma c6_reachable_wf fpu c : fpu_total fpu -> c6_reachable fpu c -> c6_wf c.
Proof.
  intros Hfpu. induction 1 as [|before now c c' _ IH Ec|trans c _ [Hl Hc Hi]].
  - by apply CPU_C6_wf.
  - pose proof (C6_cycle_wf fpu Hfpu before now c IH) as Hp. by rewrite Ec in Hp.
  - split; [done| |done]. by destruct Hc.
Qed.

(** C3: The six-stage RV64 core never fails behind a memory system that answers every access and
    never grants a direct pointer ([TotalMem]; the bus with its peripherals is one while the
    memory grants none, which it does only after a hex image without an extended linear address;
    with a pointer the theorem does not hold, see [c6_dmi_check_wraps]) and with a floating-point unit that
    answers ([c6_fpu_total] for the one of the repository).  Whatever program, interrupts and
    latencies drive it, every state that it reaches from reset is well
    formed: registers and CSRs are in range with x0 zero and legal CSR fields, the scoreboard and
    the two store queues are rings whose valid entries are their windows, every index that a latch,
    a unit or a clobber holds is inside of its array, at most four instructions wait in the fetch
    queue, a set of a cache holds no line twice.  From such a state every further cycle ends: no
    access outside of an array, no squash or drain that does not end, no error. *)
Theorem c6_never_fails fpu c before now :
  fpu_total fpu -> c6_reachable fpu c ->
  c6_wf c /\ exists c', C6_cycle fpu before now c = Some c' /\ c6_wf c'.
Proof.
  intros Hfpu Hc. pose proof (c6_reachable_wf fpu c Hfpu Hc) as Hwf. split; [done|].
  pose proof (C6_cycle_wf fpu Hfpu before now c Hwf) as Hp.
  destruct (C6_cycle fpu before now c) as [c'|]; [by exists c'|done].
Qed.

(** A consequence: the instruction that the execution stage finds in its latch is the newest of
    the scoreboard, so the squash of a misprediction never removes an entry. *)
Theorem c6_squash_is_empty fpu c :
  fpu_total fpu -> c6_reachable fpu c -> e6_valid (c6_ie (c6_reg (c6_latch c))) = true ->
  sb_flush_speculative C6_SIZE (e6_rob_index (c6_ie (c6_reg (c6_latch c)))) (c6_sb (c6_latch c)) =
    Some (c6_sb (c6_latch c)).
Proof.
  intros Hfpu Hc Hv. destruct (c6_latch_ok c (c6_reachable_wf fpu c Hfpu Hc)) as (_ & Hok & Hn).
  destruct (Hn Hv) as [Hi Ht]. apply flush_newest; [done|]. by rewrite (ok_tail _ _ _ _ _ Hok).
Qed.
End reset.

(** ** The floating-point unit *)

Section unit.
Context {S : Type} `{TotalMem S} `{HL : host_laws}.

Definition fp_mem_ok (r : fp_result S) : Prop :=
  match r with Some (_, _, h, _) => dt_inv (mem_intf h) | None => False end.

Lemma to_x_total latency rd v fe (h : hart S) fp : dt_inv (mem_intf h) -> fp_mem_ok (to_x 64 latency rd v fe h fp).
Proof. intros Hm. unfold to_x, setValue. by case_match. Qed.

Lemma of_mem_total {A} (P : A -> Prop) latency (op : S -> option A * S) k (h : hart S) :
  answers P (op (mem_intf h)) -> fp_mem_ok (of_mem latency (lift_mem op) k h).
Proof. intros [Hr Hs]. unfold of_mem, lift_mem. by destruct (op (mem_intf h)) as [[a|] s]. Qed.

Lemma fpu_execute_total w v1 v2 rd pa (h : hart S) fp :
  dt_inv (mem_intf h) -> match fpu_execute 64 w v1 v2 rd pa h fp with Some r => fp_mem_ok r | None => True end.
Proof.
  intros Hm. unfold fpu_execute. case_bool_decide; simpl.
  - case_bool_decide; [done|]. simpl. destruct (d_decode w); cbn [d_execute]; try exact Hm;
      try (by apply to_x_total); [by eapply of_mem_total, readDataMem64_total|by eapply of_mem_total, writeDataMem64_total].
  - destruct (f_decode w); cbn [f_execute]; try exact Hm;
      try (by apply to_x_total); [by eapply of_mem_total, readDataMem_total|by eapply of_mem_total, writeDataMem_total].
Qed.

(** The unit of the code is one that the core can rely on. *)
Theorem c6_fpu_total : fpu_total (c6_fpu (S := S)).
Proof.
  intros w v1 v2 rd pa h fp Hw Hv Hd Hh Hm Hfp. unfold c6_fpu.
  pose proof (fpu_execute_total w v1 v2 rd pa h fp Hm) as Ht.
  destruct (fpu_execute 64 w v1 v2 rd pa h fp) as [[[[[lat fl] h'] fp']|]|] eqn:Ex; [|done..].
  destruct (fpu_execute_ok w v1 v2 rd pa h fp lat fl h' fp') as (? & ? & _); try done; [apply Hw|apply Hd].
Qed.
End unit.

(** ** Witnesses *)

Section instances.
#[local] Existing Instances canonical_host canonical_host_laws.

(** The core behind the bus, with the CLINT and the system-call interface. *)
Definition c6_soc : Type := bus memory CLINT memory memory SyscallIf memory memory.
Definition soc_new (l : list Z) : c6_soc :=
  mkBus { memory0 with mem := place_words 0x100 l (mem memory0) } None (Some CLINT_new) None None
    (Some (mkSyscallIf 0 0 [])) memory0 memory0 None.
Definition soc_boot (l : list Z) : C6_cpu c6_soc :=
  { CPU_C6 0x100 (replicate 128 0) 2 LFSR (soc_new l) with c6_cfg := c6_default }.

Lemma place_words_ok a l m : mem_ok m -> mem_ok (place_words a l m).
Proof.
  revert a m. induction l as [|w l IH]; intros a m Hm; [done|]. simpl. by apply store_ok, IH || apply IH, store_ok.
Qed.

Lemma soc_new_ok l : dt_inv (soc_new l).
Proof.
  split; simpl; try done; [apply place_words_ok|..]; intros x; simpl; fits_const.
Qed.

Lemma soc_reachable l : c6_reachable c6_fpu (soc_boot l).
Proof. apply c6r_reset; [fits_const|done|lia|apply soc_new_ok]. Qed.

Lemma c6_cycles_reachable fpu lines before c c' :
  c6_reachable fpu c -> C6_cycles fpu lines before c = Some c' -> c6_reachable (S := c6_soc) fpu c'.
Proof.
  revert before c. induction lines as [|now lines IH]; intros before c Hc Ec; [by injection Ec as <-|].
  cbn [C6_cycles] in Ec. destruct (C6_cycle fpu before now c) as [c1|] eqn:E1; [|done].
  eapply IH; [|exact Ec]. by eapply c6r_cycle.
Qed.

Lemma c6_never_fails_witness :
  exists c', C6_cycle c6_fpu quiet (mkIrq true true true) (soc_boot [0; self]) = Some c' /\ c6_wf c'.
Proof.
  apply (c6_never_fails c6_fpu (soc_boot [0; self]) quiet (mkIrq true true true)
           c6_fpu_total (soc_reachable [0; self])).
Defined.

(** A loop that is entered by a jump; after twenty cycles there is an instruction in the latch. *)
Lemma c6_squash_is_empty_witness :
  exists c, C6_cycles c6_fpu (replicate 20 quiet) quiet (soc_boot [w_addi 5 5 1; w_jal (-4)]) = Some c /\
    e6_valid (c6_ie (c6_reg (c6_latch c))) = true /\
    sb_flush_speculative C6_SIZE (e6_rob_index (c6_ie (c6_reg (c6_latch c)))) (c6_sb (c6_latch c)) =
      Some (c6_sb (c6_latch c)).
Proof.
  destruct (C6_cycles c6_fpu (replicate 20 quiet) quiet (soc_boot [w_addi 5 5 1; w_jal (-4)])) as [c|] eqn:Ec.
  - exists c. split; [done|].
    assert (e6_valid (c6_ie (c6_reg (c6_latch c))) = true) as Hv.
    { assert (e6_valid <$> (c6_ie <$> (c6_reg <$> (c6_latch <$>
        C6_cycles c6_fpu (replicate 20 quiet) quiet (soc_boot [w_addi 5 5 1; w_jal (-4)])))) = Some true) as Hx
        by (by vm_compute). rewrite Ec in Hx. by injection Hx. }
    split; [done|]. apply (c6_squash_is_empty c6_fpu c c6_fpu_total); [|done].
    eapply c6_cycles_reachable; [apply soc_reachable|exact Ec].
  - exfalso. assert (is_Some (c6_stopped <$>
      C6_cycles c6_fpu (replicate 20 quiet) quiet (soc_boot [w_addi 5 5 1; w_jal (-4)]))) as [b Hx]
      by (eexists; by vm_compute). by rewrite Ec in Hx.
Defined.

(** The theorem needs the memory system not to grant direct access: the check of the granted
    window wraps around, so a jump to the last bytes of the address space fetches outside of
    the memory's array. *)
Example c6_dmi_check_wraps :
  (fun g => bool_decide (is_Some (C6_cycles no_fpu (replicate 40 quiet) quiet
     (CPU_C6 0x100 (replicate 128 0) 2 LFSR
        { memory0 with dmi_allowed := g;
                       mem := place_words 0x100 [w_addi 5 0 (-2); encode (mkAsm OP_JALR 0 5 0 0)] (mem memory0) }))))
    <$> [false; true] = [true; false].
Proof. by vm_compute. Qed.
End instances.
